(* ===== verification/_CoqProject ===== *)
-Q . S2P
Prelude.v
GoRuntime.v
GoNet.v
Messages.v
Metrics.v
Config.v
JobBuffer.v
BatchSpec.v
Consumer.v
Router.v
Delivery.v
RouterSpec.v
RouterConc.v
RouterRaces.v
Leadership.v
Discovery.v
Transport.v
Agent.v
Auth.v
Api.v
App.v
System.v
Wire.v
Acks.v
