(* ===== verification/Prelude.v ===== *)
(** * CueProxy: a verification development

    CueProxy (Go, src/) stands between the clients of a job queue and the Cue
    cluster. Producers submit jobs over HTTP, consumers receive them over
    WebSocket; a proxy keeps QUIC connections to the nodes of the cluster,
    follows its leader, batches what it sends and splits what it receives.

    ** The parts and their files

    - [Prelude] (this file): outcomes of Go code ([exec]: returns, blocks for
      ever, panics), Go's error results ([result]), machines given by a partial
      step function ([run], [run_invariant], [run_preorder]), tactics, the hint
      database [cue] and list lemmas.
    - [GoRuntime], [GoNet]: the parts of the language and its library the code
      uses: integers with their wrap-around, buffered channels and the heap of
      shared channels, strings, FNV-1a, little-endian words, net.ParseIP,
      IP.Equal, JoinHostPort.
    - [Messages]: internal/model/model.go and pkg/model.go.
    - [Config]: internal/config/config.go and the merge with the flags in
      cmd/proxy/main.go.
    - [JobBuffer]: internal/cluster/job_buffer.go. [buffer], [drain] and
      [dispatchResponse] are the handlers, [jb_step] the goroutine [Run] with
      its environment. [BatchSpec]: what a buffer promises producers and leader,
      as a machine on requests and batches, and the refinement.
    - [Consumer]: internal/api/consumer.go, the flow-control window.
    - [Metrics]: internal/metrics.go: the counters of the agent and of the API
      and how the two process-wide instances are made.
    - [Router]: internal/api/router.go; [router_step] interleaves the calls and
      the rounds of the dispatcher goroutines. Module [DrainRace] is the drain
      loop by itself.
    - [Delivery]: what a dispatcher's round and batch do to a queue and to a
      consumer's channel.
    - [RouterSpec]: the router's contract as one map of topics, the abstraction
      function [view], and the refinement.
    - [RouterConc]: the router statement by statement, [conc_step]: a send into a
      queue happens outside the lock, the drain under it, a dispatcher reads its
      queue, checks its context and sends job by job, a session writes its
      "accepted" and closes its consumer, the write loops run; with a log of what
      was accepted and handed over. [RouterRaces]: two executions of these
      statements that calls alone do not show.
    - [Leadership]: handleHeartbeat, evaluateLeadership and GetStatus of
      internal/cluster/process.go; [leadership_step] is one heartbeat.
    - [Discovery]: peers and identities (internal/cluster/model.go), the
      discovery file (helper.go), the HTTP source (discovery.go).
    - [Transport]: frames, sending with retries, the dial and its checks
      (internal/cluster/quic.go, tls.go, error.go), and the task that keeps the
      connections in step with discovery (tasks.go).
    - [Agent]: the other tasks of the cluster agent (tasks.go, process.go,
      agent.go) and the routing of one incoming message (quic.go). It reaches
      the leader through the class [LeaderLink], which [Transport] implements
      ([transport_link]).
    - [Auth], [Api]: internal/api/auth.go and api.go. A handler is split at the
      point where it waits for the cluster: [AddJobHandler_begin] ends in a
      reply or in the request it queued, [AddJobHandler_end] goes from what
      ended the wait to the reply; [api_step] interleaves sessions and
      submissions.
    - [System]: the path of a submission as one machine, [sys_step]: handlers that
      queue requests, the two tasks that send to the leader (split where they
      wait for it), the goroutines of the job buffers and the leader's answers,
      interleaved in any order and with any result of a send. [Wire]: that
      machine joined to the API by the channel and the router they share, with
      the flush of the Done batch and the heartbeat. [Acks]: where, in it, the
      acknowledgements are.
    - [App]: internal/app/run.go with Start and Stop of the API, Run and Close of
      the agent: the construction with its error paths ([RunProxy_start]) and
      the process from there to its exit ([app_step]), with the requests the
      server answers, the lock of the connections and the shutdown's timeout.

    A submission travels Api -> Agent.receive_request -> JobBuffer (stored,
    drained) -> Agent.handleSendJobs -> Transport; the answer comes back through
    Transport.readRequest -> Agent.handleResponse -> JobBuffer.dispatchResponse
    -> the producer's channel. A job for a consumer travels Transport ->
    Agent.route_message -> Router.EnqueueJobs -> the dispatcher -> Consumer; its
    acknowledgement Api.ws_message -> Consumer.UpdateDeliveryAck and
    Agent.handleDoneRequest -> flushTopic -> Transport.

    ** Conventions

    The state of a struct is a record, a method a function on it, a goroutine a
    partial step function over events, which are the branches of its select and
    what its environment does. Channels and consumers that several parts hold
    are references into a heap. Integers are [Z], wrapped where the source's
    type can overflow. A clock reading, the order of a range over a map, the
    outcome of an I/O call are arguments. Third-party code (viper, QUIC,
    msgpack, JSON, YAML, fsnotify, websocket) is a parameter; a theorem that
    relies on its documented behaviour has it as a named hypothesis
    ([dial_runs_callback]). The tables of package unicode are a parameter of
    the string functions, which are exact on ASCII.

    ** What the theorems show

    - Batching: every run of a buffer is, event by event, a run of its contract,
      and in it every request submitted is on its way, in one batch that has no
      answer yet, or answered once, as the first answer to its own batch promises
      for its own jobs (attribution goes by hash: where two ids of an answer and a
      request collide this is not claimed, but a failed job is never reported as
      added); jobs are neither lost nor duplicated between the channels, the store and the
      batches, the counters are exact, a tick empties the store.
    - End to end: in every run, a success told to a producer comes from an answer
      of the cluster to the one batch that holds all its jobs and names none of
      them as failed; an idle path carries a request to the leader and its
      answer, or the failure of the send, back. Every request sent to the leader
      has the payload its type announces, a topic and something to do, and an
      authorised client asked for it. Every acknowledgement a session queued is
      on its way, delivered once, or lost by a failed flush of its topic that
      overlapped another Done.
    - Routing and dispatch: the four maps of the router agree in every
      reachable state, each topic has exactly one dispatcher on its own queue;
      jobs are delivered first in first out, expired ones dropped, and no
      consumer ever has more than its limit of deliveries outstanding; the
      heartbeat reports the capacity, or zero under pressure.
    - Deliveries: in every run, at the grain of single statements, the messages of
      a queue are, in order and never twice, deliveries of jobs that left it, and
      a connection gets part of what its consumer was handed, in order: these
      deliveries and the session's one "accepted". The router refines its
      contract; a queue whose consumer acknowledges drains. Two interleavings go wrong: a drain that waits for
      ever with the lock held, and jobs accepted into a queue already retired.
    - Leadership: the leader changes only with a majority, in a term that never
      goes back; of two rival claims on the same reports of voters at most one is
      accepted; the heartbeat table is exact. Availability is not restored by
      agreement on the leader in place, which is proved as the code has it.
    - Transport: frames read back, truncated ones refused; sending makes three
      attempts at most and writes at most one frame; a connection is used only
      after chain, identity and handshake were checked; a tick leaves
      connections to known nodes only.
    - Agent: where the answer to a batch goes, or the error of its send, and when
      it is dropped; a batch of Done ids is conserved by the flush except when it
      fails and overlaps an arrival.
    - Start and shutdown: RunProxy either has everything running or has closed
      what it opened; at the end the connections are closed, after the call of
      the server's Shutdown returned and the context was cancelled. The shutdown terminates: its two
      waits, for the requests under way and for the lock of the connections, end
      with the timeout and with the holder's release. The process may exit with
      Done ids unsent.
    - Edges: access control, the reload of tokens, validation of peers and
      configuration are characterised exactly; the API's consumers and the
      router's are the same.

    Behaviours that look unintended are theorems about the definitions as the
    code has them, next to the properties they limit.

    ** Bounds

    No recursion needs invented fuel: loops are structural on their input, on
    the attempts left (three) or on the rounds left (eight). [ipv6_loop] is the
    exception: every round consumes a byte, so the length of the input is
    enough. Request identifiers are uint32 and wrap; window theorems assume
    delivery numbers below 2^61.

    ** Not modelled

    - Logging; the usage text main prints.
    - Encodings: msgpack, JSON and YAML are parameters, with their errors.
    - The inside of net/http, quic-go, gorilla/websocket, viper, fsnotify and
      the Prometheus registry, of which the code sees results only. Accepting a
      stream is a step; the bytes of a stream are given.
    - The debounce timer of the file watcher of auth.go; the reload happens
      when the event is handled.
    - Two answers of the leader with the same identifier handled at the same
      time: [handleResponse] is one step, where the code takes its locks one
      after the other. The sections of different identifiers touch different
      entries; of two equal ones both may be offered to the buffer, which ignores
      the second because its table no longer has the identifier
      ([dispatchResponse]).
    - A connection that turns busy while Shutdown closes the idle ones counts as
      busy before.
    - Data races. Each step sees consistent memory, also where the code reads
      without a lock what another goroutine writes: sendConns and recvConns in
      the sync task, the queue a dispatcher looks up, the pressure that is
      written under a read lock.
    - The helpers and tests of internal/test. *)

From stdpp Require Export base tactics option list gmap strings fin_maps numbers relations.
From stdpp Require Export pretty.
From Stdlib Require Export ZArith Lia.

(** ** Outcomes of a piece of Go code

    A Go statement sequence either runs to its end, waits forever on a channel
    or a lock (as far as the goroutine itself is concerned), or panics. *)
Inductive panic :=
  | NilDereference
  | IndexOutOfRange
  | MakeSliceRange
  | TypeAssertion
  | Raised (msg : string).

Inductive exec (A : Type) :=
  | Returns (a : A)
  | Blocks
  | Panics (p : panic).
Arguments Returns {A} a.
Arguments Blocks {A}.
Arguments Panics {A} p.

#[export] Instance exec_ret : MRet exec := fun A a => Returns a.
#[export] Instance exec_bind : MBind exec := fun A B f m =>
  match m with
  | Returns a => f a
  | Blocks => Blocks
  | Panics p => Panics p
  end.

#[export] Instance exec_fmap : FMap exec := fun A B f m =>
  match m with
  | Returns a => Returns (f a)
  | Blocks => Blocks
  | Panics p => Panics p
  end.

(** Dereferencing a pointer that may be nil. *)
Definition deref {A} (p : option A) : exec A :=
  match p with
  | Some a => Returns a
  | None => Panics NilDereference
  end.

(** A Go function with a trailing [error] result. *)
Inductive result (E A : Type) :=
  | Ok (a : A)
  | Err (e : E).
Arguments Ok {E A} a.
Arguments Err {E A} e.

#[export] Instance result_ret E : MRet (result E) := fun A a => Ok a.
#[export] Instance result_bind E : MBind (result E) := fun A B f m =>
  match m with
  | Ok a => f a
  | Err e => Err e
  end.

Definition is_ok {E A} (r : result E A) : bool :=
  match r with Ok _ => true | Err _ => false end.

#[export] Instance panic_eq_dec : EqDecision panic.
Proof. solve_decision. Defined.

Lemma exec_bind_returns {A B} (m : exec A) (f : A → exec B) b :
  m ≫= f = Returns b ↔ ∃ a, m = Returns a ∧ f a = Returns b.
Proof. destruct m; naive_solver. Qed.

Lemma exec_fmap_returns {A B} (f : A → B) (m : exec A) b :
  f <$> m = Returns b ↔ ∃ a, m = Returns a ∧ b = f a.
Proof. destruct m; cbn; naive_solver. Qed.

Lemma result_bind_ok {E A B} (m : result E A) (f : A → result E B) b :
  m ≫= f = Ok b ↔ ∃ a, m = Ok a ∧ f a = Ok b.
Proof. destruct m; naive_solver. Qed.

Lemma deref_returns {A} (p : option A) a : deref p = Returns a ↔ p = Some a.
Proof. destruct p; naive_solver. Qed.

(** ** Running a machine given by a partial step function

    [step l s] is the state after the event [l], [None] when [l] is not
    enabled in [s]. *)
Section Machine.
Context {L S : Type} (step : L → S → option S).

Fixpoint run (ls : list L) (s : S) : option S :=
  match ls with
  | [] => Some s
  | l :: ls' => s' ← step l s; run ls' s'
  end.

Definition steps_to (s s' : S) : Prop := ∃ l, step l s = Some s'.

Lemma run_cons l ls s : run (l :: ls) s = step l s ≫= run ls.
Proof. done. Qed.

Lemma run_app ls1 ls2 s : run (ls1 ++ ls2) s = run ls1 s ≫= run ls2.
Proof.
  revert s. induction ls1 as [|l ls1 IH]; intros s; [done|]. cbn.
  destruct (step l s); cbn; [apply IH|done].
Qed.

Lemma run_rtc ls s s' : run ls s = Some s' → rtc steps_to s s'.
Proof.
  revert s. induction ls as [|l ls IH]; cbn; intros s Hr; [by simplify_eq|].
  destruct (step l s) as [s1|] eqn:Hs; cbn in Hr; [|done].
  eapply rtc_l; [by exists l|by apply IH].
Qed.

Lemma rtc_run s s' : rtc steps_to s s' → ∃ ls, run ls s = Some s'.
Proof.
  induction 1 as [s|s1 s2 s3 [l Hl] _ [ls IH]]; [by exists []|].
  exists (l :: ls). cbn. by rewrite Hl.
Qed.

(** Rule induction: a property the initial state has and every enabled event
    preserves holds after every run. *)
Lemma run_invariant (P : S → Prop) :
  (∀ l s s', P s → step l s = Some s' → P s') →
  ∀ ls s s', P s → run ls s = Some s' → P s'.
Proof.
  intros Hstep ls. induction ls as [|l ls IH]; cbn; intros s s' Hs Hr.
  - by simplify_eq.
  - destruct (step l s) as [s1|] eqn:Hl; cbn in Hr; [|done]. eauto.
Qed.

(** A relation between the states of a step, reflexive and transitive, holds
    between the ends of every run. *)
Lemma run_preorder (R : S → S → Prop) `{!PreOrder R} :
  (∀ l s s', step l s = Some s' → R s s') →
  ∀ ls s s', run ls s = Some s' → R s s'.
Proof.
  intros Hstep ls. induction ls as [|l ls IH]; cbn; intros s s' Hr.
  - simplify_eq. reflexivity.
  - destruct (step l s) as [s1|] eqn:Hl; cbn in Hr; [|done].
    transitivity s1; eauto.
Qed.
End Machine.

(** ** Tactics *)

(** Split the [match]es of an equation about an executable definition. *)
Ltac inv_step H :=
  repeat (case_match; simplify_option_eq; try discriminate); simplify_eq.

(** Destruct every existential hypothesis and conjunction. *)
Ltac dest_hyps :=
  repeat match goal with
  | H : ∃ _, _ |- _ => destruct H
  | H : _ ∧ _ |- _ => destruct H
  end; simplify_eq.

(** Turn boolean integer and natural comparisons into propositions. *)
Ltac reflect_arith :=
  repeat match goal with
  | H : (_ <? _)%Z = true |- _ => apply Z.ltb_lt in H
  | H : (_ <? _)%Z = false |- _ => apply Z.ltb_ge in H
  | H : (_ <=? _)%Z = true |- _ => apply Z.leb_le in H
  | H : (_ <=? _)%Z = false |- _ => apply Z.leb_gt in H
  | H : (_ =? _)%Z = true |- _ => apply Z.eqb_eq in H
  | H : (_ =? _)%Z = false |- _ => apply Z.eqb_neq in H
  | H : (_ <? _)%nat = true |- _ => apply Nat.ltb_lt in H
  | H : (_ <? _)%nat = false |- _ => apply Nat.ltb_ge in H
  | H : (_ <=? _)%nat = true |- _ => apply Nat.leb_le in H
  | H : (_ <=? _)%nat = false |- _ => apply Nat.leb_gt in H
  | H : (_ =? _)%nat = true |- _ => apply Nat.eqb_eq in H
  | H : (_ =? _)%nat = false |- _ => apply Nat.eqb_neq in H
  end.

(** ** Generic list lemmas *)

Lemma list_filter_all {A} (P : A → Prop) `{∀ x, Decision (P x)} (l : list A) :
  Forall P l → filter P l = l.
Proof.
  induction 1 as [|x l Hx _ IH]; [done|]. by rewrite filter_cons_True, IH.
Qed.

Lemma list_filter_none {A} (P : A → Prop) `{∀ x, Decision (P x)} (l : list A) :
  Forall (λ x, ¬ P x) l → filter P l = [].
Proof.
  induction 1 as [|x l Hx _ IH]; [done|]. by rewrite filter_cons_False, IH.
Qed.

Lemma take_app_le' {A} (l k : list A) n : n ≤ length l → take n (l ++ k) = take n l.
Proof. intros. by rewrite take_app_le. Qed.

Lemma concat_fmap_snoc {A B} (f : A → list B) (l : list A) x :
  concat (f <$> l ++ [x]) = concat (f <$> l) ++ f x.
Proof. rewrite fmap_app, concat_app. cbn. by rewrite app_nil_r. Qed.

Lemma sum_list_app (l k : list nat) : sum_list (l ++ k) = (sum_list l + sum_list k)%nat.
Proof. induction l as [|x l IH]; cbn; lia. Qed.

Create HintDb cue.
Create Rewrite HintDb cue.
#[export] Hint Rewrite @run_app @sum_list_app @length_app @fmap_app @length_fmap : cue.
#[export] Hint Resolve list_filter_all list_filter_none : cue.
