(* ===== verification/GoRuntime.v ===== *)
(** * The parts of Go and its standard library the program uses

    Machine integers (wrap-around written out), bounded channels and the heap
    of response channels, the ASCII/Unicode split of [strings.ToLower] and
    [strings.TrimSpace], FNV-1a and little-endian words. *)

From S2P Require Import Prelude.
From Stdlib Require Import Ascii.

(** ** Machine integers *)
Module GoInt.
Local Open Scope Z_scope.

(** The value of a [w]-bit unsigned integer. *)
Definition uwrap (w z : Z) : Z := z mod 2 ^ w.

(** The value of a [w]-bit two's complement integer. *)
Definition swrap (w z : Z) : Z := (z + 2 ^ (w - 1)) mod 2 ^ w - 2 ^ (w - 1).

Definition uint32 (z : Z) : Z := uwrap 32 z.
Definition uint64 (z : Z) : Z := uwrap 64 z.
Definition int32 (z : Z) : Z := swrap 32 z.
Definition int64 (z : Z) : Z := swrap 64 z.

Definition max_int64 : Z := 2 ^ 63 - 1.
Definition is_int64 (z : Z) : Prop := - 2 ^ 63 <= z < 2 ^ 63.
Definition is_uint32 (z : Z) : Prop := 0 <= z < 2 ^ 32.

Lemma uwrap_range w z : 0 <= w → 0 <= uwrap w z < 2 ^ w.
Proof. intros. apply Z.mod_pos_bound. lia. Qed.

Lemma uwrap_small w z : 0 <= z < 2 ^ w → uwrap w z = z.
Proof. apply Z.mod_small. Qed.

Lemma swrap_range w z : 0 < w → - 2 ^ (w - 1) <= swrap w z < 2 ^ (w - 1).
Proof.
  intros Hw. unfold swrap.
  assert (2 ^ w = 2 * 2 ^ (w - 1)) as Hp
    by (rewrite <- Z.pow_succ_r by lia; f_equal; lia).
  pose proof (Z.mod_pos_bound (z + 2 ^ (w - 1)) (2 ^ w) ltac:(lia)). lia.
Qed.

Lemma swrap_small w z :
  0 < w → - 2 ^ (w - 1) <= z < 2 ^ (w - 1) → swrap w z = z.
Proof.
  intros Hw Hz. unfold swrap.
  assert (2 ^ w = 2 * 2 ^ (w - 1)) as Hp
    by (rewrite <- Z.pow_succ_r by lia; f_equal; lia).
  rewrite Z.mod_small; lia.
Qed.

Lemma int64_small z : is_int64 z → int64 z = z.
Proof. intros Hz. unfold int64, is_int64 in *. apply swrap_small; lia. Qed.

Lemma int32_small z : - 2 ^ 31 <= z < 2 ^ 31 → int32 z = z.
Proof. intros. unfold int32. apply swrap_small; lia. Qed.

Lemma int64_range z : is_int64 (int64 z).
Proof. unfold is_int64, int64. pose proof (swrap_range 64 z). lia. Qed.

Lemma uint32_small z : is_uint32 z → uint32 z = z.
Proof. apply uwrap_small. Qed.

Lemma uint32_range z : is_uint32 (uint32 z).
Proof. apply uwrap_range. lia. Qed.

(** Wrapping an addition in two stages is wrapping it once. *)
Lemma swrap_add_l w x y : 0 < w → swrap w (swrap w x + y) = swrap w (x + y).
Proof.
  intros. unfold swrap. f_equal.
  replace ((x + 2 ^ (w - 1)) `mod` 2 ^ w - 2 ^ (w - 1) + y + 2 ^ (w - 1))
    with ((x + 2 ^ (w - 1)) `mod` 2 ^ w + y) by lia.
  rewrite Zplus_mod_idemp_l. f_equal. lia.
Qed.

Lemma swrap_add_r w x y : 0 < w → swrap w (x + swrap w y) = swrap w (x + y).
Proof. intros. rewrite Z.add_comm, swrap_add_l, Z.add_comm by done. done. Qed.

Lemma uwrap_add_l w x y : uwrap w (uwrap w x + y) = uwrap w (x + y).
Proof. unfold uwrap. apply Zplus_mod_idemp_l. Qed.
End GoInt.

(** ** Channels *)
Module GoChan.

(** A buffered channel: capacity and queued values, oldest first. *)
Record chan (A : Type) := Chan { ch_cap : Z; ch_buf : list A }.
Arguments Chan {A} ch_cap ch_buf.
Arguments ch_cap {A} c.
Arguments ch_buf {A} c.

(** make(chan T, n) *)
Definition make_chan {A} (n : Z) : chan A := Chan n [].

(** len(c) *)
Definition chan_len {A} (c : chan A) : nat := length (ch_buf c).

Definition chan_full {A} (c : chan A) : bool := (ch_cap c <=? Z.of_nat (chan_len c))%Z.

Definition chan_push {A} (c : chan A) (v : A) : chan A :=
  Chan (ch_cap c) (ch_buf c ++ [v]).

(** select { case c <- v: ... default: ... }: whether the value went in.
    No goroutine is waiting to receive, so an unbuffered channel takes the
    default branch. *)
Definition try_send {A} (c : chan A) (v : A) : chan A * bool :=
  if chan_full c then (c, false) else (chan_push c v, true).

(** <-c when a value is queued. *)
Definition recv {A} (c : chan A) : option (A * chan A) :=
  match ch_buf c with
  | [] => None
  | v :: rest => Some (v, Chan (ch_cap c) rest)
  end.

Definition chan_ok {A} (c : chan A) : Prop := (Z.of_nat (chan_len c) <= ch_cap c)%Z.

Lemma make_chan_ok {A} n : (0 <= n)%Z → chan_ok (@make_chan A n).
Proof. done. Qed.

Lemma try_send_ok {A} (c : chan A) v : chan_ok c → chan_ok (try_send c v).1.
Proof.
  unfold chan_ok, try_send, chan_full, chan_len. intros Hc.
  case_match eqn:Hf; cbn; [done|]. rewrite length_app. cbn. reflect_arith. lia.
Qed.

Lemma try_send_cap {A} (c : chan A) v : ch_cap (try_send c v).1 = ch_cap c.
Proof. unfold try_send. by case_match. Qed.

Lemma recv_Some {A} (c : chan A) v c' :
  recv c = Some (v, c') ↔ ch_buf c = v :: ch_buf c' ∧ ch_cap c' = ch_cap c.
Proof.
  unfold recv. destruct c as [n [|w l]], c' as [n' l']; naive_solver.
Qed.

Lemma recv_ok {A} (c : chan A) v c' : chan_ok c → recv c = Some (v, c') → chan_ok c'.
Proof.
  unfold chan_ok, chan_len. intros Hc [Hb Hcap]%recv_Some.
  rewrite Hb in Hc. cbn in Hc. lia.
Qed.

(** *** Shared channels

    A [chan<- T] stored in several places is a reference into a heap of
    channels; a nil channel is [None]. *)
Abbreviation chanid := nat.
Abbreviation heap A := (gmap chanid (chan A)).

(** select { case ch <- v: default: } on a channel reference: a nil channel
    is never ready, so the default branch is taken. *)
Definition send_default {A} (ch : option chanid) (v : A) (h : heap A) : heap A :=
  match ch with
  | None => h
  | Some i =>
      match h !! i with
      | None => h
      | Some c => <[i := (try_send c v).1]> h
      end
  end.

Lemma send_default_ne {A} (ch : option chanid) (v : A) h j :
  ch ≠ Some j → send_default ch v h !! j = h !! j.
Proof.
  intros Hne. unfold send_default. destruct ch as [i|]; [|done].
  destruct (h !! i); [|done]. apply lookup_insert_ne. congruence.
Qed.

Lemma send_default_eq {A} i (v : A) h c :
  h !! i = Some c → send_default (Some i) v h !! i = Some (try_send c v).1.
Proof. intros Hc. unfold send_default. rewrite Hc. apply lookup_insert_eq. Qed.

Lemma send_default_space {A} i (v : A) h c :
  h !! i = Some c → (Z.of_nat (chan_len c) < ch_cap c)%Z →
  send_default (Some i) v h !! i = Some (chan_push c v).
Proof.
  intros Hc Hs. rewrite (send_default_eq _ _ _ _ Hc). unfold try_send, chan_full.
  by rewrite (proj2 (Z.leb_gt _ _) Hs).
Qed.

#[export] Hint Resolve make_chan_ok try_send_ok recv_ok : cue.
End GoChan.

(** ** Strings *)
Module GoStr.
(** Go strings are byte sequences: [String.string] with one [ascii] per byte. *)

Definition code (c : ascii) : nat := nat_of_ascii c.

Definition is_ascii_char (c : ascii) : bool := code c <? 128.

Fixpoint str_forall (p : ascii → bool) (s : string) : bool :=
  match s with
  | EmptyString => true
  | String c s' => p c && str_forall p s'
  end.

Definition is_ascii (s : string) : bool := str_forall is_ascii_char s.

Definition lower_char (c : ascii) : ascii :=
  if (65 <=? code c) && (code c <=? 90) then ascii_of_nat (code c + 32) else c.

Fixpoint str_map (f : ascii → ascii) (s : string) : string :=
  match s with
  | EmptyString => EmptyString
  | String c s' => String (f c) (str_map f s')
  end.

(** unicode.IsSpace on ASCII: \t \n \v \f \r and space. *)
Definition is_space (c : ascii) : bool :=
  ((9 <=? code c) && (code c <=? 13)) || (code c =? 32).

Fixpoint drop_while (p : ascii → bool) (s : string) : string :=
  match s with
  | EmptyString => EmptyString
  | String c s' => if p c then drop_while p s' else s
  end.

Fixpoint str_rev_app (s acc : string) : string :=
  match s with
  | EmptyString => acc
  | String c s' => str_rev_app s' (String c acc)
  end.

Definition str_rev (s : string) : string := str_rev_app s EmptyString.

Definition trim_ascii (s : string) : string :=
  str_rev (drop_while is_space (str_rev (drop_while is_space s))).

(** The two functions have an ASCII path and a path over the Unicode tables;
    the tables are data of package unicode and stay parameters. *)
Record unicode := Unicode {
  unicode_lower : string → string;
  unicode_trim : string → string
}.

Definition ToLower (u : unicode) (s : string) : string :=
  if is_ascii s then str_map lower_char s else unicode_lower u s.

Definition TrimSpace (u : unicode) (s : string) : string :=
  if is_ascii s then trim_ascii s else unicode_trim u s.

Definition HasPrefix (s p : string) : bool := String.prefix p s.

(** The bytes of a string as integers. *)
Fixpoint bytes_of (s : string) : list Z :=
  match s with
  | EmptyString => []
  | String c s' => Z.of_nat (code c) :: bytes_of s'
  end.

Lemma bytes_of_inj s t : bytes_of s = bytes_of t → s = t.
Proof.
  revert t. induction s as [|c s IH]; intros [|d t]; cbn; try done.
  intros [= Hc Ht]. f_equal; [|by apply IH].
  apply Nat2Z.inj in Hc. unfold code in Hc.
  by rewrite <- (ascii_nat_embedding c), <- (ascii_nat_embedding d), Hc.
Qed.
End GoStr.

(** ** hash/fnv: New64a, Write, Sum64 *)
Module Fnv.
Local Open Scope Z_scope.

Definition offset64 : Z := 14695981039346656037.
Definition prime64 : Z := 1099511628211.

Definition step64a (h b : Z) : Z := GoInt.uint64 (Z.lxor h b * prime64).

Definition sum64a (s : string) : Z := fold_left step64a (GoStr.bytes_of s) offset64.

(** Test vectors of the FNV reference code. *)
Example sum64a_empty : sum64a "" = 0xcbf29ce484222325.
Proof. reflexivity. Qed.
Example sum64a_a : sum64a "a" = 0xaf63dc4c8601ec8c.
Proof. vm_compute. reflexivity. Qed.
Example sum64a_foobar : sum64a "foobar" = 0x85944171f73967e8.
Proof. vm_compute. reflexivity. Qed.
End Fnv.

(** ** encoding/binary: LittleEndian.PutUint32 and Uint32 *)
Module LE.
Local Open Scope Z_scope.

(** Bytes are integers in [0, 256). *)
Definition put_uint32 (v : Z) : list Z :=
  [ Z.land v 255; Z.land (Z.shiftr v 8) 255;
    Z.land (Z.shiftr v 16) 255; Z.land (Z.shiftr v 24) 255 ].

Definition get_uint32 (b0 b1 b2 b3 : Z) : Z :=
  Z.lor b0 (Z.lor (Z.shiftl b1 8) (Z.lor (Z.shiftl b2 16) (Z.shiftl b3 24))).

Lemma get_put_uint32 v :
  0 <= v < 2 ^ 32 →
  match put_uint32 v with
  | [b0; b1; b2; b3] => get_uint32 b0 b1 b2 b3 = v
  | _ => False
  end.
Proof.
  intros Hv. cbn [put_uint32]. unfold get_uint32. apply Z.bits_inj'. intros i Hi.
  rewrite !Z.lor_spec, !Z.shiftl_spec, !Z.land_spec by done.
  change 255 with (Z.ones 8).
  assert (∀ k, 0 <= k → Z.testbit (Z.ones 8) (i - k) = (k <=? i) && (i <? k + 8)) as Hones.
  { intros k Hk. destruct (Z.leb_spec k i).
    - destruct (Z.ltb_spec i (k + 8)).
      + rewrite Z.ones_spec_low by lia. done.
      + rewrite Z.ones_spec_high by lia. done.
    - rewrite Z.testbit_neg_r by lia. done. }
  pose proof (Hones 0 ltac:(lia)) as H0. rewrite Z.sub_0_r in H0.
  rewrite H0, !Hones by lia.
  assert (∀ k, 0 <= k → k <= i → Z.testbit (Z.shiftr v k) (i - k) = Z.testbit v i) as Hsh.
  { intros k Hk Hki. rewrite Z.shiftr_spec by lia. f_equal. lia. }
  destruct (Z.ltb_spec i 32) as [Hlt|Hge].
  - destruct (Z.leb_spec 24 i), (Z.leb_spec 16 i), (Z.leb_spec 8 i), (Z.leb_spec 0 i);
    try lia;
    destruct (Z.ltb_spec i (0 + 8)), (Z.ltb_spec i (8 + 8)),
      (Z.ltb_spec i (16 + 8)), (Z.ltb_spec i (24 + 8)); try lia;
    rewrite ?Hsh by lia; cbn; rewrite ?andb_true_r, ?andb_false_r, ?orb_false_r; done.
  - rewrite (Z.bits_above_log2 v i).
    2: lia.
    2: { destruct (decide (v = 0)) as [->|]; [cbn; lia|].
         apply Z.log2_lt_pow2; [lia|]. eapply Z.lt_le_trans; [apply Hv|].
         apply Z.pow_le_mono_r; lia. }
    destruct (Z.ltb_spec i (0 + 8)), (Z.ltb_spec i (8 + 8)),
      (Z.ltb_spec i (16 + 8)), (Z.ltb_spec i (24 + 8)); try lia.
Qed.

Lemma length_put_uint32 v : length (put_uint32 v) = 4%nat.
Proof. done. Qed.
End LE.

Export GoInt GoChan GoStr.
