(* ===== verification/GoNet.v ===== *)
(** * The parts of package net the program uses

    [ParseIP] (through netip.ParseAddr), [IP.Equal], [JoinHostPort] and the
    string helpers they need. An address is the list of its bytes. *)

From S2P Require Import Prelude GoRuntime.

Local Open Scope Z_scope.

(** ** IPv4 *)

Definition chr_dot : Z := 46.
Definition chr_colon : Z := 58.
Definition chr_percent : Z := 37.

Definition is_digit (c : Z) : bool := (48 <=? c) && (c <=? 57).

(** parseIPv4Fields: [val] and [digLen] are the octet being read, [first]
    whether nothing or a dot comes before, [fields] the octets read so far. *)
Fixpoint parse_ipv4_fields (s : list Z) (val digLen : Z) (first : bool) (fields : list Z) :
    option (list Z) :=
  match s with
  | [] => if (length fields =? 3)%nat then Some (fields ++ [val]) else None
  | c :: rest =>
      if is_digit c then
        if (digLen =? 1) && (val =? 0) then None
        else
          let val := val * 10 + (c - 48) in
          if 255 <? val then None
          else parse_ipv4_fields rest val (digLen + 1) false fields
      else if c =? chr_dot then
        if first || bool_decide (rest = []) then None
        else if (length fields =? 3)%nat then None
        else parse_ipv4_fields rest 0 0 true (fields ++ [val])
      else None
  end.

Definition parse_ipv4 (s : list Z) : option (list Z) := parse_ipv4_fields s 0 0 true [].

(** ** IPv6 *)

Definition hex_digit (c : Z) : option Z :=
  if is_digit c then Some (c - 48)
  else if (97 <=? c) && (c <=? 102) then Some (c - 87)
  else if (65 <=? c) && (c <=? 70) then Some (c - 55)
  else None.

(** The hexadecimal number at the front: its value, the number of digits and
    what follows; at most four digits. *)
Fixpoint read_hex (s : list Z) (off : nat) (acc : Z) : option (Z * nat * list Z) :=
  match s with
  | [] => Some (acc, off, [])
  | c :: rest =>
      match hex_digit c with
      | None => Some (acc, off, s)
      | Some d => if (3 <? off)%nat then None else read_hex rest (S off) (acc * 16 + d)
      end
  end.

(** The loop of parseIPv6. [ip] holds the bytes read, [ellipsis] the position
    of the double colon. Every round consumes a byte: the length of the input
    is enough fuel. *)
Fixpoint ipv6_loop (fuel : nat) (s : list Z) (ip : list Z) (ellipsis : option nat) :
    option (list Z * option nat * list Z) :=
  match fuel with
  | O => None
  | S fuel' =>
      if (16 <=? length ip)%nat then Some (ip, ellipsis, s)
      else
        match read_hex s 0 0 with
        | None => None
        | Some (acc, off, after) =>
            if (off =? 0)%nat then None
            else if bool_decide (head after = Some chr_dot) then
              if (bool_decide (ellipsis = None) && negb (length ip =? 12)%nat)
                 || (16 <? length ip + 4)%nat then None
              else
                match parse_ipv4 s with
                | None => None
                | Some v4 => Some (ip ++ v4, ellipsis, [])
                end
            else
              let ip := ip ++ [acc `div` 256; acc mod 256] in
              match after with
              | [] => Some (ip, ellipsis, [])
              | c :: s1 =>
                  if negb (c =? chr_colon) then None
                  else
                    match s1 with
                    | [] => None
                    | c' :: s2 =>
                        if c' =? chr_colon then
                          match ellipsis with
                          | Some _ => None
                          | None =>
                              match s2 with
                              | [] => Some (ip, Some (length ip), [])
                              | _ => ipv6_loop fuel' s2 ip (Some (length ip))
                              end
                          end
                        else ipv6_loop fuel' s1 ip ellipsis
                    end
              end
        end
  end.

(** The whole string must be used; the ellipsis is expanded, and stands for at
    least one group. *)
Definition ipv6_finish (r : option (list Z * option nat * list Z)) : option (list Z) :=
  match r with
  | Some (ip, ellipsis, []) =>
      if (length ip <? 16)%nat then
        match ellipsis with
        | None => None
        | Some e => Some (take e ip ++ replicate (16 - length ip) 0 ++ drop e ip)
        end
      else match ellipsis with Some _ => None | None => Some ip end
  | _ => None
  end.

Definition parse_ipv6 (s : list Z) : option (list Z) :=
  if bool_decide (take 2 s = [chr_colon; chr_colon]) then
    let s := drop 2 s in
    if bool_decide (s = []) then Some (replicate 16 0)
    else ipv6_finish (ipv6_loop (S (length s)) s [] (Some 0%nat))
  else ipv6_finish (ipv6_loop (S (length s)) s [] None).

(** ** ParseIP *)

Definition v4_in_v6_prefix : list Z := replicate 10 0 ++ [255; 255].

(** The first of ".", ":" and "%" decides; net.ParseIP refuses a zone, so a
    "%" anywhere is an error. *)
Definition ParseIP (str : string) : option (list Z) :=
  let s := bytes_of str in
  if bool_decide (chr_percent ∈ s) then None
  else
    match list_find (λ c, c = chr_dot ∨ c = chr_colon) s with
    | None => None
    | Some (_, c) =>
        if c =? chr_dot then
          match parse_ipv4 s with
          | None => None
          | Some v4 => Some (v4_in_v6_prefix ++ v4)
          end
        else parse_ipv6 s
    end.

(** IP.Equal: the four-byte form equals the sixteen-byte form that embeds it. *)
Definition IP_Equal (ip x : list Z) : bool :=
  if (length ip =? length x)%nat then bool_decide (ip = x)
  else if ((length ip =? 4) && (length x =? 16))%nat then
    bool_decide (take 12 x = v4_in_v6_prefix) && bool_decide (ip = drop 12 x)
  else if ((length ip =? 16) && (length x =? 4))%nat then
    bool_decide (take 12 ip = v4_in_v6_prefix) && bool_decide (drop 12 ip = x)
  else false.

(** JoinHostPort: a host with a colon goes between brackets. *)
Definition JoinHostPort (host port : string) : string :=
  (if bool_decide (chr_colon ∈ bytes_of host) then "[" +:+ host +:+ "]:" +:+ port
   else host +:+ ":" +:+ port)%string.

(** ** Facts *)

Example ParseIP_v4 : ParseIP "10.0.0.255" = Some (v4_in_v6_prefix ++ [10; 0; 0; 255]).
Proof. vm_compute. reflexivity. Qed.
Example ParseIP_leading_zero : ParseIP "10.0.00.1" = None.
Proof. vm_compute. reflexivity. Qed.
Example ParseIP_v6 : ParseIP "2001:db8::ff00:42:8329"
  = Some [32; 1; 13; 184; 0; 0; 0; 0; 0; 0; 255; 0; 0; 66; 131; 41].
Proof. vm_compute. reflexivity. Qed.
Example ParseIP_mapped : ParseIP "::ffff:1.2.3.4" = Some (v4_in_v6_prefix ++ [1; 2; 3; 4]).
Proof. vm_compute. reflexivity. Qed.
Example ParseIP_zone : ParseIP "fe80::1%eth0" = None.
Proof. vm_compute. reflexivity. Qed.
Example ParseIP_full : ParseIP "1:2:3:4:5:6:7:8" = Some [0;1;0;2;0;3;0;4;0;5;0;6;0;7;0;8].
Proof. vm_compute. reflexivity. Qed.
Example ParseIP_no_group : ParseIP "1:2:3:4:5:6:7::8" = None.
Proof. vm_compute. reflexivity. Qed.
Example ParseIP_trailing : ParseIP "1::" = Some ([0; 1] ++ replicate 14 0).
Proof. vm_compute. reflexivity. Qed.

Lemma parse_ipv4_fields_length s val dl b fs ip :
  parse_ipv4_fields s val dl b fs = Some ip → length ip = 4%nat.
Proof.
  revert val dl b fs. induction s as [|c s IH]; cbn [parse_ipv4_fields]; intros val dl b fs H;
    repeat (case_match; simplify_eq); eauto.
  rewrite length_app. cbn. reflect_arith. lia.
Qed.

Lemma ipv6_loop_length fuel s ip e ip' e' s' :
  (length ip <= 16)%nat → Nat.Even (length ip) → (∀ n, e = Some n → (n <= length ip)%nat) →
  ipv6_loop fuel s ip e = Some (ip', e', s') →
  (length ip' <= 16)%nat ∧ (∀ n, e' = Some n → (n <= length ip')%nat).
Proof.
  revert s ip e. induction fuel as [|fuel IH]; cbn [ipv6_loop]; intros s ip e Hl [k Hk] He H; [done|].
  assert (∀ a b : Z, length (ip ++ [a; b]) = S (S (length ip))) as Hpush
    by (intros; rewrite length_app; cbn; lia).
  destruct (16 <=? length ip)%nat eqn:Hge; reflect_arith; [by simplify_eq|].
  assert (∀ a b e0 s0, (∀ n, e0 = Some n → (n <= S (S (length ip)))%nat) →
    ipv6_loop fuel s0 (ip ++ [a; b]) e0 = Some (ip', e', s') →
    (length ip' <= 16)%nat ∧ (∀ n, e' = Some n → (n <= length ip')%nat)) as Hrec.
  { intros a b e0 s0 H0 Hr. eapply IH; [..|exact Hr]; rewrite ?Hpush; [lia| |done].
    exists (S k). lia. }
  repeat (case_match; simplify_eq); rewrite ?Hpush; eauto with lia.
  - match goal with H : _ || _ = false |- _ => apply orb_false_iff in H as [_ ?] end. reflect_arith.
    match goal with H : parse_ipv4 _ = Some _ |- _ => apply parse_ipv4_fields_length in H as Hv end.
    rewrite length_app, Hv. split; [lia|]. intros j Hj. specialize (He j Hj). lia.
  - split; [lia|]. intros j Hj. simplify_eq. lia.
  - eapply Hrec; [|eassumption]. intros j Hj. rewrite ?Hpush in Hj. simplify_eq. lia.
Qed.

Lemma parse_ipv6_length s ip : parse_ipv6 s = Some ip → length ip = 16%nat.
Proof.
  assert (∀ s0 e, (∀ n, e = Some n → n = 0%nat) →
    ipv6_finish (ipv6_loop (S (length s0)) s0 [] e) = Some ip → length ip = 16%nat) as H.
  { intros s0 e He H. destruct (ipv6_loop _ _ _ _) as [[[ip0 e0] s1]|] eqn:Hl; [|done].
    apply ipv6_loop_length in Hl as [Hl He0]; [|cbn; lia|by exists 0%nat|].
    2: { intros n Hn. rewrite (He n Hn). cbn. lia. }
    unfold ipv6_finish in H. destruct s1; [|done].
    destruct (length ip0 <? 16)%nat eqn:Hlt, e0 as [n|]; simplify_eq; reflect_arith.
    - rewrite !length_app, length_take, length_replicate, length_drop.
      specialize (He0 n eq_refl). lia.
    - lia. }
  unfold parse_ipv6. intros Hp. repeat case_bool_decide; [by simplify_eq|..];
    (eapply H; [|exact Hp]); naive_solver.
Qed.

(** An address that parses has sixteen bytes. *)
Lemma ParseIP_length str ip : ParseIP str = Some ip → length ip = 16%nat.
Proof.
  unfold ParseIP. case_bool_decide; [done|].
  destruct (list_find _ _) as [[i c]|]; [|done].
  case_match; [|by apply parse_ipv6_length].
  destruct (parse_ipv4 (bytes_of str)) as [v4|] eqn:Hv; [|done].
  apply parse_ipv4_fields_length in Hv. intros [= <-]. cbn. by rewrite Hv.
Qed.
