(* ===== verification/Messages.v ===== *)
(** * Messages exchanged by the proxy, the cluster and the clients

    The data types of [internal/model/model.go] and [pkg/model.go]. A pointer
    field that may be nil is an [option]; a [[]byte] is a list of integers in
    [0, 256); fixed-width integers are [Z]. *)

From S2P Require Import Prelude GoRuntime.

(** A [[]byte] value. *)
Abbreviation bytes := (list Z).

Inductive ProxyRequestType :=
  | ReqHeartbeatReport
  | ReqAddTopic
  | ReqAddJobs
  | ReqDone.

Record Job := mkJob {
  job_ID : string;
  job_Topic : string;
  job_Data : bytes
}.

Record AddTopicPayload := mkAddTopic { at_Topic : string }.

Record TopicCapacity := mkTopicCapacity {
  tc_Topic : string;
  tc_ConsumptionScore : Z
}.

Record HeartbeatReport := mkHeartbeatReport {
  hr_ProxyID : string;
  hr_Timestamp : Z;
  hr_Capacities : list TopicCapacity
}.

(** [[]*Job]: an element of the slice may be a nil pointer. *)
Record AddJobsPayload := mkAddJobs {
  aj_Topic : string;
  aj_Jobs : list (option Job)
}.

Record DonePayload := mkDone {
  dn_Topic : string;
  dn_JobIDs : list string
}.

Record ProxyRequest := mkProxyRequest {
  pr_RequestID : Z;
  pr_Type : ProxyRequestType;
  pr_AddTopic : option AddTopicPayload;
  pr_HeartbeatReport : option HeartbeatReport;
  pr_AddJobs : option AddJobsPayload;
  pr_Done : option DonePayload
}.

(** The composite literals of the source that set one payload. *)
Definition add_topic_request (id : Z) (p : AddTopicPayload) : ProxyRequest :=
  mkProxyRequest id ReqAddTopic (Some p) None None None.
Definition heartbeat_request (id : Z) (p : HeartbeatReport) : ProxyRequest :=
  mkProxyRequest id ReqHeartbeatReport None (Some p) None None.
Definition add_jobs_request (id : Z) (p : AddJobsPayload) : ProxyRequest :=
  mkProxyRequest id ReqAddJobs None None (Some p) None.
Definition done_request (id : Z) (p : DonePayload) : ProxyRequest :=
  mkProxyRequest id ReqDone None None None (Some p).

(** ToProducerRespStatus is a string on the wire: any value can arrive. *)
Definition ToProxyRespStatusSuccess : string := "success".
Definition ToProxyRespStatusError : string := "error".

Definition FailDuplicate : Z := 1.
Definition FailQueueFull : Z := 2.
Definition FailInternal : Z := 3.

Record JobFailure := mkJobFailure {
  jf_JobID : string;
  jf_Reason : Z
}.

Record ToProducerResponse := mkResponse {
  tp_RequestID : Z;
  tp_Status : string;
  tp_Error : string;
  tp_Failures : list JobFailure
}.

Record ToConsumerMessage := mkToConsumer {
  tcm_Topic : string;
  tcm_ProxyID : string;
  tcm_Jobs : list (option Job)
}.

(** NodeStatus and its String method. *)
Definition NodeStatusFollowerActive : string := "follower".
Definition NodeStatusLeaderActive : string := "leader".
Definition NodeStatusUnavailable : string := "unavailable".

Definition NodeStatus_String (s : string) : string :=
  if decide (s = NodeStatusFollowerActive) then "follower"
  else if decide (s = NodeStatusLeaderActive) then "leader"
  else if decide (s = NodeStatusUnavailable) then "unavailable"
  else "unknown".

Record ToProxyHeartbeat := mkHeartbeat {
  hb_NodeStatus : string;
  hb_Voters : list string;
  hb_Learners : list string;
  hb_Leader : string;
  hb_Term : Z
}.

Definition ProxyMessageResponse : string := "response".
Definition ProxyMessageOutbound : string := "outbound".
Definition ProxyMessageHeartbeat : string := "heartbeat".

Record ToProxyMessage := mkToProxy {
  tpm_Type : string;
  tpm_Response : option ToProducerResponse;
  tpm_Outbound : option ToConsumerMessage;
  tpm_Heartbeat : option ToProxyHeartbeat
}.

(** A request with the channel its answer goes to; a nil channel is [None]. *)
Record ApiRequestWithRespCh := mkApiRequest {
  ar_ProxyRequest : ProxyRequest;
  ar_RespCh : option chanid
}.

(** pkg/model.go *)
Record ToConsumerDelivery := mkDelivery {
  td_Action : string;
  td_Topic : string;
  td_JobID : string;
  td_SeqID : Z;
  td_Data : bytes
}.

Record WebSocketMessage := mkWebSocketMessage {
  ws_Action : string;
  ws_UUID : string;
  ws_Topic : string;
  ws_LastID : Z;
  ws_JobID : string;
  ws_Data : bytes
}.

#[export] Instance ProxyRequestType_eq_dec : EqDecision ProxyRequestType.
Proof. solve_decision. Defined.
#[export] Instance Job_eq_dec : EqDecision Job.
Proof. solve_decision. Defined.
#[export] Instance JobFailure_eq_dec : EqDecision JobFailure.
Proof. solve_decision. Defined.
#[export] Instance ToProducerResponse_eq_dec : EqDecision ToProducerResponse.
Proof. solve_decision. Defined.
#[export] Instance TopicCapacity_eq_dec : EqDecision TopicCapacity.
Proof. solve_decision. Defined.

(** A heap of producer response channels. *)
Abbreviation resp_heap := (heap ToProducerResponse).

(** The success answer and the error answers the proxy makes up itself. *)
Definition success_response (id : Z) : ToProducerResponse :=
  mkResponse id ToProxyRespStatusSuccess "" [].
Definition error_response (id : Z) (msg : string) : ToProducerResponse :=
  mkResponse id ToProxyRespStatusError msg [].
