(* ===== verification/Metrics.v ===== *)
(** * Metrics (internal/metrics.go)

    The counters of the cluster agent, the per-topic counters of the API, and
    how the two process-wide instances are made: one behind sync.Once, the other
    behind a test for nil. The registry of the Prometheus library is a
    parameter. *)

From S2P Require Import Prelude GoRuntime.

Local Open Scope Z_scope.

(** ** The cluster's metrics

    Prometheus keeps them as floats, exact below 2^53. *)
Record ClusterMetrics := mkClusterMetrics {
  cm_connectionOpened : Z;
  cm_connectionAccepted : Z;
  cm_connectionRejected : Z;
  cm_connectionError : Z;
  cm_connectionDropped : Z;
  cm_messageSent : Z;
  cm_messageReceived : Z;
  cm_bytesSent : Z;
  cm_bytesReceived : Z;
  cm_sendError : Z;
  cm_receiveError : Z;
  cm_leaderChanged : Z;
  cm_walFlush : Z;
  cm_lastAppliedWalIndex : Z
}.

Definition no_metrics : ClusterMetrics := mkClusterMetrics 0 0 0 0 0 0 0 0 0 0 0 0 0 0.

Definition ConnectionOpened (m : ClusterMetrics) : ClusterMetrics :=
  mkClusterMetrics (cm_connectionOpened m + 1) (cm_connectionAccepted m) (cm_connectionRejected m)
    (cm_connectionError m) (cm_connectionDropped m) (cm_messageSent m) (cm_messageReceived m)
    (cm_bytesSent m) (cm_bytesReceived m) (cm_sendError m) (cm_receiveError m)
    (cm_leaderChanged m) (cm_walFlush m) (cm_lastAppliedWalIndex m).

Definition ConnectionAccepted (m : ClusterMetrics) : ClusterMetrics :=
  mkClusterMetrics (cm_connectionOpened m) (cm_connectionAccepted m + 1) (cm_connectionRejected m)
    (cm_connectionError m) (cm_connectionDropped m) (cm_messageSent m) (cm_messageReceived m)
    (cm_bytesSent m) (cm_bytesReceived m) (cm_sendError m) (cm_receiveError m)
    (cm_leaderChanged m) (cm_walFlush m) (cm_lastAppliedWalIndex m).

Definition ConnectionRejected (m : ClusterMetrics) : ClusterMetrics :=
  mkClusterMetrics (cm_connectionOpened m) (cm_connectionAccepted m) (cm_connectionRejected m + 1)
    (cm_connectionError m) (cm_connectionDropped m) (cm_messageSent m) (cm_messageReceived m)
    (cm_bytesSent m) (cm_bytesReceived m) (cm_sendError m) (cm_receiveError m)
    (cm_leaderChanged m) (cm_walFlush m) (cm_lastAppliedWalIndex m).

Definition ConnectionError (m : ClusterMetrics) : ClusterMetrics :=
  mkClusterMetrics (cm_connectionOpened m) (cm_connectionAccepted m) (cm_connectionRejected m)
    (cm_connectionError m + 1) (cm_connectionDropped m) (cm_messageSent m) (cm_messageReceived m)
    (cm_bytesSent m) (cm_bytesReceived m) (cm_sendError m) (cm_receiveError m)
    (cm_leaderChanged m) (cm_walFlush m) (cm_lastAppliedWalIndex m).

Definition ConnectionDropped (m : ClusterMetrics) : ClusterMetrics :=
  mkClusterMetrics (cm_connectionOpened m) (cm_connectionAccepted m) (cm_connectionRejected m)
    (cm_connectionError m) (cm_connectionDropped m + 1) (cm_messageSent m) (cm_messageReceived m)
    (cm_bytesSent m) (cm_bytesReceived m) (cm_sendError m) (cm_receiveError m)
    (cm_leaderChanged m) (cm_walFlush m) (cm_lastAppliedWalIndex m).

Definition MessageSent (m : ClusterMetrics) : ClusterMetrics :=
  mkClusterMetrics (cm_connectionOpened m) (cm_connectionAccepted m) (cm_connectionRejected m)
    (cm_connectionError m) (cm_connectionDropped m) (cm_messageSent m + 1) (cm_messageReceived m)
    (cm_bytesSent m) (cm_bytesReceived m) (cm_sendError m) (cm_receiveError m)
    (cm_leaderChanged m) (cm_walFlush m) (cm_lastAppliedWalIndex m).

Definition MessageReceived (m : ClusterMetrics) : ClusterMetrics :=
  mkClusterMetrics (cm_connectionOpened m) (cm_connectionAccepted m) (cm_connectionRejected m)
    (cm_connectionError m) (cm_connectionDropped m) (cm_messageSent m) (cm_messageReceived m + 1)
    (cm_bytesSent m) (cm_bytesReceived m) (cm_sendError m) (cm_receiveError m)
    (cm_leaderChanged m) (cm_walFlush m) (cm_lastAppliedWalIndex m).

Definition AddBytesSent (n : Z) (m : ClusterMetrics) : ClusterMetrics :=
  mkClusterMetrics (cm_connectionOpened m) (cm_connectionAccepted m) (cm_connectionRejected m)
    (cm_connectionError m) (cm_connectionDropped m) (cm_messageSent m) (cm_messageReceived m)
    (cm_bytesSent m + n) (cm_bytesReceived m) (cm_sendError m) (cm_receiveError m)
    (cm_leaderChanged m) (cm_walFlush m) (cm_lastAppliedWalIndex m).

Definition AddBytesReceived (n : Z) (m : ClusterMetrics) : ClusterMetrics :=
  mkClusterMetrics (cm_connectionOpened m) (cm_connectionAccepted m) (cm_connectionRejected m)
    (cm_connectionError m) (cm_connectionDropped m) (cm_messageSent m) (cm_messageReceived m)
    (cm_bytesSent m) (cm_bytesReceived m + n) (cm_sendError m) (cm_receiveError m)
    (cm_leaderChanged m) (cm_walFlush m) (cm_lastAppliedWalIndex m).

Definition SendError (m : ClusterMetrics) : ClusterMetrics :=
  mkClusterMetrics (cm_connectionOpened m) (cm_connectionAccepted m) (cm_connectionRejected m)
    (cm_connectionError m) (cm_connectionDropped m) (cm_messageSent m) (cm_messageReceived m)
    (cm_bytesSent m) (cm_bytesReceived m) (cm_sendError m + 1) (cm_receiveError m)
    (cm_leaderChanged m) (cm_walFlush m) (cm_lastAppliedWalIndex m).

Definition ReceiveError (m : ClusterMetrics) : ClusterMetrics :=
  mkClusterMetrics (cm_connectionOpened m) (cm_connectionAccepted m) (cm_connectionRejected m)
    (cm_connectionError m) (cm_connectionDropped m) (cm_messageSent m) (cm_messageReceived m)
    (cm_bytesSent m) (cm_bytesReceived m) (cm_sendError m) (cm_receiveError m + 1)
    (cm_leaderChanged m) (cm_walFlush m) (cm_lastAppliedWalIndex m).

Definition LeaderChanged (m : ClusterMetrics) : ClusterMetrics :=
  mkClusterMetrics (cm_connectionOpened m) (cm_connectionAccepted m) (cm_connectionRejected m)
    (cm_connectionError m) (cm_connectionDropped m) (cm_messageSent m) (cm_messageReceived m)
    (cm_bytesSent m) (cm_bytesReceived m) (cm_sendError m) (cm_receiveError m)
    (cm_leaderChanged m + 1) (cm_walFlush m) (cm_lastAppliedWalIndex m).

(** ** The API's counters

    A counter with the label "topic": WithLabelValues(topic).Inc(). The router
    has the counters of its topics ([Router.JobsPushed], [Router.JobsDropped]),
    the API those of requests, sessions and refused tokens. *)
Definition count (topic : string) (m : gmap string Z) : gmap string Z :=
  <[topic := default 0 (m !! topic) + 1]> m.

(** ** Registration *)

Inductive metric_kind :=
  | Counter
  | Gauge
  | CounterVec (labels : list string)
  | HistogramVec (labels : list string).

Record metric := mkMetric { mt_name : string; mt_help : string; mt_kind : metric_kind }.

Section Names.
Local Open Scope string_scope.

(** In the order in which GetClusterMetrics registers them. *)
Definition cluster_metrics : list metric :=
  [mkMetric "cluster_connection_opened_total" "Total number of connections opened" Counter;
   mkMetric "cluster_connection_accepted_total" "Total number of connections accepted" Counter;
   mkMetric "cluster_connection_rejected_total" "Total number of connections rejected" Counter;
   mkMetric "cluster_connection_error_total" "Total number of connection errors" Counter;
   mkMetric "cluster_connection_dropped_total" "Total number of connections dropped" Counter;
   mkMetric "cluster_message_sent_total" "Total number of messages sent" Counter;
   mkMetric "cluster_message_received_total" "Total number of messages received" Counter;
   mkMetric "cluster_bytes_sent_total" "Total bytes sent" Counter;
   mkMetric "cluster_bytes_received_total" "Total bytes received" Counter;
   mkMetric "cluster_send_error_total" "Total number of send errors" Counter;
   mkMetric "cluster_receive_error_total" "Total number of receive errors" Counter;
   mkMetric "cluster_leader_changed_total" "Total number of leadership changes" Counter;
   mkMetric "cluster_wal_flush_total" "Total number of wal flushes" Counter;
   mkMetric "cluster_last_applied_wal_index" "Current raft last index applied to state" Gauge].

(** In the order in which GetApiMetrics registers them. *)
Definition api_metrics : list metric :=
  [mkMetric "proxy_http_requests_total" "Total HTTP requests" (CounterVec ["method"; "endpoint"; "status"]);
   mkMetric "proxy_http_request_duration_seconds" "HTTP request duration" (HistogramVec ["method"; "endpoint"]);
   mkMetric "proxy_websocket_connections" "Current WebSocket connections" Gauge;
   mkMetric "proxy_jobs_pushed_per_topic" "Total jobs pushed to consumers per topic" (CounterVec ["topic"]);
   mkMetric "proxy_jobs_acked_per_topic" "Total jobs acknowledged by consumers per topic" (CounterVec ["topic"]);
   mkMetric "proxy_jobs_dropped_per_topic" "Total jobs dropped per topic" (CounterVec ["topic"]);
   mkMetric "proxy_auth_failures_total" "Total authentication/authorization failures" Counter].

End Names.

Definition names (ms : list metric) : gset string := list_to_set (mt_name <$> ms).

(** promauto registers with the default registry and panics when that fails,
    which it does when the name is taken. *)
Class MetricRegistry (R : Type) := {
  registered : R → gset string;
  MustRegister : metric → R → exec R;
  register_fresh d g : mt_name d ∉ registered g →
    ∃ g', MustRegister d g = Returns g' ∧ registered g' = {[mt_name d]} ∪ registered g;
  register_duplicate d g : mt_name d ∈ registered g → ∃ p, MustRegister d g = Panics p
}.

(** ** Making the instances *)

(** A goroutine that made no instance yet, or that has one. *)
Inductive getter := Registering (rest : list metric) | Got.

Definition registering (g : getter) : bool :=
  match g with Registering _ => true | Got => false end.

Section Singleton.
Context `{MetricRegistry R}.

Record singleton := mkSingleton {
  sg_registry : R;
  sg_made : bool;
  sg_getters : gmap nat getter;
  sg_panicked : bool
}.

Inductive get_event := GetBegin (g : nat) | GetRegister (g : nat) | GetStore (g : nat).

(** The part both have in common: the literal of the struct, one metric after
    the other, and the assignment. *)
Definition make_step (e : get_event) (s : singleton) : option singleton :=
  match e with
  | GetBegin _ => None
  | GetRegister g =>
      match sg_getters s !! g with
      | Some (Registering (d :: rest)) =>
          match MustRegister d (sg_registry s) with
          | Returns r => Some (mkSingleton r (sg_made s) (<[g := Registering rest]> (sg_getters s)) false)
          | Panics _ => Some (mkSingleton (sg_registry s) (sg_made s) (sg_getters s) true)
          | Blocks => None
          end
      | _ => None
      end
  | GetStore g =>
      match sg_getters s !! g with
      | Some (Registering []) => Some (mkSingleton (sg_registry s) true (<[g := Got]> (sg_getters s)) false)
      | _ => None
      end
  end.

Definition begin_with (g : nat) (pc : getter) (s : singleton) : option singleton :=
  match sg_getters s !! g with
  | None => Some (mkSingleton (sg_registry s) (sg_made s) (<[g := pc]> (sg_getters s)) false)
  | Some _ => None
  end.

(** A call that finds the function of the sync.Once running waits for it. *)
Definition GetClusterMetrics (e : get_event) (s : singleton) : option singleton :=
  if sg_panicked s then None
  else
    match e with
    | GetBegin g =>
        if sg_made s then begin_with g Got s
        else if decide (map_Forall (λ _ pc, registering pc = false) (sg_getters s)) then
          begin_with g (Registering cluster_metrics) s
        else None
    | e => make_step e s
    end.

(** if metricsInstance == nil *)
Definition GetApiMetrics (e : get_event) (s : singleton) : option singleton :=
  if sg_panicked s then None
  else
    match e with
    | GetBegin g => begin_with g (if sg_made s then Got else Registering api_metrics) s
    | e => make_step e s
    end.

Definition no_instance (r : R) : singleton := mkSingleton r false ∅ false.

(** One call with nothing in between. *)
Definition whole_call (g n : nat) : list get_event :=
  GetBegin g :: replicate n (GetRegister g) ++ [GetStore g].

(** ** Properties *)

Lemma registers step g rest r gs :
  (∀ e s, sg_panicked s = false → (∀ g, e ≠ GetBegin g) → step e s = make_step e s) →
  NoDup (mt_name <$> rest) → names rest ## registered r → gs !! g = Some (Registering rest) →
  ∃ r' gs', run step (replicate (length rest) (GetRegister g) ++ [GetStore g]) (mkSingleton r false gs false) =
      Some (mkSingleton r' true gs' false) ∧
    registered r' = names rest ∪ registered r ∧ gs' = <[g := Got]> gs.
Proof.
  intros Hstep. revert r gs. induction rest as [|d rest IH]; intros r gs Hnd Hfr Hg; cbn [length replicate app].
  - exists r, (<[g := Got]> gs). split_and!; [|set_solver|done]. cbn. rewrite Hstep by done. cbn. by rewrite Hg.
  - apply NoDup_cons in Hnd as [Hd Hnd].
    assert (names (d :: rest) = {[mt_name d]} ∪ names rest) as Hn by done. rewrite Hn in *.
    destruct (register_fresh d r) as (r1 & Hr1 & Hreg); [set_solver|].
    destruct (IH r1 (<[g := Registering rest]> gs)) as (r' & gs' & Hrun & Hr' & Hgs'); [done| |apply lookup_insert_eq|].
    { rewrite Hreg. assert (mt_name d ∉ names rest); [|set_solver].
      unfold names. by rewrite elem_of_list_to_set. }
    exists r', gs'. split_and!.
    + cbn. rewrite Hstep by done. cbn. rewrite Hg, Hr1. exact Hrun.
    + rewrite Hr', Hreg. set_solver.
    + by rewrite Hgs', insert_insert_eq.
Qed.

(** How far the one registration is. *)
Inductive once_phase (g0 : R) (s : singleton) : Prop :=
| BeforeOnce :
    sg_made s = false → sg_getters s = ∅ → registered (sg_registry s) = registered g0 →
    once_phase g0 s
| InOnce g ds rest :
    sg_made s = false → sg_getters s = {[g := Registering rest]} → cluster_metrics = ds ++ rest →
    registered (sg_registry s) = names ds ∪ registered g0 → once_phase g0 s
| AfterOnce :
    sg_made s = true → map_Forall (λ _ pc, pc = Got) (sg_getters s) →
    registered (sg_registry s) = names cluster_metrics ∪ registered g0 → once_phase g0 s.

Lemma names_app ms ms' : names (ms ++ ms') = names ms ∪ names ms'.
Proof. unfold names. by rewrite fmap_app, list_to_set_app_L. Qed.

Lemma cluster_names_NoDup : NoDup (mt_name <$> cluster_metrics).
Proof. apply (bool_decide_unpack _). vm_compute. exact I. Qed.

Lemma api_names_NoDup : NoDup (mt_name <$> api_metrics).
Proof. apply (bool_decide_unpack _). vm_compute. exact I. Qed.

Lemma names_disjoint : names cluster_metrics ## names api_metrics.
Proof. apply (bool_decide_unpack _). vm_compute. exact I. Qed.

Lemma GetClusterMetrics_once g0 e s s' :
  names cluster_metrics ## registered g0 → sg_panicked s = false →
  once_phase g0 s → GetClusterMetrics e s = Some s' → sg_panicked s' = false ∧ once_phase g0 s'.
Proof.
  intros Hfr Hp Hs. unfold GetClusterMetrics. rewrite Hp. destruct Hs as [Hm Hg Hr|g ds rest Hm Hg Hc Hr|Hm Hg Hr].
  - destruct e as [g|g|g]; cbn; rewrite ?Hm, Hg; [|by rewrite lookup_empty..].
    rewrite decide_True by apply map_Forall_empty. unfold begin_with. rewrite Hg, lookup_empty, insert_empty.
    intros [= <-]. split; [done|]. apply (InOnce _ _ g [] cluster_metrics); cbn; [done..|]. rewrite Hr. set_solver.
  - destruct e as [g'|g'|g']; cbn; rewrite ?Hm, Hg.
    + rewrite decide_False; [done|]. intros Hf. specialize (Hf g _ (lookup_singleton_eq _ _)). done.
    + destruct (decide (g = g')) as [<-|Hne]; [|by rewrite lookup_singleton_ne].
      rewrite lookup_singleton_eq. destruct rest as [|d rest]; [done|].
      pose proof cluster_names_NoDup as Hnd. rewrite Hc, fmap_app in Hnd. apply NoDup_app in Hnd as (_ & Hx & _).
      destruct (register_fresh d (sg_registry s)) as (r1 & Hr1 & Hreg).
      { rewrite Hr. rewrite Hc, names_app in Hfr. unfold names in *. cbn in Hfr, Hx. set_solver. }
      rewrite Hr1. intros [= <-]. split; [done|]. apply (InOnce _ _ g (ds ++ [d]) rest); cbn.
      * done.
      * apply insert_singleton_eq.
      * rewrite <- app_assoc. exact Hc.
      * rewrite Hreg, Hr, names_app. unfold names. cbn. set_solver.
    + destruct (decide (g = g')) as [<-|Hne]; [|by rewrite lookup_singleton_ne].
      rewrite lookup_singleton_eq. destruct rest as [|d rest]; [|done]. intros [= <-]. split; [done|].
      apply AfterOnce; [done| |rewrite Hc, app_nil_r; exact Hr]. cbn.
      rewrite insert_singleton_eq. by apply map_Forall_singleton.
  - assert (∀ g pc, sg_getters s !! g = Some pc → pc = Got) as Hall by (intros g pc; apply Hg).
    destruct e as [g|g|g]; cbn; rewrite ?Hm.
    + unfold begin_with. destruct (sg_getters s !! g) eqn:Hl; [done|]. intros [= <-]. split; [done|].
      apply AfterOnce; cbn; [by rewrite Hm| |done]. by apply map_Forall_insert_2.
    + destruct (sg_getters s !! g) as [[|]|] eqn:Hl; [|done..]. by apply Hall in Hl.
    + destruct (sg_getters s !! g) as [[|]|] eqn:Hl; [|done..]. by apply Hall in Hl.
Qed.

(** The cluster's metrics are registered once: from a registry that has none
    of their names, however many goroutines call GetClusterMetrics and however
    the calls interleave, none panics, and when one has returned all fourteen
    names are registered, nothing else was, and nobody registers again. *)
Theorem cluster_metrics_registered_once g0 evs s :
  names cluster_metrics ## registered g0 →
  run GetClusterMetrics evs (no_instance g0) = Some s →
  sg_panicked s = false ∧
  ((∃ g, sg_getters s !! g = Some Got) → sg_made s = true) ∧
  (sg_made s = true →
    registered (sg_registry s) = names cluster_metrics ∪ registered g0 ∧
    map_Forall (λ _ pc, pc = Got) (sg_getters s)).
Proof.
  intros Hfr Hr.
  apply (run_invariant GetClusterMetrics (λ s, sg_panicked s = false ∧ once_phase g0 s)) in Hr as [Hp Hs].
  - split; [done|]. destruct Hs as [Hm Hg _|g ds rest Hm Hg _ _|Hm Hg Hreg]; rewrite Hm.
    + split; [|done]. intros [g Hgot]. by rewrite Hg, lookup_empty in Hgot.
    + split; [|done]. intros [g' Hgot]. rewrite Hg in Hgot. by apply lookup_singleton_Some in Hgot as [_ ?].
    + done.
  - intros e s1 s2 [Hp1 Hs1] H2. by eapply GetClusterMetrics_once.
  - split; [done|]. by apply BeforeOnce.
Qed.

Lemma GetApi_make e s :
  sg_panicked s = false → (∀ g, e ≠ GetBegin g) → GetApiMetrics e s = make_step e s.
Proof. intros Hp He. unfold GetApiMetrics. rewrite Hp. destruct e; [by destruct (He g)|done..]. Qed.

Lemma GetApi_begin g s :
  sg_panicked s = false → sg_getters s !! g = None →
  GetApiMetrics (GetBegin g) s =
    Some (mkSingleton (sg_registry s) (sg_made s)
      (<[g := if sg_made s then Got else Registering api_metrics]> (sg_getters s)) false).
Proof. intros Hp Hg. unfold GetApiMetrics, begin_with. by rewrite Hp, Hg. Qed.

(** The API's metrics are made without a lock. One call of GetApiMetrics
    registers its seven names and a later one returns the same instance; but if
    a second call tests for nil before the first has stored its instance, it
    panics on the first name. *)
Theorem api_metrics_race g0 :
  names api_metrics ## registered g0 →
  (∃ s, run GetApiMetrics (whole_call 0 7 ++ [GetBegin 1]) (no_instance g0) = Some s ∧
     sg_panicked s = false ∧ sg_made s = true ∧ sg_getters s !! 1%nat = Some Got ∧
     registered (sg_registry s) = names api_metrics ∪ registered g0) ∧
  (∃ s, run GetApiMetrics [GetBegin 0; GetBegin 1; GetRegister 0; GetRegister 1] (no_instance g0) = Some s ∧
     sg_panicked s = true).
Proof.
  intros Hfr. split.
  - destruct (registers GetApiMetrics 0 api_metrics g0 (<[0%nat := Registering api_metrics]> ∅))
      as (r' & gs' & Hrun & Hreg & Hgs);
      [intros; by apply GetApi_make|apply api_names_NoDup|done|apply lookup_insert_eq|].
    assert (gs' !! 1%nat = None) as H1 by (by rewrite Hgs, !lookup_insert_ne, lookup_empty).
    exists (mkSingleton r' true (<[1%nat := Got]> gs') false). split; [|cbn; by rewrite lookup_insert_eq].
    unfold whole_call. cbn [app]. rewrite run_cons, GetApi_begin by done. unfold mbind. cbn [option_bind].
    rewrite run_app. change 7%nat with (length api_metrics). cbn [no_instance sg_registry sg_made sg_getters] in *.
    rewrite Hrun. unfold mbind. cbn [option_bind]. rewrite run_cons, GetApi_begin by done. reflexivity.
  - set (d := mkMetric "proxy_http_requests_total" "Total HTTP requests" (CounterVec ["method"; "endpoint"; "status"]%string)).
    destruct (register_fresh d g0) as (r1 & Hr1 & Hreg); [unfold names in Hfr; cbn in Hfr; set_solver|].
    destruct (register_duplicate d r1) as [p Hp]; [rewrite Hreg; set_solver|].
    set (gs := <[1%nat := Registering api_metrics]> (<[0%nat := Registering api_metrics]> ∅) : gmap nat getter).
    assert (gs !! 0%nat = Some (Registering api_metrics) ∧ gs !! 1%nat = Some (Registering api_metrics)) as [H0 H1]
      by (by vm_compute).
    exists (mkSingleton r1 false (<[0%nat := Registering (tl api_metrics)]> gs) true). split; [|done].
    rewrite run_cons, GetApi_begin by done. unfold mbind. cbn [option_bind].
    rewrite run_cons, GetApi_begin by done. unfold mbind. cbn [option_bind no_instance sg_registry sg_made sg_getters].
    fold gs. rewrite run_cons, GetApi_make by done. cbn [make_step sg_getters sg_registry sg_made]. rewrite H0.
    unfold api_metrics at 1. fold d. rewrite Hr1. unfold mbind. cbn [option_bind].
    rewrite run_cons, GetApi_make by done. cbn [make_step sg_getters sg_registry sg_made].
    rewrite lookup_insert_ne, H1 by done. unfold api_metrics at 1. fold d. rewrite Hp. reflexivity.
Qed.

End Singleton.

(** ** A registry, and concrete calls *)

(** The names in use, latest first. *)
#[export, refine] Instance list_registry : MetricRegistry (list string) :=
  { registered l := list_to_set l;
    MustRegister d l :=
      if decide (mt_name d ∈ l) then Panics (Raised "duplicate metrics collector registration")
      else Returns (mt_name d :: l) }.
Proof.
  - intros d l Hd. rewrite elem_of_list_to_set in Hd. exists (mt_name d :: l). by rewrite decide_False.
  - intros d l Hd. rewrite elem_of_list_to_set in Hd. eexists. by rewrite decide_True.
Defined.

(** Two goroutines; the second waits for the first. *)
Theorem cluster_metrics_registered_once_witness :
  ∃ s : singleton, run GetClusterMetrics (whole_call 0 14 ++ [GetBegin 1]) (no_instance ([] : list string)) = Some s ∧
    sg_made s = true ∧ registered (sg_registry s) = names cluster_metrics ∪ ∅.
Proof.
  destruct (run GetClusterMetrics (whole_call 0 14 ++ [GetBegin 1]) (no_instance ([] : list string))) as [s|] eqn:Hr;
    [|by vm_compute in Hr].
  assert (Some (sg_made s) = Some true) as Hm.
  { transitivity (sg_made <$> run GetClusterMetrics (whole_call 0 14 ++ [GetBegin 1]) (no_instance ([] : list string)));
      [by rewrite Hr|vm_compute; reflexivity]. }
  injection Hm as Hm. exists s. split; [reflexivity|]. split; [exact Hm|].
  destruct (cluster_metrics_registered_once ([] : list string) (whole_call 0 14 ++ [GetBegin 1]) s) as (_ & _ & H);
    [apply disjoint_empty_r|exact Hr|exact (proj1 (H Hm))].
Defined.

Theorem api_metrics_race_witness :
  ∃ s : singleton, run GetApiMetrics [GetBegin 0; GetBegin 1; GetRegister 0; GetRegister 1] (no_instance ([] : list string)) = Some s ∧
    sg_panicked s = true.
Proof. apply (api_metrics_race ([] : list string)). apply disjoint_empty_r. Defined.
