(* ===== verification/Config.v ===== *)
(** * Configuration (internal/config/config.go, cmd/proxy/main.go)

    The configuration record, its defaults (twice: [DefaultConfig] and the
    defaults given to viper), its validation, and the merge with the command
    line. viper itself is a parameter. *)

From S2P Require Import Prelude GoRuntime.

Local Open Scope string_scope.

(** ** The record *)

Record APIConfig := mkAPIConfig {
  api_Host : string;
  api_Port : Z;
  api_ReadTimeoutSec : Z;
  api_WriteTimeoutSec : Z;
  api_IdleTimeoutSec : Z;
  api_WSReadTimeoutSec : Z;
  api_WSWriteTimeoutSec : Z;
  api_WSReadLimitBytes : Z;
  api_DefaultMaxInflights : Z;
  api_AuthPath : string;
  api_TLSEnabled : bool;
  api_CertPath : string;
  api_KeyPath : string
}.

Record ClusterConfig := mkClusterConfig {
  cl_QUICAddr : string;
  cl_QUICPort : Z;
  cl_CertPath : string;
  cl_KeyPath : string;
  cl_CAPath : string;
  cl_DiscoveryKind : string;
  cl_DiscoveryYMLPath : string;
  cl_DiscoveryHTTPHost : string
}.

Record Config := mkConfig {
  cfg_ProxyID : string;
  cfg_API : APIConfig;
  cfg_Cluster : ClusterConfig
}.

(** ** DiscoveryKind, a uint8 *)

Inductive DiscoveryKind :=
  | DiscoveryKindStatic
  | DiscoveryKindHttp
  | DiscoveryKindOther (n : Z).

#[export] Instance DiscoveryKind_eq_dec : EqDecision DiscoveryKind.
Proof. solve_decision. Defined.

Definition DiscoveryKind_String (d : DiscoveryKind) : string :=
  match d with
  | DiscoveryKindStatic => "static"
  | DiscoveryKindHttp => "http"
  | DiscoveryKindOther _ => "unknown"
  end.

(** The kind is returned next to the error: callers that ignore the error get
    [DiscoveryKindStatic]. *)
Definition ParseDiscoveryKind (u : unicode) (s : string) : DiscoveryKind * option string :=
  let l := ToLower u s in
  if decide (l = "static") then (DiscoveryKindStatic, None)
  else if decide (l = "http") then (DiscoveryKindHttp, None)
  else (DiscoveryKindStatic, Some ("unknown discovery kind: " +:+ s)).

(** ** Defaults *)

Definition DefaultConfig : Config :=
  mkConfig ""
    (mkAPIConfig "0.0.0.0" 8080 45 0 300 0 30 32768 10 "./auth.yml" false
       "certs/api-cert.pem" "certs/api-key.pem")
    (mkClusterConfig "0.0.0.0" 8323 "certs/cluster-cert.pem" "certs/cluster-key.pem"
       "certs/cluster-ca.pem" "static" "./discovery.yml" "").

(** viper.SetDefault: key and value. *)
Inductive default_value :=
  | DInt (n : Z)
  | DString (s : string)
  | DBool (b : bool)
  | DStrings (l : list string).

Definition setDefaults : list (string * default_value) := [
  ("api.host", DString "0.0.0.0");
  ("api.port", DInt 8080);
  ("api.read_timeout_sec", DInt 30);
  ("api.write_timeout_sec", DInt 0);
  ("api.idle_timeout_sec", DInt 300);
  ("api.ws_read_timeout_sec", DInt 0);
  ("api.ws_write_timeout_sec", DInt 30);
  ("api.ws_read_limit_bytes", DInt 32768);
  ("api.default_max_inflights", DInt 10);
  ("api.auth_path", DString "./auth.yml");
  ("api.tls_enabled", DBool false);
  ("api.cert_path", DString "certs/api-cert.pem");
  ("api.key_path", DString "certs/api-key.pem");
  ("api.ca_path", DString "certs/api-ca.pem");
  ("cluster.quic_addr", DString "0.0.0.0");
  ("cluster.quic_port", DInt 8323);
  ("cluster.cluster_seeds", DStrings []);
  ("cluster.cert_path", DString "certs/cluster-cert.pem");
  ("cluster.key_path", DString "certs/cluster-key.pem");
  ("cluster.ca_path", DString "certs/cluster-ca.pem");
  ("cluster.discovery_yml_path", DString "./discovery.yml");
  ("cluster.discovery_kind", DString "static")
].

(** The mapstructure keys of a configuration's fields. *)
Definition config_values (c : Config) : list (string * default_value) :=
  let a := cfg_API c in
  let k := cfg_Cluster c in
  [ ("api.host", DString (api_Host a));
    ("api.port", DInt (api_Port a));
    ("api.read_timeout_sec", DInt (api_ReadTimeoutSec a));
    ("api.write_timeout_sec", DInt (api_WriteTimeoutSec a));
    ("api.idle_timeout_sec", DInt (api_IdleTimeoutSec a));
    ("api.ws_read_timeout_sec", DInt (api_WSReadTimeoutSec a));
    ("api.ws_write_timeout_sec", DInt (api_WSWriteTimeoutSec a));
    ("api.ws_read_limit_bytes", DInt (api_WSReadLimitBytes a));
    ("api.default_max_inflights", DInt (api_DefaultMaxInflights a));
    ("api.auth_path", DString (api_AuthPath a));
    ("api.tls_enabled", DBool (api_TLSEnabled a));
    ("api.cert_path", DString (api_CertPath a));
    ("api.key_path", DString (api_KeyPath a));
    ("cluster.quic_addr", DString (cl_QUICAddr k));
    ("cluster.quic_port", DInt (cl_QUICPort k));
    ("cluster.cert_path", DString (cl_CertPath k));
    ("cluster.key_path", DString (cl_KeyPath k));
    ("cluster.ca_path", DString (cl_CAPath k));
    ("cluster.discovery_kind", DString (cl_DiscoveryKind k));
    ("cluster.discovery_yml_path", DString (cl_DiscoveryYMLPath k));
    ("cluster.discovery_http_host", DString (cl_DiscoveryHTTPHost k)) ].

(** ** Validation *)

Definition validateDiscoveryConfig (u : unicode) (cfg : ClusterConfig) : option string :=
  match ParseDiscoveryKind u (cl_DiscoveryKind cfg) with
  | (_, Some err) =>
      Some ("invalid discovery_kind '" +:+ cl_DiscoveryKind cfg +:+ "': " +:+ err)
  | (DiscoveryKindStatic, None) =>
      if decide (TrimSpace u (cl_DiscoveryYMLPath cfg) = "") then
        Some "discovery_yml_path is required when discovery_kind=static"
      else None
  | (DiscoveryKindHttp, None) =>
      if decide (TrimSpace u (cl_DiscoveryHTTPHost cfg) = "") then
        Some "discovery_http_host is required when discovery_kind=http"
      else None
  | (DiscoveryKindOther _, None) =>
      Some ("unsupported discovery kind: " +:+ cl_DiscoveryKind cfg)
  end.

(** if cond { errs = append(errs, msg) } *)
Definition err_if (cond : bool) (msg : string) (errs : list string) : list string :=
  if cond then errs ++ [msg] else errs.

Definition validation_errors (u : unicode) (c : Config) : list string :=
  let a := cfg_API c in
  let k := cfg_Cluster c in
  let errs := [] in
  let errs := err_if (api_Port a <? 1)%Z ("invalid api.port: " +:+ pretty (api_Port a)) errs in
  let errs := err_if (cl_QUICPort k <? 1)%Z
    ("invalid cluster.quic_port: " +:+ pretty (cl_QUICPort k)) errs in
  let errs := err_if (api_DefaultMaxInflights a <? 1)%Z
    ("invalid default_max_inflights: " +:+ pretty (api_DefaultMaxInflights a)) errs in
  let errs := err_if (bool_decide ((ParseDiscoveryKind u (cl_DiscoveryKind k)).1 = DiscoveryKindStatic)
                      && bool_decide (cl_DiscoveryYMLPath k = ""))
    "cluster.discovery_yml_path is required for static discovery" errs in
  let errs :=
    if api_TLSEnabled a then
      let errs := err_if (bool_decide (api_CertPath a = ""))
        "api.cert_path is required when tls_enabled is true" errs in
      err_if (bool_decide (api_KeyPath a = ""))
        "api.key_path is required when tls_enabled is true" errs
    else errs in
  let errs := err_if (bool_decide (cl_CertPath k = "")) "cluster.cert_path is required" errs in
  let errs := err_if (bool_decide (cl_KeyPath k = "")) "cluster.key_path is required" errs in
  match validateDiscoveryConfig u k with
  | Some err => errs ++ [err]
  | None => errs
  end.

(** strings.Join *)
Fixpoint Join (l : list string) (sep : string) : string :=
  match l with
  | [] => ""
  | [x] => x
  | x :: rest => x +:+ sep +:+ Join rest sep
  end.

Definition newline : string := String (Ascii.ascii_of_nat 10) "".

Definition Validate (u : unicode) (c : Config) : option string :=
  let errs := validation_errors u c in
  if (0 <? length errs)%nat then
    Some ("config validation failed:" +:+ newline +:+ "- " +:+ Join errs (newline +:+ "- "))
  else None.

Definition GetAPIAddress (c : Config) : string :=
  api_Host (cfg_API c) +:+ ":" +:+ pretty (api_Port (cfg_API c)).
Definition GetQUICAddress (c : Config) : string :=
  cl_QUICAddr (cfg_Cluster c) +:+ ":" +:+ pretty (cl_QUICPort (cfg_Cluster c)).

(** ** Loading *)

Inductive read_error := ConfigFileNotFoundError | OtherReadError (msg : string).

Section Load.
(** viper: reading the file at a path (or on the search path), and unmarshalling
    file, environment and defaults into the record. *)
Context (ReadInConfig : string → option read_error)
  (Unmarshal : string → list (string * default_value) → result string Config)
  (u : unicode).

Definition LoadConfig (configPath : string) : result string Config :=
  let unmarshal :=
    match Unmarshal configPath setDefaults with
    | Err e => Err e
    | Ok cfg =>
        match Validate u cfg with
        | Some e => Err e
        | None => Ok cfg
        end
    end in
  match ReadInConfig configPath with
  | Some (OtherReadError e) => Err e
  | Some ConfigFileNotFoundError | None => unmarshal
  end.

(** ** Command line (cmd/proxy/main.go) *)

Record flags := mkFlags {
  f_version : bool;
  f_v : bool;
  f_config : string;
  f_api_host : string;
  f_api_port : Z;
  f_auth_file : string;
  f_quic_addr : string;
  f_quic_port : Z;
  f_api_cert : string;
  f_api_key : string;
  f_cluster_cert : string;
  f_cluster_key : string;
  f_cluster_ca : string;
  f_proxy_id : string;
  f_discovery_kind : string;
  f_discovery_yml : string;
  f_discovery_host : string
}.

(** What the flag package leaves in the variables when no flag is given. *)
Definition default_flags : flags :=
  mkFlags false false "" "" 0 "" "" 0 "" "" "" "" "" "" "static" "./discovery.yml" "".

Definition override (flag value : string) : string :=
  if decide (flag = "") then value else flag.
Definition override_port (flag value : Z) : Z := if (0 <? flag)%Z then flag else value.

Definition buildConfig (f : flags) : result string Config :=
  let base :=
    if decide (f_config f = "") then Ok DefaultConfig
    else
      match LoadConfig (f_config f) with
      | Ok cfg => Ok cfg
      | Err e => Err ("failed to load config: " +:+ e)
      end in
  cfg ← base;
  let a := cfg_API cfg in
  let k := cfg_Cluster cfg in
  Ok (mkConfig (f_proxy_id f)
    (mkAPIConfig (override (f_api_host f) (api_Host a))
       (override_port (f_api_port f) (api_Port a))
       (api_ReadTimeoutSec a) (api_WriteTimeoutSec a) (api_IdleTimeoutSec a)
       (api_WSReadTimeoutSec a) (api_WSWriteTimeoutSec a) (api_WSReadLimitBytes a)
       (api_DefaultMaxInflights a)
       (override (f_auth_file f) (api_AuthPath a))
       (if decide (f_api_cert f = "" ∧ f_api_key f = "") then api_TLSEnabled a else true)
       (override (f_api_cert f) (api_CertPath a))
       (override (f_api_key f) (api_KeyPath a)))
    (mkClusterConfig (override (f_quic_addr f) (cl_QUICAddr k))
       (override_port (f_quic_port f) (cl_QUICPort k))
       (override (f_cluster_cert f) (cl_CertPath k))
       (override (f_cluster_key f) (cl_KeyPath k))
       (override (f_cluster_ca f) (cl_CAPath k))
       (override (f_discovery_kind f) (cl_DiscoveryKind k))
       (override (f_discovery_yml f) (cl_DiscoveryYMLPath k))
       (override (f_discovery_host f) (cl_DiscoveryHTTPHost k)))).

(** What main does up to starting the proxy. *)
Inductive main_outcome :=
  | ExitMissingProxyID
  | ExitVersion
  | ExitConfig (err : string)
  | StartStatic (cfg : Config) (* loads the discovery file first *)
  | StartHttp (cfg : Config).

Definition main (f : flags) : main_outcome :=
  if decide (f_proxy_id f = "") then ExitMissingProxyID
  else if f_version f || f_v f then ExitVersion
  else
    match buildConfig f with
    | Err e => ExitConfig e
    | Ok cfg =>
        if decide ((ParseDiscoveryKind u (cl_DiscoveryKind (cfg_Cluster cfg))).1
                   = DiscoveryKindStatic)
        then StartStatic cfg else StartHttp cfg
    end.

End Load.

(** ** What validation accepts *)

(** A discovery configuration names a known kind, in any letter case, and the
    source that kind reads. *)
Definition discovery_ok (u : unicode) (k : ClusterConfig) : Prop :=
  ToLower u (cl_DiscoveryKind k) = "static" ∧ TrimSpace u (cl_DiscoveryYMLPath k) ≠ "" ∨
  ToLower u (cl_DiscoveryKind k) = "http" ∧ TrimSpace u (cl_DiscoveryHTTPHost k) ≠ "".

Definition tls_ok (a : APIConfig) : Prop :=
  api_TLSEnabled a = true → api_CertPath a ≠ "" ∧ api_KeyPath a ≠ "".

Definition config_ok (u : unicode) (c : Config) : Prop :=
  (1 <= api_Port (cfg_API c))%Z ∧ (1 <= cl_QUICPort (cfg_Cluster c))%Z ∧
  (1 <= api_DefaultMaxInflights (cfg_API c))%Z ∧
  cl_CertPath (cfg_Cluster c) ≠ "" ∧ cl_KeyPath (cfg_Cluster c) ≠ "" ∧
  tls_ok (cfg_API c) ∧ discovery_ok u (cfg_Cluster c).

Lemma ParseDiscoveryKind_cases u s :
  ToLower u s = "static" ∧ ParseDiscoveryKind u s = (DiscoveryKindStatic, None) ∨
  ToLower u s = "http" ∧ ParseDiscoveryKind u s = (DiscoveryKindHttp, None) ∨
  ToLower u s ≠ "static" ∧ ToLower u s ≠ "http" ∧
    ParseDiscoveryKind u s = (DiscoveryKindStatic, Some ("unknown discovery kind: " +:+ s)).
Proof. unfold ParseDiscoveryKind. repeat case_decide; auto. Qed.

Lemma validateDiscoveryConfig_ok u k :
  validateDiscoveryConfig u k = None ↔ discovery_ok u k.
Proof.
  unfold validateDiscoveryConfig, discovery_ok.
  destruct (ParseDiscoveryKind_cases u (cl_DiscoveryKind k))
    as [[Hl ->]|[[Hl ->]|(Hl1 & Hl2 & ->)]]; [rewrite Hl..|];
    repeat case_decide; intuition congruence.
Qed.

(** The check of the path made before the one on discovery adds nothing. *)
Lemma static_path_check u k :
  discovery_ok u k →
  bool_decide ((ParseDiscoveryKind u (cl_DiscoveryKind k)).1 = DiscoveryKindStatic)
    && bool_decide (cl_DiscoveryYMLPath k = "") = false.
Proof.
  intros Hd. destruct (decide (cl_DiscoveryYMLPath k = "")) as [He|He].
  - rewrite andb_comm, bool_decide_true by done. cbn. apply bool_decide_false.
    destruct Hd as [[_ Ht]|[Hl _]]; [by rewrite He in Ht|].
    unfold ParseDiscoveryKind. by rewrite Hl.
  - by rewrite andb_comm, bool_decide_false.
Qed.

Lemma err_if_nil b m l : err_if b m l = [] ↔ b = false ∧ l = [].
Proof. destruct b, l; cbn; naive_solver. Qed.

Lemma validation_errors_nil u c : validation_errors u c = [] ↔ config_ok u c.
Proof.
  unfold validation_errors, config_ok, tls_ok.
  rewrite <- validateDiscoveryConfig_ok.
  destruct (validateDiscoveryConfig u (cfg_Cluster c)) eqn:Hv.
  { split; [intros [_ [=]]%app_nil|naive_solver]. }
  apply validateDiscoveryConfig_ok, static_path_check in Hv.
  destruct (api_TLSEnabled (cfg_API c));
    rewrite ?err_if_nil, Hv, ?bool_decide_eq_false, ?Z.ltb_ge; intuition congruence.
Qed.

Lemma Validate_nil u c : Validate u c = None ↔ validation_errors u c = [].
Proof. unfold Validate. by destruct (validation_errors u c). Qed.

(** C35: [Validate] accepts a configuration exactly when both ports and the
    in-flight limit are at least one, the cluster key pair is named, the API
    key pair is named if TLS is on, and discovery has a known kind (in any
    letter case) with a source that is not blank. The two ports have no upper
    bound. *)
Theorem Validate_exact (u : unicode) (c : Config) :
  Validate u c = None ↔ config_ok u c.
Proof. by rewrite Validate_nil, validation_errors_nil. Qed.

Lemma DefaultConfig_ok u : config_ok u DefaultConfig.
Proof.
  unfold config_ok, tls_ok, discovery_ok. cbn.
  repeat split; try lia; try done. by left.
Qed.

(** ** The merge with the command line *)

Lemma override_nonempty f v : v ≠ "" → override f v ≠ "".
Proof. unfold override. by case_decide. Qed.

Lemma override_port_pos f v : (1 <= v)%Z → (1 <= override_port f v)%Z.
Proof. unfold override_port. case_match eqn:Hf; reflect_arith; lia. Qed.

Section Merge.
Context (ReadInConfig : string → option read_error)
  (Unmarshal : string → list (string * default_value) → result string Config)
  (u : unicode).

Abbreviation load := (LoadConfig ReadInConfig Unmarshal u).
Abbreviation build := (buildConfig ReadInConfig Unmarshal u).
Abbreviation start := (main ReadInConfig Unmarshal u).

Lemma LoadConfig_ok path c : load path = Ok c → config_ok u c.
Proof.
  rewrite <- validation_errors_nil, <- Validate_nil.
  unfold LoadConfig. intros H. repeat (case_match; simplify_eq); done.
Qed.

(** The configuration the flags are applied to is a valid one. *)
Lemma buildConfig_base f cfg :
  build f = Ok cfg →
  ∃ base, config_ok u base ∧
    (f_config f ≠ "" → load (f_config f) = Ok base) ∧
    (f_config f = "" → base = DefaultConfig) ∧
    cfg_ProxyID cfg = f_proxy_id f ∧
    api_Port (cfg_API cfg) = override_port (f_api_port f) (api_Port (cfg_API base)) ∧
    api_DefaultMaxInflights (cfg_API cfg) = api_DefaultMaxInflights (cfg_API base) ∧
    cl_QUICPort (cfg_Cluster cfg) = override_port (f_quic_port f) (cl_QUICPort (cfg_Cluster base)) ∧
    cl_CertPath (cfg_Cluster cfg) = override (f_cluster_cert f) (cl_CertPath (cfg_Cluster base)) ∧
    cl_KeyPath (cfg_Cluster cfg) = override (f_cluster_key f) (cl_KeyPath (cfg_Cluster base)) ∧
    cl_DiscoveryKind (cfg_Cluster cfg)
      = override (f_discovery_kind f) (cl_DiscoveryKind (cfg_Cluster base)).
Proof.
  unfold buildConfig. intros [base [Hb [= <-]]]%result_bind_ok. exists base.
  case_decide as He; simplify_eq.
  - split; [apply DefaultConfig_ok|]. repeat split; done.
  - destruct (load (f_config f)) as [b|] eqn:Hl; simplify_eq.
    split; [by eapply LoadConfig_ok|]. repeat split; done.
Qed.

(** C36: The merge of a configuration file with the command line is not
    validated again; whatever the flags, the result can be invalid in two ways
    only: its discovery settings, or API TLS being on without a key pair. *)
Theorem merged_config_valid (f : flags) (cfg : Config) :
  build f = Ok cfg →
  (Validate u cfg = None ↔ tls_ok (cfg_API cfg) ∧ discovery_ok u (cfg_Cluster cfg)).
Proof.
  intros (base & Hok & _ & _ & _ & Hp & Hm & Hq & Hc & Hk & _)%buildConfig_base.
  rewrite Validate_nil, validation_errors_nil. split; [by intros (?&?&?&?&?&?&?)|].
  intros [Ht Hd]. destruct Hok as (H1 & H2 & H3 & H4 & H5 & _).
  unfold config_ok. rewrite Hp, Hm, Hq, Hc, Hk.
  split_and!; auto using override_nonempty, override_port_pos.
Qed.

(** The discovery kind of a configuration file has no effect: the flag's
    own default, "static", replaces it, so that without the flag
    [-discovery-kind] the proxy never starts with HTTP discovery. *)
Theorem file_discovery_kind_ignored (f : flags) (cfg : Config) :
  f_discovery_kind f = f_discovery_kind default_flags →
  build f = Ok cfg →
  cl_DiscoveryKind (cfg_Cluster cfg) = "static" ∧
  start f ≠ StartHttp cfg.
Proof.
  intros Hf Hb.
  pose proof (buildConfig_base _ _ Hb) as (base & _ & _ & _ & _ & _ & _ & _ & _ & _ & Hd).
  rewrite Hf in Hd. cbn in Hd. split; [done|].
  unfold main. rewrite Hb, Hd. repeat case_decide; try done; by case_match.
Qed.

End Merge.

(** ** Concrete configurations *)

(** Every letter is ASCII in the examples: the tables are not consulted. *)
Definition ascii_unicode : unicode := Unicode id id.

(** A file that turns API TLS off, leaves its key pair blank and asks for HTTP
    discovery. *)
Definition example_file : Config :=
  mkConfig ""
    (mkAPIConfig "0.0.0.0" 8080 45 0 300 0 30 32768 10 "./auth.yml" false "" "")
    (mkClusterConfig "0.0.0.0" 8323 "c.pem" "k.pem" "ca.pem" "HTTP" "" "http://peers").

Definition example_read (path : string) : option read_error := None.
Definition example_unmarshal (path : string) (d : list (string * default_value)) :
  result string Config := Ok example_file.

Definition example_flags : flags :=
  mkFlags false false "config.yml" "" 0 "" "" 0 "api.pem" "" "" "" "" "proxy1"
    "static" "./discovery.yml" "".

Definition example_merged : Config :=
  mkConfig "proxy1"
    (mkAPIConfig "0.0.0.0" 8080 45 0 300 0 30 32768 10 "./auth.yml" true "api.pem" "")
    (mkClusterConfig "0.0.0.0" 8323 "c.pem" "k.pem" "ca.pem" "static" "./discovery.yml"
       "http://peers").

Theorem merged_config_valid_witness :
  buildConfig example_read example_unmarshal ascii_unicode example_flags = Ok example_merged ∧
  (Validate ascii_unicode example_merged = None ↔
   tls_ok (cfg_API example_merged) ∧ discovery_ok ascii_unicode (cfg_Cluster example_merged)).
Proof.
  split; [reflexivity|].
  apply (merged_config_valid example_read example_unmarshal ascii_unicode example_flags).
  reflexivity.
Defined.

Theorem file_discovery_kind_ignored_witness :
  validation_errors ascii_unicode example_file = [] ∧
  cl_DiscoveryKind (cfg_Cluster example_merged) = "static" ∧
  main example_read example_unmarshal ascii_unicode example_flags ≠ StartHttp example_merged.
Proof.
  split; [reflexivity|].
  apply (file_discovery_kind_ignored example_read example_unmarshal ascii_unicode example_flags
           example_merged); reflexivity.
Defined.

(** A file that validates and flags that name only an API certificate give
    a merged configuration that has TLS on with no key path: [Validate] would
    refuse it, and [main] starts with it. *)
Theorem merge_skips_validation :
  Validate ascii_unicode example_file = None ∧
  main example_read example_unmarshal ascii_unicode example_flags = StartStatic example_merged ∧
  Validate ascii_unicode example_merged =
    Some ("config validation failed:" +:+ newline +:+
          "- api.key_path is required when tls_enabled is true").
Proof. repeat split; vm_compute; reflexivity. Qed.

(** The answer to [-version] alone is the missing identifier. *)
Example version_needs_proxy_id ReadInConfig Unmarshal u :
  main ReadInConfig Unmarshal u
    (mkFlags true false "" "" 0 "" "" 0 "" "" "" "" "" "" "static" "./discovery.yml" "")
  = ExitMissingProxyID.
Proof. done. Qed.

#[export] Instance default_value_eq_dec : EqDecision default_value.
Proof. solve_decision. Defined.

(** The value viper falls back on for a key. *)
Fixpoint default_of (k : string) (l : list (string * default_value)) : option default_value :=
  match l with
  | [] => None
  | (k', v) :: rest => if decide (k = k') then Some v else default_of k rest
  end.

(** The fields for which the two sets of defaults disagree: the read timeout,
    and the discovery host, which viper leaves at the zero value. *)
Example defaults_disagree :
  filter (λ kv, default_of kv.1 setDefaults ≠ Some kv.2) (config_values DefaultConfig)
  = [("api.read_timeout_sec", DInt 45); ("cluster.discovery_http_host", DString "")].
Proof. vm_compute. reflexivity. Qed.
