(* ===== verification/JobBuffer.v ===== *)
(** * Per-topic job buffer (internal/cluster/job_buffer.go)

    Producers' AddJobs requests are stored, drained every 20 ms into one
    request to the leader, and the leader's answer is split again over the
    producers that wait for it. [buffer], [drain] and [dispatchResponse] are the
    handlers of the goroutine [Run]; [jb_step] is that goroutine with its
    environment (the cluster agent filling and emptying its channels). *)

From S2P Require Import Prelude GoRuntime Messages.

Local Open Scope Z_scope.

(** ** State *)

Record ApiWaiting := mkWaiting {
  aw_ApiReqID : Z;
  aw_RespCh : option chanid;
  aw_JobHashes : list Z
}.

(** The fields of the struct that change. [sendJobsCh] and
    [jobsRequestCounter] are shared with the agent and threaded separately;
    [ticker], [done] and [ctx] are part of the goroutine's environment. *)
Record JobBuffer := mkJobBuffer {
  jb_topic : string;
  jb_store : chan ApiRequestWithRespCh;
  jb_bufferedCount : Z;
  jb_bufferedJobsCount : Z;
  jb_waitingMap : gmap Z (list ApiWaiting);
  jb_apiInputCh : chan ApiRequestWithRespCh;
  jb_responseInputCh : chan ToProducerResponse
}.

Definition store_cap : Z := 1024.
Definition input_cap : Z := 1024.
Definition sendJobs_cap : Z := 128.

Definition NewJobBuffer (topic : string) : JobBuffer :=
  mkJobBuffer topic (make_chan store_cap) 0 0 ∅ (make_chan input_cap) (make_chan input_cap).

(** ** buffer *)

Definition buffer (request : ApiRequestWithRespCh) (b : JobBuffer) : exec JobBuffer :=
  (* b.store <- request blocks when the channel is full *)
  if chan_full (jb_store b) then Blocks
  else
    p ← deref (pr_AddJobs (ar_ProxyRequest request));
    Returns (mkJobBuffer (jb_topic b) (chan_push (jb_store b) request)
      (int32 (jb_bufferedCount b + 1))
      (int32 (jb_bufferedJobsCount b + int32 (Z.of_nat (length (aj_Jobs p)))))
      (jb_waitingMap b) (jb_apiInputCh b) (jb_responseInputCh b)).

(** ** drain *)

(** The inner loop: append the jobs to [allJobs] and hash their ids. *)
Fixpoint hash_jobs (jobs : list (option Job)) (allJobs : list (option Job))
    (jobHashes : list Z) : exec (list (option Job) * list Z) :=
  match jobs with
  | [] => Returns (allJobs, jobHashes)
  | job :: rest =>
      j ← deref job;
      hash_jobs rest (allJobs ++ [job]) (jobHashes ++ [Fnv.sum64a (job_ID j)])
  end.

(** for i := 0; i < int(bufferCount); i++ *)
Fixpoint drain_loop (n : nat) (store : list ApiRequestWithRespCh)
    (allJobs : list (option Job)) (waitingList : list ApiWaiting)
    : exec (list ApiRequestWithRespCh * list (option Job) * list ApiWaiting) :=
  match n with
  | O => Returns (store, allJobs, waitingList)
  | S n' =>
      match store with
      | [] => Blocks (* req := <-b.store *)
      | req :: store' =>
          payload ← deref (pr_AddJobs (ar_ProxyRequest req));
          '(allJobs', jobHashes) ← hash_jobs (aj_Jobs payload) allJobs [];
          drain_loop n' store' allJobs'
            (waitingList ++
              [mkWaiting (pr_RequestID (ar_ProxyRequest req)) (ar_RespCh req) jobHashes])
      end
  end.

(** make([]T, 0, n) *)
Definition make_slice (n : Z) : exec unit :=
  if n <? 0 then Panics MakeSliceRange else Returns tt.

(** The whole of [drain] up to its last statement, the blocking send of the
    returned request on [sendJobsCh]; [ctr] is the shared [jobsRequestCounter]. *)
Definition drain (ctr : Z) (b : JobBuffer) : exec (Z * JobBuffer * option ProxyRequest) :=
  if (chan_len (jb_store b) =? 0)%nat then Returns (ctr, b, None)
  else
    let bufferCount := jb_bufferedCount b in
    make_slice (jb_bufferedJobsCount b);;
    make_slice bufferCount;;
    '(store', allJobs, waitingList) ←
      drain_loop (Z.to_nat bufferCount) (ch_buf (jb_store b)) [] [];
    let requestID := uint32 (ctr + 1) in
    Returns (requestID,
      mkJobBuffer (jb_topic b) (Chan (ch_cap (jb_store b)) store') 0 0
        (<[requestID := waitingList]> (jb_waitingMap b))
        (jb_apiInputCh b) (jb_responseInputCh b),
      Some (add_jobs_request requestID (mkAddJobs (jb_topic b) allJobs))).

(** ** dispatchResponse *)

Definition jobBelongsToClient (jobID : string) (clientHashes : list Z) : bool :=
  bool_decide (Fnv.sum64a jobID ∈ clientHashes).

Definition delete_waiting (id : Z) (b : JobBuffer) : JobBuffer :=
  mkJobBuffer (jb_topic b) (jb_store b) (jb_bufferedCount b) (jb_bufferedJobsCount b)
    (delete id (jb_waitingMap b)) (jb_apiInputCh b) (jb_responseInputCh b).

(** The three loops of the function, in the order of the source. *)
Fixpoint dispatch_success (calls : list ApiWaiting) (h : resp_heap) : resp_heap :=
  match calls with
  | [] => h
  | call :: rest =>
      dispatch_success rest
        (send_default (aw_RespCh call) (success_response (aw_ApiReqID call)) h)
  end.

Fixpoint dispatch_error (err : string) (calls : list ApiWaiting) (h : resp_heap) : resp_heap :=
  match calls with
  | [] => h
  | call :: rest =>
      dispatch_error err rest
        (send_default (aw_RespCh call) (error_response (aw_ApiReqID call) err) h)
  end.

Fixpoint client_failures (fs : list JobFailure) (hashes : list Z) (acc : list JobFailure)
    : list JobFailure :=
  match fs with
  | [] => acc
  | f :: rest =>
      client_failures rest hashes
        (if jobBelongsToClient (jf_JobID f) hashes then acc ++ [f] else acc)
  end.

Fixpoint dispatch_partial (resp : ToProducerResponse) (calls : list ApiWaiting)
    (h : resp_heap) : resp_heap :=
  match calls with
  | [] => h
  | call :: rest =>
      match aw_RespCh call with
      | None => dispatch_partial resp rest h (* continue *)
      | Some ch =>
          let clientFailures := client_failures (tp_Failures resp) (aw_JobHashes call) [] in
          let h' :=
            if (0 <? length clientFailures)%nat then
              send_default (Some ch)
                (mkResponse (aw_ApiReqID call) ToProxyRespStatusError
                   (tp_Error resp) clientFailures) h
            else send_default (Some ch) (success_response (aw_ApiReqID call)) h in
          dispatch_partial resp rest h'
      end
  end.

Definition dispatchResponse (resp : ToProducerResponse) (b : JobBuffer) (h : resp_heap)
    : JobBuffer * resp_heap :=
  match jb_waitingMap b !! tp_RequestID resp with
  | None => (b, h)
  | Some waitingList =>
      if decide (tp_Status resp = ToProxyRespStatusSuccess) then
        (delete_waiting (tp_RequestID resp) b, dispatch_success waitingList h)
      else if bool_decide (tp_Status resp = ToProxyRespStatusError)
              && (length (tp_Failures resp) =? 0)%nat then
        (delete_waiting (tp_RequestID resp) b, dispatch_error (tp_Error resp) waitingList h)
      else
        (delete_waiting (tp_RequestID resp) b, dispatch_partial resp waitingList h)
  end.

(** ** Run: the goroutine and its environment *)

(** Where the goroutine is: in its [select], inside the blocking send of
    [buffer], inside the blocking send of [drain], returned, or dead. *)
Inductive jb_pc :=
  | Selecting
  | StoreBlocked (request : ApiRequestWithRespCh)
  | Sending (batch : ProxyRequest)
  | Exited
  | Crashed (p : panic).

Definition crashed (pc : jb_pc) : bool := match pc with Crashed _ => true | _ => false end.

Record jb_state := mkJB {
  js_buf : JobBuffer;
  js_pc : jb_pc;
  js_counter : Z;
  js_sendJobsCh : chan ProxyRequest;
  js_heap : resp_heap;
  js_tick : bool;
  js_stopped : bool
}.

(** The first five are the environment's, the others the branches of [select]
    and the completion of a blocking send. *)
Inductive jb_event :=
  | EvApi (request : ApiRequestWithRespCh)
  | EvResponse (resp : ToProducerResponse)
  | EvTick
  | EvStop
  | EvTake
  | RunStop
  | RunApi
  | RunResponse
  | RunTick
  | RunStore
  | RunSend.

Definition set_buf (b : JobBuffer) (s : jb_state) : jb_state :=
  mkJB b (js_pc s) (js_counter s) (js_sendJobsCh s) (js_heap s) (js_tick s) (js_stopped s).
Definition set_pc (pc : jb_pc) (s : jb_state) : jb_state :=
  mkJB (js_buf s) pc (js_counter s) (js_sendJobsCh s) (js_heap s) (js_tick s) (js_stopped s).

Definition set_apiInputCh (c : chan ApiRequestWithRespCh) (b : JobBuffer) : JobBuffer :=
  mkJobBuffer (jb_topic b) (jb_store b) (jb_bufferedCount b) (jb_bufferedJobsCount b)
    (jb_waitingMap b) c (jb_responseInputCh b).
Definition set_responseInputCh (c : chan ToProducerResponse) (b : JobBuffer) : JobBuffer :=
  mkJobBuffer (jb_topic b) (jb_store b) (jb_bufferedCount b) (jb_bufferedJobsCount b)
    (jb_waitingMap b) (jb_apiInputCh b) c.

Definition jb_init (topic : string) : jb_state :=
  mkJB (NewJobBuffer topic) Selecting 0 (make_chan sendJobs_cap) ∅ false false.

(** [buffer] run by the goroutine: it may stay inside the call. *)
Definition run_buffer (request : ApiRequestWithRespCh) (s : jb_state) : jb_state :=
  match buffer request (js_buf s) with
  | Returns b => set_pc Selecting (set_buf b s)
  | Blocks => set_pc (StoreBlocked request) s
  | Panics p => set_pc (Crashed p) s
  end.

Definition jb_step (l : jb_event) (s : jb_state) : option jb_state :=
  let b := js_buf s in
  match l with
  | EvApi request =>
      if chan_full (jb_apiInputCh b) then None
      else Some (set_buf (set_apiInputCh (chan_push (jb_apiInputCh b) request) b) s)
  | EvResponse resp =>
      if chan_full (jb_responseInputCh b) then None
      else Some (set_buf (set_responseInputCh (chan_push (jb_responseInputCh b) resp) b) s)
  | EvTick =>
      Some (mkJB b (js_pc s) (js_counter s) (js_sendJobsCh s) (js_heap s) true (js_stopped s))
  | EvStop =>
      Some (mkJB b (js_pc s) (js_counter s) (js_sendJobsCh s) (js_heap s) (js_tick s) true)
  | EvTake =>
      '(_, c) ← recv (js_sendJobsCh s);
      Some (mkJB b (js_pc s) (js_counter s) c (js_heap s) (js_tick s) (js_stopped s))
  | RunStop =>
      match js_pc s with
      | Selecting => if js_stopped s then Some (set_pc Exited s) else None
      | _ => None
      end
  | RunApi =>
      match js_pc s with
      | Selecting =>
          '(request, c) ← recv (jb_apiInputCh b);
          Some (run_buffer request (set_buf (set_apiInputCh c b) s))
      | _ => None
      end
  | RunResponse =>
      match js_pc s with
      | Selecting =>
          '(resp, c) ← recv (jb_responseInputCh b);
          let '(b', h') := dispatchResponse resp (set_responseInputCh c b) (js_heap s) in
          Some (mkJB b' Selecting (js_counter s) (js_sendJobsCh s) h' (js_tick s) (js_stopped s))
      | _ => None
      end
  | RunTick =>
      match js_pc s with
      | Selecting =>
          if js_tick s then
            let mk b' pc ctr :=
              Some (mkJB b' pc ctr (js_sendJobsCh s) (js_heap s) false (js_stopped s)) in
            match drain (js_counter s) b with
            | Returns (ctr, b', None) => mk b' Selecting ctr
            | Returns (ctr, b', Some batch) => mk b' (Sending batch) ctr
            | Blocks => None
            | Panics p => mk b (Crashed p) (js_counter s)
            end
          else None
      | _ => None
      end
  | RunStore =>
      match js_pc s with
      | StoreBlocked request =>
          if chan_full (jb_store b) then None else Some (run_buffer request s)
      | _ => None
      end
  | RunSend =>
      match js_pc s with
      | Sending batch =>
          if chan_full (js_sendJobsCh s) then None
          else Some (mkJB b Selecting (js_counter s) (chan_push (js_sendJobsCh s) batch)
                       (js_heap s) (js_tick s) (js_stopped s))
      | _ => None
      end
  end.

(** ** Specification vocabulary *)

Definition req_jobs (r : ApiRequestWithRespCh) : list (option Job) :=
  match pr_AddJobs (ar_ProxyRequest r) with
  | Some p => aj_Jobs p
  | None => []
  end.

(** The ids of the non-nil jobs of a request, in order. *)
Definition req_ids (r : ApiRequestWithRespCh) : list string := omap (fmap job_ID) (req_jobs r).

(** A request [drain] can process: AddJobs and every job pointer non-nil. *)
Definition wf_req (r : ApiRequestWithRespCh) : Prop :=
  is_Some (pr_AddJobs (ar_ProxyRequest r)) ∧ Forall is_Some (req_jobs r).

Definition waiting_of (r : ApiRequestWithRespCh) : ApiWaiting :=
  mkWaiting (pr_RequestID (ar_ProxyRequest r)) (ar_RespCh r) (Fnv.sum64a <$> req_ids r).

Definition stored_jobs (b : JobBuffer) : list (option Job) :=
  concat (req_jobs <$> ch_buf (jb_store b)).

(** The counters agree with the store, the store is within its capacity and
    holds AddJobs requests only. *)
Record jb_inv (b : JobBuffer) : Prop := {
  inv_cap : ch_cap (jb_store b) = store_cap;
  inv_ok : chan_ok (jb_store b);
  inv_count : jb_bufferedCount b = Z.of_nat (chan_len (jb_store b));
  inv_jobs : jb_bufferedJobsCount b = int32 (Z.of_nat (length (stored_jobs b)));
  inv_addjobs : Forall (λ r, is_Some (pr_AddJobs (ar_ProxyRequest r))) (ch_buf (jb_store b))
}.

(** The answer one waiting producer gets to a leader's response. *)
Definition answer (resp : ToProducerResponse) (call : ApiWaiting) : ToProducerResponse :=
  if decide (tp_Status resp = ToProxyRespStatusSuccess) then
    success_response (aw_ApiReqID call)
  else if bool_decide (tp_Status resp = ToProxyRespStatusError)
          && (length (tp_Failures resp) =? 0)%nat then
    error_response (aw_ApiReqID call) (tp_Error resp)
  else
    let fs := filter (λ f, Fnv.sum64a (jf_JobID f) ∈ aw_JobHashes call) (tp_Failures resp) in
    if decide (fs = []) then success_response (aw_ApiReqID call)
    else mkResponse (aw_ApiReqID call) ToProxyRespStatusError (tp_Error resp) fs.

(** Deliver to every waiting producer, in the order of the list. *)
Definition deliver_all (resp : ToProducerResponse) (calls : list ApiWaiting) (h : resp_heap)
    : resp_heap :=
  foldl (λ h call, send_default (aw_RespCh call) (answer resp call) h) h calls.

(** What a producer is promised, in terms of the ids of its own jobs. *)
Definition promised (resp : ToProducerResponse) (r : ApiRequestWithRespCh) : ToProducerResponse :=
  let id := pr_RequestID (ar_ProxyRequest r) in
  if decide (tp_Status resp = ToProxyRespStatusSuccess) then success_response id
  else if bool_decide (tp_Status resp = ToProxyRespStatusError)
          && (length (tp_Failures resp) =? 0)%nat then
    error_response id (tp_Error resp)
  else
    let fs := filter (λ f, jf_JobID f ∈ req_ids r) (tp_Failures resp) in
    if decide (fs = []) then success_response id
    else mkResponse id ToProxyRespStatusError (tp_Error resp) fs.

(** ** Lemmas: buffer *)

Lemma buffer_returns r b b' :
  buffer r b = Returns b' →
  chan_full (jb_store b) = false ∧ is_Some (pr_AddJobs (ar_ProxyRequest r)) ∧
  jb_store b' = chan_push (jb_store b) r ∧
  jb_bufferedCount b' = int32 (jb_bufferedCount b + 1) ∧
  jb_bufferedJobsCount b' =
    int32 (jb_bufferedJobsCount b + int32 (Z.of_nat (length (req_jobs r)))) ∧
  jb_topic b' = jb_topic b ∧ jb_waitingMap b' = jb_waitingMap b ∧
  jb_apiInputCh b' = jb_apiInputCh b ∧ jb_responseInputCh b' = jb_responseInputCh b.
Proof.
  unfold buffer, req_jobs. destruct (chan_full _); [done|].
  destruct (pr_AddJobs _) as [p|]; cbn; [|done]. intros [= <-]. cbn. eauto 12.
Qed.

Lemma chan_push_buf {A} (c : chan A) v : ch_buf (chan_push c v) = ch_buf c ++ [v].
Proof. done. Qed.

Lemma buffer_inv r b b' : jb_inv b → buffer r b = Returns b' → jb_inv b'.
Proof.
  intros [Hcap Hok Hc Hj Ha] (Hf & Hp & Hs & Hc' & Hj' & _)%buffer_returns.
  assert (chan_len (chan_push (jb_store b) r) = S (chan_len (jb_store b))) as Hlen.
  { unfold chan_len. rewrite chan_push_buf, length_app. cbn. lia. }
  unfold chan_full in Hf. reflect_arith. rewrite Hcap in Hf. unfold store_cap in Hf.
  split.
  - by rewrite Hs.
  - unfold chan_ok. rewrite Hs, Hlen. cbn. rewrite Hcap. unfold store_cap. lia.
  - rewrite Hc', Hc, Hs, Hlen, int32_small; lia.
  - rewrite Hj', Hj. unfold stored_jobs.
    rewrite Hs, chan_push_buf, concat_fmap_snoc, length_app.
    unfold int32. rewrite swrap_add_l, swrap_add_r by lia. f_equal. lia.
  - rewrite Hs, chan_push_buf. apply Forall_app. split; [done|]. by constructor.
Qed.

(** ** Lemmas: drain *)

Lemma hash_jobs_spec jobs allJobs hs :
  Forall is_Some jobs →
  hash_jobs jobs allJobs hs =
    Returns (allJobs ++ jobs, hs ++ (Fnv.sum64a <$> omap (fmap job_ID) jobs)).
Proof.
  intros Hj. revert allJobs hs.
  induction Hj as [|job jobs [j ->] _ IH]; intros allJobs hs; cbn.
  - by rewrite !app_nil_r.
  - rewrite IH. by rewrite <- !app_assoc.
Qed.

Lemma hash_jobs_nil jobs allJobs hs :
  ¬ Forall is_Some jobs → hash_jobs jobs allJobs hs = Panics NilDereference.
Proof.
  revert allJobs hs. induction jobs as [|[j|] jobs IH]; intros allJobs hs Hn; cbn.
  - destruct Hn. constructor.
  - apply IH. intros Hj. apply Hn. by constructor.
  - done.
Qed.

Lemma req_jobs_some r p : pr_AddJobs (ar_ProxyRequest r) = Some p → req_jobs r = aj_Jobs p.
Proof. unfold req_jobs. by intros ->. Qed.

Lemma drain_loop_spec store rest allJobs ws :
  Forall wf_req store →
  drain_loop (length store) (store ++ rest) allJobs ws =
    Returns (rest, allJobs ++ concat (req_jobs <$> store), ws ++ (waiting_of <$> store)).
Proof.
  intros Hs. revert allJobs ws.
  induction Hs as [|r store [[p Hp] Hj] _ IH]; intros allJobs ws; cbn.
  - by rewrite !app_nil_r.
  - rewrite Hp. cbn. rewrite (req_jobs_some r p Hp) in *.
    rewrite hash_jobs_spec by done. cbn.
    rewrite IH. unfold waiting_of at 2, req_ids.
    rewrite (req_jobs_some r p Hp). by rewrite <- !app_assoc.
Qed.

Lemma drain_loop_nil store allJobs ws :
  Forall (λ r, is_Some (pr_AddJobs (ar_ProxyRequest r))) store → ¬ Forall wf_req store →
  drain_loop (length store) store allJobs ws = Panics NilDereference.
Proof.
  intros Ha. revert allJobs ws.
  induction Ha as [|r store [p Hp] _ IH]; intros allJobs ws Hn; cbn.
  - destruct Hn. constructor.
  - rewrite Hp. cbn. destruct (decide (Forall is_Some (aj_Jobs p))) as [Hj|Hj].
    + rewrite hash_jobs_spec by done. cbn. apply IH. intros Hw. apply Hn.
      constructor; [|done]. split; [by eexists|]. by rewrite (req_jobs_some r p Hp).
    + by rewrite hash_jobs_nil.
Qed.

(** The batch and the waiting list [drain] builds from a store. *)
Definition batch_of (topic : string) (id : Z) (store : list ApiRequestWithRespCh) : ProxyRequest :=
  add_jobs_request id (mkAddJobs topic (concat (req_jobs <$> store))).

Definition drained (id : Z) (b : JobBuffer) : JobBuffer :=
  mkJobBuffer (jb_topic b) (Chan (ch_cap (jb_store b)) []) 0 0
    (<[id := waiting_of <$> ch_buf (jb_store b)]> (jb_waitingMap b))
    (jb_apiInputCh b) (jb_responseInputCh b).

Lemma make_slice_nonneg n : 0 <= n → make_slice n = Returns tt.
Proof. intros Hn. unfold make_slice. by rewrite (proj2 (Z.ltb_ge _ _) Hn). Qed.

Lemma drain_empty ctr b : ch_buf (jb_store b) = [] → drain ctr b = Returns (ctr, b, None).
Proof. intros He. unfold drain, chan_len. by rewrite He. Qed.

Lemma chan_len_nonempty {A} (c : chan A) : ch_buf c ≠ [] → (chan_len c =? 0)%nat = false.
Proof. unfold chan_len. by destruct (ch_buf c). Qed.

(** The job total fits [int32]: what keeps make([]*Job, 0, n) from panicking. *)
Definition jobs_fit (b : JobBuffer) : Prop := Z.of_nat (length (stored_jobs b)) < 2 ^ 31.

Lemma jobs_fit_nonneg b : jb_inv b → jobs_fit b → 0 <= jb_bufferedJobsCount b.
Proof. intros [_ _ _ Hj _] Hfit. unfold jobs_fit in Hfit. rewrite Hj, int32_small; lia. Qed.

Lemma drain_unfold ctr b :
  jb_inv b → 0 <= jb_bufferedJobsCount b → ch_buf (jb_store b) ≠ [] →
  drain ctr b =
    '(store', allJobs, waitingList) ←
      drain_loop (length (ch_buf (jb_store b))) (ch_buf (jb_store b)) [] [];
    Returns (uint32 (ctr + 1),
      mkJobBuffer (jb_topic b) (Chan (ch_cap (jb_store b)) store') 0 0
        (<[uint32 (ctr + 1) := waitingList]> (jb_waitingMap b))
        (jb_apiInputCh b) (jb_responseInputCh b),
      Some (add_jobs_request (uint32 (ctr + 1)) (mkAddJobs (jb_topic b) allJobs))).
Proof.
  intros [_ _ Hc _ _] Hpos Hne. unfold drain.
  rewrite chan_len_nonempty, (make_slice_nonneg (jb_bufferedJobsCount b)) by done.
  rewrite Hc, make_slice_nonneg by lia. cbn [mbind exec_bind]. rewrite Nat2Z.id. reflexivity.
Qed.

Lemma drain_full ctr b :
  jb_inv b → 0 <= jb_bufferedJobsCount b →
  Forall wf_req (ch_buf (jb_store b)) → ch_buf (jb_store b) ≠ [] →
  drain ctr b =
    Returns (uint32 (ctr + 1), drained (uint32 (ctr + 1)) b,
      Some (batch_of (jb_topic b) (uint32 (ctr + 1)) (ch_buf (jb_store b)))).
Proof.
  intros Hi Hpos Hwf Hne. rewrite drain_unfold by done.
  pose proof (drain_loop_spec (ch_buf (jb_store b)) [] [] [] Hwf) as Hl.
  rewrite app_nil_r in Hl. rewrite Hl. reflexivity.
Qed.

Lemma drain_nil ctr b :
  jb_inv b → 0 <= jb_bufferedJobsCount b → ¬ Forall wf_req (ch_buf (jb_store b)) →
  drain ctr b = Panics NilDereference.
Proof.
  intros Hi Hpos Hwf. rewrite drain_unfold; [|done..|].
  - rewrite drain_loop_nil; [done|apply Hi|done].
  - intros He. rewrite He in Hwf. destruct Hwf. constructor.
Qed.

#[export] Instance wf_req_dec r : Decision (wf_req r).
Proof. unfold wf_req. apply _. Defined.

(** With the invariant, [drain] never waits on the store: it returns or panics. *)
Lemma drain_cases ctr b :
  jb_inv b →
  (ch_buf (jb_store b) = [] ∧ drain ctr b = Returns (ctr, b, None)) ∨
  (Forall wf_req (ch_buf (jb_store b)) ∧ ch_buf (jb_store b) ≠ [] ∧
   drain ctr b = Returns (uint32 (ctr + 1), drained (uint32 (ctr + 1)) b,
     Some (batch_of (jb_topic b) (uint32 (ctr + 1)) (ch_buf (jb_store b))))) ∨
  (∃ p, drain ctr b = Panics p).
Proof.
  intros Hi. destruct (decide (ch_buf (jb_store b) = [])) as [He|Hne].
  { left. eauto using drain_empty. }
  right. destruct (Z.ltb_spec (jb_bufferedJobsCount b) 0) as [Hneg|Hpos].
  - right. exists MakeSliceRange. unfold drain, make_slice.
    rewrite chan_len_nonempty by done. by rewrite (proj2 (Z.ltb_lt _ _) Hneg).
  - destruct (decide (Forall wf_req (ch_buf (jb_store b)))) as [Hwf|Hwf].
    + left. eauto using drain_full.
    + right. eauto using drain_nil.
Qed.

(** ** Lemmas: dispatchResponse *)

Lemma jobBelongsToClient_spec id hs : jobBelongsToClient id hs = true ↔ Fnv.sum64a id ∈ hs.
Proof. apply bool_decide_eq_true. Qed.

Lemma client_failures_spec fs hs acc :
  client_failures fs hs acc = acc ++ filter (λ f, Fnv.sum64a (jf_JobID f) ∈ hs) fs.
Proof.
  revert acc. induction fs as [|f fs IH]; intros acc; cbn [client_failures].
  - by rewrite app_nil_r.
  - rewrite IH. unfold jobBelongsToClient. rewrite filter_cons.
    case_decide as Hd.
    + rewrite bool_decide_true by done. by rewrite <- app_assoc.
    + by rewrite bool_decide_false by done.
Qed.

Lemma deliver_all_cons resp call calls h :
  deliver_all resp (call :: calls) h =
    deliver_all resp calls (send_default (aw_RespCh call) (answer resp call) h).
Proof. done. Qed.

Lemma answer_success resp call :
  tp_Status resp = ToProxyRespStatusSuccess →
  answer resp call = success_response (aw_ApiReqID call).
Proof. intros Hs. unfold answer. by rewrite decide_True. Qed.

Lemma answer_error resp call :
  tp_Status resp = ToProxyRespStatusError → tp_Failures resp = [] →
  answer resp call = error_response (aw_ApiReqID call) (tp_Error resp).
Proof. intros Hs Hf. unfold answer. by rewrite Hs, Hf. Qed.

Lemma answer_partial resp call :
  tp_Status resp ≠ ToProxyRespStatusSuccess →
  ¬ (tp_Status resp = ToProxyRespStatusError ∧ tp_Failures resp = []) →
  answer resp call =
    let fs := filter (λ f, Fnv.sum64a (jf_JobID f) ∈ aw_JobHashes call) (tp_Failures resp) in
    if (0 <? length fs)%nat
    then mkResponse (aw_ApiReqID call) ToProxyRespStatusError (tp_Error resp) fs
    else success_response (aw_ApiReqID call).
Proof.
  intros Hs He. unfold answer. rewrite decide_False by done.
  assert (bool_decide (tp_Status resp = ToProxyRespStatusError)
          && (length (tp_Failures resp) =? 0)%nat = false) as ->.
  { apply andb_false_iff. destruct (decide (tp_Failures resp = [])) as [Hf|Hf].
    - left. apply bool_decide_eq_false. tauto.
    - right. by destruct (tp_Failures resp). }
  cbn. by destruct (filter _ _).
Qed.

Lemma dispatch_success_spec resp calls h :
  tp_Status resp = ToProxyRespStatusSuccess →
  dispatch_success calls h = deliver_all resp calls h.
Proof.
  intros Hs. revert h. induction calls as [|call calls IH]; intros h; [done|].
  rewrite deliver_all_cons, answer_success by done. apply IH.
Qed.

Lemma dispatch_error_spec resp calls h :
  tp_Status resp = ToProxyRespStatusError → tp_Failures resp = [] →
  dispatch_error (tp_Error resp) calls h = deliver_all resp calls h.
Proof.
  intros Hs Hf. revert h. induction calls as [|call calls IH]; intros h; [done|].
  rewrite deliver_all_cons, answer_error by done. apply IH.
Qed.

Lemma dispatch_partial_spec resp calls h :
  tp_Status resp ≠ ToProxyRespStatusSuccess →
  ¬ (tp_Status resp = ToProxyRespStatusError ∧ tp_Failures resp = []) →
  dispatch_partial resp calls h = deliver_all resp calls h.
Proof.
  intros Hs He. revert h. induction calls as [|call calls IH]; intros h; [done|].
  rewrite deliver_all_cons, answer_partial by done. cbn [dispatch_partial].
  destruct (aw_RespCh call) as [ch|]; [|apply IH].
  rewrite client_failures_spec, IH. cbn. by destruct (filter _ _).
Qed.

(** The three loops are one: every waiting producer is sent its [answer]. *)
Lemma dispatchResponse_spec resp b h :
  dispatchResponse resp b h =
    match jb_waitingMap b !! tp_RequestID resp with
    | None => (b, h)
    | Some calls => (delete_waiting (tp_RequestID resp) b, deliver_all resp calls h)
    end.
Proof.
  unfold dispatchResponse. destruct (_ !! _) as [calls|]; [|done].
  destruct (decide (tp_Status resp = ToProxyRespStatusSuccess)) as [Hs|Hs].
  { by rewrite (dispatch_success_spec resp). }
  destruct (bool_decide _ && _) eqn:Hb.
  - apply andb_true_iff in Hb as [He%bool_decide_eq_true Hl%Nat.eqb_eq].
    by rewrite dispatch_error_spec by eauto using nil_length_inv.
  - rewrite dispatch_partial_spec; [done|done|]. intros [He Hf].
    by rewrite Hf, bool_decide_true in Hb.
Qed.

Lemma deliver_all_ne resp calls h ch :
  ch ∉ omap aw_RespCh calls → deliver_all resp calls h !! ch = h !! ch.
Proof.
  revert h. induction calls as [|call calls IH]; intros h Hn; [done|].
  rewrite deliver_all_cons. cbn in Hn. rewrite IH.
  - apply send_default_ne. intros He. rewrite He in Hn. set_solver.
  - destruct (aw_RespCh call); set_solver.
Qed.

Lemma deliver_all_eq resp calls h call ch c :
  NoDup (omap aw_RespCh calls) → call ∈ calls → aw_RespCh call = Some ch →
  h !! ch = Some c → Z.of_nat (chan_len c) < ch_cap c →
  deliver_all resp calls h !! ch = Some (chan_push c (answer resp call)).
Proof.
  revert h. induction calls as [|call' calls IH]; intros h Hnd Hin Hch Hh Hs.
  { by apply elem_of_nil in Hin. }
  rewrite deliver_all_cons. cbn in Hnd. apply elem_of_cons in Hin as [<-|Hin].
  - rewrite Hch in *. apply NoDup_cons in Hnd as [Hnin _].
    rewrite deliver_all_ne by done. by apply send_default_space.
  - assert (ch ∈ omap aw_RespCh calls) as Hin'
      by (apply list_elem_of_omap; eauto).
    assert (aw_RespCh call' ≠ Some ch) as Hne.
    { intros He. rewrite He in Hnd. apply NoDup_cons in Hnd as [Hnin _]. done. }
    apply IH; try done.
    + destruct (aw_RespCh call'); [by apply NoDup_cons in Hnd as [_ ?]|done].
    + by rewrite send_default_ne.
Qed.

(** Hash attribution is id attribution when the failing ids of the response do
    not collide with other ids of the request. *)
Definition no_collision (resp : ToProducerResponse) (r : ApiRequestWithRespCh) : Prop :=
  ∀ f id, f ∈ tp_Failures resp → id ∈ req_ids r →
    Fnv.sum64a (jf_JobID f) = Fnv.sum64a id → jf_JobID f = id.

Lemma answer_promised resp r :
  no_collision resp r → answer resp (waiting_of r) = promised resp r.
Proof.
  intros Hc. unfold answer, promised. cbn.
  assert (filter (λ f, Fnv.sum64a (jf_JobID f) ∈ Fnv.sum64a <$> req_ids r) (tp_Failures resp)
    = filter (λ f, jf_JobID f ∈ req_ids r) (tp_Failures resp)) as ->; [|done].
  unfold no_collision in Hc. revert Hc.
  generalize (tp_Failures resp) as fs. induction fs as [|f fs IH]; intros Hc; [done|].
  assert (Fnv.sum64a (jf_JobID f) ∈ Fnv.sum64a <$> req_ids r ↔ jf_JobID f ∈ req_ids r) as Hiff.
  { split; [|apply list_elem_of_fmap_2].
    intros (id & He & Hid)%list_elem_of_fmap_1.
    rewrite (Hc f id); [done|by left|done|done]. }
  rewrite !filter_cons.
  assert (filter (λ f, Fnv.sum64a (jf_JobID f) ∈ Fnv.sum64a <$> req_ids r) fs =
    filter (λ f, jf_JobID f ∈ req_ids r) fs) as ->
    by (apply IH; intros f' id Hf'; apply Hc; by right).
  destruct (decide (jf_JobID f ∈ req_ids r)) as [Hd|Hd].
  - by rewrite decide_True by by apply Hiff.
  - by rewrite decide_False by by rewrite Hiff.
Qed.

(** ** Invariants of the goroutine *)

(** Ghost history: the requests [buffer] took in and the batches the agent
    received, in order. *)
Record jb_log := mkLog {
  lg_accepted : list ApiRequestWithRespCh;
  lg_sent : list ProxyRequest
}.

Definition observe_accepted (l : jb_event) (s s' : jb_state) : list ApiRequestWithRespCh :=
  match l, js_pc s' with
  | RunApi, Selecting =>
      match recv (jb_apiInputCh (js_buf s)) with Some (r, _) => [r] | None => [] end
  | RunStore, Selecting =>
      match js_pc s with StoreBlocked r => [r] | _ => [] end
  | _, _ => []
  end.

Definition observe_sent (l : jb_event) (s : jb_state) : list ProxyRequest :=
  match l with
  | EvTake => match recv (js_sendJobsCh s) with Some (q, _) => [q] | None => [] end
  | _ => []
  end.

Definition jb_lstep (l : jb_event) (sl : jb_state * jb_log) : option (jb_state * jb_log) :=
  s' ← jb_step l sl.1;
  Some (s', mkLog (lg_accepted sl.2 ++ observe_accepted l sl.1 s')
                  (lg_sent sl.2 ++ observe_sent l sl.1)).

Definition batch_jobs (q : ProxyRequest) : list (option Job) :=
  match pr_AddJobs q with Some p => aj_Jobs p | None => [] end.

Definition pc_batches (pc : jb_pc) : list ProxyRequest :=
  match pc with Sending q => [q] | _ => [] end.

(** Every batch ever built: handed over, queued for the agent, being sent. *)
Definition all_batches (s : jb_state) (lg : jb_log) : list ProxyRequest :=
  lg_sent lg ++ ch_buf (js_sendJobsCh s) ++ pc_batches (js_pc s).

Definition jb_flow (sl : jb_state * jb_log) : Prop :=
  concat (req_jobs <$> lg_accepted sl.2) =
  concat (batch_jobs <$> all_batches sl.1 sl.2) ++ stored_jobs (js_buf sl.1).

Definition jb_linv (sl : jb_state * jb_log) : Prop := jb_inv (js_buf sl.1) ∧ jb_flow sl.

Lemma jb_inv_store b b' :
  jb_store b' = jb_store b → jb_bufferedCount b' = jb_bufferedCount b →
  jb_bufferedJobsCount b' = jb_bufferedJobsCount b → jb_inv b → jb_inv b'.
Proof.
  intros Hs Hc Hj [? ? ? Hj' ?]. split; unfold stored_jobs in *;
    rewrite ?Hs, ?Hc, ?Hj; done.
Qed.

Lemma jb_inv_new topic : jb_inv (NewJobBuffer topic).
Proof. split; [done|by apply make_chan_ok|done..]. Qed.

Lemma drained_inv id b : jb_inv b → jb_inv (drained id b).
Proof.
  intros [Hcap _ _ _ _]. split; cbn; try done. unfold chan_ok. cbn. by rewrite Hcap.
Qed.

Lemma dispatchResponse_store resp b h b' h' :
  dispatchResponse resp b h = (b', h') →
  jb_store b' = jb_store b ∧ jb_bufferedCount b' = jb_bufferedCount b ∧
  jb_bufferedJobsCount b' = jb_bufferedJobsCount b.
Proof. rewrite dispatchResponse_spec. by case_match; intros [= <- <-]. Qed.

Lemma stored_jobs_push b b' r :
  jb_store b' = chan_push (jb_store b) r → stored_jobs b' = stored_jobs b ++ req_jobs r.
Proof.
  intros Hs. unfold stored_jobs. by rewrite Hs, chan_push_buf, concat_fmap_snoc.
Qed.

Lemma batch_jobs_batch_of topic id store :
  batch_jobs (batch_of topic id store) = concat (req_jobs <$> store).
Proof. done. Qed.

(** The effect of [run_buffer] on store and log. *)
Lemma run_buffer_linv r s lg :
  jb_inv (js_buf s) → pc_batches (js_pc s) = [] → jb_flow (s, lg) →
  let s' := run_buffer r s in
  jb_inv (js_buf s') ∧
  jb_flow (s', mkLog (lg_accepted lg ++ match js_pc s' with Selecting => [r] | _ => [] end)
                     (lg_sent lg)).
Proof.
  intros Hi Hpc Hf. unfold run_buffer. destruct (buffer r (js_buf s)) as [b'| |p] eqn:Hb; cbn.
  - split; [by eapply buffer_inv|]. unfold jb_flow, all_batches in *. cbn in *.
    apply buffer_returns in Hb as (_ & _ & Hs & _).
    by rewrite (stored_jobs_push _ _ _ Hs), concat_fmap_snoc, Hf, Hpc, <- (app_assoc (concat _)).
  - split; [done|]. unfold jb_flow, all_batches in *. cbn in *.
    by rewrite Hpc in Hf; rewrite app_nil_r.
  - split; [done|]. unfold jb_flow, all_batches in *. cbn in *.
    by rewrite Hpc in Hf; rewrite app_nil_r.
Qed.

(** Steps that leave store, batches and history alone. *)
Lemma linv_frame s s' lg :
  jb_linv (s, lg) →
  jb_store (js_buf s') = jb_store (js_buf s) →
  jb_bufferedCount (js_buf s') = jb_bufferedCount (js_buf s) →
  jb_bufferedJobsCount (js_buf s') = jb_bufferedJobsCount (js_buf s) →
  ch_buf (js_sendJobsCh s') ++ pc_batches (js_pc s') =
    ch_buf (js_sendJobsCh s) ++ pc_batches (js_pc s) →
  jb_linv (s', mkLog (lg_accepted lg ++ []) (lg_sent lg ++ [])).
Proof.
  intros [Hi Hf] Hs Hc Hj Hb. split; [by eapply jb_inv_store|].
  unfold jb_flow, all_batches, stored_jobs in *. cbn in *. by rewrite Hs, Hb, !app_nil_r.
Qed.

Lemma run_tick_linv s lg s' :
  jb_linv (s, lg) → jb_step RunTick s = Some s' →
  jb_linv (s', mkLog (lg_accepted lg ++ []) (lg_sent lg ++ [])).
Proof.
  intros [Hi Hf] Hstep. cbn in Hstep, Hi.
  destruct (js_pc s) eqn:Hpc; try done. destruct (js_tick s); [|done].
  destruct (drain_cases (js_counter s) (js_buf s) Hi) as [[He Hd]|[(Hwf & Hne & Hd)|[p Hd]]];
    rewrite Hd in Hstep; simplify_eq.
  - by apply (linv_frame s); cbn; rewrite ?Hpc.
  - split; [by apply drained_inv|]. unfold jb_flow, all_batches in *. cbn in *.
    rewrite Hpc in Hf. cbn in Hf. rewrite !app_nil_r in *. rewrite Hf.
    by rewrite (app_assoc (lg_sent lg)), concat_fmap_snoc.
  - by apply (linv_frame s); cbn; rewrite ?Hpc.
Qed.

Lemma jb_lstep_linv l sl sl' : jb_linv sl → jb_lstep l sl = Some sl' → jb_linv sl'.
Proof.
  destruct sl as [s lg]. intros Hinv Hstep. unfold jb_lstep in Hstep. cbn in Hstep.
  destruct (jb_step l s) as [s'|] eqn:Hs; cbn in Hstep; [|done]. simplify_eq.
  destruct l as [r|resp| | | | | | | | |];
    try (eapply run_tick_linv; eassumption); cbn in Hs.
  - case_match; simplify_eq. by apply (linv_frame s).
  - case_match; simplify_eq. by apply (linv_frame s).
  - simplify_eq. by apply (linv_frame s).
  - simplify_eq. by apply (linv_frame s).
  - destruct (recv (js_sendJobsCh s)) as [[q c]|] eqn:Hr; [|done]. cbn in Hs. simplify_eq.
    cbn. rewrite Hr. destruct Hinv as [Hi Hf]. split; [done|].
    apply recv_Some in Hr as [Hb _]. unfold jb_flow, all_batches in *. cbn in *.
    rewrite app_nil_r, Hf, Hb. by rewrite <- !app_assoc.
  - destruct (js_pc s) eqn:Hpc; try done. case_match; simplify_eq.
    apply (linv_frame s); cbn; rewrite ?Hpc; done.
  - destruct (js_pc s) eqn:Hpc; try done.
    destruct (recv (jb_apiInputCh (js_buf s))) as [[r c]|] eqn:Hr; [|done].
    cbn in Hs. simplify_eq. cbn. rewrite Hr, app_nil_r.
    apply (run_buffer_linv r (set_buf (set_apiInputCh c (js_buf s)) s) lg).
    + apply (jb_inv_store (js_buf s)); [done..|apply Hinv].
    + cbn. by rewrite Hpc.
    + apply Hinv.
  - destruct (js_pc s) eqn:Hpc; try done.
    destruct (recv (jb_responseInputCh (js_buf s))) as [[resp c]|] eqn:Hr; [|done].
    cbn in Hs. destruct (dispatchResponse _ _ _) as [b' h'] eqn:Hd. simplify_eq.
    apply dispatchResponse_store in Hd as (?&?&?).
    apply (linv_frame s); cbn; rewrite ?Hpc; done.
  - destruct (js_pc s) as [|r| | |] eqn:Hpc; try done. case_match; simplify_eq. cbn.
    rewrite Hpc, app_nil_r. apply (run_buffer_linv r s lg); [apply Hinv|by rewrite Hpc|apply Hinv].
  - destruct (js_pc s) as [| |q| |] eqn:Hpc; try done. case_match; simplify_eq.
    apply (linv_frame s); cbn; rewrite ?Hpc; cbn; by rewrite ?app_nil_r.
Qed.

Lemma jb_linv_init topic : jb_linv (jb_init topic, mkLog [] []).
Proof. split; [apply jb_inv_new|done]. Qed.

Lemma jb_lstep_some l s lg s' :
  jb_step l s = Some s' →
  jb_lstep l (s, lg) =
    Some (s', mkLog (lg_accepted lg ++ observe_accepted l s s')
                    (lg_sent lg ++ observe_sent l s)).
Proof. intros Hs. unfold jb_lstep. cbn [fst snd]. by rewrite Hs. Qed.

(** The log does not change which runs exist. *)
Lemma run_lstep evs s lg s' :
  run jb_step evs s = Some s' → ∃ lg', run jb_lstep evs (s, lg) = Some (s', lg').
Proof.
  revert s lg. induction evs as [|l evs IH]; intros s lg Hr; [cbn in *; simplify_eq; eauto|].
  rewrite run_cons in Hr. destruct (jb_step l s) as [s1|] eqn:Hs; cbn in Hr; [|done].
  destruct (IH s1 (mkLog (lg_accepted lg ++ observe_accepted l s s1)
                         (lg_sent lg ++ observe_sent l s)) Hr) as [lg' Hl].
  exists lg'. rewrite run_cons. by rewrite (jb_lstep_some _ _ _ _ Hs).
Qed.

Lemma jb_run_inv topic evs s :
  run jb_step evs (jb_init topic) = Some s → jb_inv (js_buf s).
Proof.
  intros [lg Hr]%(run_lstep _ _ (mkLog [] [])).
  pose proof (run_invariant jb_lstep jb_linv jb_lstep_linv _ _ _ (jb_linv_init topic) Hr) as H.
  apply H.
Qed.

Lemma omap_waiting_of (store : list ApiRequestWithRespCh) : omap aw_RespCh (waiting_of <$> store) = omap ar_RespCh store.
Proof. induction store as [|r store IH]; cbn; [done|]. destruct (ar_RespCh r); by rewrite IH. Qed.

(** ** The self-deadlock of [buffer] *)

Definition stuck (r : ApiRequestWithRespCh) (s0 s : jb_state) : Prop :=
  js_pc s = StoreBlocked r ∧ chan_full (jb_store (js_buf s)) = true ∧
  jb_store (js_buf s) = jb_store (js_buf s0) ∧
  jb_waitingMap (js_buf s) = jb_waitingMap (js_buf s0) ∧ js_heap s = js_heap s0.

Lemma stuck_step r s0 l s s' : stuck r s0 s → jb_step l s = Some s' → stuck r s0 s'.
Proof.
  intros (Hpc & Hf & Hst & Hw & Hh) Hs. unfold stuck.
  destruct l; cbn in Hs; rewrite ?Hpc, ?Hf in Hs; try done.
  - case_match; simplify_eq. done.
  - case_match; simplify_eq. done.
  - by simplify_eq.
  - by simplify_eq.
  - destruct (recv _) as [[q c]|]; cbn in Hs; [|done]. by simplify_eq.
Qed.

Lemma stuck_forever r s evs s' :
  stuck r s s → run jb_step evs s = Some s' → stuck r s s'.
Proof. apply (run_invariant jb_step (stuck r s)). eauto using stuck_step. Qed.

(** [n] producers submit and [Run] takes each request before any tick. *)
Definition submissions (n : nat) (r : ApiRequestWithRespCh) : list jb_event :=
  concat (replicate n [EvApi r; RunApi]).

Definition is_stuck (r : ApiRequestWithRespCh) (os : option jb_state) : bool :=
  match os with
  | Some s =>
      match js_pc s with
      | StoreBlocked r' =>
          (pr_RequestID (ar_ProxyRequest r') =? pr_RequestID (ar_ProxyRequest r))
          && chan_full (jb_store (js_buf s))
      | _ => false
      end
  | None => false
  end.

Definition sample_request (id : Z) (ch : option chanid) (ids : list string)
    : ApiRequestWithRespCh :=
  mkApiRequest
    (add_jobs_request id (mkAddJobs "t" ((λ i, Some (mkJob i "t" [])) <$> ids))) ch.

Lemma is_stuck_spec r os :
  is_stuck r os = true →
  ∃ s r', os = Some s ∧ js_pc s = StoreBlocked r' ∧ chan_full (jb_store (js_buf s)) = true.
Proof.
  unfold is_stuck. destruct os as [s|]; [|done]. destruct (js_pc s) as [|r'| | |] eqn:Hpc; try done.
  intros [_ Hf]%andb_true_iff. eauto.
Qed.

Lemma length_submissions n r : length (submissions n r) = (2 * n)%nat.
Proof.
  unfold submissions. induction n as [|n IH]; [done|].
  cbn [replicate concat]. rewrite length_app, IH. cbn. lia.
Qed.

Lemma submissions_stuck :
  is_stuck (sample_request 1 None ["j"])
    (run jb_step (submissions 1025 (sample_request 1 None ["j"])) (jb_init "t")) = true.
Proof. vm_compute. reflexivity. Qed.

(** A waiting producer with its own fresh channel is sent exactly its [answer]. *)
Lemma dispatch_to_waiting ctr b ctr' b' batch h resp r ch :
  jb_inv b → drain ctr b = Returns (ctr', b', Some batch) →
  r ∈ ch_buf (jb_store b) → ar_RespCh r = Some ch →
  NoDup (omap ar_RespCh (ch_buf (jb_store b))) → h !! ch = Some (make_chan 1) →
  tp_RequestID resp = pr_RequestID batch →
  (dispatchResponse resp b' h).2 !! ch = Some (Chan 1 [answer resp (waiting_of r)]).
Proof.
  intros Hi Hd Hr Hch Hnd Hh Hid.
  destruct (drain_cases ctr b Hi) as [[_ Hd']|[(Hwf & _ & Hd')|[p Hd']]];
    rewrite Hd' in Hd; simplify_eq.
  rewrite dispatchResponse_spec, Hid. cbn. rewrite lookup_insert_eq. cbn [snd].
  erewrite (deliver_all_eq resp _ h (waiting_of r) ch (make_chan 1)); [done|..|done|].
  - by rewrite omap_waiting_of.
  - by apply list_elem_of_fmap_2.
  - done.
  - cbn. unfold chan_len. cbn. lia.
Qed.

(** ** Properties *)

(** C9: A producer whose request went into a batch is sent exactly one message
    for the leader's response to that batch, and it is the promised one: success
    or error exactly according to the ids of its own jobs. Three conditions are
    needed: the requests of the batch wait on different channels, the producer's
    own channel is the fresh one its handler made, of capacity one, and no id
    the response names as failed has the FNV hash of another id of the request,
    because the buffer attributes failures by hash. *)
Theorem batch_answers_as_promised ctr b ctr' b' batch h resp r ch :
  jb_inv b → drain ctr b = Returns (ctr', b', Some batch) →
  r ∈ ch_buf (jb_store b) → ar_RespCh r = Some ch →
  NoDup (omap ar_RespCh (ch_buf (jb_store b))) → h !! ch = Some (make_chan 1) →
  tp_RequestID resp = pr_RequestID batch → no_collision resp r →
  (dispatchResponse resp b' h).2 !! ch = Some (Chan 1 [promised resp r]).
Proof.
  intros Hi Hd Hr Hch Hnd Hh Hid Hc. rewrite <- answer_promised by done.
  by eapply dispatch_to_waiting.
Qed.

Definition r_ann := sample_request 7 (Some 1%nat) ["a1"; "a2"].
Definition r_bob := sample_request 8 (Some 2%nat) ["b1"].

(** The buffer after Ann's and Bob's requests went in. *)
Definition two_stored : JobBuffer :=
  mkJobBuffer "t" (Chan store_cap [r_ann; r_bob]) 2 3 ∅ (make_chan input_cap) (make_chan input_cap).

Lemma two_stored_inv : jb_inv two_stored.
Proof. split; [done|done|done..|]. repeat constructor; eauto. Qed.

Definition duplicate_a2 : ToProducerResponse :=
  mkResponse 1 ToProxyRespStatusError "partial" [mkJobFailure "a2" FailDuplicate].

Definition two_heap : resp_heap := {[ 1%nat := make_chan 1; 2%nat := make_chan 1 ]}.

Lemma batch_answers_as_promised_witness :
  (dispatchResponse duplicate_a2 (drained 1 two_stored) two_heap).2 !! 2%nat =
    Some (Chan 1 [success_response 8]).
Proof.
  apply (batch_answers_as_promised 0 two_stored 1 (drained 1 two_stored)
    (batch_of "t" 1 [r_ann; r_bob]) two_heap duplicate_a2 r_bob 2%nat).
  - exact two_stored_inv.
  - vm_compute. reflexivity.
  - right. left.
  - reflexivity.
  - cbn. repeat constructor; set_solver.
  - reflexivity.
  - reflexivity.
  - intros f id Hf Hid. apply list_elem_of_singleton in Hf as ->.
    apply list_elem_of_singleton in Hid as ->. vm_compute. discriminate.
Defined.

(** C8: at every point of every run of the goroutine, the jobs of the accepted
    requests are, in order and without loss or duplication, the jobs of the
    batches handed over, the batches under way and the jobs still stored. *)
Theorem jobs_conserved topic evs s lg :
  run jb_lstep evs (jb_init topic, mkLog [] []) = Some (s, lg) →
  concat (req_jobs <$> lg_accepted lg) =
    concat (batch_jobs <$> lg_sent lg) ++
    concat (batch_jobs <$> ch_buf (js_sendJobsCh s)) ++
    concat (batch_jobs <$> pc_batches (js_pc s)) ++
    stored_jobs (js_buf s).
Proof.
  intros Hr.
  destruct (run_invariant jb_lstep jb_linv jb_lstep_linv _ _ _ (jb_linv_init topic) Hr)
    as [_ Hf].
  unfold jb_flow, all_batches in Hf. cbn in Hf.
  by rewrite !fmap_app, !concat_app, <- !app_assoc in Hf.
Qed.

Definition flow_events : list jb_event :=
  [EvApi r_ann; EvApi r_bob; RunApi; EvTick; RunTick; RunSend; EvTake; RunApi].

Lemma jobs_conserved_witness :
  match run jb_lstep flow_events (jb_init "t", mkLog [] []) with
  | Some (s, lg) =>
      length (concat (req_jobs <$> lg_accepted lg)) = 3%nat ∧
      length (lg_sent lg) = 1%nat ∧
      concat (req_jobs <$> lg_accepted lg) =
        concat (batch_jobs <$> lg_sent lg) ++
        concat (batch_jobs <$> ch_buf (js_sendJobsCh s)) ++
        concat (batch_jobs <$> pc_batches (js_pc s)) ++ stored_jobs (js_buf s)
  | None => False
  end.
Proof.
  destruct (run jb_lstep flow_events _) as [[s lg]|] eqn:Hr; [|by vm_compute in Hr].
  split_and!.
  - vm_compute in Hr. simplify_eq. reflexivity.
  - vm_compute in Hr. simplify_eq. reflexivity.
  - exact (jobs_conserved "t" flow_events s lg Hr).
Defined.

(** in every reachable state the counters are exactly the number of stored
    requests and (modulo 2^32) of stored jobs, and [drain] never waits on the
    store: it returns, or panics. *)
Theorem buffer_counters_exact topic evs s ctr :
  run jb_step evs (jb_init topic) = Some s →
  jb_bufferedCount (js_buf s) = Z.of_nat (chan_len (jb_store (js_buf s))) ∧
  jb_bufferedJobsCount (js_buf s) = int32 (Z.of_nat (length (stored_jobs (js_buf s)))) ∧
  Z.of_nat (chan_len (jb_store (js_buf s))) <= store_cap ∧
  drain ctr (js_buf s) ≠ Blocks.
Proof.
  intros Hr%jb_run_inv. pose proof (drain_cases ctr _ Hr) as Hd. destruct Hr as [Hcap Hok Hc Hj _].
  split_and!; [done|done|by rewrite <- Hcap|]. naive_solver congruence.
Qed.

Lemma buffer_counters_exact_witness :
  match run jb_step [EvApi r_ann; RunApi; EvApi r_bob; RunApi] (jb_init "t") with
  | Some s => jb_bufferedCount (js_buf s) = 2 ∧ drain 0 (js_buf s) ≠ Blocks
  | None => False
  end.
Proof.
  destruct (run jb_step _ _) as [s|] eqn:Hr; [|by vm_compute in Hr].
  destruct (buffer_counters_exact "t" _ s 0 Hr) as (Hc & _ & _ & Hd). split; [|exact Hd].
  rewrite Hc. vm_compute in Hr. simplify_eq. reflexivity.
Defined.

(** C39: a tick sends everything stored. In every reachable state with a pending
    tick, stored requests [drain] can process and room in [sendJobsCh], two
    steps later the store is empty and the batch of all stored jobs, under the
    next request id, is queued for the agent. *)
Theorem tick_flushes topic evs s :
  run jb_step evs (jb_init topic) = Some s →
  js_pc s = Selecting → js_tick s = true → chan_full (js_sendJobsCh s) = false →
  jobs_fit (js_buf s) → Forall wf_req (ch_buf (jb_store (js_buf s))) →
  ch_buf (jb_store (js_buf s)) ≠ [] →
  ∃ s', run jb_step [RunTick; RunSend] s = Some s' ∧ js_pc s' = Selecting ∧
    stored_jobs (js_buf s') = [] ∧
    ch_buf (js_sendJobsCh s') = ch_buf (js_sendJobsCh s) ++
      [batch_of (jb_topic (js_buf s)) (uint32 (js_counter s + 1))
         (ch_buf (jb_store (js_buf s)))].
Proof.
  intros Hr%jb_run_inv Hpc Ht Hroom Hfit Hwf Hne.
  eexists. split_and!.
  - rewrite run_cons. cbn [jb_step]. rewrite Hpc, Ht, drain_full by eauto using jobs_fit_nonneg.
    cbn. rewrite Hroom. reflexivity.
  - done.
  - done.
  - done.
Qed.

Lemma tick_flushes_witness :
  match run jb_step [EvApi r_ann; RunApi; EvTick] (jb_init "t") with
  | Some s => ∃ s', run jb_step [RunTick; RunSend] s = Some s' ∧ stored_jobs (js_buf s') = []
  | None => False
  end.
Proof.
  destruct (run jb_step _ _) as [s|] eqn:Hr; [|by vm_compute in Hr].
  pose proof Hr as Hs. vm_compute in Hs. simplify_eq.
  destruct (tick_flushes "t" _ _ Hr) as (s' & H1 & _ & H3 & _);
    [reflexivity..| | | |].
  - vm_compute. reflexivity.
  - repeat constructor; eauto.
  - discriminate.
  - exists s'. split; assumption.
Defined.

(** a nil element of the jobs array (JSON [null]) kills the process: with
    such a request stored, the next [drain] panics. *)
Theorem nil_job_panics ctr b r :
  jb_inv b → jobs_fit b → r ∈ ch_buf (jb_store b) → None ∈ req_jobs r →
  drain ctr b = Panics NilDereference.
Proof.
  intros Hi Hfit Hr Hn. apply drain_nil; [done|by apply jobs_fit_nonneg|].
  intros Hwf. rewrite Forall_forall in Hwf. destruct (Hwf r Hr) as [_ Hj].
  rewrite Forall_forall in Hj. by destruct (Hj None Hn).
Qed.

Definition r_null : ApiRequestWithRespCh :=
  mkApiRequest (add_jobs_request 9 (mkAddJobs "t" [None])) (Some 3%nat).

Definition null_stored : JobBuffer :=
  mkJobBuffer "t" (Chan store_cap [r_ann; r_null]) 2 3 ∅ (make_chan input_cap) (make_chan input_cap).

Lemma nil_job_panics_witness : drain 0 null_stored = Panics NilDereference.
Proof.
  apply (nil_job_panics 0 null_stored r_null).
  - split; [done|done|done..|]. repeat constructor; eauto.
  - vm_compute. reflexivity.
  - right. left.
  - left.
Defined.

(** the goroutine can wait for itself. 1025 requests taken in between two
    ticks leave it in the blocking send of [buffer] on its own full store, and
    from there no event whatever (ticks, stop, responses) gets it out, empties
    the store, or answers a producer. *)
Theorem store_self_deadlock :
  ∃ evs s r, run jb_step evs (jb_init "t") = Some s ∧ js_pc s = StoreBlocked r ∧
    length evs = 2050%nat ∧
    ∀ evs' s', run jb_step evs' s = Some s' →
      js_pc s' = StoreBlocked r ∧ jb_store (js_buf s') = jb_store (js_buf s) ∧
      js_heap s' = js_heap s.
Proof.
  destruct (is_stuck_spec _ _ submissions_stuck) as (s & r & Hr & Hpc & Hf).
  exists (submissions 1025 (sample_request 1 None ["j"])), s, r.
  split; [exact Hr|]. split; [exact Hpc|]. split; [rewrite length_submissions; reflexivity|].
  clear Hr. intros evs' s' Hr'. assert (stuck r s s) as Hst by done.
  by destruct (stuck_forever r s evs' s' Hst Hr') as (? & _ & ? & _ & ?).
Qed.



(** a response is used once: after it was dispatched, a second response with
    the same request id changes neither the buffer nor any producer's channel. *)
Theorem response_used_once resp resp' b h :
  tp_RequestID resp' = tp_RequestID resp →
  dispatchResponse resp' (dispatchResponse resp b h).1 (dispatchResponse resp b h).2 =
    dispatchResponse resp b h.
Proof.
  intros Hid. rewrite (dispatchResponse_spec resp b h).
  destruct (jb_waitingMap b !! tp_RequestID resp) as [calls|] eqn:Hw; cbn [fst snd];
    rewrite dispatchResponse_spec, Hid.
  - cbn. by rewrite lookup_delete_eq.
  - by rewrite Hw.
Qed.

Lemma response_used_once_witness :
  dispatchResponse (success_response 1)
      (dispatchResponse duplicate_a2 (drained 1 two_stored) two_heap).1
      (dispatchResponse duplicate_a2 (drained 1 two_stored) two_heap).2 =
    dispatchResponse duplicate_a2 (drained 1 two_stored) two_heap.
Proof. apply (response_used_once duplicate_a2 (success_response 1)). reflexivity. Defined.

(** a status that is neither success nor error, without failures, is told to
    every waiting producer as success. *)
Theorem unknown_status_reads_as_success resp b h calls :
  tp_Status resp ≠ ToProxyRespStatusSuccess → tp_Status resp ≠ ToProxyRespStatusError →
  tp_Failures resp = [] → jb_waitingMap b !! tp_RequestID resp = Some calls →
  (dispatchResponse resp b h).2 =
    foldl (λ h call, send_default (aw_RespCh call) (success_response (aw_ApiReqID call)) h)
      h calls.
Proof.
  intros Hs He Hf Hw. rewrite dispatchResponse_spec, Hw. cbn [snd]. clear Hw.
  revert h. induction calls as [|call calls IH]; intros h; [done|].
  rewrite deliver_all_cons, answer_partial by tauto. rewrite Hf. apply IH.
Qed.

Lemma unknown_status_reads_as_success_witness :
  (dispatchResponse (mkResponse 1 "rejected" "not the leader" []) (drained 1 two_stored)
     two_heap).2 !! 1%nat = Some (Chan 1 [success_response 7]).
Proof.
  rewrite (unknown_status_reads_as_success _ _ _ (waiting_of <$> [r_ann; r_bob]));
    [vm_compute; reflexivity|discriminate|discriminate|reflexivity|vm_compute; reflexivity].
Defined.
