(* ===== verification/BatchSpec.v ===== *)
(** * The contract of a job buffer (internal/cluster/job_buffer.go)

    What the producers and the leader may expect of a topic's buffer: a machine
    that knows requests, not channels, counters and hashes. Requests wait, are
    put together into a batch, and are answered, each for its own jobs, when the
    batch is. The goroutine [Run] with its environment implements it, as long as
    it neither panics nor meets a hash collision; and in the contract no request
    is lost or answered twice. *)

From S2P Require Import Prelude GoRuntime Messages JobBuffer.

Local Open Scope Z_scope.

(** ** The contract *)

(** [bt_pending] are the requests not yet in a batch, [bt_waiting] those of the
    batches without an answer, [bt_out] the batches on their way to the agent,
    [bt_inbox] the answers on their way back; [bt_answered] records what was
    answered to whom. *)
Record batcher := mkBatcher {
  bt_pending : list ApiRequestWithRespCh;
  bt_waiting : gmap Z (list ApiRequestWithRespCh);
  bt_counter : Z;
  bt_out : list ProxyRequest;
  bt_inbox : list ToProducerResponse;
  bt_answered : list (ApiRequestWithRespCh * ToProducerResponse)
}.

Definition batcher_init : batcher := mkBatcher [] ∅ 0 [] [] [].

(** A producer submits, the requests that wait become the batch [id], the agent
    takes a batch, the leader's answer comes in, the producers are told. *)
Inductive action :=
  | Submit (r : ApiRequestWithRespCh)
  | Flush (id : Z) (rs : list ApiRequestWithRespCh)
  | Take (q : ProxyRequest)
  | Receive (R : ToProducerResponse)
  | Reply (R : ToProducerResponse).

(** The requests of a batch, each with its answer. *)
Definition replies (R : ToProducerResponse) (rs : list ApiRequestWithRespCh)
    : list (ApiRequestWithRespCh * ToProducerResponse) := (λ r, (r, promised R r)) <$> rs.

Inductive batcher_step (topic : string) : action → batcher → batcher → Prop :=
  | step_submit r B :
      batcher_step topic (Submit r) B
        (mkBatcher (bt_pending B ++ [r]) (bt_waiting B) (bt_counter B) (bt_out B) (bt_inbox B)
          (bt_answered B))
  | step_flush id rs rest B :
      id = uint32 (bt_counter B + 1) → bt_pending B = rs ++ rest → rs ≠ [] → Forall wf_req rs →
      batcher_step topic (Flush id rs) B
        (mkBatcher rest (<[id := rs]> (bt_waiting B)) id (bt_out B ++ [batch_of topic id rs])
          (bt_inbox B) (bt_answered B))
  | step_take q out B :
      bt_out B = q :: out →
      batcher_step topic (Take q) B
        (mkBatcher (bt_pending B) (bt_waiting B) (bt_counter B) out (bt_inbox B) (bt_answered B))
  | step_receive R B :
      batcher_step topic (Receive R) B
        (mkBatcher (bt_pending B) (bt_waiting B) (bt_counter B) (bt_out B) (bt_inbox B ++ [R])
          (bt_answered B))
  | step_reply R inbox B :
      bt_inbox B = R :: inbox →
      batcher_step topic (Reply R) B
        (mkBatcher (bt_pending B) (delete (tp_RequestID R) (bt_waiting B)) (bt_counter B) (bt_out B)
          inbox (bt_answered B ++ replies R (default [] (bt_waiting B !! tp_RequestID R)))).

Inductive batcher_run (topic : string) : list action → batcher → batcher → Prop :=
  | batcher_nil B : batcher_run topic [] B B
  | batcher_cons a acts B1 B2 B3 :
      batcher_step topic a B1 B2 → batcher_run topic acts B2 B3 → batcher_run topic (a :: acts) B1 B3.

(** ** What a history says *)

(** The parts of a history: what was submitted, taken, received, which batches
    were cut and which answers were passed on. *)
Definition submits (h : list action) : list ApiRequestWithRespCh :=
  omap (λ a, match a with Submit r => Some r | _ => None end) h.
Definition cuts (h : list action) : list (Z * list ApiRequestWithRespCh) :=
  omap (λ a, match a with Flush id rs => Some (id, rs) | _ => None end) h.
Definition takes (h : list action) : list ProxyRequest :=
  omap (λ a, match a with Take q => Some q | _ => None end) h.
Definition receives (h : list action) : list ToProducerResponse :=
  omap (λ a, match a with Receive R => Some R | _ => None end) h.
Definition passed_on (h : list action) : list ToProducerResponse :=
  omap (λ a, match a with Reply R => Some R | _ => None end) h.

(** No answer to the batch was passed on since it was cut. *)
Definition unanswered (id : Z) (rs : list ApiRequestWithRespCh) (h : list action) : Prop :=
  ∃ h1 h2, h = h1 ++ Flush id rs :: h2 ∧ ∀ R, Reply R ∈ h2 → tp_RequestID R ≠ id.

(** [R] is the first answer to the batch passed on after it was cut. *)
Definition answered_by (id : Z) (rs : list ApiRequestWithRespCh) (R : ToProducerResponse)
    (h : list action) : Prop :=
  tp_RequestID R = id ∧
  ∃ h1 h2 h3, h = h1 ++ Flush id rs :: h2 ++ Reply R :: h3 ∧ ∀ R', Reply R' ∈ h2 → tp_RequestID R' ≠ id.

Definition outstanding (W : gmap Z (list ApiRequestWithRespCh)) : list ApiRequestWithRespCh :=
  concat (map_to_list W).*2.

(** ** Lemmas on the contract *)

Lemma batcher_one topic a B B' : batcher_step topic a B B' → batcher_run topic [a] B B'.
Proof. intros Hs. eapply batcher_cons; [done|constructor]. Qed.

Lemma batcher_run_app topic h1 h2 B1 B3 :
  batcher_run topic (h1 ++ h2) B1 B3 ↔ ∃ B2, batcher_run topic h1 B1 B2 ∧ batcher_run topic h2 B2 B3.
Proof.
  revert B1. induction h1 as [|a h1 IH]; intros B1; cbn.
  - split; [intros Hr; exists B1; split; [constructor|done]|]. intros (B2 & Hn & Hr). by inversion Hn; subst.
  - split.
    + intros Hr. inversion Hr as [|a' acts ? B' ? Hs Hr']; subst. apply IH in Hr' as (B2 & Hr1 & Hr2).
      exists B2. split; [by eapply batcher_cons|done].
    + intros (B2 & Hr1 & Hr2). inversion Hr1 as [|a' acts ? B' ? Hs Hr']; subst.
      eapply batcher_cons; [done|]. apply IH. eauto.
Qed.

(** Rule induction from the right. *)
Lemma batcher_run_invariant topic (P : list action → batcher → Prop) :
  P [] batcher_init →
  (∀ h a B B', P h B → batcher_step topic a B B' → P (h ++ [a]) B') →
  ∀ h B, batcher_run topic h batcher_init B → P h B.
Proof.
  intros H0 HS h. induction h as [|a h IH] using rev_ind; intros B Hr; [by inversion Hr; subst|].
  apply batcher_run_app in Hr as (B1 & Hr & Ha). inversion Ha as [|? ? ? B2 ? Hs Hn]; subst.
  inversion Hn; subst. eauto.
Qed.

Lemma unanswered_snoc id rs h a :
  unanswered id rs (h ++ [a]) ↔
    a = Flush id rs ∨ unanswered id rs h ∧ ∀ R, a = Reply R → tp_RequestID R ≠ id.
Proof.
  split.
  - intros (h1 & h2 & He & Hn). destruct h2 as [|b h2 _] using rev_ind.
    + apply app_inj_tail in He as [_ ->]. by left.
    + rewrite app_comm_cons, app_assoc in He. apply app_inj_tail in He as [-> ->]. right. split.
      * exists h1, h2. split; [done|]. intros R HR. apply Hn, elem_of_app. by left.
      * intros R ->. apply Hn, elem_of_app. right. by apply list_elem_of_singleton.
  - intros [->|[(h1 & h2 & -> & Hn) Ha]].
    + exists h, []. split; [done|]. by intros R ?%elem_of_nil.
    + exists h1, (h2 ++ [a]). rewrite <- app_assoc. split; [done|].
      intros R [HR|HR%list_elem_of_singleton]%elem_of_app; [by apply Hn|by apply Ha].
Qed.

Lemma unanswered_cut id rs h : unanswered id rs h → (id, rs) ∈ cuts h.
Proof.
  intros (h1 & h2 & -> & _). unfold cuts. rewrite omap_app, elem_of_app. right. cbn. by left.
Qed.

Lemma answered_by_snoc id rs R h a : answered_by id rs R h → answered_by id rs R (h ++ [a]).
Proof.
  intros [Hid (h1 & h2 & h3 & -> & Hn)]. split; [done|]. exists h1, h2, (h3 ++ [a]).
  split; [|done]. by rewrite <- !app_assoc; cbn; rewrite <- app_assoc.
Qed.

Lemma answered_by_now rs R h :
  unanswered (tp_RequestID R) rs h → answered_by (tp_RequestID R) rs R (h ++ [Reply R]).
Proof.
  intros (h1 & h2 & -> & Hn). split; [done|]. exists h1, h2, []. split; [by rewrite <- app_assoc|done].
Qed.

Lemma outstanding_insert id rs W :
  W !! id = None → outstanding (<[id := rs]> W) ≡ₚ rs ++ outstanding W.
Proof. intros Hid. unfold outstanding. by rewrite map_to_list_insert. Qed.

Lemma outstanding_delete id W :
  outstanding W ≡ₚ default [] (W !! id) ++ outstanding (delete id W).
Proof.
  destruct (W !! id) as [rs|] eqn:Hid; cbn; [|by rewrite delete_id].
  rewrite <- (insert_delete_id W id rs) at 1 by done.
  by rewrite outstanding_insert by apply lookup_delete_eq.
Qed.

Lemma replies_requests R rs : (replies R rs).*1 = rs.
Proof. induction rs as [|r rs IH]; [done|]. cbn. by f_equal. Qed.

(** ** The contract loses nothing *)

(** Until the identifiers wrap: the batches are numbered from one, hold what was
    submitted in order, and go out as they were cut; a batch waits as long as no
    answer to it was passed on, and its requests are answered by the first. *)
Record accounted (topic : string) (h : list action) (B : batcher) : Prop := {
  ac_counter : bt_counter B = Z.of_nat (length (cuts h));
  ac_ids : ∀ id rs, (id, rs) ∈ cuts h → 1 <= id <= Z.of_nat (length (cuts h));
  ac_pending : submits h = concat (cuts h).*2 ++ bt_pending B;
  ac_out : (λ c, batch_of topic c.1 c.2) <$> cuts h = takes h ++ bt_out B;
  ac_inbox : receives h = passed_on h ++ bt_inbox B;
  ac_waiting : ∀ id rs, bt_waiting B !! id = Some rs ↔ unanswered id rs h;
  ac_all : concat (cuts h).*2 ≡ₚ outstanding (bt_waiting B) ++ (bt_answered B).*1;
  ac_answered : ∀ r v, (r, v) ∈ bt_answered B → ∃ id rs R, r ∈ rs ∧ answered_by id rs R h ∧ v = promised R r
}.

(** A step that cuts no batch and answers nothing. *)
Lemma accounted_quiet topic h a B B' :
  accounted topic h B → cuts [a] = [] → passed_on [a] = [] →
  bt_counter B' = bt_counter B → bt_waiting B' = bt_waiting B → bt_answered B' = bt_answered B →
  bt_pending B' = bt_pending B ++ submits [a] → takes [a] ++ bt_out B' = bt_out B →
  bt_inbox B' = bt_inbox B ++ receives [a] → accounted topic (h ++ [a]) B'.
Proof.
  intros [a1 a2 a3 a4 a5 a6 a7 a8] Hc Hp E1 E2 E3 E4 E5 E6.
  assert (cuts (h ++ [a]) = cuts h) as Hcs by (unfold cuts in *; by rewrite omap_app, Hc, app_nil_r).
  split; rewrite ?Hcs, ?E1, ?E2, ?E3; try done.
  - unfold submits in *. by rewrite omap_app, a3, E4, <- app_assoc.
  - unfold takes in *. by rewrite omap_app, a4, <- app_assoc, E5.
  - unfold receives, passed_on in *. by rewrite !omap_app, Hp, a5, E6, app_nil_r, <- app_assoc.
  - intros id rs. rewrite a6, unanswered_snoc. split.
    + intros Hu. right. split; [done|]. by intros R ->.
    + by intros [->|[Hu _]].
  - intros r v Hv. destruct (a8 r v Hv) as (id & rs & R & ? & ? & ?). exists id, rs, R.
    split_and!; [done|by apply answered_by_snoc|done].
Qed.

Lemma accounted_flush topic h rs rest B :
  accounted topic h B → Z.of_nat (length (cuts h)) + 1 < 2 ^ 32 → bt_pending B = rs ++ rest →
  let id := uint32 (bt_counter B + 1) in
  accounted topic (h ++ [Flush id rs])
    (mkBatcher rest (<[id := rs]> (bt_waiting B)) id (bt_out B ++ [batch_of topic id rs]) (bt_inbox B)
      (bt_answered B)).
Proof.
  intros [a1 a2 a3 a4 a5 a6 a7 a8] Hlt Hp id.
  assert (id = Z.of_nat (length (cuts h)) + 1) as Hid
    by (unfold id; rewrite a1; apply uint32_small; unfold is_uint32; lia).
  assert (cuts (h ++ [Flush id rs]) = cuts h ++ [(id, rs)]) as Hcs by (unfold cuts; by rewrite omap_app).
  assert (bt_waiting B !! id = None) as Hnew.
  { apply eq_None_not_Some. intros [rs' Hrs%a6%unanswered_cut%a2]. lia. }
  split; cbn [bt_counter bt_pending bt_out bt_inbox bt_waiting bt_answered]; rewrite ?Hcs.
  - rewrite length_app. cbn. lia.
  - intros id' rs'. rewrite length_app. cbn.
    intros [?%a2|[= -> ->]%list_elem_of_singleton]%elem_of_app; lia.
  - unfold submits in *. rewrite omap_app, a3, Hp, fmap_app, concat_app. cbn.
    by rewrite !app_nil_r, <- app_assoc.
  - unfold takes in *. rewrite omap_app, fmap_app, a4. cbn. by rewrite app_nil_r, <- app_assoc.
  - unfold receives, passed_on in *. rewrite !omap_app, a5. cbn. by rewrite !app_nil_r.
  - intros id' rs'. rewrite unanswered_snoc, lookup_insert_Some, a6. split.
    + intros [[-> ->]|[_ ?]]; [by left|right]. by split.
    + intros [[= <- <-]|[Hu _]]; [by left|right]. split; [|done].
      intros <-. apply a6 in Hu. congruence.
  - rewrite fmap_app, concat_app, outstanding_insert, a7 by done. cbn. rewrite app_nil_r. solve_Permutation.
  - intros r v Hv. destruct (a8 r v Hv) as (id' & rs' & R & ? & ? & ?). exists id', rs', R.
    split_and!; [done|by apply answered_by_snoc|done].
Qed.

Lemma accounted_reply topic h R inbox B :
  accounted topic h B → bt_inbox B = R :: inbox →
  accounted topic (h ++ [Reply R])
    (mkBatcher (bt_pending B) (delete (tp_RequestID R) (bt_waiting B)) (bt_counter B) (bt_out B)
      inbox (bt_answered B ++ replies R (default [] (bt_waiting B !! tp_RequestID R)))).
Proof.
  intros [a1 a2 a3 a4 a5 a6 a7 a8] Hin.
  assert (cuts (h ++ [Reply R]) = cuts h) as Hcs by (unfold cuts; by rewrite omap_app, app_nil_r).
  split; cbn [bt_counter bt_pending bt_out bt_inbox bt_waiting bt_answered]; rewrite ?Hcs; try done.
  - unfold submits in *. by rewrite omap_app, a3, app_nil_r.
  - unfold takes in *. by rewrite omap_app, a4, app_nil_r.
  - unfold receives, passed_on in *. rewrite !omap_app, a5, Hin. cbn. by rewrite app_nil_r, <- app_assoc.
  - intros id rs. rewrite unanswered_snoc, lookup_delete_Some, a6. split.
    + intros [Hne Hu]. right. split; [done|]. by intros R' [= <-].
    + intros [?|[Hu Hne]]; [done|]. split; [by apply Hne|done].
  - rewrite a7, (outstanding_delete (tp_RequestID R)), fmap_app, replies_requests. solve_Permutation.
  - intros r v [Hv|Hv]%elem_of_app.
    + destruct (a8 r v Hv) as (id & rs & R' & ? & ? & ?). exists id, rs, R'.
      split_and!; [done|by apply answered_by_snoc|done].
    + apply list_elem_of_fmap in Hv as (r' & [= -> ->] & Hr').
      destruct (bt_waiting B !! tp_RequestID R) as [rs|] eqn:Hrs; [|by apply elem_of_nil in Hr'].
      exists (tp_RequestID R), rs, R. split_and!; [done|by apply answered_by_now, a6|done].
Qed.

Lemma batcher_run_accounted topic h B :
  batcher_run topic h batcher_init B → Z.of_nat (length (cuts h)) < 2 ^ 32 → accounted topic h B.
Proof.
  revert h B. apply (batcher_run_invariant topic (λ h B, Z.of_nat (length (cuts h)) < 2 ^ 32 → accounted topic h B)).
  - intros _. split; cbn; try done; [by intros ?? ?%elem_of_nil| |by intros ?? ?%elem_of_nil].
    intros id rs. split; [done|]. intros (h1 & h2 & He & _). by destruct h1.
  - intros h a B B' IH Hs Hlt. unfold cuts in Hlt. rewrite omap_app, length_app in Hlt. fold (cuts h) in Hlt.
    assert (accounted topic h B) as Ha by (apply IH; lia). clear IH.
    destruct Hs as [r B|id rs rest B -> Hp _ _|q out B Ho|R B|R inbox B Hin].
    + apply (accounted_quiet topic h _ B); try done; cbn; by rewrite ?app_nil_r.
    + apply accounted_flush; [done|cbn in Hlt; lia|done].
    + apply (accounted_quiet topic h _ B); try done; cbn; by rewrite ?app_nil_r.
    + apply (accounted_quiet topic h _ B); try done; cbn; by rewrite ?app_nil_r.
    + by apply accounted_reply.
Qed.

(** ** The goroutine implements the contract *)

Definition pc_requests (pc : jb_pc) : list ApiRequestWithRespCh :=
  match pc with StoreBlocked r => [r] | _ => [] end.

(** The channels after the answers: every producer's, in order, if it has room. *)
Definition answer_all (answered : list (ApiRequestWithRespCh * ToProducerResponse)) (h : resp_heap)
    : resp_heap :=
  foldl (λ h rv, send_default (ar_RespCh rv.1) rv.2 h) h answered.

(** A buffer at its start, with the channels the producers made. *)
Definition jb_start (topic : string) (h : resp_heap) : jb_state :=
  mkJB (NewJobBuffer topic) Selecting 0 (make_chan sendJobs_cap) h false false.

(** What an event of the goroutine is for the contract: a submission, an answer
    received, a batch taken; a tick that ended in a batch, with what the store
    held; an answer passed on. *)
Definition actions_of (l : jb_event) (s s' : jb_state) : list action :=
  match l with
  | EvApi r => [Submit r]
  | EvResponse R => [Receive R]
  | EvTake => match recv (js_sendJobsCh s) with Some (q, _) => [Take q] | None => [] end
  | RunTick =>
      match js_pc s' with
      | Sending _ => [Flush (js_counter s') (ch_buf (jb_store (js_buf s)))]
      | _ => []
      end
  | RunResponse =>
      match recv (jb_responseInputCh (js_buf s)) with Some (R, _) => [Reply R] | None => [] end
  | _ => []
  end.

Fixpoint history (evs : list jb_event) (s : jb_state) : list action :=
  match evs with
  | [] => []
  | l :: evs =>
      match jb_step l s with
      | Some s' => actions_of l s s' ++ history evs s'
      | None => []
      end
  end.

(** What the goroutine keeps of the requests of a batch. *)
Definition waiting_table (W : gmap Z (list ApiRequestWithRespCh)) : gmap Z (list ApiWaiting) :=
  fmap (M := gmap Z) (fmap (M := list) waiting_of) W.

Section Refinement.
Context (topic : string) (h0 : resp_heap).

(** [s] is an implementation state of the contract's state [B]. *)
Record implements (s : jb_state) (B : batcher) : Prop := {
  im_topic : jb_topic (js_buf s) = topic;
  im_pending : bt_pending B =
    ch_buf (jb_store (js_buf s)) ++ pc_requests (js_pc s) ++ ch_buf (jb_apiInputCh (js_buf s));
  im_waiting : jb_waitingMap (js_buf s) = waiting_table (bt_waiting B);
  im_counter : js_counter s = bt_counter B;
  im_out : bt_out B = ch_buf (js_sendJobsCh s) ++ pc_batches (js_pc s);
  im_inbox : bt_inbox B = ch_buf (jb_responseInputCh (js_buf s));
  im_heap : js_heap s = answer_all (bt_answered B) h0
}.

(** What may be submitted and answered: no failing id has the hash of another
    id of a request. *)
Context (P : ApiRequestWithRespCh → Prop) (Q : ToProducerResponse → Prop).
Hypothesis no_collisions : ∀ R r, Q R → P r → no_collision R r.

Definition event_ok (l : jb_event) : Prop :=
  match l with EvApi r => P r | EvResponse R => Q R | _ => True end.

Record allowed (B : batcher) : Prop := {
  al_pending : Forall P (bt_pending B);
  al_waiting : ∀ id rs, bt_waiting B !! id = Some rs → Forall P rs;
  al_inbox : Forall Q (bt_inbox B)
}.

(** The contract does the actions of the event. *)
Definition simulated (l : jb_event) (s s' : jb_state) (B : batcher) : Prop :=
  ∃ B', batcher_run topic (actions_of l s s') B B' ∧ implements s' B' ∧ allowed B'.

Lemma simulated_stutter l s s' B :
  actions_of l s s' = [] → implements s' B → allowed B → simulated l s s' B.
Proof. intros Hl ? ?. exists B. rewrite Hl. split_and!; [constructor|done..]. Qed.

Lemma answer_all_replies R rs h :
  Q R → Forall P rs → deliver_all R (waiting_of <$> rs) h = answer_all (replies R rs) h.
Proof.
  intros HR Hrs. revert h. induction Hrs as [|r rs Hr _ IH]; intros h; [done|].
  rewrite fmap_cons, deliver_all_cons, answer_promised by auto. apply IH.
Qed.

Lemma sim_submit s B r :
  implements s B → allowed B → P r →
  let s' := set_buf (set_apiInputCh (chan_push (jb_apiInputCh (js_buf s)) r) (js_buf s)) s in
  simulated (EvApi r) s s' B.
Proof.
  intros [Ht Hp Hw Hc Ho Hin Hh] [Hap Haw Hai] Hr. eexists.
  split; [apply batcher_one, step_submit|]. split.
  - split; cbn; [done| |done..]. by rewrite Hp, <- !app_assoc.
  - split; [|done..]. cbn. apply Forall_app. by rewrite Forall_singleton.
Qed.

Lemma sim_receive s B R :
  implements s B → allowed B → Q R →
  let s' := set_buf (set_responseInputCh (chan_push (jb_responseInputCh (js_buf s)) R) (js_buf s)) s in
  simulated (EvResponse R) s s' B.
Proof.
  intros [Ht Hp Hw Hc Ho Hin Hh] [Hap Haw Hai] HR. eexists.
  split; [apply batcher_one, step_receive|]. split.
  - split; cbn; try done. by rewrite Hin.
  - split; cbn; [done..|]. apply Forall_app. by rewrite Forall_singleton.
Qed.

Lemma sim_take s s' B :
  implements s B → allowed B → jb_step EvTake s = Some s' → simulated EvTake s s' B.
Proof.
  intros [Ht Hp Hw Hc Ho Hin Hh] [Hap Haw Hai] Hs. cbn in Hs. unfold simulated. cbn [actions_of].
  destruct (recv (js_sendJobsCh s)) as [[q c]|] eqn:Hr; [|done]. injection Hs as <-.
  apply recv_Some in Hr as [Hr _]. rewrite Hr in Ho. eexists.
  split; [by apply batcher_one, step_take|]. split; by split.
Qed.

(** The request [r], first of those not in the store, is stored. *)
Lemma sim_buffer l s s1 B r :
  implements s B → allowed B → actions_of l s (run_buffer r s1) = [] →
  pc_requests (js_pc s) ++ ch_buf (jb_apiInputCh (js_buf s)) = r :: ch_buf (jb_apiInputCh (js_buf s1)) →
  jb_store (js_buf s1) = jb_store (js_buf s) → jb_topic (js_buf s1) = jb_topic (js_buf s) →
  jb_waitingMap (js_buf s1) = jb_waitingMap (js_buf s) → js_counter s1 = js_counter s →
  js_sendJobsCh s1 = js_sendJobsCh s → js_heap s1 = js_heap s →
  jb_responseInputCh (js_buf s1) = jb_responseInputCh (js_buf s) → pc_batches (js_pc s) = [] →
  crashed (js_pc (run_buffer r s1)) = false → simulated l s (run_buffer r s1) B.
Proof.
  intros [Ht Hp Hw Hc Ho Hin Hh] Ha Hl Hr H1 H2 H3 H4 H5 H6 H7 Hb Hcr.
  apply simulated_stutter; [done| |done]. clear Hl. unfold run_buffer in *.
  destruct (buffer r (js_buf s1)) as [b| |] eqn:He; [| |done].
  - apply buffer_returns in He as (_ & _ & Hs & _ & _ & Htp & Hwt & Hai & Hri).
    split; cbn; rewrite ?Hs, ?Htp, ?Hwt, ?Hai, ?Hri, ?chan_push_buf, ?H1; try congruence.
    by rewrite Hp, Hr, <- app_assoc.
  - split; cbn; rewrite ?H1; congruence.
Qed.

Lemma sim_tick s s' B :
  implements s B → allowed B → jb_inv (js_buf s) → jb_step RunTick s = Some s' →
  crashed (js_pc s') = false → simulated RunTick s s' B.
Proof.
  intros Hi Ha Hinv Hs Hcr. pose proof Hi as [Ht Hp Hw Hc Ho Hin Hh]. cbn in Hs.
  destruct (js_pc s) eqn:Hpc; try done. destruct (js_tick s); [|done].
  destruct (drain_cases (js_counter s) (js_buf s) Hinv) as [[_ Hd]|[(Hwf & Hne & Hd)|[p Hd]]];
    rewrite Hd in Hs; injection Hs as <-; [| |done].
  - apply simulated_stutter; [done| |done]. by split.
  - eexists. split; [apply batcher_one; by apply (step_flush topic _ _ _ _ (f_equal (λ c, uint32 (c + 1)) Hc) Hp)|].
    cbn [js_counter]. rewrite <- Ht.
    destruct Ha as [Hap Haw Hai]. rewrite Hp, Forall_app in Hap. split.
    + split; cbn; try done; [by rewrite Hw; unfold waiting_table; rewrite fmap_insert|by rewrite Ho, app_nil_r].
    + split; cbn; [apply Hap| |done..]. intros id rs [[_ <-]|[_ ?]]%lookup_insert_Some; [apply Hap|eauto].
Qed.

Lemma sim_reply s s' B :
  implements s B → allowed B → jb_step RunResponse s = Some s' → simulated RunResponse s s' B.
Proof.
  intros [Ht Hp Hw Hc Ho Hin Hh] [Hap Haw Hai] Hs. cbn in Hs. unfold simulated. cbn [actions_of].
  destruct (js_pc s) eqn:Hpc; try done.
  destruct (recv (jb_responseInputCh (js_buf s))) as [[R c]|] eqn:Hr; [|done]. cbn in Hs.
  apply recv_Some in Hr as [Hr _]. rewrite Hr in Hin.
  rewrite Hin in Hai. apply Forall_cons in Hai as [HR Hai].
  assert (s' = mkJB
    (delete_waiting (tp_RequestID R) (set_responseInputCh c (js_buf s))) Selecting (js_counter s)
    (js_sendJobsCh s)
    (deliver_all R (waiting_of <$> default [] (bt_waiting B !! tp_RequestID R)) (js_heap s))
    (js_tick s) (js_stopped s)) as ->.
  { rewrite dispatchResponse_spec in Hs. cbn in Hs. unfold waiting_table in Hw.
    rewrite Hw, lookup_fmap in Hs.
    destruct (bt_waiting B !! tp_RequestID R) eqn:Hb; cbn in Hs; injection Hs as <-; [done|].
    unfold delete_waiting, set_responseInputCh. cbn. rewrite Hw, delete_id; [done|].
    by rewrite lookup_fmap, Hb. }
  assert (Forall P (default [] (bt_waiting B !! tp_RequestID R))) as HP.
  { destruct (bt_waiting B !! tp_RequestID R) eqn:Hb; cbn; [by eapply Haw|constructor]. }
  eexists. split; [apply batcher_one; by eapply step_reply|]. split.
  - split; cbn; try done.
    + rewrite Hw. unfold waiting_table. by rewrite fmap_delete.
    + by rewrite answer_all_replies, Hh by done; unfold answer_all; rewrite foldl_app.
  - split; cbn; [done| |done]. intros id rs [_ ?]%lookup_delete_Some. eauto.
Qed.

Lemma sim_step l s s' B :
  event_ok l → implements s B → allowed B → jb_inv (js_buf s) → jb_step l s = Some s' →
  crashed (js_pc s') = false → simulated l s s' B.
Proof.
  intros Hl Hi Ha Hinv Hs Hcr. destruct l; cbn [jb_step] in Hs.
  - destruct (chan_full _); [done|]. injection Hs as <-. by apply sim_submit.
  - destruct (chan_full _); [done|]. injection Hs as <-. by apply sim_receive.
  - injection Hs as <-. apply simulated_stutter; [done| |done]. by destruct Hi.
  - injection Hs as <-. apply simulated_stutter; [done| |done]. by destruct Hi.
  - by eapply sim_take.
  - destruct (js_pc s) eqn:Hpc; try done. destruct (js_stopped s); [|done]. injection Hs as <-.
    apply simulated_stutter; [done| |done]. destruct Hi. rewrite Hpc in *. by split.
  - destruct (js_pc s) eqn:Hpc; try done.
    destruct (recv (jb_apiInputCh (js_buf s))) as [[r c]|] eqn:Hr; [|done]. injection Hs as <-.
    apply recv_Some in Hr as [Hr _].
    by apply (sim_buffer RunApi s); rewrite ?Hpc; cbn; try done.
  - by eapply sim_reply.
  - by eapply sim_tick.
  - destruct (js_pc s) as [|r| | |] eqn:Hpc; try done. destruct (chan_full _); [done|]. injection Hs as <-.
    by apply (sim_buffer RunStore s); rewrite ?Hpc; cbn; try done.
  - destruct (js_pc s) as [| |q| |] eqn:Hpc; try done. destruct (chan_full _); [done|]. injection Hs as <-.
    apply simulated_stutter; [done| |done]. destruct Hi as [Ht Hp Hw Hc Ho Hin Hh].
    rewrite Hpc in *. split; cbn; try done. by rewrite Ho, app_nil_r.
Qed.

Lemma crashed_for_ever l s s' :
  jb_step l s = Some s' → crashed (js_pc s) = true → crashed (js_pc s') = true.
Proof.
  intros Hs Hc. destruct (js_pc s) eqn:Hpc; try done.
  destruct l; cbn in Hs; rewrite ?Hpc in Hs; try done.
  - destruct (chan_full _); [done|]. injection Hs as <-. cbn. by rewrite ?Hpc.
  - destruct (chan_full _); [done|]. injection Hs as <-. cbn. by rewrite ?Hpc.
  - injection Hs as <-. cbn. by rewrite ?Hpc.
  - injection Hs as <-. cbn. by rewrite ?Hpc.
  - destruct (recv _) as [[q c]|]; [|done]. injection Hs as <-. cbn. by rewrite ?Hpc.
Qed.

Lemma crashed_run evs s s' :
  run jb_step evs s = Some s' → crashed (js_pc s') = false → crashed (js_pc s) = false.
Proof.
  intros Hr Hc. destruct (crashed (js_pc s)) eqn:Hs; [|done].
  rewrite (run_invariant jb_step (λ s, crashed (js_pc s) = true)) with (3 := Hr) in Hc; [done| |done].
  intros l s1 s2 ? ?. by eapply crashed_for_ever.
Qed.

Lemma sim_run evs s s' B lg :
  Forall event_ok evs → implements s B → allowed B → jb_linv (s, lg) →
  run jb_step evs s = Some s' → crashed (js_pc s') = false →
  ∃ B', batcher_run topic (history evs s) B B' ∧ implements s' B'.
Proof.
  intros Hok. revert s B lg. induction Hok as [|l evs Hl _ IH]; intros s B lg Hi Ha Hlg Hr Hc.
  - injection Hr as <-. exists B. split; [constructor|done].
  - cbn in Hr. cbn [history]. destruct (jb_step l s) as [s1|] eqn:Hs; [|done]. cbn in Hr.
    destruct (sim_step l s s1 B Hl Hi Ha (proj1 Hlg) Hs (crashed_run _ _ _ Hr Hc)) as (B1 & H1 & Hi1 & Ha1).
    destruct (IH s1 B1 _ Hi1 Ha1 (jb_lstep_linv _ _ _ Hlg (jb_lstep_some _ _ lg _ Hs)) Hr Hc) as (B2 & H2 & Hi2).
    exists B2. split; [|done]. apply batcher_run_app. eauto.
Qed.

Lemma implements_start : implements (jb_start topic h0) batcher_init.
Proof. by split. Qed.

Lemma allowed_init : allowed batcher_init.
Proof. split; [constructor|done|constructor]. Qed.

End Refinement.

Lemma cuts_bound evs s : (length (cuts (history evs s)) ≤ length evs)%nat.
Proof.
  revert s. induction evs as [|l evs IH]; intros s; [done|]. cbn [history].
  destruct (jb_step l s) as [s1|]; [|cbn; lia]. unfold cuts in *. rewrite omap_app, length_app. cbn [length].
  specialize (IH s1). enough (length (omap (λ a, match a with Flush id rs => Some (id, rs) | _ => None end)
    (actions_of l s s1)) ≤ 1)%nat by lia.
  destruct l; cbn; try lia; [destruct (recv _) as [[]|]; cbn; lia..|destruct (js_pc s1); cbn; lia].
Qed.

(** ** Properties *)

(** No failing id of an answer has the hash of another id of a request. *)
Definition collision_free (evs : list jb_event) : Prop :=
  ∀ R r, EvResponse R ∈ evs → EvApi r ∈ evs → no_collision R r.

Lemma refined topic h0 evs s :
  collision_free evs → run jb_step evs (jb_start topic h0) = Some s → crashed (js_pc s) = false →
  ∃ B, batcher_run topic (history evs (jb_start topic h0)) batcher_init B ∧ implements topic h0 s B.
Proof.
  intros Hc Hr Hcr.
  apply (sim_run topic h0 (λ r, EvApi r ∈ evs) (λ R, EvResponse R ∈ evs) ltac:(eauto) evs
    (jb_start topic h0) s batcher_init (mkLog [] [])); try done.
  apply Forall_forall. by intros [] He.
Qed.

(** C6: A job buffer implements its contract. Whatever the producers submit, the
    leader answers and the scheduler does, as long as the goroutine did not panic
    and no id an answer names as failed has the hash of another id of a request:
    the run is, event by event, a run of the contract with the same submissions,
    the same answers received and passed on, the same batches cut and the same
    batches taken by the agent; and the channels, the counter, the table and the
    producers' channels at its end are those of the contract's state. *)
Theorem job_buffer_refines_contract topic h0 evs s :
  collision_free evs → run jb_step evs (jb_start topic h0) = Some s → crashed (js_pc s) = false →
  ∃ B, batcher_run topic (history evs (jb_start topic h0)) batcher_init B ∧ implements topic h0 s B.
Proof. apply refined. Qed.

(** C5: No submission is lost, answered twice or answered for another batch. In
    every run of fewer than 2^32 events in which the goroutine does not panic and
    no failing id has the hash of another id: the requests submitted are, in
    order, those of the batches cut, those in the store and those on the way to
    it; the answers received are, in order, those passed on and those waiting; the
    batches cut are, in order, those taken by the agent and those on the way to
    it. A batch waits exactly as long as no answer to it was passed on since it was
    cut; each request of the other batches is answered once, with what the first
    answer to its own batch promises for its own jobs; and the producers' channels
    are what these answers make of them. *)
Theorem submissions_accounted topic h0 evs s :
  collision_free evs → run jb_step evs (jb_start topic h0) = Some s → crashed (js_pc s) = false →
  Z.of_nat (length evs) < 2 ^ 32 →
  let h := history evs (jb_start topic h0) in
  submits h = concat (cuts h).*2 ++
    ch_buf (jb_store (js_buf s)) ++ pc_requests (js_pc s) ++ ch_buf (jb_apiInputCh (js_buf s)) ∧
  receives h = passed_on h ++ ch_buf (jb_responseInputCh (js_buf s)) ∧
  ((λ c, batch_of topic c.1 c.2) <$> cuts h) = takes h ++ ch_buf (js_sendJobsCh s) ++ pc_batches (js_pc s) ∧
  ∃ W answered,
    concat (cuts h).*2 ≡ₚ outstanding W ++ answered.*1 ∧
    (∀ id rs, W !! id = Some rs ↔ unanswered id rs h) ∧
    (∀ r v, (r, v) ∈ answered → ∃ id rs R, r ∈ rs ∧ answered_by id rs R h ∧ v = promised R r) ∧
    jb_waitingMap (js_buf s) = waiting_table W ∧
    js_heap s = answer_all answered h0.
Proof.
  intros Hc Hr Hcr Hlt h. destruct (refined topic h0 evs s Hc Hr Hcr) as (B & Hb & [Ht Hp Hw Hcn Ho Hin Hh]).
  pose proof (cuts_bound evs (jb_start topic h0)) as Hle.
  apply batcher_run_accounted in Hb as [a1 a2 a3 a4 a5 a6 a7 a8]; [|lia]. fold h in a3, a4, a5, a6, a7, a8.
  split_and!; [by rewrite a3, Hp|by rewrite a5, Hin|by rewrite a4, Ho|].
  exists (bt_waiting B), (bt_answered B). by split_and!.
Qed.

(** ** A concrete run *)

(** Ann and Bob share a batch; the leader refuses Ann's second job. *)
Definition ann_and_bob : list jb_event :=
  [EvApi r_ann; EvApi r_bob; RunApi; RunApi; EvTick; RunTick; RunSend; EvTake;
   EvResponse duplicate_a2; RunResponse].

Lemma ann_and_bob_collision_free : collision_free ann_and_bob.
Proof.
  intros R r HR Hr. assert (R = duplicate_a2) as ->.
  { apply list_elem_of_In in HR. cbn in HR. intuition congruence. }
  assert (r = r_ann ∨ r = r_bob) as Hr'.
  { apply list_elem_of_In in Hr. cbn in Hr. intuition congruence. }
  intros f id ->%list_elem_of_singleton Hid He.
  destruct Hr' as [-> | ->]; cbn in Hid; rewrite !elem_of_cons in Hid.
  - destruct Hid as [-> |[-> |Hid%elem_of_nil]]; [by vm_compute in He|reflexivity|done].
  - destruct Hid as [-> |Hid%elem_of_nil]; [by vm_compute in He|done].
Qed.

Theorem job_buffer_refines_contract_witness :
  match run jb_step ann_and_bob (jb_start "t" two_heap) with
  | Some s => ∃ B, batcher_run "t" [Submit r_ann; Submit r_bob; Flush 1 [r_ann; r_bob];
      Take (batch_of "t" 1 [r_ann; r_bob]); Receive duplicate_a2; Reply duplicate_a2] batcher_init B ∧
      implements "t" two_heap s B
  | None => False
  end.
Proof.
  destruct (run jb_step ann_and_bob (jb_start "t" two_heap)) as [s|] eqn:Hr; [|by vm_compute in Hr].
  assert (Some (crashed (js_pc s)) = Some false) as Hc.
  { transitivity ((λ s, crashed (js_pc s)) <$> run jb_step ann_and_bob (jb_start "t" two_heap));
      [by rewrite Hr|]. vm_compute. reflexivity. }
  injection Hc as Hc.
  exact (job_buffer_refines_contract "t" two_heap ann_and_bob s ann_and_bob_collision_free Hr Hc).
Defined.

Theorem submissions_accounted_witness :
  match run jb_step ann_and_bob (jb_start "t" two_heap) with
  | Some s => ∃ answered, js_heap s = answer_all answered two_heap ∧ [r_ann; r_bob] ≡ₚ answered.*1 ∧
      ∀ r v, (r, v) ∈ answered → v = promised duplicate_a2 r
  | None => False
  end.
Proof.
  destruct (run jb_step ann_and_bob (jb_start "t" two_heap)) as [s|] eqn:Hr; [|by vm_compute in Hr].
  assert (Some (crashed (js_pc s), jb_waitingMap (js_buf s)) = Some (false, ∅)) as Hs.
  { transitivity ((λ s, (crashed (js_pc s), jb_waitingMap (js_buf s)))
      <$> run jb_step ann_and_bob (jb_start "t" two_heap)); [by rewrite Hr|]. vm_compute. reflexivity. }
  injection Hs as Hc Hw.
  destruct (submissions_accounted "t" two_heap ann_and_bob s ann_and_bob_collision_free Hr Hc)
    as (_ & _ & _ & W & answered & Hsub & _ & Hans & HW & Hh); [vm_compute; reflexivity|].
  exists answered. split; [exact Hh|].
  assert (W = ∅) as ->. { rewrite Hw in HW. symmetry in HW. by apply fmap_empty_inv in HW. }
  split; [exact Hsub|]. intros r v Hv. destruct (Hans r v Hv) as (id & rs & R & _ & [_ (h1 & h2 & h3 & He & _)] & ->).
  f_equal. assert (Reply R ∈ history ann_and_bob (jb_start "t" two_heap)) as HR
    by (rewrite He; apply elem_of_app; right; right; apply elem_of_app; right; left).
  change (history ann_and_bob (jb_start "t" two_heap)) with [Submit r_ann; Submit r_bob; Flush 1 [r_ann; r_bob];
    Take (batch_of "t" 1 [r_ann; r_bob]); Receive duplicate_a2; Reply duplicate_a2] in HR.
  repeat (apply elem_of_cons in HR as [HR|HR]; [by first [discriminate HR|injection HR as ->]|]).
  by apply elem_of_nil in HR.
Defined.
