(* ===== verification/Consumer.v ===== *)
(** * WebSocket consumer (internal/api/consumer.go)

    The flow-control window of one connected consumer: [OnJobSent] numbers the
    deliveries, [UpdateDeliveryAck] takes the consumer's cumulative
    acknowledgement and [GetFreeSlots] is what is left of [MaxInflights]. *)

From S2P Require Import Prelude GoRuntime Messages.

Local Open Scope Z_scope.

(** The part of a [websocket.Conn] the consumer uses: what was written, and
    whether it was closed. *)
Record wsconn := mkConn { wc_written : list bytes; wc_closed : bool }.

(** [LastSentID] and [LastDeliveryAckID] are int64, [MaxInflights] is an int
    (64 bits); [doneCh] is closed or not. *)
Record Consumer := mkConsumer {
  cs_ID : string;
  cs_UUID : string;
  cs_Conn : option wsconn;
  cs_Topic : string;
  cs_LastSentID : Z;
  cs_LastDeliveryAckID : Z;
  cs_MaxInflights : Z;
  cs_writeCh : chan bytes;
  cs_doneClosed : bool
}.

Definition write_cap : Z := 256.

Definition NewConsumer (id uuid topic : string) (conn : option wsconn) (maxInflights : Z)
    : Consumer :=
  mkConsumer id uuid conn topic 0 0 maxInflights (make_chan write_cap) false.

Definition set_ids (sent ack : Z) (c : Consumer) : Consumer :=
  mkConsumer (cs_ID c) (cs_UUID c) (cs_Conn c) (cs_Topic c) sent ack
    (cs_MaxInflights c) (cs_writeCh c) (cs_doneClosed c).
Definition set_writeCh (ch : chan bytes) (c : Consumer) : Consumer :=
  mkConsumer (cs_ID c) (cs_UUID c) (cs_Conn c) (cs_Topic c) (cs_LastSentID c)
    (cs_LastDeliveryAckID c) (cs_MaxInflights c) ch (cs_doneClosed c).
Definition set_conn (conn : option wsconn) (c : Consumer) : Consumer :=
  mkConsumer (cs_ID c) (cs_UUID c) conn (cs_Topic c) (cs_LastSentID c)
    (cs_LastDeliveryAckID c) (cs_MaxInflights c) (cs_writeCh c) (cs_doneClosed c).

Definition GetFreeSlots (c : Consumer) : Z :=
  let slots := int64 (cs_MaxInflights c
                      - int64 (cs_LastSentID c - cs_LastDeliveryAckID c)) in
  if slots <? 0 then 0 else slots.

Definition OnJobSent (c : Consumer) : Z * Consumer :=
  let id := int64 (cs_LastSentID c + 1) in
  (id, set_ids id (cs_LastDeliveryAckID c) c).

Definition UpdateDeliveryAck (lastAckID : Z) (c : Consumer) : Consumer :=
  if cs_LastDeliveryAckID c <? lastAckID then set_ids (cs_LastSentID c) lastAckID c else c.

(** ErrCloseSent of the websocket package. *)
Inductive write_error := ErrCloseSent.

(** select { writeCh <- msg; <-doneCh }: when both are ready Go picks either,
    which [take_done] decides. *)
Definition WriteMessage (take_done : bool) (msg : bytes) (c : Consumer)
    : exec (result write_error unit * Consumer) :=
  let send := (Ok tt, set_writeCh (chan_push (cs_writeCh c) msg) c) in
  match chan_full (cs_writeCh c), cs_doneClosed c with
  | false, false => Returns send
  | false, true => Returns (if take_done then (Err ErrCloseSent, c) else send)
  | true, true => Returns (Err ErrCloseSent, c)
  | true, false => Blocks
  end.

(** What the session's handler writes first (api.go); a message that cannot be
    encoded is empty. *)
Definition accepted_message (marshal : ToConsumerDelivery → option bytes) : bytes :=
  default [] (marshal (mkDelivery "accepted"%string "" "" 0 [])).

(** One round of the write loop: what [select] does with a cancelled context or
    a queued message. [ok] is whether [Conn.WriteMessage] returns nil; a nil
    connection panics inside it, and the deferred recover ends the loop. *)
Inductive loop_state := Looping | LoopReturned.

Definition write_loop_message (ok : bool) (c : Consumer) : option (loop_state * Consumer) :=
  '(msg, ch) ← recv (cs_writeCh c);
  let c' := set_writeCh ch c in
  match cs_Conn c with
  | None => Some (LoopReturned, c')
  | Some conn =>
      if ok then
        Some (Looping, set_conn (Some (mkConn (wc_written conn ++ [msg]) (wc_closed conn))) c')
      else Some (LoopReturned, c')
  end.

Definition StartWriteLoop_step (ctx_done take_ctx : bool) (ok : bool) (c : Consumer)
    : option (loop_state * Consumer) :=
  if ctx_done && take_ctx then Some (LoopReturned, c) else write_loop_message ok c.

(** sync.Once: the body runs for the first caller only. *)
Definition Close (stopped : bool) (c : Consumer) : bool * Consumer :=
  if stopped then (true, c)
  else
    (true, mkConsumer (cs_ID c) (cs_UUID c)
       ((λ conn, mkConn (wc_written conn) true) <$> cs_Conn c) (cs_Topic c)
       (cs_LastSentID c) (cs_LastDeliveryAckID c) (cs_MaxInflights c) (cs_writeCh c) true).

(** ** The flow-control window *)

(** Deliveries sent and not acknowledged. *)
Definition inflight (c : Consumer) : Z := cs_LastSentID c - cs_LastDeliveryAckID c.

(** Acknowledgements do not run ahead of deliveries, the counter has room. *)
Record window_ok (c : Consumer) : Prop := {
  wo_ack : 0 <= cs_LastDeliveryAckID c;
  wo_le : cs_LastDeliveryAckID c <= cs_LastSentID c;
  wo_room : cs_LastSentID c < 2 ^ 62;
  wo_max : 0 <= cs_MaxInflights c < 2 ^ 62
}.

Lemma GetFreeSlots_range c : 0 <= GetFreeSlots c < 2 ^ 63.
Proof.
  unfold GetFreeSlots. pose proof (int64_range (cs_MaxInflights c
    - int64 (cs_LastSentID c - cs_LastDeliveryAckID c))) as H.
  unfold is_int64 in H. case_match; reflect_arith; lia.
Qed.

Lemma GetFreeSlots_window c :
  window_ok c → GetFreeSlots c = Z.max 0 (cs_MaxInflights c - inflight c).
Proof.
  intros [????]. unfold GetFreeSlots, inflight.
  rewrite (int64_small (cs_LastSentID c - cs_LastDeliveryAckID c)) by (unfold is_int64; lia).
  rewrite int64_small by (unfold is_int64; lia).
  case_match; reflect_arith; lia.
Qed.

Lemma OnJobSent_spec c :
  window_ok c →
  (OnJobSent c).1 = cs_LastSentID c + 1 ∧ cs_LastSentID (OnJobSent c).2 = cs_LastSentID c + 1.
Proof. intros [????]. cbn. rewrite int64_small by (unfold is_int64; lia). done. Qed.

Lemma UpdateDeliveryAck_spec n c :
  cs_LastDeliveryAckID (UpdateDeliveryAck n c) = Z.max (cs_LastDeliveryAckID c) n ∧
  cs_LastSentID (UpdateDeliveryAck n c) = cs_LastSentID c ∧
  cs_MaxInflights (UpdateDeliveryAck n c) = cs_MaxInflights c ∧
  cs_writeCh (UpdateDeliveryAck n c) = cs_writeCh c.
Proof. unfold UpdateDeliveryAck. case_match; reflect_arith; cbn; repeat split; lia. Qed.

(** The two ways the window moves: the dispatcher sends when it sees a free
    slot, the consumer acknowledges. *)
Inductive window_event := WSend | WAck (n : Z).

Definition window_step (e : window_event) (c : Consumer) : option Consumer :=
  match e with
  | WSend => if GetFreeSlots c <=? 0 then None else Some (OnJobSent c).2
  | WAck n => Some (UpdateDeliveryAck n c)
  end.

(** A consumer that acknowledges only what it was sent. *)
Definition honest_step (e : window_event) (c : Consumer) : option Consumer :=
  match e with
  | WAck n => if cs_LastSentID c <? n then None else window_step e c
  | WSend => if cs_LastSentID c <? 2 ^ 62 - 1 then window_step e c else None
  end.

Definition window_inv (c : Consumer) : Prop :=
  window_ok c ∧ 0 <= inflight c <= cs_MaxInflights c.

Lemma honest_step_inv e c c' : window_inv c → honest_step e c = Some c' → window_inv c'.
Proof.
  intros [Hok Hin] Hs. pose proof Hok as [????]. destruct e as [|n]; cbn in Hs.
  - case_match; [|done]. case_match; [done|]. simplify_eq. reflect_arith.
    rewrite GetFreeSlots_window in * by done. unfold inflight in *.
    rewrite int64_small by (unfold is_int64; lia).
    split; [split|]; unfold inflight; cbn; lia.
  - case_match; [done|]. simplify_eq. reflect_arith.
    destruct (UpdateDeliveryAck_spec n c) as (Ha & Hs & Hm & _).
    unfold inflight in *. split; [split|]; unfold inflight; lia.
Qed.

(** ** Properties *)

(** C29: as long as a consumer acknowledges only deliveries it was sent, after any
    interleaving of dispatches (made only when [GetFreeSlots] is positive) and
    acknowledgements at most [MaxInflights] deliveries are outstanding and the
    free slots are exactly the rest. *)
Theorem inflight_bounded id uuid topic conn m evs c :
  0 <= m < 2 ^ 62 →
  run honest_step evs (NewConsumer id uuid topic conn m) = Some c →
  0 <= inflight c <= m ∧ GetFreeSlots c = m - inflight c.
Proof.
  intros Hm Hr.
  assert (window_inv c ∧ cs_MaxInflights c = m) as [[Hok Hin] <-].
  { revert Hr. apply (run_invariant honest_step (λ c, window_inv c ∧ cs_MaxInflights c = m)).
    - intros e c1 c2 [Hinv <-] Hs. split; [by eapply honest_step_inv|].
      destruct e; cbn in Hs; repeat case_match; simplify_eq; try done.
      apply UpdateDeliveryAck_spec.
    - split; [|done]. split; [split|]; unfold inflight; cbn; lia. }
  split; [done|]. rewrite GetFreeSlots_window by done. lia.
Qed.

Lemma inflight_bounded_witness :
  match run honest_step [WSend; WSend; WAck 1; WSend] (NewConsumer "c" "u" "t" None 2) with
  | Some c => 0 <= inflight c <= 2 ∧ GetFreeSlots c = 2 - inflight c
  | None => False
  end.
Proof.
  destruct (run honest_step _ _) as [c|] eqn:Hr; [|by vm_compute in Hr].
  exact (inflight_bounded "c" "u" "t" None 2 _ c ltac:(lia) Hr).
Defined.

(** nothing ties an acknowledgement to what was sent. An acknowledgement [n]
    ahead of [LastSentID] opens more than [MaxInflights] slots, and one that is
    far enough ahead overflows the int64 subtraction and closes the consumer's
    window altogether. *)
Theorem ack_ahead_breaks_window c n :
  window_ok c → cs_LastSentID c < n <= max_int64 →
  (n - cs_LastSentID c < 2 ^ 62 →
     GetFreeSlots (UpdateDeliveryAck n c) = cs_MaxInflights c + (n - cs_LastSentID c)) ∧
  (2 ^ 63 <= cs_MaxInflights c + (n - cs_LastSentID c) →
     GetFreeSlots (UpdateDeliveryAck n c) = 0).
Proof.
  unfold max_int64. intros [????] Hn.
  destruct (UpdateDeliveryAck_spec n c) as (Ha & Hs & Hm & _).
  unfold GetFreeSlots. rewrite Ha, Hs, Hm, Z.max_r by lia.
  rewrite (int64_small (cs_LastSentID c - n)) by (unfold is_int64; lia).
  split; intros Hd.
  - rewrite int64_small by (unfold is_int64; lia). case_match; reflect_arith; lia.
  - unfold int64, swrap.
    rewrite <- (Z.mod_unique (cs_MaxInflights c - (cs_LastSentID c - n) + 2 ^ (64 - 1))
      (2 ^ 64) 1 (cs_MaxInflights c - (cs_LastSentID c - n) - 2 ^ 63)) by (cbn; lia).
    case_match; reflect_arith; cbn in *; lia.
Qed.

Lemma ack_ahead_breaks_window_witness :
  GetFreeSlots (UpdateDeliveryAck 5 (NewConsumer "c" "u" "t" None 2)) = 7 ∧
  GetFreeSlots (UpdateDeliveryAck max_int64 (NewConsumer "c" "u" "t" None 2)) = 0.
Proof.
  assert (window_ok (NewConsumer "c" "u" "t" None 2)) as Hok by (split; cbn; lia).
  split.
  - apply (ack_ahead_breaks_window _ 5 Hok); cbn; unfold max_int64; lia.
  - apply (ack_ahead_breaks_window _ max_int64 Hok); unfold max_int64; cbn; lia.
Defined.
