(* ===== verification/Router.v ===== *)
(** * Topic router and dispatcher (internal/api/router.go)

    Per topic a set of consumers, a bounded queue of jobs, a back-pressure flag
    and a dispatcher goroutine. Consumers and queues are shared by reference
    (the API acknowledges into the same consumer, a dispatcher keeps its queue
    after the topic is gone), so both live in heaps. *)

From S2P Require Import Prelude GoRuntime Messages Metrics Consumer.

Local Open Scope Z_scope.

(** ** State *)

(** Durations are nanoseconds. *)
Definition second : Z := 1000000000.
Definition jobTTL : Z := 5 * second.
Definition perTopicBufferSize : Z := 25000.
Definition dispatchBatchSize : nat := 8.

Record topicPressure := mkPressure { tpr_saturated : bool; tpr_lastUpdated : Z }.

(** The embedded [*model.Job] may be nil: it comes from the wire. *)
Record queuedJob := mkQueued { qj_Job : option Job; qj_firstSeen : Z }.

(** A consumer reference, a dispatcher (its context's) identity. *)
Abbreviation cref := nat.
Abbreviation loopid := nat.

(** A dispatcher goroutine: its topic, the queue it read at its start (not read
    yet, or read; nil when the topic was already gone) and its context. *)
Record dispatcher := mkDispatcher {
  dl_topic : string;
  dl_ch : option (option chanid);
  dl_cancelled : bool
}.

Record DefaultRouter := mkRouter {
  rt_topicConsumers : gmap string (gmap string cref);
  rt_mainChans : gmap string chanid;
  rt_dispatchCancel : gmap string loopid;
  rt_topicPressure : gmap string topicPressure;
  (* the heaps and goroutines the fields refer to *)
  rt_chans : heap queuedJob;
  rt_loops : gmap loopid dispatcher;
  rt_next : nat;
  (* proxy_jobs_pushed_per_topic, proxy_jobs_dropped_per_topic *)
  rt_pushed : gmap string Z;
  rt_dropped : gmap string Z
}.

Definition NewDefaultRouter : DefaultRouter := mkRouter ∅ ∅ ∅ ∅ ∅ ∅ 0 ∅ ∅.

Definition set_topicConsumers m (r : DefaultRouter) : DefaultRouter :=
  mkRouter m (rt_mainChans r) (rt_dispatchCancel r) (rt_topicPressure r) (rt_chans r)
    (rt_loops r) (rt_next r) (rt_pushed r) (rt_dropped r).
Definition set_topicPressure m (r : DefaultRouter) : DefaultRouter :=
  mkRouter (rt_topicConsumers r) (rt_mainChans r) (rt_dispatchCancel r) m (rt_chans r)
    (rt_loops r) (rt_next r) (rt_pushed r) (rt_dropped r).
Definition set_chans m (r : DefaultRouter) : DefaultRouter :=
  mkRouter (rt_topicConsumers r) (rt_mainChans r) (rt_dispatchCancel r) (rt_topicPressure r) m
    (rt_loops r) (rt_next r) (rt_pushed r) (rt_dropped r).
Definition set_loops m (r : DefaultRouter) : DefaultRouter :=
  mkRouter (rt_topicConsumers r) (rt_mainChans r) (rt_dispatchCancel r) (rt_topicPressure r)
    (rt_chans r) m (rt_next r) (rt_pushed r) (rt_dropped r).

Definition JobsPushed (topic : string) (r : DefaultRouter) : DefaultRouter :=
  mkRouter (rt_topicConsumers r) (rt_mainChans r) (rt_dispatchCancel r) (rt_topicPressure r)
    (rt_chans r) (rt_loops r) (rt_next r) (count topic (rt_pushed r)) (rt_dropped r).
Definition JobsDropped (topic : string) (r : DefaultRouter) : DefaultRouter :=
  mkRouter (rt_topicConsumers r) (rt_mainChans r) (rt_dispatchCancel r) (rt_topicPressure r)
    (rt_chans r) (rt_loops r) (rt_next r) (rt_pushed r) (count topic (rt_dropped r)).

(** ** Topics come and go *)

(** The context is the new goroutine's own; its queue is read when it runs. *)
Definition startDispatcher (topic : string) (r : DefaultRouter) : DefaultRouter :=
  let id := rt_next r in
  mkRouter (rt_topicConsumers r) (rt_mainChans r) (<[topic := id]> (rt_dispatchCancel r))
    (rt_topicPressure r) (rt_chans r)
    (<[id := mkDispatcher topic None false]> (rt_loops r)) (S id) (rt_pushed r) (rt_dropped r).

Definition cancel_loop (d : dispatcher) : dispatcher :=
  mkDispatcher (dl_topic d) (dl_ch d) true.

Definition stopDispatcher (topic : string) (r : DefaultRouter) : DefaultRouter :=
  match rt_dispatchCancel r !! topic with
  | None => r
  | Some id =>
      mkRouter (rt_topicConsumers r) (rt_mainChans r) (delete topic (rt_dispatchCancel r))
        (rt_topicPressure r) (rt_chans r) (alter cancel_loop id (rt_loops r)) (rt_next r)
        (rt_pushed r) (rt_dropped r)
  end.

Definition AddConsumer (now : Z) (topic : string) (p : cref) (c : Consumer) (r : DefaultRouter)
    : DefaultRouter :=
  let r1 :=
    match rt_topicConsumers r !! topic with
    | Some _ => r
    | None =>
        let ch := rt_next r in
        startDispatcher topic
          (mkRouter (<[topic := ∅]> (rt_topicConsumers r)) (<[topic := ch]> (rt_mainChans r))
             (rt_dispatchCancel r) (<[topic := mkPressure false now]> (rt_topicPressure r))
             (<[ch := make_chan perTopicBufferSize]> (rt_chans r))
             (rt_loops r) (S ch) (rt_pushed r) (rt_dropped r))
    end in
  set_topicConsumers (alter (λ cs, <[cs_ID c := p]> cs) topic (rt_topicConsumers r1)) r1.

(** for len(r.mainChans[topic]) > 0 { <-r.mainChans[topic] }, no one else
    receiving meanwhile (see [DrainRace] for the other case). *)
Definition drain_chan (ch : chan queuedJob) : chan queuedJob := Chan (ch_cap ch) [].

Definition drainAndStopTopic (topic : string) (r : DefaultRouter) : DefaultRouter :=
  let r1 := stopDispatcher topic r in
  let chans :=
    match rt_mainChans r1 !! topic with
    | Some ch => alter drain_chan ch (rt_chans r1)
    | None => rt_chans r1
    end in
  mkRouter (delete topic (rt_topicConsumers r1)) (delete topic (rt_mainChans r1))
    (rt_dispatchCancel r1) (delete topic (rt_topicPressure r1)) chans (rt_loops r1) (rt_next r1)
    (rt_pushed r1) (rt_dropped r1).

Definition RemoveConsumer (topic consumerID : string) (r : DefaultRouter) : DefaultRouter :=
  match rt_topicConsumers r !! topic with
  | None => r
  | Some consumers =>
      let consumers' := delete consumerID consumers in
      let r1 := set_topicConsumers (<[topic := consumers']> (rt_topicConsumers r)) r in
      if (size consumers' =? 0)%nat then drainAndStopTopic topic r1 else r1
  end.

(** ** Back-pressure and queueing *)

Definition markSaturated (now : Z) (topic : string) (r : DefaultRouter) : DefaultRouter :=
  match rt_topicPressure r !! topic with
  | Some _ => set_topicPressure (<[topic := mkPressure true now]> (rt_topicPressure r)) r
  | None => r
  end.

(** The loop over the jobs, with the queue looked up before it. *)
Fixpoint enqueue_loop (now : Z) (topic : string) (ch : chanid) (jobs : list (option Job))
    (rejected : Z) (r : DefaultRouter) : Z * DefaultRouter :=
  match jobs with
  | [] => (rejected, r)
  | j :: rest =>
      match rt_chans r !! ch with
      | None => (rejected, r) (* no such channel: not reachable *)
      | Some c =>
          let '(c', sent) := try_send c (mkQueued j now) in
          if sent then
            enqueue_loop now topic ch rest rejected (set_chans (<[ch := c']> (rt_chans r)) r)
          else
            enqueue_loop now topic ch rest (rejected + 1)
              (markSaturated now topic (JobsDropped topic r))
      end
  end.

(** The number of rejected jobs, and the router after the call. *)
Definition EnqueueJobs (now : Z) (topic : string) (jobs : list (option Job)) (r : DefaultRouter)
    : Z * DefaultRouter :=
  match rt_mainChans r !! topic with
  | None => (Z.of_nat (length jobs), r)
  | Some ch =>
      let '(rejected, r1) := enqueue_loop now topic ch jobs 0 r in
      (rejected, if 0 <? rejected then markSaturated now topic r1 else r1)
  end.

(** ** Choosing a consumer, reporting capacity *)

(** c.GetFreeSlots() through a reference. *)
Definition free_of (cs : gmap cref Consumer) (p : cref) : Z :=
  match cs !! p with Some c => GetFreeSlots c | None => 0 end.

Fixpoint best_consumer (cs : gmap cref Consumer) (order : list cref) (best : option cref)
    (bestFree : Z) : option cref :=
  match order with
  | [] => best
  | c :: rest =>
      let free := free_of cs c in
      if bestFree <? free then best_consumer cs rest (Some c) free
      else best_consumer cs rest best bestFree
  end.

(** Go iterates over a map in an unspecified order: [order] lists the
    references of the topic's consumers in the order the loop sees them. *)
Definition GetNextConsumer (cs : gmap cref Consumer) (order : list cref) (topic : string)
    (r : DefaultRouter) : option cref :=
  match rt_topicConsumers r !! topic with
  | None => None
  | Some consumersMap =>
      if (size consumersMap =? 0)%nat then None else best_consumer cs order None (-1)
  end.

Definition topic_refs (topic : string) (r : DefaultRouter) : list cref :=
  match rt_topicConsumers r !! topic with
  | None => []
  | Some m => (map_to_list m).*2
  end.

Definition active_count (cs : gmap cref Consumer) (consumers : gmap string cref) : Z :=
  Z.of_nat (length (filter (λ kp, 0 < free_of cs kp.2) (map_to_list consumers))).

(** One topic of the report: the new pressure entry and what is appended. *)
Definition report_topic (now : Z) (cs : gmap cref Consumer) (topic : string)
    (consumers : gmap string cref) (pressure : option topicPressure)
    : option topicPressure * list TopicCapacity :=
  if (size consumers =? 0)%nat then (pressure, [])
  else
    let pressure' :=
      (λ p, if tpr_saturated p && (2 * second <? now - tpr_lastUpdated p)
            then mkPressure false (tpr_lastUpdated p) else p) <$> pressure in
    (pressure',
     match pressure' with
     | Some p =>
         if tpr_saturated p then [mkTopicCapacity topic 0]
         else [mkTopicCapacity topic (active_count cs consumers)]
     | None => [mkTopicCapacity topic (active_count cs consumers)]
     end).

Fixpoint report_loop (now : Z) (cs : gmap cref Consumer)
    (topics : list (string * gmap string cref)) (acc : list TopicCapacity) (r : DefaultRouter)
    : list TopicCapacity * DefaultRouter :=
  match topics with
  | [] => (acc, r)
  | (topic, consumers) :: rest =>
      let '(pressure', caps) := report_topic now cs topic consumers (rt_topicPressure r !! topic) in
      report_loop now cs rest (acc ++ caps)
        (set_topicPressure (partial_alter (λ _, pressure') topic (rt_topicPressure r)) r)
  end.

(** [topics] is the map in the order the loop sees it. *)
Definition BuildHeartbeatReport (now : Z) (cs : gmap cref Consumer)
    (topics : list (string * gmap string cref)) (r : DefaultRouter)
    : list TopicCapacity * DefaultRouter :=
  report_loop now cs topics [] r.

(** ** The dispatcher *)

(** The queue behind a channel value that may be nil. *)
Definition queue_of (ch : option chanid) (r : DefaultRouter) : option (chanid * chan queuedJob) :=
  match ch with
  | None => None
  | Some i =>
      match rt_chans r !! i with
      | None => None
      | Some c => Some (i, c)
      end
  end.

Section Dispatch.
(** json.Marshal of a delivery: [None] when it returns an error (Data that is
    not valid JSON). *)
Context (marshal : ToConsumerDelivery → option bytes).

Definition delivery (topic : string) (j : Job) (seqID : Z) : ToConsumerDelivery :=
  mkDelivery "job" topic (job_ID j) seqID (job_Data j).

(** One round of the batch loop: what is left of the state and whether the
    loop is over ([break] or [done]). *)
Definition dispatch_round (now : Z) (topic : string) (ch : option chanid) (p : cref)
    (st : DefaultRouter * gmap cref Consumer)
    : exec (DefaultRouter * gmap cref Consumer * bool) :=
  let '(r, cs) := st in
  consumer ← deref (cs !! p);
  if GetFreeSlots consumer <=? 0 then Returns (r, cs, true)
  else
    match queue_of ch r with
    | None => Returns (r, cs, true) (* receiving from a nil channel *)
    | Some (i, c) =>
        match recv c with
        | None => Returns (r, cs, true)
        | Some (qj, c') =>
            let r1 := set_chans (<[i := c']> (rt_chans r)) r in
            if jobTTL <? now - qj_firstSeen qj then Returns (JobsDropped topic r1, cs, false)
            else
              let '(seqID, consumer1) := OnJobSent consumer in
              let cs1 := <[p := consumer1]> cs in
              job ← deref (qj_Job qj);
              match marshal (delivery topic job seqID) with
              | None => Returns (r1, cs1, false)
              | Some msgJSON =>
                  let '(w, sent) := try_send (cs_writeCh consumer1) msgJSON in
                  if sent then
                    Returns (JobsPushed topic r1, <[p := set_writeCh w consumer1]> cs1, false)
                  else Returns (JobsDropped topic r1, cs1, true)
              end
        end
    end.

(** for i := 0; i < dispatchBatchSize && !done; i++, [n] rounds left; the
    clock is read in every round. *)
Fixpoint dispatch_batch (n : nat) (clock : nat → Z) (topic : string) (ch : option chanid)
    (p : cref) (st : DefaultRouter * gmap cref Consumer)
    : exec (DefaultRouter * gmap cref Consumer) :=
  match n with
  | O => Returns st
  | S n' =>
      '(r1, cs1, fin) ← dispatch_round (clock n) topic ch p st;
      if (fin : bool) then Returns (r1, cs1) else dispatch_batch n' clock topic ch p (r1, cs1)
  end.

(** One round of the outer loop after the cancellation check: pick a consumer,
    [order] being the order in which the map is traversed; without one that has
    a free slot wait 5 ms ([None]: nothing changed). *)
Definition dispatchLoop_round (clock : nat → Z) (order : list cref) (topic : string)
    (ch : option chanid) (st : DefaultRouter * gmap cref Consumer)
    : option (exec (DefaultRouter * gmap cref Consumer)) :=
  if decide (order ≡ₚ topic_refs topic st.1) then
    match GetNextConsumer st.2 order topic st.1 with
    | None => None
    | Some p =>
        if free_of st.2 p <=? 0 then None
        else Some (dispatch_batch dispatchBatchSize clock topic ch p st)
    end
  else None.
End Dispatch.

Arguments dispatch_round : simpl never.
Arguments dispatch_batch : simpl never.

Lemma dispatch_batch_S marshal n clock t ch p st :
  dispatch_batch marshal (S n) clock t ch p st =
    '(r1, cs1, fin) ← dispatch_round marshal (clock (S n)) t ch p st;
    if (fin : bool) then Returns (r1, cs1) else dispatch_batch marshal n clock t ch p (r1, cs1).
Proof. done. Qed.

(** ** The router and its environment as a machine *)

Definition start_loop (r : DefaultRouter) (d : dispatcher) : dispatcher :=
  mkDispatcher (dl_topic d) (Some (rt_mainChans r !! dl_topic d)) (dl_cancelled d).

(** Calls from the API and the cluster agent, and the dispatchers' rounds. *)
Inductive router_event :=
  | EvAdd (now : Z) (topic : string) (p : cref) (c : Consumer)
  | EvRemove (topic consumerID : string)
  | EvEnqueue (now : Z) (topic : string) (jobs : list (option Job))
  | EvReport (now : Z)
  | EvAck (p : cref) (n : Z)
  | EvLoopStart (id : loopid)
  | EvLoopRound (id : loopid) (clock : nat → Z) (order : list cref).

Section Machine.
Context (marshal : ToConsumerDelivery → option bytes).

(** [None]: not enabled, or a panic, which ends the process. *)
Definition router_step (e : router_event) (s : DefaultRouter * gmap cref Consumer)
    : option (DefaultRouter * gmap cref Consumer) :=
  let '(r, cs) := s in
  match e with
  | EvAdd now topic p c =>
      match cs !! p with
      | None => Some (AddConsumer now topic p c r, <[p := c]> cs)
      | Some _ => None
      end
  | EvRemove topic id => Some (RemoveConsumer topic id r, cs)
  | EvEnqueue now topic jobs => Some ((EnqueueJobs now topic jobs r).2, cs)
  | EvReport now =>
      Some ((BuildHeartbeatReport now cs (map_to_list (rt_topicConsumers r)) r).2, cs)
  | EvAck p n => Some (r, alter (UpdateDeliveryAck n) p cs)
  | EvLoopStart id =>
      match rt_loops r !! id with
      | Some d =>
          match dl_ch d with
          | None => Some (set_loops (<[id := start_loop r d]> (rt_loops r)) r, cs)
          | Some _ => None
          end
      | None => None
      end
  | EvLoopRound id clock order =>
      match rt_loops r !! id with
      | Some d =>
          match dl_ch d, dl_cancelled d with
          | Some ch, false =>
              match dispatchLoop_round marshal clock order (dl_topic d) ch (r, cs) with
              | Some (Returns s') => Some s'
              | _ => None
              end
          | _, _ => None
          end
      | None => None
      end
  end.
End Machine.

(** ** Well-formedness *)

(** The four maps have the same topics, every topic has a consumer, its own
    bounded queue and exactly one dispatcher that is not cancelled, which serves
    that queue. *)
Record router_wf (r : DefaultRouter) : Prop := {
  rw_chans : dom (rt_mainChans r) = dom (rt_topicConsumers r);
  rw_pressure : dom (rt_topicPressure r) = dom (rt_topicConsumers r);
  rw_cancel : dom (rt_dispatchCancel r) = dom (rt_topicConsumers r);
  rw_nonempty : ∀ t m, rt_topicConsumers r !! t = Some m → m ≠ ∅;
  rw_queue : ∀ t ch, rt_mainChans r !! t = Some ch →
    ∃ c, rt_chans r !! ch = Some c ∧ ch_cap c = perTopicBufferSize ∧ chan_ok c;
  rw_own_queue : ∀ t t' ch, rt_mainChans r !! t = Some ch → rt_mainChans r !! t' = Some ch → t = t';
  rw_loop : ∀ t id, rt_dispatchCancel r !! t = Some id →
    ∃ d, rt_loops r !! id = Some d ∧ dl_topic d = t ∧ dl_cancelled d = false;
  rw_one_loop : ∀ id d, rt_loops r !! id = Some d → dl_cancelled d = false →
    rt_dispatchCancel r !! dl_topic d = Some id;
  rw_loop_queue : ∀ id d ch, rt_loops r !! id = Some d → dl_cancelled d = false →
    dl_ch d = Some ch → ch = rt_mainChans r !! dl_topic d;
  rw_fresh_chan : ∀ ch c, rt_chans r !! ch = Some c → (ch < rt_next r)%nat;
  rw_fresh_loop : ∀ id d, rt_loops r !! id = Some d → (id < rt_next r)%nat
}.

(** Two routers that differ in pressure and metrics only, and whose queues
    agree on capacity and bounds. *)
Record same_topics (r r' : DefaultRouter) : Prop := {
  st_consumers : rt_topicConsumers r' = rt_topicConsumers r;
  st_chans : rt_mainChans r' = rt_mainChans r;
  st_cancel : rt_dispatchCancel r' = rt_dispatchCancel r;
  st_pressure : dom (rt_topicPressure r') = dom (rt_topicPressure r);
  st_loops : rt_loops r' = rt_loops r;
  st_next : rt_next r' = rt_next r;
  st_queues : ∀ i, match rt_chans r !! i, rt_chans r' !! i with
    | Some c, Some c' => ch_cap c' = ch_cap c ∧ (chan_ok c → chan_ok c')
    | None, None => True
    | _, _ => False
    end
}.

#[export] Instance same_topics_preorder : PreOrder same_topics.
Proof.
  split.
  - intros r. split; try done. intros i. by destruct (rt_chans r !! i).
  - intros r1 r2 r3 [a1 a2 a3 a4 a5 a6 a7] [b1 b2 b3 b4 b5 b6 b7]. split; try congruence.
    intros i. specialize (a7 i). specialize (b7 i).
    destruct (rt_chans r1 !! i), (rt_chans r2 !! i), (rt_chans r3 !! i); naive_solver congruence.
Qed.

Lemma same_topics_wf r r' : same_topics r r' → router_wf r → router_wf r'.
Proof.
  intros [Hc Hm Hd Hp Hl Hn Hq] [w1 w2 w3 w4 w5 w6 w7 w8 wq w9 w10]. split;
    rewrite ?Hc, ?Hm, ?Hd, ?Hp, ?Hl, ?Hn; try done.
  - intros t ch Ht. destruct (w5 t ch Ht) as (c & Hch & Hcap & Hok). specialize (Hq ch).
    rewrite Hch in Hq. destruct (rt_chans r' !! ch) as [c'|]; [|done].
    exists c'. naive_solver congruence.
  - intros ch c Hch. specialize (Hq ch). rewrite Hch in Hq.
    destruct (rt_chans r !! ch) as [c0|] eqn:H0; [|done]. by eapply w9.
Qed.

Lemma same_topics_chan r i c c' :
  rt_chans r !! i = Some c → ch_cap c' = ch_cap c → (chan_ok c → chan_ok c') →
  same_topics r (set_chans (<[i := c']> (rt_chans r)) r).
Proof.
  intros Hi Hcap Hok. split; try done. intros j. cbn.
  destruct (decide (i = j)) as [<-|Hne].
  - by rewrite Hi, lookup_insert_eq.
  - rewrite lookup_insert_ne by done. by destruct (rt_chans r !! j).
Qed.

Lemma same_topics_dropped t r : same_topics r (JobsDropped t r).
Proof. split; try done. cbn. intros i. by destruct (rt_chans r !! i). Qed.

Lemma same_topics_pushed t r : same_topics r (JobsPushed t r).
Proof. split; try done. cbn. intros i. by destruct (rt_chans r !! i). Qed.

Lemma same_topics_pressure m r :
  dom m = dom (rt_topicPressure r) → same_topics r (set_topicPressure m r).
Proof. intros Hd. split; try done. cbn. intros i. by destruct (rt_chans r !! i). Qed.

Lemma same_topics_mark now t r : same_topics r (markSaturated now t r).
Proof.
  unfold markSaturated. destruct (rt_topicPressure r !! t) eqn:Ht; [|reflexivity].
  apply same_topics_pressure. rewrite dom_insert_L.
  assert (t ∈ dom (rt_topicPressure r)) by (apply elem_of_dom; eauto). set_solver.
Qed.

#[export] Hint Resolve same_topics_mark same_topics_dropped same_topics_pushed : cue.

Lemma enqueue_loop_same now t ch jobs n r n' r' :
  enqueue_loop now t ch jobs n r = (n', r') → same_topics r r'.
Proof.
  revert n r. induction jobs as [|j jobs IH]; intros n r He; cbn in He.
  { simplify_eq. reflexivity. }
  destruct (rt_chans r !! ch) as [c|] eqn:Hc; [|simplify_eq; reflexivity].
  destruct (try_send c _) as [c' sent] eqn:Hs. destruct sent.
  - transitivity (set_chans (<[ch := c']> (rt_chans r)) r); [|by eapply IH].
    pose proof (try_send_cap c (mkQueued j now)) as Hcap.
    pose proof (try_send_ok c (mkQueued j now)) as Hok. rewrite Hs in Hcap, Hok.
    by eapply same_topics_chan.
  - transitivity (JobsDropped t r); [auto with cue|].
    transitivity (markSaturated now t (JobsDropped t r)); [auto with cue|]. by eapply IH.
Qed.

Lemma EnqueueJobs_same now t jobs r : same_topics r (EnqueueJobs now t jobs r).2.
Proof.
  unfold EnqueueJobs. destruct (rt_mainChans r !! t) as [ch|]; [|reflexivity].
  destruct (enqueue_loop _ _ _ _ _ _) as [n r1] eqn:He. cbn.
  apply enqueue_loop_same in He. case_match; [|done].
  transitivity r1; [done|auto with cue].
Qed.

Lemma report_loop_same now cs topics acc r :
  (∀ t m, (t, m) ∈ topics → t ∈ dom (rt_topicPressure r)) →
  same_topics r (report_loop now cs topics acc r).2.
Proof.
  revert acc r. induction topics as [|[t m] topics IH]; intros acc r Hdom; cbn; [reflexivity|].
  destruct (report_topic _ _ _ _ _) as [pr caps] eqn:Hp.
  assert (same_topics r (set_topicPressure
    (partial_alter (λ _, pr) t (rt_topicPressure r)) r)) as Hs.
  { apply same_topics_pressure.
    assert (t ∈ dom (rt_topicPressure r)) as Hin by (eapply Hdom; by left).
    apply elem_of_dom in Hin as [p0 Hp0]. rewrite Hp0 in Hp.
    assert (is_Some pr) as [p1 ->].
    { unfold report_topic in Hp. case_match; simplify_eq; eauto. }
    change (partial_alter (λ _, Some p1) t (rt_topicPressure r))
      with (<[t := p1]> (rt_topicPressure r)).
    rewrite dom_insert_L. assert (t ∈ dom (rt_topicPressure r)) by (apply elem_of_dom; eauto).
    set_solver. }
  etransitivity; [exact Hs|]. apply IH. intros t' m' Hin. rewrite (st_pressure _ _ Hs).
  eapply Hdom. by right.
Qed.

(** ** Dispatch rounds *)
Section DispatchFacts.
Context (marshal : ToConsumerDelivery → option bytes).

Definition expired (now : Z) (qj : queuedJob) : Prop := jobTTL < now - qj_firstSeen qj.

(** What a round did: nothing, or one queued job taken and dropped as
    expired, lost to json.Marshal, dropped at a full write channel, or sent. *)
Inductive round_fate := FNone | FExpired | FUnmarshalled | FOverflow | FSent (m : bytes).

Inductive round_spec (now : Z) (t : string) (i : chanid) (c : chan queuedJob) (p : cref)
    (k : Consumer) (r : DefaultRouter) (cs : gmap cref Consumer)
    : DefaultRouter → gmap cref Consumer → bool → round_fate → Prop :=
| RNone : GetFreeSlots k <= 0 ∨ ch_buf c = [] → round_spec now t i c p k r cs r cs true FNone
| RExpired qj c' :
    0 < GetFreeSlots k → recv c = Some (qj, c') → expired now qj →
    round_spec now t i c p k r cs
      (JobsDropped t (set_chans (<[i := c']> (rt_chans r)) r)) cs false FExpired
| RUnmarshalled qj c' j :
    0 < GetFreeSlots k → recv c = Some (qj, c') → ¬ expired now qj → qj_Job qj = Some j →
    marshal (delivery t j (OnJobSent k).1) = None →
    round_spec now t i c p k r cs
      (set_chans (<[i := c']> (rt_chans r)) r) (<[p := (OnJobSent k).2]> cs) false FUnmarshalled
| ROverflow qj c' j m :
    0 < GetFreeSlots k → recv c = Some (qj, c') → ¬ expired now qj → qj_Job qj = Some j →
    marshal (delivery t j (OnJobSent k).1) = Some m → chan_full (cs_writeCh k) = true →
    round_spec now t i c p k r cs
      (JobsDropped t (set_chans (<[i := c']> (rt_chans r)) r)) (<[p := (OnJobSent k).2]> cs)
      true FOverflow
| RSent qj c' j m :
    0 < GetFreeSlots k → recv c = Some (qj, c') → ¬ expired now qj → qj_Job qj = Some j →
    marshal (delivery t j (OnJobSent k).1) = Some m → chan_full (cs_writeCh k) = false →
    round_spec now t i c p k r cs
      (JobsPushed t (set_chans (<[i := c']> (rt_chans r)) r))
      (<[p := set_writeCh (chan_push (cs_writeCh k) m) (OnJobSent k).2]> cs) false (FSent m).

Lemma dispatch_round_cases now t i c p k r cs :
  cs !! p = Some k → rt_chans r !! i = Some c →
  (∃ r' cs' fin f, dispatch_round marshal now t (Some i) p (r, cs) = Returns (r', cs', fin) ∧
     round_spec now t i c p k r cs r' cs' fin f) ∨
  (dispatch_round marshal now t (Some i) p (r, cs) = Panics NilDereference ∧
   ∃ qj c', recv c = Some (qj, c') ∧ qj_Job qj = None).
Proof.
  intros Hp Hi. unfold dispatch_round. rewrite Hp. cbn [deref mbind exec_bind].
  destruct (Z.leb_spec (GetFreeSlots k) 0) as [Hf|Hf].
  { left. do 4 eexists. split; [done|]. apply RNone. by left. }
  cbn [queue_of]. rewrite Hi. destruct (recv c) as [[qj c']|] eqn:Hr.
  2: { left. do 4 eexists. split; [done|]. apply RNone. right.
       unfold recv in Hr. by destruct (ch_buf c). }
  destruct (Z.ltb_spec jobTTL (now - qj_firstSeen qj)) as [Ht|Ht].
  { left. do 4 eexists. split; [done|]. by eapply RExpired. }
  assert (¬ expired now qj) as Hx by (unfold expired; lia).
  destruct (OnJobSent k) as [seq k1] eqn:Ho.
  destruct (qj_Job qj) as [j|] eqn:Hj; cbn [deref mbind exec_bind]; [|right; eauto].
  left. pose proof (f_equal fst Ho) as H1. pose proof (f_equal snd Ho) as H2. cbn in H1, H2.
  assert (cs_writeCh k1 = cs_writeCh k) as Hw by (by rewrite <- H2).
  subst seq k1. destruct (marshal _) as [m|] eqn:Hm.
  2: { do 4 eexists. split; [done|]. by eapply RUnmarshalled. }
  unfold try_send. rewrite Hw. destruct (chan_full (cs_writeCh k)) eqn:Hfull.
  - do 4 eexists. split; [done|]. by eapply ROverflow.
  - do 4 eexists. split; [rewrite insert_insert_eq; done|]. by eapply RSent.
Qed.

Lemma round_same now t i c p k r cs r' cs' fin f :
  rt_chans r !! i = Some c → round_spec now t i c p k r cs r' cs' fin f → same_topics r r'.
Proof.
  intros Hi Hs.
  assert (∀ qj c', recv c = Some (qj, c') →
    same_topics r (set_chans (<[i := c']> (rt_chans r)) r)) as Hc.
  { intros qj c' Hr. eapply same_topics_chan; [done| |eauto with cue].
    by apply recv_Some in Hr as [_ ?]. }
  destruct Hs; [reflexivity|..]; try (by eauto);
    (etransitivity; [by eapply Hc|auto with cue]).
Qed.

Lemma dispatch_round_nil_queue now t ch p r cs r' cs' fin :
  queue_of ch r = None →
  dispatch_round marshal now t ch p (r, cs) = Returns (r', cs', fin) →
  r' = r ∧ cs' = cs ∧ fin = true.
Proof.
  intros Hq. unfold dispatch_round. destruct (cs !! p) as [k|]; cbn; [|done].
  case_match; [naive_solver|]. rewrite Hq. naive_solver.
Qed.

Lemma dispatch_round_same now t ch p r cs r' cs' fin :
  dispatch_round marshal now t ch p (r, cs) = Returns (r', cs', fin) → same_topics r r'.
Proof.
  intros Hd. destruct (queue_of ch r) as [[i c]|] eqn:Hq.
  2: { by destruct (dispatch_round_nil_queue _ _ _ _ _ _ _ _ _ Hq Hd) as (-> & _). }
  destruct ch as [i'|]; cbn in Hq; [|done].
  destruct (rt_chans r !! i') as [c'|] eqn:Hi; [|done]. simplify_eq.
  destruct (cs !! p) as [k|] eqn:Hp.
  2: { unfold dispatch_round in Hd. by rewrite Hp in Hd. }
  destruct (dispatch_round_cases now t i c p k r cs Hp Hi)
    as [(r1 & cs1 & fin1 & f & Hd1 & Hs)|[Hd1 _]]; rewrite Hd1 in Hd; simplify_eq.
  by eapply round_same.
Qed.

Lemma dispatch_batch_same n clock t ch p r cs r' cs' :
  dispatch_batch marshal n clock t ch p (r, cs) = Returns (r', cs') → same_topics r r'.
Proof.
  revert r cs. induction n as [|n IH]; intros r cs Hd.
  { injection Hd as <- <-. reflexivity. }
  rewrite dispatch_batch_S in Hd. apply exec_bind_returns in Hd as ([[r1 cs1] fin] & Hd1 & Hd2).
  apply dispatch_round_same in Hd1. etransitivity; [exact Hd1|].
  destruct fin; [simplify_eq; reflexivity|by eapply IH].
Qed.
End DispatchFacts.

(** ** The operations on topics keep routers well-formed *)

Lemma lookup_dom_eq {A B} (m1 : gmap string A) (m2 : gmap string B) t :
  dom m1 = dom m2 → m2 !! t = None → m1 !! t = None.
Proof. intros Hd Ht. apply not_elem_of_dom. rewrite Hd. by apply not_elem_of_dom. Qed.

Lemma AddConsumer_old now t p c r m :
  rt_topicConsumers r !! t = Some m →
  AddConsumer now t p c r =
    set_topicConsumers (<[t := <[cs_ID c := p]> m]> (rt_topicConsumers r)) r.
Proof.
  intros Ht. unfold AddConsumer. rewrite Ht. f_equal.
  apply map_eq. intros t'. destruct (decide (t = t')) as [<-|Hne].
  - by rewrite lookup_alter_eq, Ht, lookup_insert_eq.
  - by rewrite lookup_alter_ne, lookup_insert_ne.
Qed.

Lemma AddConsumer_new now t p c r :
  rt_topicConsumers r !! t = None →
  AddConsumer now t p c r =
    mkRouter (<[t := {[cs_ID c := p]}]> (rt_topicConsumers r))
      (<[t := rt_next r]> (rt_mainChans r))
      (<[t := S (rt_next r)]> (rt_dispatchCancel r))
      (<[t := mkPressure false now]> (rt_topicPressure r))
      (<[rt_next r := make_chan perTopicBufferSize]> (rt_chans r))
      (<[S (rt_next r) := mkDispatcher t None false]> (rt_loops r))
      (S (S (rt_next r))) (rt_pushed r) (rt_dropped r).
Proof.
  intros Ht. unfold AddConsumer. rewrite Ht. unfold set_topicConsumers. cbn. f_equal.
  rewrite alter_insert_eq. reflexivity.
Qed.

Lemma AddConsumer_wf now t p c r : router_wf r → router_wf (AddConsumer now t p c r).
Proof.
  intros Hwf. destruct (rt_topicConsumers r !! t) as [m|] eqn:Ht.
  - rewrite (AddConsumer_old _ _ _ _ _ _ Ht).
    assert (dom (<[t := <[cs_ID c := p]> m]> (rt_topicConsumers r)) = dom (rt_topicConsumers r))
      as Hd.
    { rewrite dom_insert_L. assert (t ∈ dom (rt_topicConsumers r)) by (apply elem_of_dom; eauto).
      set_solver. }
    destruct Hwf. split; cbn; rewrite ?Hd; try done.
    intros t' m'. destruct (decide (t = t')) as [<-|Hne].
    + rewrite lookup_insert_eq. intros [= <-]. apply insert_non_empty.
    + rewrite lookup_insert_ne by done. eauto.
  - rewrite (AddConsumer_new _ _ _ _ _ Ht).
    destruct Hwf as [w1 w2 w3 w4 w5 w6 w7 w8 wq w9 w10].
    pose proof (lookup_dom_eq _ _ _ w1 Ht) as Htc.
    pose proof (lookup_dom_eq _ _ _ w3 Ht) as Htd.
    split; cbn; rewrite ?dom_insert_L, ?w1, ?w2, ?w3; try done.
    + intros t' m'. rewrite lookup_insert. case_decide; [|by eauto].
      intros [= <-]. apply insert_non_empty.
    + intros t' ch. rewrite lookup_insert. case_decide.
      * intros [= <-]. rewrite lookup_insert_eq. eexists. split; [done|].
        split; [done|by apply make_chan_ok].
      * intros Hch. destruct (w5 _ _ Hch) as (c0 & Hc0 & ?).
        exists c0. rewrite lookup_insert_ne; [done|]. apply w9 in Hc0. lia.
    + intros t1 t2 ch. rewrite !lookup_insert.
      case_decide; case_decide; [congruence|..|apply w6].
      * intros [= <-] H2. destruct (w5 _ _ H2) as (c0 & Hc0 & _). apply w9 in Hc0. lia.
      * intros H1 [= <-]. destruct (w5 _ _ H1) as (c0 & Hc0 & _). apply w9 in Hc0. lia.
    + intros t' id. rewrite lookup_insert. case_decide.
      * intros [= <-]. rewrite lookup_insert_eq. naive_solver.
      * intros Hid. destruct (w7 _ _ Hid) as (d & Hd & ?). exists d.
        rewrite lookup_insert_ne; [done|]. apply w10 in Hd. lia.
    + intros id d. rewrite lookup_insert. case_decide.
      * intros [= <-] _. cbn. by rewrite lookup_insert_eq; subst.
      * intros Hd Hc. specialize (w8 _ _ Hd Hc). rewrite lookup_insert_ne; [done|]. congruence.
    + intros id d ch. rewrite lookup_insert. case_decide.
      * intros [= <-] _. done.
      * intros Hd Hc Hq. specialize (w8 _ _ Hd Hc). rewrite lookup_insert_ne; [eauto|]. congruence.
    + intros ch c0. rewrite lookup_insert. case_decide; [lia|]. intros Hc%w9. lia.
    + intros id d. rewrite lookup_insert. case_decide; [lia|]. intros Hd%w10. lia.
Qed.

(** The router after the last consumer of [t] left. *)
Definition forget_topic (t : string) (ch : chanid) (id : loopid) (r : DefaultRouter)
    : DefaultRouter :=
  mkRouter (delete t (rt_topicConsumers r)) (delete t (rt_mainChans r))
    (delete t (rt_dispatchCancel r)) (delete t (rt_topicPressure r))
    (alter drain_chan ch (rt_chans r)) (alter cancel_loop id (rt_loops r)) (rt_next r)
    (rt_pushed r) (rt_dropped r).

Lemma RemoveConsumer_last t cid p r :
  router_wf r → rt_topicConsumers r !! t = Some {[cid := p]} →
  ∃ ch id, rt_mainChans r !! t = Some ch ∧ rt_dispatchCancel r !! t = Some id ∧
    RemoveConsumer t cid r = forget_topic t ch id r.
Proof.
  intros Hwf Ht. assert (t ∈ dom (rt_topicConsumers r)) as Hd by (apply elem_of_dom; eauto).
  pose proof Hd as Hd2. rewrite <- (rw_chans _ Hwf) in Hd. rewrite <- (rw_cancel _ Hwf) in Hd2.
  apply elem_of_dom in Hd as [ch Hch]. apply elem_of_dom in Hd2 as [id Hid].
  exists ch, id. split_and!; [done..|]. unfold RemoveConsumer. rewrite Ht.
  rewrite delete_singleton_eq. unfold drainAndStopTopic, stopDispatcher, forget_topic. cbn.
  rewrite Hid. cbn. rewrite Hch. by rewrite delete_insert_eq.
Qed.

Lemma forget_topic_wf t ch id r :
  router_wf r → rt_mainChans r !! t = Some ch → rt_dispatchCancel r !! t = Some id →
  router_wf (forget_topic t ch id r).
Proof.
  intros [w1 w2 w3 w4 w5 w6 w7 w8 wq w9 w10] Hch Hid.
  split; cbn; rewrite ?dom_delete_L, ?w1, ?w2, ?w3; try done.
  - intros t' m [_ Hm]%lookup_delete_Some. eauto.
  - intros t' ch' [Hne Hch']%lookup_delete_Some.
    destruct (w5 _ _ Hch') as (c & Hc & ?). exists c. rewrite lookup_alter_ne; [done|].
    intros <-. by specialize (w6 _ _ _ Hch Hch').
  - intros t1 t2 c [_ ?]%lookup_delete_Some [_ ?]%lookup_delete_Some. eauto.
  - intros t' id' [Hne Hid']%lookup_delete_Some.
    destruct (w7 _ _ Hid') as (d & Hd & Hdt & ?). exists d. rewrite lookup_alter_ne; [done|].
    intros <-. destruct (w7 _ _ Hid) as (d2 & Hd2 & Hdt2 & _). congruence.
  - intros id' d Hd Hc. apply lookup_alter_Some in Hd as [(-> & d0 & _ & ->)|[Hne Hd]]; [done|].
    rewrite lookup_delete_ne; [eauto|]. intros Heq. specialize (w8 _ _ Hd Hc). congruence.
  - intros id' d ch' Hd Hc Hq.
    apply lookup_alter_Some in Hd as [(-> & d0 & _ & ->)|[Hne Hd]]; [done|].
    rewrite lookup_delete_ne; [eauto|]. intros Heq. specialize (w8 _ _ Hd Hc). congruence.
  - intros ch' c [(-> & c0 & Hc0 & _)|[_ Hc]]%lookup_alter_Some; eauto.
  - intros id' d [(-> & d0 & Hd0 & _)|[_ Hd]]%lookup_alter_Some; eauto.
Qed.

Lemma delete_to_empty (m : gmap string cref) cid p :
  m !! cid = Some p → delete cid m = ∅ → m = {[cid := p]}.
Proof.
  intros Hp He. rewrite <- (insert_delete_id m cid p Hp), He. by rewrite insert_empty.
Qed.

Lemma RemoveConsumer_wf t cid r : router_wf r → router_wf (RemoveConsumer t cid r).
Proof.
  intros Hwf. destruct (rt_topicConsumers r !! t) as [m|] eqn:Ht.
  2: { unfold RemoveConsumer. by rewrite Ht. }
  destruct (decide (delete cid m = ∅)) as [He|Hne].
  - destruct (m !! cid) as [p|] eqn:Hp.
    + rewrite (delete_to_empty _ _ _ Hp He) in Ht.
      destruct (RemoveConsumer_last _ _ _ _ Hwf Ht) as (ch & id & Hch & Hid & ->).
      by apply forget_topic_wf.
    + rewrite delete_id in He by done. by destruct (rw_nonempty _ Hwf _ _ Ht).
  - unfold RemoveConsumer. rewrite Ht.
    assert (size (delete cid m) =? 0 = false)%nat as ->
      by (apply Nat.eqb_neq; by rewrite map_size_empty_iff).
    assert (dom (<[t := delete cid m]> (rt_topicConsumers r)) = dom (rt_topicConsumers r)) as Hd.
    { rewrite dom_insert_L. assert (t ∈ dom (rt_topicConsumers r)) by (apply elem_of_dom; eauto).
      set_solver. }
    destruct Hwf. split; cbn; rewrite ?Hd; try done.
    intros t' m'. rewrite lookup_insert. case_decide; [congruence|eauto].
Qed.

Lemma start_loop_wf id d r :
  router_wf r → rt_loops r !! id = Some d →
  router_wf (set_loops (<[id := start_loop r d]> (rt_loops r)) r).
Proof.
  intros [w1 w2 w3 w4 w5 w6 w7 w8 wq w9 w10] Hd. split; cbn; try done.
  - intros t id' Hid. destruct (w7 _ _ Hid) as (d' & Hd' & ? & ?).
    rewrite lookup_insert. case_decide; subst; [|eauto].
    eexists. split; [done|]. simplify_eq. done.
  - intros id' d'. rewrite lookup_insert. case_decide; [|eauto]. intros [= <-]. cbn.
    subst. eauto.
  - intros id' d' ch'. rewrite lookup_insert. case_decide; [|eauto].
    intros [= <-] _ [= <-]. done.
  - intros id' d'. rewrite lookup_insert. case_decide; [|eauto]. subst. eauto.
Qed.

Lemma router_step_wf marshal e s s' :
  router_wf s.1 → router_step marshal e s = Some s' → router_wf s'.1.
Proof.
  destruct s as [r cs]. intros Hwf Hs. destruct e; cbn in Hs, Hwf.
  - destruct (cs !! p); [done|]. simplify_eq. by apply AddConsumer_wf.
  - simplify_eq. by apply RemoveConsumer_wf.
  - simplify_eq. eapply same_topics_wf; [apply EnqueueJobs_same|done].
  - simplify_eq. eapply same_topics_wf; [|done]. apply report_loop_same.
    intros t m Hin%elem_of_map_to_list. rewrite (rw_pressure _ Hwf). apply elem_of_dom. eauto.
  - by simplify_eq.
  - destruct (rt_loops r !! id) as [d|] eqn:Hd; [|done]. destruct (dl_ch d); [done|].
    simplify_eq. by apply start_loop_wf.
  - destruct (rt_loops r !! id) as [d|] eqn:Hd; [|done].
    destruct (dl_ch d) as [ch|]; [|done]. destruct (dl_cancelled d); [done|].
    unfold dispatchLoop_round in Hs. cbn in Hs. destruct (decide _) as [_|]; [|done].
    destruct (GetNextConsumer _ _ _ _) as [p|]; [|done].
    destruct (free_of cs p <=? 0); [done|].
    destruct (dispatch_batch _ _ _ _ _ _ _) as [[r1 cs1]| |] eqn:Hb; simplify_eq.
    eapply same_topics_wf; [by eapply dispatch_batch_same|done].
Qed.

Lemma NewDefaultRouter_wf : router_wf NewDefaultRouter.
Proof. split; try done; set_solver. Qed.

(** ** Lemmas for the properties *)

Definition room {A} (c : chan A) : nat := Z.to_nat (ch_cap c - Z.of_nat (chan_len c)).

Lemma try_send_room {A} (c : chan A) v :
  try_send c v = if (room c =? 0)%nat then (c, false) else (chan_push c v, true).
Proof.
  unfold try_send, chan_full, room.
  destruct (Z.leb_spec (ch_cap c) (Z.of_nat (chan_len c))),
    (Nat.eqb_spec (Z.to_nat (ch_cap c - Z.of_nat (chan_len c))) 0); try done; lia.
Qed.

Lemma room_push {A} (c : chan A) v : room (chan_push c v) = (room c - 1)%nat.
Proof. unfold room, chan_len. cbn. rewrite length_app. cbn. lia. Qed.

(** A topic's entry after [k] rejections at time [now]. *)
Definition saturate (k : nat) (now : Z) (p : option topicPressure) : option topicPressure :=
  match k, p with
  | O, _ | _, None => p
  | S _, Some _ => Some (mkPressure true now)
  end.

Lemma markSaturated_lookup now t r :
  rt_topicPressure (markSaturated now t r) !! t = saturate 1 now (rt_topicPressure r !! t).
Proof.
  unfold markSaturated. destruct (rt_topicPressure r !! t) eqn:Hp; cbn; [|done].
  apply lookup_insert_eq.
Qed.

Lemma markSaturated_frame now t r :
  rt_chans (markSaturated now t r) = rt_chans r ∧
  rt_dropped (markSaturated now t r) = rt_dropped r.
Proof. unfold markSaturated. by destruct (rt_topicPressure r !! t). Qed.

Lemma saturate_saturate k k' now p :
  saturate k' now (saturate k now p) = saturate (k + k') now p.
Proof. destruct k, k', p; done. Qed.

Definition dropped_count (t : string) (r : DefaultRouter) : Z := default 0 (rt_dropped r !! t).

Lemma enqueue_loop_spec now t i jobs n r c :
  rt_chans r !! i = Some c →
  let k := (length jobs - room c)%nat in
  let '(n', r') := enqueue_loop now t i jobs n r in
  n' = n + Z.of_nat k ∧
  rt_chans r' !! i =
    Some (Chan (ch_cap c) (ch_buf c ++ ((λ j, mkQueued j now) <$> take (room c) jobs))) ∧
  rt_topicPressure r' !! t = saturate k now (rt_topicPressure r !! t) ∧
  dropped_count t r' = dropped_count t r + Z.of_nat k.
Proof.
  revert n r c. induction jobs as [|j jobs IH]; intros n r c Hc; cbn zeta.
  { cbn. rewrite take_nil, app_nil_r. destruct c. split_and!; try done; lia. }
  cbn [enqueue_loop]. rewrite Hc, try_send_room.
  destruct (Nat.eqb_spec (room c) 0) as [H0|H0].
  - set (r1 := markSaturated now t (JobsDropped t r)).
    assert (rt_chans r1 !! i = Some c) as Hc1.
    { unfold r1. by rewrite (proj1 (markSaturated_frame now t (JobsDropped t r))). }
    specialize (IH (n + 1) r1 c Hc1). cbn zeta in IH.
    destruct (enqueue_loop _ _ _ _ _ _) as [n' r'].
    destruct IH as (-> & -> & -> & ->). rewrite H0. cbn [take length].
    split_and!; [lia|done| |].
    + unfold r1. by rewrite markSaturated_lookup, saturate_saturate.
    + unfold r1, dropped_count. rewrite (proj2 (markSaturated_frame now t (JobsDropped t r))).
      cbn. unfold count. rewrite lookup_insert_eq. cbn. lia.
  - specialize (IH n (set_chans (<[i := chan_push c (mkQueued j now)]> (rt_chans r)) r)
      (chan_push c (mkQueued j now)) ltac:(apply lookup_insert_eq)). cbn zeta in IH.
    destruct (enqueue_loop _ _ _ _ _ _) as [n' r'].
    destruct IH as (-> & -> & -> & ->). rewrite room_push. cbn.
    replace (take (room c) (j :: jobs)) with (j :: take (room c - 1) jobs)
      by (destruct (room c); [lia|cbn; by rewrite Nat.sub_0_r]).
    rewrite <- app_assoc. cbn.
    replace (length jobs - (room c - 1))%nat with (S (length jobs) - room c)%nat by lia. done.
Qed.

Lemma best_consumer_spec cs order best bestFree :
  (∀ p, best = Some p → free_of cs p = bestFree) →
  match best_consumer cs order best bestFree with
  | None => best = None ∧ Forall (λ p, free_of cs p <= bestFree) order
  | Some q => (best = Some q ∨ q ∈ order) ∧ bestFree <= free_of cs q ∧
      Forall (λ p, free_of cs p <= free_of cs q) order
  end.
Proof.
  revert best bestFree. induction order as [|c order IH]; intros best bestFree Hb; cbn.
  { destruct best as [q|]; [|done]. split_and!; [by left| |done]. rewrite (Hb q); [lia|done]. }
  destruct (Z.ltb_spec bestFree (free_of cs c)) as [Hlt|Hge].
  - specialize (IH (Some c) (free_of cs c) ltac:(naive_solver)).
    destruct (best_consumer _ _ _ _) as [q|]; [|naive_solver].
    destruct IH as (Hq & Hle & Hall). split_and!; [|lia|by constructor].
    right. destruct Hq as [[= ->]|Hq]; [by left|by right].
  - specialize (IH best bestFree Hb). destruct (best_consumer _ _ _ _) as [q|].
    + destruct IH as (Hq & Hle & Hall). split_and!; [|done|constructor; [lia|done]].
      destruct Hq as [Hq|Hq]; [by left|right; by right].
    + destruct IH as [? ?]. split; [done|]. by constructor.
Qed.

Lemma free_of_nonneg cs p : 0 <= free_of cs p.
Proof. unfold free_of. destruct (cs !! p); [apply GetFreeSlots_range|lia]. Qed.

Lemma topic_refs_nil t r m :
  rt_topicConsumers r !! t = Some m → topic_refs t r = [] ↔ size m = 0%nat.
Proof.
  intros Ht. unfold topic_refs. rewrite Ht, <- length_map_to_list.
  destruct (map_to_list m); cbn; naive_solver lia.
Qed.

(** What the heartbeat says about one topic. *)
Definition saturated_at (now : Z) (p : option topicPressure) : bool :=
  match p with
  | Some p => tpr_saturated p && negb (2 * second <? now - tpr_lastUpdated p)
  | None => false
  end.

Definition score (now : Z) (cs : gmap cref Consumer) (r : DefaultRouter)
    (tm : string * gmap string cref) : TopicCapacity :=
  mkTopicCapacity tm.1
    (if saturated_at now (rt_topicPressure r !! tm.1) then 0 else active_count cs tm.2).

Lemma report_topic_score now cs r t m :
  m ≠ ∅ → (report_topic now cs t m (rt_topicPressure r !! t)).2 = [score now cs r (t, m)].
Proof.
  intros Hm. unfold report_topic, score. cbn [fst snd].
  assert (size m =? 0 = false)%nat as -> by (apply Nat.eqb_neq; by rewrite map_size_empty_iff).
  destruct (rt_topicPressure r !! t) as [[sat upd]|]; cbn; [|done].
  by destruct sat, (2 * second <? now - upd).
Qed.

Lemma report_loop_scores now cs topics acc r :
  NoDup topics.*1 → Forall (λ tm, tm.2 ≠ ∅) topics →
  (report_loop now cs topics acc r).1 = acc ++ (score now cs r <$> topics).
Proof.
  revert acc r. induction topics as [|[t m] topics IH]; intros acc r Hnd Hne; cbn.
  { by rewrite app_nil_r. }
  cbn in Hnd. apply NoDup_cons in Hnd as [Hnin Hnd]. apply Forall_cons in Hne as [Hm Hne].
  pose proof (report_topic_score now cs r t m Hm) as Hs.
  destruct (report_topic _ _ _ _ _) as [pr caps]. cbn in Hs. subst caps.
  rewrite IH by done. rewrite <- app_assoc. cbn. do 2 f_equal.
  apply list_fmap_ext. intros i [t' m'] Hi. unfold score. cbn.
  rewrite lookup_partial_alter_ne; [done|]. intros <-. apply Hnin.
  apply list_elem_of_lookup. exists i. by rewrite list_lookup_fmap, Hi.
Qed.

(** *** Batches *)
Section BatchFacts.
Context (marshal : ToConsumerDelivery → option bytes).

(** A message [m] of the queued job [qj], still fresh at some reading of the clock. *)
Definition sent_ok (clock : nat → Z) (t : string) (qm : queuedJob * bytes) : Prop :=
  ∃ j seq n, qj_Job qm.1 = Some j ∧ marshal (delivery t j seq) = Some qm.2 ∧
    ¬ expired (clock n) qm.1.

Record batch_post (n : nat) (clock : nat → Z) (t : string) (i : chanid) (c : chan queuedJob)
    (p : cref) (k : Consumer) (cs : gmap cref Consumer)
    (r' : DefaultRouter) (cs' : gmap cref Consumer)
    (k' : Consumer) (taken : nat) (sent : list (queuedJob * bytes)) : Prop := {
  bp_consumer : cs' !! p = Some k';
  bp_others : ∀ q, q ≠ p → cs' !! q = cs !! q;
  bp_queue : rt_chans r' !! i = Some (Chan (ch_cap c) (drop taken (ch_buf c)));
  bp_taken : (taken ≤ n)%nat;
  bp_order : sent.*1 `sublist_of` take taken (ch_buf c);
  bp_written : cs_writeCh k' = Chan (ch_cap (cs_writeCh k)) (ch_buf (cs_writeCh k) ++ sent.*2);
  bp_sent : Forall (sent_ok clock t) sent;
  bp_ack : cs_LastDeliveryAckID k' = cs_LastDeliveryAckID k;
  bp_max : cs_MaxInflights k' = cs_MaxInflights k
}.

Lemma batch_post_stop n clock t i c p k cs r :
  cs !! p = Some k → rt_chans r !! i = Some c → batch_post n clock t i c p k cs r cs k 0 [].
Proof.
  intros Hp Hi. split; try done.
  - rewrite Hi. by destruct c.
  - lia.
  - cbn. rewrite app_nil_r. by destruct (cs_writeCh k).
Qed.

(** A round that takes the job [qj], then a batch. *)
Lemma batch_post_cons n clock t i c c1 p k k1 cs cs1 r' cs' k' taken sent qj ms :
  batch_post n clock t i c1 p k1 cs1 r' cs' k' taken sent →
  recv c = Some (qj, c1) → (∀ q, q ≠ p → cs1 !! q = cs !! q) →
  cs_writeCh k1 = Chan (ch_cap (cs_writeCh k)) (ch_buf (cs_writeCh k) ++ ms.*2) →
  cs_LastDeliveryAckID k1 = cs_LastDeliveryAckID k → cs_MaxInflights k1 = cs_MaxInflights k →
  ms.*1 `sublist_of` [qj] → Forall (sent_ok clock t) ms →
  batch_post (S n) clock t i c p k cs r' cs' k' (S taken) (ms ++ sent).
Proof.
  intros [b1 b2 b3 b4 b5 b6 b7 b8 b9] [Hb Hcap]%recv_Some Hne Hw Hack Hmax Hms Hok.
  split; try congruence.
  - intros q Hq. rewrite b2, Hne by done. done.
  - rewrite b3, Hb, Hcap. done.
  - lia.
  - rewrite Hb, fmap_app. cbn. by apply (sublist_app _ [qj]).
  - rewrite b6, Hw. cbn. by rewrite fmap_app, app_assoc.
  - by apply Forall_app.
Qed.

Lemma chan_eta {A} (c : chan A) : c = Chan (ch_cap c) (ch_buf c ++ []).
Proof. rewrite app_nil_r. by destruct c. Qed.

Lemma dispatch_batch_post n clock t i p k r cs c :
  cs !! p = Some k → rt_chans r !! i = Some c →
  Forall (λ qj, is_Some (qj_Job qj)) (ch_buf c) →
  ∃ r' cs' k' taken sent,
    dispatch_batch marshal n clock t (Some i) p (r, cs) = Returns (r', cs') ∧
    batch_post n clock t i c p k cs r' cs' k' taken sent.
Proof.
  revert k r cs c. induction n as [|n IH]; intros k r cs c Hp Hi Hj.
  { exists r, cs, k, O, []. split; [done|by apply batch_post_stop]. }
  destruct (dispatch_round_cases marshal (clock (S n)) t i c p k r cs Hp Hi)
    as [(r1 & cs1 & fin & f & Hd & Hs)|(_ & qj & c' & [Hb _]%recv_Some & Hnil)].
  2: { rewrite Hb in Hj. apply Forall_cons in Hj as [[j Hj] _]. congruence. }
  rewrite dispatch_batch_S, Hd. cbn [mbind exec_bind].
  assert (∀ qj c', recv c = Some (qj, c') →
    Forall (λ qj, is_Some (qj_Job qj)) (ch_buf c')) as Hj'.
  { intros qj c' [Hb _]%recv_Some. rewrite Hb in Hj. by apply Forall_cons in Hj as [_ ?]. }
  destruct Hs as [_|qj c' _ Hr _|qj c' j _ Hr _ _ _|qj c' j m _ Hr _ _ _ _|qj c' j m _ Hr Hx Hq Hm _].
  - exists r, cs, k, O, []. split; [done|by apply batch_post_stop].
  - edestruct (IH k (JobsDropped t (set_chans (<[i:=c']> (rt_chans r)) r)) cs c')
      as (r' & cs' & k' & taken & sent & Hb & Hpost); [done|apply lookup_insert_eq|by eapply Hj'|].
    exists r', cs', k', (S taken), ([] ++ sent). split; [exact Hb|].
    eapply batch_post_cons; [exact Hpost|exact Hr|try done..]. + apply chan_eta. + apply sublist_nil_l.
  - edestruct (IH (OnJobSent k).2 (set_chans (<[i:=c']> (rt_chans r)) r)
      (<[p:=(OnJobSent k).2]> cs) c')
      as (r' & cs' & k' & taken & sent & Hb & Hpost);
      [apply lookup_insert_eq|apply lookup_insert_eq|by eapply Hj'|].
    exists r', cs', k', (S taken), ([] ++ sent). split; [exact Hb|].
    eapply batch_post_cons; [exact Hpost|exact Hr|try done..].
    + intros q Hq. by rewrite lookup_insert_ne.
    + apply chan_eta.
    + apply sublist_nil_l.
  - exists (JobsDropped t (set_chans (<[i:=c']> (rt_chans r)) r)), (<[p:=(OnJobSent k).2]> cs),
      (OnJobSent k).2, 1%nat, ([] ++ []). split; [done|].
    eapply batch_post_cons; [apply batch_post_stop; apply lookup_insert_eq|exact Hr|try done..].
    + intros q Hq. by rewrite lookup_insert_ne.
    + apply chan_eta.
    + apply sublist_nil_l.
  - set (k1 := set_writeCh (chan_push (cs_writeCh k) m) (OnJobSent k).2).
    edestruct (IH k1 (JobsPushed t (set_chans (<[i:=c']> (rt_chans r)) r)) (<[p:=k1]> cs) c')
      as (r' & cs' & k' & taken & sent & Hb & Hpost);
      [apply lookup_insert_eq|apply lookup_insert_eq|by eapply Hj'|].
    exists r', cs', k', (S taken), ([(qj, m)] ++ sent). split; [exact Hb|].
    eapply batch_post_cons; [exact Hpost|exact Hr|try done..].
    + intros q Hq'. by rewrite lookup_insert_ne.
    + constructor; [|done]. exists j, (OnJobSent k).1, (S n). done.
Qed.

(** The window of the consumer, with [n] rounds left. *)
Lemma dispatch_batch_window n clock t ch p r cs r' cs' k :
  cs !! p = Some k → window_inv k → cs_LastSentID k + Z.of_nat n < 2 ^ 62 →
  dispatch_batch marshal n clock t ch p (r, cs) = Returns (r', cs') →
  ∃ k', cs' !! p = Some k' ∧ window_inv k' ∧ cs_LastSentID k' <= cs_LastSentID k + Z.of_nat n.
Proof.
  revert k r cs. induction n as [|n IH]; intros k r cs Hp Hw Hroom Hd.
  { injection Hd as <- <-. exists k. split_and!; [done..|lia]. }
  rewrite dispatch_batch_S in Hd. apply exec_bind_returns in Hd as ([[r1 cs1] fin] & Hd1 & Hd2).
  assert (∃ k1, cs1 !! p = Some k1 ∧ window_inv k1 ∧ cs_LastSentID k1 <= cs_LastSentID k + 1)
    as (k1 & Hp1 & Hw1 & Hle).
  { destruct (queue_of ch r) as [[i c]|] eqn:Hq.
    2: { destruct (dispatch_round_nil_queue _ _ _ _ _ _ _ _ _ _ Hq Hd1) as (-> & -> & _).
         exists k. split_and!; [done..|lia]. }
    destruct ch as [i'|]; cbn in Hq; [|done].
    destruct (rt_chans r !! i') as [c'|] eqn:Hi; [|done]. simplify_eq.
    destruct (dispatch_round_cases marshal (clock (S n)) t i c p k r cs Hp Hi)
      as [(r2 & cs2 & fin2 & f & Hd2' & Hs)|[Hd2' _]]; rewrite Hd2' in Hd1; simplify_eq.
    assert (0 < GetFreeSlots k → window_inv (OnJobSent k).2 ∧
      cs_LastSentID (OnJobSent k).2 = cs_LastSentID k + 1) as Hsend.
    { intros Hf. split.
      - apply (honest_step_inv WSend k); [done|]. cbn [honest_step window_step].
        rewrite (proj2 (Z.ltb_lt _ _)) by lia. by rewrite (proj2 (Z.leb_gt _ _)).
      - by apply OnJobSent_spec, Hw. }
    destruct Hs as [_|qj c' Hf _ _|qj c' j Hf _ _ _ _|qj c' j m Hf _ _ _ _ _|qj c' j m Hf _ _ _ _ _];
      try destruct (Hsend Hf) as [Hw1 He].
    - exists k. split_and!; [done..|lia].
    - exists k. split_and!; [done..|lia].
    - eexists. split; [apply lookup_insert_eq|]. split; [done|lia].
    - eexists. split; [apply lookup_insert_eq|]. split; [done|lia].
    - eexists. split; [apply lookup_insert_eq|]. cbn in *. split; [|lia].
      destruct Hw1 as [[????] ?]. split; [split|]; done. }
  destruct fin.
  - injection Hd2 as <- <-. exists k1. split_and!; [done..|lia].
  - destruct (IH k1 r1 cs1 Hp1 Hw1 ltac:(lia) Hd2) as (k' & ? & ? & ?).
    exists k'. split_and!; [done..|lia].
Qed.
End BatchFacts.

(** ** [drainAndStopTopic] against a dispatcher that is still in its batch

    The test [len(ch) > 0] and the receive are two steps, [r.mu] is held
    throughout, and cancelling the context does not stop a batch under way:
    the dispatcher may take up to [dispatchBatchSize] more jobs. *)
Module DrainRace.
Inductive drain_pc := DrainTest | DrainRecv | DrainDone.

Record state := mkRace {
  dr_ch : chan queuedJob;
  dr_pc : drain_pc;
  dr_rounds : nat; (* rounds the dispatcher's batch has left *)
  dr_calls : nat (* router calls that got [r.mu] after the drain *)
}.

Inductive event := Test | Recv | DispatchTake | OtherCall.

Definition step (e : event) (s : state) : option state :=
  match e with
  | Test =>
      match dr_pc s with
      | DrainTest =>
          Some (mkRace (dr_ch s)
            (if (0 <? chan_len (dr_ch s))%nat then DrainRecv else DrainDone)
            (dr_rounds s) (dr_calls s))
      | _ => None
      end
  | Recv =>
      match dr_pc s with
      | DrainRecv =>
          '(_, c) ← recv (dr_ch s);
          Some (mkRace c DrainTest (dr_rounds s) (dr_calls s))
      | _ => None
      end
  | DispatchTake =>
      match dr_rounds s with
      | O => None
      | S n =>
          '(_, c) ← recv (dr_ch s);
          Some (mkRace c (dr_pc s) n (dr_calls s))
      end
  | OtherCall =>
      match dr_pc s with
      | DrainDone => Some (mkRace (dr_ch s) DrainDone (dr_rounds s) (S (dr_calls s)))
      | _ => None
      end
  end.

(** The drain alone: test, receive, test, receive, ..., test. *)
Fixpoint drain_run (n : nat) : list event :=
  match n with
  | O => [Test]
  | S n' => Test :: Recv :: drain_run n'
  end.

Definition blocked (s : state) : Prop := dr_pc s = DrainRecv ∧ ch_buf (dr_ch s) = [].

Lemma blocked_no_step e s : blocked s → step e s = None.
Proof.
  intros [Hpc He]. destruct e; cbn; rewrite ?Hpc; try done.
  - unfold recv. by rewrite He.
  - destruct (dr_rounds s); [done|]. unfold recv. by rewrite He.
Qed.

Lemma drain_alone cap buf k :
  run step (drain_run (length buf)) (mkRace (Chan cap buf) DrainTest 0 k) =
    Some (mkRace (Chan cap []) DrainDone 0 k).
Proof. induction buf as [|q buf IH]; [done|]. exact IH. Qed.
End DrainRace.

(** ** Properties *)

(** C11: whatever calls the API and the cluster make and however the dispatchers
    run, every topic with consumers has one bounded queue, one pressure entry
    and exactly one live dispatcher, which serves that queue; a topic without
    consumers has nothing. *)
Theorem router_always_wf marshal evs s :
  run (router_step marshal) evs (NewDefaultRouter, ∅) = Some s → router_wf s.1.
Proof.
  apply (run_invariant (router_step marshal) (λ s, router_wf s.1)).
  - intros e s1 s2. apply router_step_wf.
  - apply NewDefaultRouter_wf.
Qed.

(** A consumer of topic [t] that may have [m] deliveries outstanding, a job, a
    marshaller that always succeeds. *)
Definition sample_consumer (id : string) (m : Z) : Consumer := NewConsumer id id "t" None m.
Definition sample_job (id : string) : option Job := Some (mkJob id "t" [34; 34]).
Definition sample_marshal (d : ToConsumerDelivery) : option bytes := Some (td_SeqID d :: td_Data d).

Definition sample_events : list router_event :=
  [ EvAdd 0 "t" 0%nat (sample_consumer "c1" 2); EvLoopStart 1%nat;
    EvEnqueue 5 "t" [sample_job "a"; sample_job "b"; sample_job "c"];
    EvLoopRound 1%nat (λ _, 6) [0%nat]; EvAck 0%nat 1; EvReport 7; EvRemove "t" "c1" ].

Lemma router_always_wf_witness :
  match run (router_step sample_marshal) sample_events (NewDefaultRouter, ∅) with
  | Some s => router_wf s.1 ∧ rt_topicConsumers s.1 = ∅
  | None => False
  end.
Proof.
  destruct (run _ _ _) as [s|] eqn:Hr; [|by vm_compute in Hr].
  split; [exact (router_always_wf sample_marshal sample_events s Hr)|].
  vm_compute in Hr. simplify_eq. reflexivity.
Defined.

(** adding the first consumer of a topic and removing it again leaves no
    trace of the topic: the router's maps are as before. *)
Theorem add_remove_roundtrip now t p c r :
  router_wf r → rt_topicConsumers r !! t = None →
  let r' := RemoveConsumer t (cs_ID c) (AddConsumer now t p c r) in
  rt_topicConsumers r' = rt_topicConsumers r ∧ rt_mainChans r' = rt_mainChans r ∧
  rt_dispatchCancel r' = rt_dispatchCancel r ∧ rt_topicPressure r' = rt_topicPressure r ∧
  (∀ id d, rt_loops r' !! id = Some d → dl_cancelled d = false → rt_loops r !! id = Some d).
Proof.
  intros Hwf Ht. pose proof (AddConsumer_wf now t p c r Hwf) as Hwf'.
  destruct (RemoveConsumer_last t (cs_ID c) p _ Hwf') as (ch & id & Hch & Hid & ->).
  { rewrite AddConsumer_new by done. apply lookup_insert_eq. }
  rewrite AddConsumer_new in * by done. cbn in *.
  rewrite lookup_insert_eq in Hid. simplify_eq.
  rewrite !delete_insert_id; eauto using lookup_dom_eq, rw_chans, rw_cancel, rw_pressure.
  split_and!; [done..|]. intros id d Hd Hc.
  apply lookup_alter_Some in Hd as [(-> & d0 & _ & ->)|[Hne Hd]]; [done|].
  by rewrite lookup_insert_ne in Hd.
Qed.

Lemma add_remove_roundtrip_witness :
  let r' := RemoveConsumer "t" "c1" (AddConsumer 0 "t" 0%nat (sample_consumer "c1" 2) NewDefaultRouter) in
  rt_topicConsumers r' = ∅ ∧ rt_mainChans r' = ∅ ∧ rt_dispatchCancel r' = ∅ ∧
  rt_topicPressure r' = ∅ ∧
  (∀ id d, rt_loops r' !! id = Some d → dl_cancelled d = false →
     rt_loops NewDefaultRouter !! id = Some d).
Proof.
  apply (add_remove_roundtrip 0 "t" 0%nat (sample_consumer "c1" 2) NewDefaultRouter);
    [apply NewDefaultRouter_wf|reflexivity].
Defined.

(** [EnqueueJobs] takes the longest prefix of the jobs the topic's queue has
    room for, in order, and rejects, counts as dropped and signals as
    saturation exactly the rest; for a topic without consumers it rejects all. *)
Theorem EnqueueJobs_exact now t jobs r :
  router_wf r →
  let '(rejected, r') := EnqueueJobs now t jobs r in
  match rt_mainChans r !! t with
  | None => rejected = Z.of_nat (length jobs) ∧ r' = r
  | Some i => ∃ c, rt_chans r !! i = Some c ∧
      let k := (length jobs - room c)%nat in
      rejected = Z.of_nat k ∧
      rt_chans r' !! i =
        Some (Chan (ch_cap c) (ch_buf c ++ ((λ j, mkQueued j now) <$> take (room c) jobs))) ∧
      rt_topicPressure r' !! t = saturate k now (rt_topicPressure r !! t) ∧
      dropped_count t r' = dropped_count t r + Z.of_nat k
  end.
Proof.
  intros Hwf. unfold EnqueueJobs. destruct (rt_mainChans r !! t) as [i|] eqn:Hi; [|done].
  destruct (rw_queue _ Hwf _ _ Hi) as (c & Hc & _ & _).
  pose proof (enqueue_loop_spec now t i jobs 0 r c Hc) as Hs. cbn zeta in Hs.
  destruct (enqueue_loop _ _ _ _ _ _) as [n' r1]. destruct Hs as (-> & Hq & Hp & Hd).
  exists c. split; [done|]. cbn zeta. split; [lia|].
  destruct (Z.ltb_spec 0 (0 + Z.of_nat (length jobs - room c))) as [Hk|Hk]; [|done].
  destruct (markSaturated_frame now t r1) as [-> Hdr].
  split_and!; [done| |unfold dropped_count in *; by rewrite Hdr].
  rewrite markSaturated_lookup, Hp, saturate_saturate.
  destruct (length jobs - room c)%nat; [lia|]. destruct (rt_topicPressure r !! t); done.
Qed.

Lemma EnqueueJobs_exact_witness :
  let r := AddConsumer 0 "t" 0%nat (sample_consumer "c1" 2) NewDefaultRouter in
  let '(rejected, r') := EnqueueJobs 5 "t" [sample_job "a"; sample_job "b"] r in
  ∃ c, rt_chans r !! 0%nat = Some c ∧ rejected = Z.of_nat (2 - room c) ∧
    rt_chans r' !! 0%nat = Some (Chan (ch_cap c)
      (ch_buf c ++ ((λ j, mkQueued j 5) <$> take (room c) [sample_job "a"; sample_job "b"]))).
Proof.
  pose proof (EnqueueJobs_exact 5 "t" [sample_job "a"; sample_job "b"]
    (AddConsumer 0 "t" 0%nat (sample_consumer "c1" 2) NewDefaultRouter)
    (AddConsumer_wf _ _ _ _ _ NewDefaultRouter_wf)) as H.
  cbv zeta. destruct (EnqueueJobs _ _ _ _) as [rejected r'].
  destruct H as (c & H1 & H2 & H3 & _). exists c. split; [exact H1|]. split; [exact H2|exact H3].
Defined.

(** C30: in whatever order Go iterates over the consumers, [GetNextConsumer]
    returns a consumer of the topic with the most free slots, and returns none
    only if the topic has no consumer. *)
Theorem GetNextConsumer_max cs order t r :
  order ≡ₚ topic_refs t r →
  match GetNextConsumer cs order t r with
  | None => topic_refs t r = []
  | Some p => p ∈ topic_refs t r ∧
      Forall (λ q, free_of cs q <= free_of cs p) (topic_refs t r)
  end.
Proof.
  intros Ho. unfold GetNextConsumer.
  destruct (rt_topicConsumers r !! t) as [m|] eqn:Ht.
  2: { unfold topic_refs. by rewrite Ht. }
  destruct (Nat.eqb_spec (size m) 0) as [H0|H0]; [by apply (topic_refs_nil t r m Ht)|].
  pose proof (best_consumer_spec cs order None (-1) ltac:(done)) as Hb.
  destruct (best_consumer cs order None (-1)) as [p|].
  - destruct Hb as ([?|Hp] & _ & Hall); [done|]. rewrite <- Ho at 1. by rewrite <- Ho.
  - destruct Hb as [_ Hall]. destruct order as [|q order].
    + by apply Permutation_nil_l in Ho.
    + apply Forall_cons in Hall as [Hq _]. pose proof (free_of_nonneg cs q). lia.
Qed.

Definition two_consumers : gmap cref Consumer :=
  {[ 0%nat := sample_consumer "c1" 2; 1%nat := sample_consumer "c2" 5 ]}.
Definition two_consumer_router : DefaultRouter :=
  AddConsumer 1 "t" 1%nat (sample_consumer "c2" 5)
    (AddConsumer 0 "t" 0%nat (sample_consumer "c1" 2) NewDefaultRouter).

Lemma GetNextConsumer_max_witness :
  GetNextConsumer two_consumers [1%nat; 0%nat] "t" two_consumer_router = Some 1%nat ∧
  Forall (λ q, free_of two_consumers q <= 5) (topic_refs "t" two_consumer_router).
Proof.
  assert ([1%nat; 0%nat] ≡ₚ topic_refs "t" two_consumer_router) as Ho.
  { vm_compute. (reflexivity || apply perm_swap). }
  pose proof (GetNextConsumer_max two_consumers [1%nat; 0%nat] "t" two_consumer_router Ho) as H.
  assert (GetNextConsumer two_consumers [1%nat; 0%nat] "t" two_consumer_router = Some 1%nat) as He
    by (vm_compute; reflexivity).
  rewrite He in H. split; [exact He|]. exact (proj2 H).
Defined.

(** the heartbeat has exactly one entry per topic, in the order of the
    iteration: 0 for a topic that rejected a job during the last two seconds,
    otherwise the number of its consumers that have a free slot. *)
Theorem heartbeat_exact now cs topics r :
  router_wf r → topics ≡ₚ map_to_list (rt_topicConsumers r) →
  (BuildHeartbeatReport now cs topics r).1 = score now cs r <$> topics.
Proof.
  intros Hwf Ht. unfold BuildHeartbeatReport. rewrite report_loop_scores; [done|..].
  - rewrite Ht. apply NoDup_fst_map_to_list.
  - rewrite Ht. apply Forall_forall. intros [t m] Hin%elem_of_map_to_list.
    by eapply rw_nonempty.
Qed.

Lemma heartbeat_exact_witness :
  (BuildHeartbeatReport 9 two_consumers (map_to_list (rt_topicConsumers two_consumer_router))
     two_consumer_router).1 = [mkTopicCapacity "t" 2].
Proof.
  rewrite (heartbeat_exact 9 two_consumers _ two_consumer_router).
  - vm_compute. reflexivity.
  - apply AddConsumer_wf, AddConsumer_wf, NewDefaultRouter_wf.
  - reflexivity.
Defined.

(** a dispatch batch always ends. If no queued job is nil it takes at most
    eight jobs from the front of the queue, and appends to the chosen consumer's
    write channel, in queue order, messages of taken jobs none of which was
    older than [jobTTL] when it was looked at; no other consumer is touched. *)
Theorem dispatch_batch_fifo marshal clock t i p k r cs c :
  cs !! p = Some k → rt_chans r !! i = Some c →
  Forall (λ qj, is_Some (qj_Job qj)) (ch_buf c) →
  ∃ r' cs' k' taken sent,
    dispatch_batch marshal dispatchBatchSize clock t (Some i) p (r, cs) = Returns (r', cs') ∧
    (taken ≤ 8)%nat ∧
    rt_chans r' !! i = Some (Chan (ch_cap c) (drop taken (ch_buf c))) ∧
    sent.*1 `sublist_of` take taken (ch_buf c) ∧
    Forall (sent_ok marshal clock t) sent ∧
    cs' !! p = Some k' ∧
    cs_writeCh k' = Chan (ch_cap (cs_writeCh k)) (ch_buf (cs_writeCh k) ++ sent.*2) ∧
    (∀ q, q ≠ p → cs' !! q = cs !! q).
Proof.
  intros Hp Hi Hj.
  destruct (dispatch_batch_post marshal dispatchBatchSize clock t i p k r cs c Hp Hi Hj)
    as (r' & cs' & k' & taken & sent & Hd & Hpost).
  exists r', cs', k', taken, sent. destruct Hpost. done.
Qed.

(** Three queued jobs, the middle one six seconds old, for a consumer with room for two. *)
Definition batch_router : DefaultRouter :=
  set_chans {[ 0%nat := Chan perTopicBufferSize
    [mkQueued (sample_job "a") (6 * second); mkQueued (sample_job "b") 0;
     mkQueued (sample_job "c") (6 * second)] ]} NewDefaultRouter.

Lemma dispatch_batch_fifo_witness :
  ∃ r' cs' k' taken (sent : list (queuedJob * bytes)),
    dispatch_batch sample_marshal dispatchBatchSize (λ _, 6 * second) "t" (Some 0%nat) 0%nat
      (batch_router, two_consumers) = Returns (r', cs') ∧ (taken ≤ 8)%nat ∧
    cs' !! 0%nat = Some k' ∧ ch_buf (cs_writeCh k') = sent.*2.
Proof.
  destruct (dispatch_batch_fifo sample_marshal (λ _, 6 * second) "t" 0%nat 0%nat
    (sample_consumer "c1" 2) batch_router two_consumers
    (Chan perTopicBufferSize
       [mkQueued (sample_job "a") (6 * second); mkQueued (sample_job "b") 0;
        mkQueued (sample_job "c") (6 * second)]))
    as (r' & cs' & k' & taken & sent & Hd & Hn & _ & _ & _ & Hk & Hw & _).
  - reflexivity.
  - reflexivity.
  - repeat constructor; eauto.
  - exists r', cs', k', taken, sent. rewrite Hw. split; [exact Hd|]. split; [exact Hn|].
    split; [exact Hk|reflexivity].
Defined.

(** C14: the dispatcher never overruns a consumer: a batch for a consumer whose
    acknowledgements follow its deliveries leaves at most [MaxInflights]
    deliveries outstanding, whether the messages could be marshalled and
    written or not. *)
Theorem dispatch_respects_window marshal clock t ch p r cs r' cs' k :
  cs !! p = Some k → window_inv k → cs_LastSentID k < 2 ^ 61 →
  dispatch_batch marshal dispatchBatchSize clock t ch p (r, cs) = Returns (r', cs') →
  ∃ k', cs' !! p = Some k' ∧ 0 <= inflight k' <= cs_MaxInflights k' ∧
    cs_LastSentID k' <= cs_LastSentID k + 8.
Proof.
  intros Hp Hw Hroom Hd.
  destruct (dispatch_batch_window marshal dispatchBatchSize clock t ch p r cs r' cs' k Hp Hw)
    as (k' & Hk & [_ Hin] & Hle); [unfold dispatchBatchSize; lia|done|].
  exists k'. done.
Qed.

Lemma dispatch_respects_window_witness :
  match dispatch_batch sample_marshal dispatchBatchSize (λ _, 6 * second) "t" (Some 0%nat) 0%nat
      (batch_router, two_consumers) with
  | Returns (r', cs') => ∃ k', cs' !! 0%nat = Some k' ∧
      0 <= inflight k' <= cs_MaxInflights k' ∧ cs_LastSentID k' <= 0 + 8
  | _ => False
  end.
Proof.
  destruct (dispatch_batch _ _ _ _ _ _ _) as [[r' cs']| |] eqn:Hd; [|by vm_compute in Hd..].
  apply (dispatch_respects_window sample_marshal (λ _, 6 * second) "t" (Some 0%nat) 0%nat
    batch_router two_consumers r' cs' (sample_consumer "c1" 2)).
  - reflexivity.
  - split; [split|]; unfold inflight; cbn; lia.
  - cbn. lia.
  - exact Hd.
Defined.

(** removing a topic's last consumer ends by itself when the dispatcher is
    out of its batch, but not otherwise: if the dispatcher takes the last queued
    job between [len(ch) > 0] and the receive, the drain waits for ever with
    [r.mu] held, and no later router call gets in. *)
Theorem drain_race :
  (∀ cap buf, ∃ evs,
     run DrainRace.step evs (DrainRace.mkRace (Chan cap buf) DrainRace.DrainTest 0 0) =
       Some (DrainRace.mkRace (Chan cap []) DrainRace.DrainDone 0 0)) ∧
  (∀ cap q n, ∃ s,
     run DrainRace.step [DrainRace.Test; DrainRace.DispatchTake]
       (DrainRace.mkRace (Chan cap [q]) DrainRace.DrainTest (S n) 0) = Some s ∧
     DrainRace.dr_pc s = DrainRace.DrainRecv ∧ ∀ e, DrainRace.step e s = None).
Proof.
  split.
  - intros cap buf. exists (DrainRace.drain_run (length buf)). apply DrainRace.drain_alone.
  - intros cap q n. eexists. split; [reflexivity|]. split; [done|].
    intros e. by apply DrainRace.blocked_no_step.
Qed.
