(* ===== verification/Delivery.v ===== *)
(** * What a delivery does to queues and consumers (internal/api/router.go, consumer.go)

    The jobs of a topic's queue, what a consumer was handed, and the effect of a
    dispatcher's round and batch on both: jobs leave the queue from the front,
    and the messages appended to the consumer's channel are deliveries of some of
    them, in order. *)

From S2P Require Import Prelude GoRuntime Messages Consumer Router.

Local Open Scope Z_scope.

Definition queued (t : string) (r : DefaultRouter) : list queuedJob :=
  match rt_mainChans r !! t with
  | None => []
  | Some i => match rt_chans r !! i with Some c => ch_buf c | None => [] end
  end.

Definition pending (p : cref) (cs : gmap cref Consumer) : list bytes :=
  match cs !! p with Some c => ch_buf (cs_writeCh c) | None => [] end.

(** Everything for a consumer: written to its connection, then waiting for its
    write loop. *)
Definition output (c : Consumer) : list bytes :=
  match cs_Conn c with Some conn => wc_written conn | None => [] end ++ ch_buf (cs_writeCh c).

Section Delivery.
Context (marshal : ToConsumerDelivery → option bytes).

(** [m] is a delivery of the queued job. *)
Definition message (t : string) (qj : queuedJob) (m : bytes) : Prop :=
  ∃ j seq, qj_Job qj = Some j ∧ marshal (delivery t j seq) = Some m.

(** ** What a batch does *)

Record effect (t : string) (i : chanid) (p : cref) (s s' : DefaultRouter * gmap cref Consumer)
    (taken : list queuedJob) (sent : list (queuedJob * bytes)) : Prop := {
  ef_queue : ∀ c, rt_chans s.1 !! i = Some c →
    ∃ c', rt_chans s'.1 !! i = Some c' ∧ ch_buf c = taken ++ ch_buf c';
  ef_queues : ∀ i', i' ≠ i → rt_chans s'.1 !! i' = rt_chans s.1 !! i';
  ef_order : sent.*1 `sublist_of` taken;
  ef_sent : Forall (λ qm, message t qm.1 qm.2) sent;
  ef_consumer : ∀ k, s.2 !! p = Some k →
    ∃ k', s'.2 !! p = Some k' ∧ cs_Conn k' = cs_Conn k ∧
      ch_buf (cs_writeCh k') = ch_buf (cs_writeCh k) ++ sent.*2;
  ef_consumers : ∀ q, q ≠ p → s'.2 !! q = s.2 !! q;
  ef_pressure : rt_topicPressure s'.1 = rt_topicPressure s.1
}.

Lemma effect_none t i p s : effect t i p s s [] [].
Proof.
  split; try done; try (intros; by apply sublist_nil_l); eauto.
  intros k Hk. exists k. by rewrite app_nil_r.
Qed.

Lemma effect_app t i p s1 s2 s3 taken taken' sent sent' :
  effect t i p s1 s2 taken sent → effect t i p s2 s3 taken' sent' →
  effect t i p s1 s3 (taken ++ taken') (sent ++ sent').
Proof.
  intros [a1 a2 a3 a4 a5 a6 a7] [b1 b2 b3 b4 b5 b6 b7]. split; [..|congruence].
  - intros c Hc. destruct (a1 c Hc) as (c1 & Hc1 & He1). destruct (b1 c1 Hc1) as (c2 & Hc2 & He2).
    exists c2. by rewrite He1, He2, app_assoc.
  - intros i' Hi. by rewrite b2, a2.
  - rewrite fmap_app. by apply sublist_app.
  - by apply Forall_app.
  - intros k Hk. destruct (a5 k Hk) as (k1 & Hk1 & Hc1 & He1).
    destruct (b5 k1 Hk1) as (k2 & Hk2 & Hc2 & He2).
    exists k2. by rewrite He2, He1, fmap_app, app_assoc, Hc2.
  - intros q Hq. by rewrite b6, a6.
Qed.

(** One job taken from the queue, and for the consumer either nothing or its
    message. *)
Lemma effect_take t i p r cs r' cs' c c' qj k k' ms :
  rt_chans r !! i = Some c → recv c = Some (qj, c') → rt_chans r' = <[i := c']> (rt_chans r) →
  rt_topicPressure r' = rt_topicPressure r → cs !! p = Some k → cs' = <[p := k']> cs → cs_Conn k' = cs_Conn k →
  ch_buf (cs_writeCh k') = ch_buf (cs_writeCh k) ++ ms →
  ms = [] ∨ (∃ m, ms = [m] ∧ message t qj m) →
  ∃ sent, effect t i p (r, cs) (r', cs') [qj] sent.
Proof.
  intros Hi [Hb _]%recv_Some Hr Hpr Hk -> Hconn Hw Hms.
  exists (pair qj <$> ms). split; cbn; [..|done].
  - intros c0 Hc0. exists c'. rewrite Hr, lookup_insert_eq. split; [done|]. by simplify_eq.
  - intros i' Hne. rewrite Hr. by apply lookup_insert_ne.
  - destruct Hms as [->|(m & -> & _)]; cbn; [apply sublist_nil_l|done].
  - destruct Hms as [->|(m & -> & ?)]; cbn; by repeat constructor.
  - intros k0 Hk0. exists k'. rewrite lookup_insert_eq. simplify_eq. split_and!; [done..|].
    rewrite Hw. f_equal. destruct Hms as [->|(m & -> & _)]; done.
  - intros q Hq. by rewrite lookup_insert_ne.
Qed.

Lemma round_effect now t i p s s' fin :
  is_Some (rt_chans s.1 !! i) →
  dispatch_round marshal now t (Some i) p s = Returns (s', fin) →
  ∃ taken sent, (length taken ≤ 1)%nat ∧ effect t i p s s' taken sent.
Proof.
  destruct s as [r cs], s' as [r' cs']. cbn. intros [c Hi] Hd. destruct (cs !! p) as [k|] eqn:Hp.
  2: { unfold dispatch_round in Hd. by rewrite Hp in Hd. }
  destruct (dispatch_round_cases marshal now t i c p k r cs Hp Hi)
    as [(r1 & cs1 & fin1 & f & Hd1 & Hs)|[Hd1 _]]; rewrite Hd1 in Hd; simplify_eq.
  assert (∀ c', rt_chans (set_chans (<[i := c']> (rt_chans r)) r) = <[i := c']> (rt_chans r)) as Hset by done.
  destruct Hs as [_|qj c' _ Hr _|qj c' j _ Hr _ Hj _|qj c' j m _ Hr _ Hj _ _|qj c' j m _ Hr _ Hj Hm _].
  - exists [], []. split; [cbn; lia|apply effect_none].
  - exists [qj]. edestruct (effect_take t i p r cs) as [sent He];
      [done|done|..|by exists sent]; [done|done|done|by rewrite insert_id|done|by rewrite app_nil_r|by left].
  - exists [qj]. edestruct (effect_take t i p r cs) as [sent He];
      [done|done|..|by exists sent]; [done..|by rewrite app_nil_r|by left].
  - exists [qj]. edestruct (effect_take t i p r cs) as [sent He];
      [done|done|..|by exists sent]; [done..|by rewrite app_nil_r|by left].
  - exists [qj]. edestruct (effect_take t i p r cs) as [sent He];
      [done|done|..|by exists sent]; [done..|]. right.
    exists m. split; [done|]. by exists j, (OnJobSent k).1.
Qed.

Lemma batch_effect n clock t i p s s' :
  is_Some (rt_chans s.1 !! i) → dispatch_batch marshal n clock t (Some i) p s = Returns s' →
  ∃ taken sent, (length taken ≤ n)%nat ∧ effect t i p s s' taken sent.
Proof.
  revert s. induction n as [|n IH]; intros s Hi Hd.
  { injection Hd as <-. exists [], []. split; [done|apply effect_none]. }
  rewrite dispatch_batch_S in Hd. apply exec_bind_returns in Hd as ([[r1 cs1] fin] & Hd1 & Hd2).
  destruct (round_effect _ _ _ _ _ _ _ Hi Hd1) as (taken & sent & Hlen & He). destruct fin.
  - injection Hd2 as <-. exists taken, sent. split; [lia|done].
  - destruct Hi as [c Hc]. destruct (ef_queue _ _ _ _ _ _ _ He c Hc) as (c' & Hc' & _).
    destruct (IH (r1, cs1) ltac:(by exists c') Hd2) as (taken' & sent' & Hlen' & He').
    exists (taken ++ taken'), (sent ++ sent'). split; [rewrite length_app; lia|by eapply effect_app].
Qed.

(** ** Queues *)

Lemma queued_at t i c r : rt_mainChans r !! t = Some i → rt_chans r !! i = Some c → queued t r = ch_buf c.
Proof. intros Ht Hi. unfold queued. by rewrite Ht, Hi. Qed.

Lemma queued_same t r r' :
  rt_mainChans r' !! t = rt_mainChans r !! t →
  (∀ i, rt_mainChans r !! t = Some i → rt_chans r' !! i = rt_chans r !! i) →
  queued t r' = queued t r.
Proof.
  intros Hm Hc. unfold queued. rewrite Hm. destruct (rt_mainChans r !! t) as [i|]; [|done].
  by rewrite Hc.
Qed.

Lemma enqueue_loop_others now t i jobs n r i' :
  i' ≠ i → rt_chans (enqueue_loop now t i jobs n r).2 !! i' = rt_chans r !! i'.
Proof.
  intros Hne. revert n r. induction jobs as [|j jobs IH]; intros n r; [done|]. cbn.
  destruct (rt_chans r !! i) as [c|]; [|done]. destruct (try_send c _) as [c' [|]]; rewrite IH.
  - cbn. by rewrite lookup_insert_ne.
  - by rewrite (proj1 (markSaturated_frame _ _ _)).
Qed.

(** EnqueueJobs appends to the topic's queue and leaves the others alone. *)
Lemma queued_enqueue now t jobs r :
  router_wf r →
  let r' := (EnqueueJobs now t jobs r).2 in
  (∃ more, queued t r' = queued t r ++ more) ∧ ∀ t', t' ≠ t → queued t' r' = queued t' r.
Proof.
  intros Hwf r'. pose proof (EnqueueJobs_same now t jobs r) as Hs. fold r' in Hs.
  pose proof (st_chans _ _ Hs) as Hm. unfold EnqueueJobs in r'.
  destruct (rt_mainChans r !! t) as [i|] eqn:Ht.
  2: { split; [exists []; by rewrite app_nil_r|done]. }
  destruct (rw_queue _ Hwf _ _ Ht) as (c & Hc & _ & _).
  pose proof (enqueue_loop_spec now t i jobs 0 r c Hc) as He.
  pose proof (enqueue_loop_others now t i jobs 0 r) as Ho.
  destruct (enqueue_loop now t i jobs 0 r) as [n r1]. cbn zeta in He. destruct He as (_ & Hi & _).
  assert (∀ j, rt_chans r' !! j = rt_chans r1 !! j) as Hr'.
  { intros j. unfold r'. cbn. case_match; [|done]. by rewrite (proj1 (markSaturated_frame _ _ _)). }
  split.
  - eexists. rewrite (queued_at t i c r Ht Hc). erewrite queued_at; [|by rewrite Hm|by rewrite Hr', Hi]. done.
  - intros t' Hne. apply queued_same; [by rewrite Hm|]. intros i' Ht'. rewrite Hr'. apply Ho.
    intros ->. by destruct Hne; eapply rw_own_queue.
Qed.

Lemma queued_add now t p c r t' : router_wf r → queued t' (AddConsumer now t p c r) = queued t' r.
Proof.
  intros Hwf. destruct (rt_topicConsumers r !! t) as [m|] eqn:Ht.
  { by rewrite (AddConsumer_old _ _ _ _ _ _ Ht). }
  rewrite (AddConsumer_new _ _ _ _ _ Ht). unfold queued. cbn.
  destruct (decide (t = t')) as [<-|Hne].
  - rewrite lookup_insert_eq, lookup_insert_eq. by rewrite (lookup_dom_eq _ _ _ (rw_chans _ Hwf) Ht).
  - rewrite lookup_insert_ne by done. destruct (rt_mainChans r !! t') as [i|] eqn:Hi; [|done].
    destruct (rw_queue _ Hwf _ _ Hi) as (c0 & Hc0 & _). rewrite lookup_insert_ne; [done|].
    apply (rw_fresh_chan _ Hwf) in Hc0. lia.
Qed.

Lemma report_loop_frame now cs topics acc r :
  rt_chans (report_loop now cs topics acc r).2 = rt_chans r ∧
  rt_mainChans (report_loop now cs topics acc r).2 = rt_mainChans r.
Proof.
  revert acc r. induction topics as [|[t m] topics IH]; intros acc r; [done|]. cbn.
  destruct (report_topic _ _ _ _ _) as [pr caps].
  by destruct (IH (acc ++ caps) (set_topicPressure (partial_alter (λ _, pr) t (rt_topicPressure r)) r)).
Qed.

(** ** Logs and consumers *)

Lemma omap_tagged {A B} (f : A → option B) (g : A → B) l :
  Forall (λ x, f x = Some (g x)) l → omap f l = g <$> l.
Proof. induction 1 as [|x l Hx _ IH]; cbn; [done|]. by rewrite Hx, IH. Qed.

Lemma omap_untagged {A B} (f : A → option B) l : Forall (λ x, f x = None) l → omap f l = [].
Proof. induction 1 as [|x l Hx _ IH]; cbn; [done|]. by rewrite Hx. Qed.

(** The queue a live dispatcher took at its start is its topic's. *)
Lemma dispatcher_queue id d ch r :
  router_wf r → rt_loops r !! id = Some d → dl_ch d = Some ch → dl_cancelled d = false →
  ∃ i c, ch = Some i ∧ rt_mainChans r !! dl_topic d = Some i ∧ rt_chans r !! i = Some c.
Proof.
  intros Hwf Hd Hch Hl. pose proof (rw_one_loop _ Hwf _ _ Hd Hl) as Hid.
  rewrite (rw_loop_queue _ Hwf _ _ _ Hd Hl Hch).
  assert (dl_topic d ∈ dom (rt_mainChans r)) as [i Hi]%elem_of_dom.
  { rewrite (rw_chans _ Hwf), <- (rw_cancel _ Hwf). by apply elem_of_dom. }
  destruct (rw_queue _ Hwf _ _ Hi) as (c & Hc & _). exists i, c. by rewrite Hi.
Qed.

Lemma ack_output n c : output (UpdateDeliveryAck n c) = output c.
Proof. unfold UpdateDeliveryAck. by case_match. Qed.

Lemma Close_output stopped c : output (Close stopped c).2 = output c.
Proof. unfold Close, output. destruct stopped; [done|]. cbn. by destruct (cs_Conn c). Qed.

(** WriteMessage appends the message or gives up. *)
Lemma WriteMessage_output td msg c r c' :
  WriteMessage td msg c = Returns (r, c') →
  ∃ ms, drop (length (ch_buf (cs_writeCh c))) (ch_buf (cs_writeCh c')) = ms ∧
    output c' = output c ++ ms ∧ (ms = [] ∨ ms = [msg]).
Proof.
  assert (output c = output c ++ []) as Hnil by (by rewrite app_nil_r).
  unfold WriteMessage, output in *. destruct (chan_full _), (cs_doneClosed c); [..|destruct td|]; intros [= _ <-];
    (eexists; split; [done|]); cbn;
    rewrite ?drop_all, ?drop_app_length, ?app_assoc; split; auto.
Qed.

Lemma write_output ctx_done take_ctx ok c st c' :
  StartWriteLoop_step ctx_done take_ctx ok c = Some (st, c') → output c' `sublist_of` output c.
Proof.
  unfold StartWriteLoop_step. case_match; [by intros [= _ <-]|]. unfold write_loop_message, output.
  destruct (recv _) as [[m ch]|] eqn:Hr; [|done]. apply recv_Some in Hr as [Hb _]. cbn.
  destruct (cs_Conn c) as [conn|] eqn:Hconn; [destruct ok|]; intros [= _ <-]; cbn; rewrite ?Hconn, Hb.
  - cbn. by rewrite <- app_assoc.
  - cbn. apply sublist_app; [done|]. by apply sublist_cons.
  - cbn. by apply sublist_cons.
Qed.

End Delivery.
