(* ===== verification/RouterSpec.v ===== *)
(** * The router's contract (internal/api/router.go)

    What the rest of the proxy relies on, as one map from topics to their
    consumers, their queue and their pressure, with an operation per call of the
    interface; and the proof that the router with its four maps, its heap of
    queues and its dispatcher goroutines implements it. The abstraction function
    is [view]. *)

From S2P Require Import Prelude GoRuntime Messages Consumer Router Delivery.

Local Open Scope Z_scope.

(** ** The specification *)

Record topic_state := mkTopic {
  ts_consumers : gmap string cref;
  ts_queue : list queuedJob;
  ts_pressure : topicPressure
}.

Abbreviation topics := (gmap string topic_state).

Definition spec_add (now : Z) (t id : string) (p : cref) (σ : topics) : topics :=
  let k := default (mkTopic ∅ [] (mkPressure false now)) (σ !! t) in
  <[t := mkTopic (<[id := p]> (ts_consumers k)) (ts_queue k) (ts_pressure k)]> σ.

(** With its last consumer a topic goes, and what it had queued. *)
Definition spec_remove (t id : string) (σ : topics) : topics :=
  match σ !! t with
  | None => σ
  | Some k =>
      let consumers := delete id (ts_consumers k) in
      if decide (consumers = ∅) then delete t σ
      else <[t := mkTopic consumers (ts_queue k) (ts_pressure k)]> σ
  end.

(** A queue takes what fits and turns the rest away, and the topic is then
    saturated. *)
Definition spec_enqueue (now : Z) (t : string) (jobs : list (option Job)) (σ : topics) : Z * topics :=
  match σ !! t with
  | None => (Z.of_nat (length jobs), σ)
  | Some k =>
      let fits := (Z.to_nat perTopicBufferSize - length (ts_queue k))%nat in
      let rejected := (length jobs - fits)%nat in
      (Z.of_nat rejected,
       <[t := mkTopic (ts_consumers k)
                (ts_queue k ++ ((λ j, mkQueued j now) <$> take fits jobs))
                (if (rejected =? 0)%nat then ts_pressure k else mkPressure true now)]> σ)
  end.

(** Saturation fades two seconds after it was last renewed. *)
Definition fade (now : Z) (p : topicPressure) : topicPressure :=
  if tpr_saturated p && (2 * second <? now - tpr_lastUpdated p)
  then mkPressure false (tpr_lastUpdated p) else p.

Definition spec_fade (now : Z) (σ : topics) : topics :=
  (λ k, mkTopic (ts_consumers k) (ts_queue k) (fade now (ts_pressure k))) <$> σ.

(** The number of consumers with a free slot, or zero under pressure. *)
Definition spec_report (now : Z) (cs : gmap cref Consumer) (σ : topics) : gmap string Z :=
  (λ k, if tpr_saturated (fade now (ts_pressure k)) then 0
        else active_count cs (ts_consumers k)) <$> σ.

(** A delivery round: jobs leave the front of one topic's queue, for a consumer
    of that topic with a free slot; some of them become its messages. *)
Inductive spec_deliver (marshal : ToConsumerDelivery → option bytes) (t : string)
    (σ : topics) (cs : gmap cref Consumer) : topics → gmap cref Consumer → Prop :=
| Deliver k p c c' taken rest sent cs' :
    σ !! t = Some k → p ∈ (map_to_list (ts_consumers k)).*2 →
    cs !! p = Some c → 0 < GetFreeSlots c →
    ts_queue k = taken ++ rest → (length taken ≤ dispatchBatchSize)%nat →
    sent.*1 `sublist_of` taken → Forall (λ qm, message marshal t qm.1 qm.2) sent →
    cs' !! p = Some c' → ch_buf (cs_writeCh c') = ch_buf (cs_writeCh c) ++ sent.*2 →
    (∀ q, q ≠ p → cs' !! q = cs !! q) →
    spec_deliver marshal t σ cs
      (<[t := mkTopic (ts_consumers k) rest (ts_pressure k)]> σ) cs'.

Inductive spec_step (marshal : ToConsumerDelivery → option bytes) :
    router_event → topics * gmap cref Consumer → topics * gmap cref Consumer → Prop :=
| SpecAdd now t p c σ cs :
    cs !! p = None →
    spec_step marshal (EvAdd now t p c) (σ, cs) (spec_add now t (cs_ID c) p σ, <[p := c]> cs)
| SpecRemove t id σ cs : spec_step marshal (EvRemove t id) (σ, cs) (spec_remove t id σ, cs)
| SpecEnqueue now t jobs σ cs :
    spec_step marshal (EvEnqueue now t jobs) (σ, cs) ((spec_enqueue now t jobs σ).2, cs)
| SpecReport now σ cs : spec_step marshal (EvReport now) (σ, cs) (spec_fade now σ, cs)
| SpecAck p n σ cs :
    spec_step marshal (EvAck p n) (σ, cs) (σ, alter (UpdateDeliveryAck n) p cs)
| SpecStart id σ cs : spec_step marshal (EvLoopStart id) (σ, cs) (σ, cs)
| SpecDeliver id clock order t σ cs σ' cs' :
    spec_deliver marshal t σ cs σ' cs' →
    spec_step marshal (EvLoopRound id clock order) (σ, cs) (σ', cs').

(** ** The abstraction function *)

Definition topic_view (r : DefaultRouter) (t : string) (consumers : gmap string cref)
    : option topic_state :=
  Some (mkTopic consumers (queued t r) (default (mkPressure false 0) (rt_topicPressure r !! t))).

Definition view (r : DefaultRouter) : topics := map_imap (topic_view r) (rt_topicConsumers r).

Definition observed (s : DefaultRouter * gmap cref Consumer) : topics * gmap cref Consumer :=
  (view s.1, s.2).

(** ** Lemmas: the abstraction function *)

Lemma view_lookup r t : view r !! t = rt_topicConsumers r !! t ≫= topic_view r t.
Proof. apply map_lookup_imap. Qed.

Lemma view_None r t : rt_topicConsumers r !! t = None → view r !! t = None.
Proof. intros Ht. by rewrite view_lookup, Ht. Qed.

Lemma view_Some r t m :
  rt_topicConsumers r !! t = Some m → view r !! t = topic_view r t m.
Proof. intros Ht. by rewrite view_lookup, Ht. Qed.

(** A topic looks the same in routers that agree on it. *)
Lemma view_same r r' t :
  rt_topicConsumers r' !! t = rt_topicConsumers r !! t → queued t r' = queued t r →
  rt_topicPressure r' !! t = rt_topicPressure r !! t → view r' !! t = view r !! t.
Proof. intros Hc Hq Hp. rewrite !view_lookup, Hc. unfold topic_view. by rewrite Hq, Hp. Qed.

Lemma wf_pressure r t m :
  router_wf r → rt_topicConsumers r !! t = Some m → is_Some (rt_topicPressure r !! t).
Proof.
  intros Hwf Ht. apply elem_of_dom. rewrite (rw_pressure _ Hwf). apply elem_of_dom. eauto.
Qed.

Lemma wf_queue r t m :
  router_wf r → rt_topicConsumers r !! t = Some m →
  ∃ i c, rt_mainChans r !! t = Some i ∧ rt_chans r !! i = Some c ∧
    ch_cap c = perTopicBufferSize ∧ queued t r = ch_buf c.
Proof.
  intros Hwf Ht. assert (t ∈ dom (rt_mainChans r)) as [i Hi]%elem_of_dom.
  { rewrite (rw_chans _ Hwf). apply elem_of_dom. eauto. }
  destruct (rw_queue _ Hwf _ _ Hi) as (c & Hc & Hcap & _). exists i, c.
  split_and!; [done..|by eapply queued_at].
Qed.

(** ** Lemmas: one per operation *)

Lemma view_add now t p c r :
  router_wf r → view (AddConsumer now t p c r) = spec_add now t (cs_ID c) p (view r).
Proof.
  intros Hwf. apply map_eq. intros t'. unfold spec_add.
  destruct (decide (t = t')) as [<-|Hne].
  - rewrite lookup_insert_eq. destruct (rt_topicConsumers r !! t) as [m|] eqn:Ht.
    + rewrite (view_Some r t m) by done. rewrite AddConsumer_old with (m := m) by done.
      rewrite (view_Some _ t (<[cs_ID c := p]> m)) by (cbn; apply lookup_insert_eq). done.
    + rewrite (view_None r t) by done. rewrite AddConsumer_new by done.
      rewrite (view_Some _ t {[cs_ID c := p]}) by (cbn; apply lookup_insert_eq).
      unfold topic_view, queued. cbn. by rewrite !lookup_insert_eq.
  - rewrite lookup_insert_ne by done. apply view_same.
    + destruct (rt_topicConsumers r !! t) as [m|] eqn:Ht.
      * rewrite AddConsumer_old with (m := m) by done. cbn. by rewrite lookup_insert_ne.
      * rewrite AddConsumer_new by done. cbn. by rewrite lookup_insert_ne.
    + by apply queued_add.
    + destruct (rt_topicConsumers r !! t) as [m|] eqn:Ht.
      * by rewrite AddConsumer_old with (m := m).
      * rewrite AddConsumer_new by done. cbn. by rewrite lookup_insert_ne.
Qed.

Lemma view_forget t i id r :
  router_wf r → rt_mainChans r !! t = Some i → view (forget_topic t i id r) = delete t (view r).
Proof.
  intros Hwf Hi. apply map_eq. intros t'. destruct (decide (t = t')) as [<-|Hne].
  - rewrite lookup_delete_eq. apply view_None. cbn. apply lookup_delete_eq.
  - rewrite lookup_delete_ne by done. apply view_same; cbn; [by rewrite lookup_delete_ne| |by rewrite lookup_delete_ne].
    apply queued_same; cbn; [by rewrite lookup_delete_ne|]. intros i' Hi'. rewrite lookup_alter_ne; [done|].
    intros <-. by apply Hne, (rw_own_queue _ Hwf t t' i).
Qed.

Lemma view_remove t id r :
  router_wf r → view (RemoveConsumer t id r) = spec_remove t id (view r).
Proof.
  intros Hwf. unfold spec_remove. destruct (rt_topicConsumers r !! t) as [m|] eqn:Ht.
  2: { rewrite (view_None r t) by done. unfold RemoveConsumer. by rewrite Ht. }
  rewrite (view_Some r t m) by done. cbn. destruct (decide (delete id m = ∅)) as [He|Hne].
  - destruct (m !! id) as [p|] eqn:Hp.
    + rewrite (delete_to_empty _ _ _ Hp He) in Ht.
      destruct (RemoveConsumer_last _ _ _ _ Hwf Ht) as (i & l & Hi & _ & ->). by apply view_forget.
    + rewrite delete_id in He by done. by destruct (rw_nonempty _ Hwf _ _ Ht).
  - unfold RemoveConsumer. rewrite Ht.
    assert (size (delete id m) =? 0 = false)%nat as ->
      by (apply Nat.eqb_neq; by rewrite map_size_empty_iff).
    apply map_eq. intros t'. destruct (decide (t = t')) as [<-|Hne'].
    + rewrite lookup_insert_eq. by rewrite (view_Some _ t (delete id m)) by (cbn; apply lookup_insert_eq).
    + rewrite lookup_insert_ne by done. apply view_same; cbn; [by rewrite lookup_insert_ne|done..].
Qed.

Lemma markSaturated_others now t r t' :
  t' ≠ t → rt_topicPressure (markSaturated now t r) !! t' = rt_topicPressure r !! t'.
Proof.
  intros Hne. unfold markSaturated. destruct (rt_topicPressure r !! t); [|done]. cbn.
  by rewrite lookup_insert_ne.
Qed.

Lemma enqueue_loop_pressure now t i jobs n r t' :
  t' ≠ t → rt_topicPressure (enqueue_loop now t i jobs n r).2 !! t' = rt_topicPressure r !! t'.
Proof.
  intros Hne. revert n r. induction jobs as [|j jobs IH]; intros n r; [done|]. cbn.
  destruct (rt_chans r !! i) as [c|]; [|done]. destruct (try_send c _) as [c' [|]]; rewrite IH; [done|].
  by rewrite markSaturated_others.
Qed.

Lemma room_of (c : chan queuedJob) :
  ch_cap c = perTopicBufferSize → room c = (Z.to_nat perTopicBufferSize - length (ch_buf c))%nat.
Proof. intros Hc. unfold room, chan_len. rewrite Hc. lia. Qed.

Lemma saturate_default k now p pr :
  p = Some pr → default (mkPressure false 0) (saturate k now p) = if (k =? 0)%nat then pr else mkPressure true now.
Proof. intros ->. by destruct k. Qed.

Lemma view_enqueue now t jobs r :
  router_wf r →
  (EnqueueJobs now t jobs r).1 = (spec_enqueue now t jobs (view r)).1 ∧
  view (EnqueueJobs now t jobs r).2 = (spec_enqueue now t jobs (view r)).2.
Proof.
  intros Hwf. pose proof (EnqueueJobs_same now t jobs r) as Hs.
  destruct (queued_enqueue now t jobs r Hwf) as [_ Hothers].
  unfold spec_enqueue. destruct (rt_topicConsumers r !! t) as [m|] eqn:Ht.
  2: { rewrite (view_None r t) by done. unfold EnqueueJobs.
       by rewrite (lookup_dom_eq _ _ _ (rw_chans _ Hwf) Ht). }
  destruct (wf_queue r t m Hwf Ht) as (i & c & Hi & Hc & Hcap & Hq).
  destruct (wf_pressure r t m Hwf Ht) as [pr Hpr].
  rewrite (view_Some r t m) by done. cbn. rewrite Hq, <- room_of, Hpr by done. cbn [from_option].
  pose proof (st_consumers _ _ Hs) as Hcons. pose proof (st_chans _ _ Hs) as Hmain.
  unfold EnqueueJobs in *. rewrite Hi in *.
  pose proof (enqueue_loop_spec now t i jobs 0 r c Hc) as He.
  pose proof (λ t', enqueue_loop_pressure now t i jobs 0 r t') as Hp.
  destruct (enqueue_loop now t i jobs 0 r) as [n r1]. cbn zeta in He.
  destruct He as (-> & Hi1 & Hp1 & _). set (k := (length jobs - room c)%nat) in *.
  cbn [fst snd] in *. split; [lia|]. rewrite Z.add_0_l in *.
  set (r2 := if 0 <? Z.of_nat k then markSaturated now t r1 else r1) in *.
  assert (rt_chans r2 = rt_chans r1 ∧ rt_topicPressure r2 !! t = saturate k now (Some pr) ∧
    ∀ t', t' ≠ t → rt_topicPressure r2 !! t' = rt_topicPressure r !! t') as (Hch2 & Hpr2 & Hoth2).
  { unfold r2. destruct (Z.ltb_spec 0 (Z.of_nat k)).
    - rewrite markSaturated_lookup, Hp1, Hpr, saturate_saturate. split_and!.
      + apply (proj1 (markSaturated_frame now t r1)).
      + destruct k; [lia|]. by destruct k.
      + intros t' Hne. rewrite markSaturated_others by done. by apply Hp.
    - rewrite Hp1, Hpr. by split_and!. }
  apply map_eq. intros t'. destruct (decide (t = t')) as [<-|Hne].
  - rewrite lookup_insert_eq, (view_Some r2 t m) by (by rewrite Hcons).
    unfold topic_view. rewrite Hpr2, (saturate_default _ _ _ pr) by done.
    rewrite (queued_at t i (Chan (ch_cap c) (ch_buf c ++ ((λ j, mkQueued j now) <$> take (room c) jobs))));
      [done|by rewrite Hmain|by rewrite Hch2].
  - rewrite lookup_insert_ne by done. apply view_same; [by rewrite Hcons| |by apply Hoth2].
    by apply Hothers.
Qed.

Lemma report_topic_pressure now cs t m p :
  m ≠ ∅ → (report_topic now cs t m p).1 = fade now <$> p.
Proof.
  intros Hm. unfold report_topic.
  assert (size m =? 0 = false)%nat as -> by (apply Nat.eqb_neq; by rewrite map_size_empty_iff).
  done.
Qed.

Lemma report_loop_pressure now cs ts acc r t :
  NoDup ts.*1 → Forall (λ tm, tm.2 ≠ ∅) ts →
  rt_topicPressure (report_loop now cs ts acc r).2 !! t =
    if decide (t ∈ ts.*1) then fade now <$> rt_topicPressure r !! t else rt_topicPressure r !! t.
Proof.
  revert acc r. induction ts as [|[t' m] ts IH]; intros acc r Hnd Hne.
  { by rewrite decide_False by apply not_elem_of_nil. }
  cbn in Hnd. apply NoDup_cons in Hnd as [Hnin Hnd]. apply Forall_cons in Hne as [Hm Hne].
  cbn [report_loop]. pose proof (report_topic_pressure now cs t' m (rt_topicPressure r !! t') Hm) as Hp.
  destruct (report_topic _ _ _ _ _) as [p caps]. cbn in Hp. subst p. rewrite IH by done. cbn.
  destruct (decide (t' = t)) as [->|Hne'].
  - rewrite lookup_partial_alter_eq, decide_False by done. by rewrite decide_True by left.
  - rewrite lookup_partial_alter_ne by done. apply decide_ext. set_solver.
Qed.

Lemma wf_reportable r :
  router_wf r → NoDup (map_to_list (rt_topicConsumers r)).*1 ∧
    Forall (λ tm, tm.2 ≠ ∅) (map_to_list (rt_topicConsumers r)).
Proof.
  intros Hwf. split; [apply NoDup_fst_map_to_list|]. apply Forall_forall. intros [t m] Hin. cbn.
  apply elem_of_map_to_list in Hin. by eapply rw_nonempty.
Qed.

Lemma view_report now cs r :
  router_wf r →
  view (BuildHeartbeatReport now cs (map_to_list (rt_topicConsumers r)) r).2 = spec_fade now (view r).
Proof.
  intros Hwf. destruct (wf_reportable r Hwf) as [Hnd Hne]. unfold BuildHeartbeatReport.
  destruct (report_loop_frame now cs (map_to_list (rt_topicConsumers r)) [] r) as [Hch Hmain].
  assert (same_topics r (report_loop now cs (map_to_list (rt_topicConsumers r)) [] r).2) as Hs.
  { apply report_loop_same. intros t m Hin. apply elem_of_map_to_list in Hin.
    apply elem_of_dom. by eapply wf_pressure. }
  apply map_eq. intros t. unfold spec_fade. rewrite lookup_fmap, !view_lookup, (st_consumers _ _ Hs).
  destruct (rt_topicConsumers r !! t) as [m|] eqn:Ht; [|done]. cbn. unfold topic_view.
  rewrite report_loop_pressure by done. rewrite decide_True.
  2: { apply list_elem_of_fmap. exists (t, m). split; [done|]. by apply elem_of_map_to_list. }
  destruct (wf_pressure r t m Hwf Ht) as [p ->]. cbn. do 2 f_equal.
  apply queued_same; [by rewrite Hmain|]. intros i _. by rewrite Hch.
Qed.

Definition capacity_map (l : list TopicCapacity) : gmap string Z :=
  list_to_map ((λ c, (tc_Topic c, tc_ConsumptionScore c)) <$> l).

Lemma saturated_fade now p : saturated_at now (Some p) = tpr_saturated (fade now p).
Proof.
  unfold saturated_at, fade. destruct (tpr_saturated p) eqn:Hs; cbn; [|done].
  by destruct (2 * second <? now - tpr_lastUpdated p); cbn; rewrite ?Hs.
Qed.

(** The report sent to the leader is that of the specification. *)
Lemma view_capacities now cs r :
  router_wf r →
  capacity_map (BuildHeartbeatReport now cs (map_to_list (rt_topicConsumers r)) r).1
    = spec_report now cs (view r).
Proof.
  intros Hwf. destruct (wf_reportable r Hwf) as [Hnd Hne]. unfold BuildHeartbeatReport, capacity_map.
  rewrite report_loop_scores by done. cbn [app]. rewrite <- list_fmap_compose.
  apply map_eq. intros t. unfold spec_report. rewrite lookup_fmap, view_lookup.
  set (f := (λ c, (tc_Topic c, tc_ConsumptionScore c)) ∘ score now cs r).
  assert (∀ l, (f <$> l).*1 = l.*1) as Hf.
  { intros l. rewrite <- list_fmap_compose. by apply list_fmap_ext. }
  destruct (rt_topicConsumers r !! t) as [m|] eqn:Ht; cbn.
  - destruct (wf_pressure r t m Hwf Ht) as [p Hp]. rewrite Hp. cbn.
    apply elem_of_list_to_map_1; [by rewrite Hf|]. apply list_elem_of_fmap. exists (t, m).
    split; [|by apply elem_of_map_to_list]. unfold f, score. cbn. by rewrite Hp, saturated_fade.
  - apply not_elem_of_list_to_map_1. rewrite Hf. intros Hin.
    apply list_elem_of_fmap in Hin as ([t' m] & -> & Hin). apply elem_of_map_to_list in Hin. cbn in Ht.
    congruence.
Qed.

Section Refinement.
Context (marshal : ToConsumerDelivery → option bytes).

(** What a round of a dispatcher did: a delivery for a consumer of its topic. *)
Lemma round_effect_of id clock order r cs s' :
  router_wf r → router_step marshal (EvLoopRound id clock order) (r, cs) = Some s' →
  ∃ d m i p k taken sent, rt_loops r !! id = Some d ∧
    rt_topicConsumers r !! dl_topic d = Some m ∧ rt_mainChans r !! dl_topic d = Some i ∧
    p ∈ (map_to_list m).*2 ∧ cs !! p = Some k ∧ 0 < GetFreeSlots k ∧
    same_topics r s'.1 ∧ (length taken ≤ dispatchBatchSize)%nat ∧
    effect marshal (dl_topic d) i p (r, cs) s' taken sent.
Proof.
  intros Hwf Hst. cbn in Hst. destruct (rt_loops r !! id) as [d|] eqn:Hd; [|done].
  destruct (dl_ch d) as [ch|] eqn:Hch; [|done]. destruct (dl_cancelled d) eqn:Hl; [done|].
  destruct (dispatcher_queue _ _ _ _ Hwf Hd Hch Hl) as (i & c & -> & Hm & Hi).
  unfold dispatchLoop_round in Hst. cbn [fst snd] in Hst. destruct (decide _) as [Ho|]; [|done].
  destruct (GetNextConsumer cs order (dl_topic d) r) as [p|] eqn:Hp; [|done].
  destruct (Z.leb_spec (free_of cs p) 0) as [|Hfree]; [done|].
  destruct (dispatch_batch _ _ _ _ _ _ _) as [s1| |] eqn:Hb; simplify_eq.
  pose proof (dispatch_batch_same marshal dispatchBatchSize clock (dl_topic d) (Some i) p r cs s'.1 s'.2)
    as Hsame. rewrite <- surjective_pairing in Hsame. specialize (Hsame Hb).
  destruct (batch_effect marshal _ clock (dl_topic d) i p (r, cs) s' ltac:(by exists c) Hb) as
    (taken & sent & Hlen & He).
  unfold free_of in Hfree. destruct (cs !! p) as [k|] eqn:Hk; [|lia].
  unfold GetNextConsumer in Hp. destruct (rt_topicConsumers r !! dl_topic d) as [m|] eqn:Ht; [|done].
  exists d, m, i, p, k, taken, sent. split_and!; try done.
  destruct (size m =? 0)%nat; [done|].
  pose proof (best_consumer_spec cs order None (-1) ltac:(done)) as Hbest. rewrite Hp in Hbest.
  destruct Hbest as [[?|Hin] _]; [done|]. unfold topic_refs in Ho. rewrite Ht in Ho. by rewrite <- Ho.
Qed.

Lemma view_round id clock order r cs s' :
  router_wf r → router_step marshal (EvLoopRound id clock order) (r, cs) = Some s' →
  ∃ t, spec_deliver marshal t (view r) cs (view s'.1) s'.2.
Proof.
  intros Hwf Hst.
  destruct (round_effect_of _ _ _ _ _ _ Hwf Hst) as
    (d & m & i & p & k & taken & sent & Hd & Ht & Hi & Hp & Hk & Hfree & Hs & Hlen & He).
  destruct He as [e1 e2 e3 e4 e5 e6 e7]. cbn [fst snd] in *.
  destruct (wf_queue r _ m Hwf Ht) as (i' & c & Hi' & Hc & _ & Hq). simplify_eq.
  destruct (e1 c Hc) as (c' & Hc' & Hsplit). destruct (e5 k Hk) as (k' & Hk' & _ & Hw).
  exists (dl_topic d).
  assert (view s'.1 = <[dl_topic d := mkTopic m (ch_buf c')
    (default (mkPressure false 0) (rt_topicPressure r !! dl_topic d))]> (view r)) as ->.
  { apply map_eq. intros t'. destruct (decide (dl_topic d = t')) as [<-|Hne].
    - rewrite lookup_insert_eq, (view_Some s'.1 _ m) by (by rewrite (st_consumers _ _ Hs)).
      unfold topic_view. rewrite e7, (queued_at _ i c'); [done|by rewrite (st_chans _ _ Hs)|done].
    - rewrite lookup_insert_ne by done.
      apply view_same; [by rewrite (st_consumers _ _ Hs)| |by rewrite e7].
      apply queued_same; [by rewrite (st_chans _ _ Hs)|]. intros j Hj. apply e2. intros ->.
      by apply Hne, (rw_own_queue _ Hwf _ _ i). }
  eapply (Deliver marshal _ _ _ (mkTopic m (ch_buf c) _) p k k' taken (ch_buf c') sent); try done.
  by rewrite (view_Some r _ m), <- Hq.
Qed.

Lemma step_refines e s s' :
  router_wf s.1 → router_step marshal e s = Some s' → spec_step marshal e (observed s) (observed s').
Proof.
  destruct s as [r cs]. intros Hwf Hst. unfold observed. cbn [fst snd] in *.
  destruct e as [now t p c|t id|now t jobs|now|p n|id|id clock order]; cbn in Hst.
  - destruct (cs !! p) eqn:Hp; [done|]. injection Hst as <-. cbn. rewrite view_add by done.
    by constructor.
  - injection Hst as <-. cbn. rewrite view_remove by done. constructor.
  - injection Hst as <-. cbn. rewrite (proj2 (view_enqueue _ _ _ _ Hwf)). constructor.
  - injection Hst as <-. cbn. rewrite view_report by done. constructor.
  - injection Hst as <-. constructor.
  - destruct (rt_loops r !! id) as [d|]; [|done]. destruct (dl_ch d); [done|]. injection Hst as <-. cbn.
    constructor.
  - destruct (view_round id clock order r cs s' Hwf Hst) as [t Ht]. by econstructor.
Qed.

(** A run of the specification over the same events. *)
Inductive spec_run : list router_event → topics * gmap cref Consumer → topics * gmap cref Consumer → Prop :=
| SpecNil σ : spec_run [] σ σ
| SpecCons e es σ1 σ2 σ3 :
    spec_step marshal e σ1 σ2 → spec_run es σ2 σ3 → spec_run (e :: es) σ1 σ3.

(** C7: The router implements its contract. Every run of the router, dispatcher
    goroutines included, is under [view] a run of the specification over the
    same calls, and the two answers it gives, the number of rejected jobs and
    the capacities reported to the leader, are those of the specification. *)
Theorem router_refines_spec es s :
  run (router_step marshal) es (NewDefaultRouter, ∅) = Some s →
  spec_run es (∅, ∅) (observed s) ∧
  (∀ now t jobs, (EnqueueJobs now t jobs s.1).1 = (spec_enqueue now t jobs (view s.1)).1) ∧
  (∀ now, capacity_map (BuildHeartbeatReport now s.2 (map_to_list (rt_topicConsumers s.1)) s.1).1
    = spec_report now s.2 (view s.1)).
Proof.
  intros Hr. assert (router_wf s.1 ∧ spec_run es (∅, ∅) (observed s)) as [Hwf Hrun].
  { assert (∀ es s0 s, router_wf s0.1 → run (router_step marshal) es s0 = Some s →
      router_wf s.1 ∧ spec_run es (observed s0) (observed s)) as Hgen.
    { clear. intros es. induction es as [|e es IH]; intros s0 s Hwf Hr.
      - injection Hr as <-. split; [done|constructor].
      - rewrite run_cons in Hr. destruct (router_step marshal e s0) as [s1|] eqn:Hst; [|done].
        destruct (IH s1 s) as [Hwf' Hrun]; [by eapply router_step_wf|done|]. split; [done|].
        econstructor; [by apply step_refines|done]. }
    apply (Hgen es (NewDefaultRouter, ∅) s); [apply NewDefaultRouter_wf|done]. }
  split_and!; [done|intros; by apply view_enqueue|intros; by apply view_capacities].
Qed.

(** ** Progress *)

(** A consumer with a free slot takes at least one job from a queue that has
    one. *)
Lemma batch_takes n clock t i p k r cs c :
  cs !! p = Some k → 0 < GetFreeSlots k → rt_chans r !! i = Some c → ch_buf c ≠ [] →
  Forall (λ qj, is_Some (qj_Job qj)) (ch_buf c) →
  ∃ s' c', dispatch_batch marshal (S n) clock t (Some i) p (r, cs) = Returns s' ∧
    rt_chans s'.1 !! i = Some c' ∧ (length (ch_buf c') < length (ch_buf c))%nat.
Proof.
  intros Hp Hfree Hi Hne Hj.
  destruct (dispatch_round_cases marshal (clock (S n)) t i c p k r cs Hp Hi)
    as [(r1 & cs1 & fin & f & Hd & Hs)|(_ & qj & c' & [Hb _]%recv_Some & Hnil)].
  2: { rewrite Hb in Hj. apply Forall_cons in Hj as [[j Hj] _]. congruence. }
  assert (∃ k1 c1, cs1 !! p = Some k1 ∧ rt_chans r1 !! i = Some c1 ∧
    Forall (λ qj, is_Some (qj_Job qj)) (ch_buf c1) ∧ (length (ch_buf c1) < length (ch_buf c))%nat)
    as (k1 & c1 & Hp1 & Hi1 & Hj1 & Hlt).
  { assert (∀ qj c1, recv c = Some (qj, c1) → Forall (λ qj, is_Some (qj_Job qj)) (ch_buf c1) ∧
      (length (ch_buf c1) < length (ch_buf c))%nat) as Hc1.
    { intros qj c1 [Hb _]%recv_Some. rewrite Hb in Hj |- *. apply Forall_cons in Hj as [_ Hj].
      split; [done|]. cbn. lia. }
    destruct Hs as [[?|?]|qj c1 _ Hr _|qj c1 j _ Hr _ _ _|qj c1 j m _ Hr _ _ _ _|qj c1 j m _ Hr _ _ _ _];
      [lia|done|..]; destruct (Hc1 _ _ Hr); eexists _, c1; (split; [first [done|apply lookup_insert_eq]|]);
      (split; [apply lookup_insert_eq|done]). }
  rewrite dispatch_batch_S, Hd. cbn [mbind exec_bind]. destruct fin.
  { exists (r1, cs1), c1. done. }
  destruct (dispatch_batch_post marshal n clock t i p k1 r1 cs1 c1 Hp1 Hi1 Hj1)
    as (r2 & cs2 & k2 & taken & sent & Hb & Hpost).
  exists (r2, cs2), (Chan (ch_cap c1) (drop taken (ch_buf c1))). split_and!; [done|by apply (bp_queue _ _ _ _ _ _ _ _ _ _ _ _ _ _ Hpost)|].
  cbn. rewrite length_drop. lia.
Qed.

Lemma some_consumer cs order t r p :
  order ≡ₚ topic_refs t r → p ∈ topic_refs t r → 0 < free_of cs p →
  ∃ q k, GetNextConsumer cs order t r = Some q ∧ cs !! q = Some k ∧ 0 < GetFreeSlots k ∧
    (free_of cs q <=? 0) = false.
Proof.
  intros Ho Hp Hfree. unfold GetNextConsumer.
  destruct (rt_topicConsumers r !! t) as [m|] eqn:Ht.
  2: { unfold topic_refs in Hp. rewrite Ht in Hp. by apply elem_of_nil in Hp. }
  destruct (size m =? 0)%nat eqn:Hsz.
  { apply Nat.eqb_eq, (topic_refs_nil t r m Ht) in Hsz. rewrite Hsz in Hp. by apply elem_of_nil in Hp. }
  pose proof (best_consumer_spec cs order None (-1) ltac:(done)) as Hbest.
  destruct (best_consumer cs order None (-1)) as [q|].
  - destruct Hbest as (_ & _ & Hall). rewrite Forall_forall in Hall.
    specialize (Hall p ltac:(by rewrite Ho)). assert (0 < free_of cs q) as Hq by lia.
    unfold free_of in Hq |- *. destruct (cs !! q) as [k|] eqn:Hk; [|lia].
    exists q, k. split_and!; [done..|rewrite Hk; by apply Z.leb_gt].
  - destruct Hbest as [_ Hall]. rewrite Forall_forall in Hall.
    specialize (Hall p ltac:(by rewrite Ho)). lia.
Qed.

(** C15: A queue never gets stuck. In every reachable state in which a topic has
    queued jobs, none of them nil, and a consumer with a free slot, the topic's
    dispatcher can run, whatever the order in which it looks at the consumers,
    and at least one job leaves the queue. *)
Theorem queue_drains es s t p clock order :
  run (router_step marshal) es (NewDefaultRouter, ∅) = Some s →
  queued t s.1 ≠ [] → Forall (λ qj, is_Some (qj_Job qj)) (queued t s.1) →
  p ∈ topic_refs t s.1 → 0 < free_of s.2 p → order ≡ₚ topic_refs t s.1 →
  ∃ id es' s', (es' = [EvLoopRound id clock order] ∨ es' = [EvLoopStart id; EvLoopRound id clock order]) ∧
    run (router_step marshal) es' s = Some s' ∧
    (length (queued t s'.1) < length (queued t s.1))%nat.
Proof.
  destruct s as [r cs]. cbn [fst snd]. intros Hrun Hq Hj Hp Hfree Ho.
  assert (router_wf r) as Hwf.
  { refine (run_invariant (router_step marshal) (λ s, router_wf s.1) _ es (NewDefaultRouter, ∅) (r, cs) _ Hrun).
    - intros e s1 s2. apply router_step_wf.
    - apply NewDefaultRouter_wf. }
  destruct (rt_topicConsumers r !! t) as [m|] eqn:Ht.
  2: { unfold topic_refs in Hp. rewrite Ht in Hp. by apply elem_of_nil in Hp. }
  destruct (wf_queue r t m Hwf Ht) as (i & c & Hi & Hc & _ & Hqc). rewrite Hqc in Hq, Hj |- *.
  assert (t ∈ dom (rt_dispatchCancel r)) as [id Hid]%elem_of_dom.
  { rewrite (rw_cancel _ Hwf). apply elem_of_dom. eauto. }
  destruct (rw_loop _ Hwf _ _ Hid) as (d & Hd & Hdt & Hlive).
  assert (∀ ls, ls !! id = Some (mkDispatcher t (Some (Some i)) false) →
    ∃ s', router_step marshal (EvLoopRound id clock order) (set_loops ls r, cs) = Some s' ∧
      (length (queued t s'.1) < length (ch_buf c))%nat) as Hround.
  { intros ls Hls. destruct (some_consumer cs order t r p Ho Hp Hfree) as (q & k & Hn & Hk & Hf & Hfq).
    destruct (batch_takes 7 clock t i q k (set_loops ls r) cs c Hk Hf Hc Hq Hj) as (s' & c' & Hb & Hc' & Hlt).
    exists s'. split.
    - cbn. rewrite Hls. cbn. unfold dispatchLoop_round. cbn [fst snd].
      change (topic_refs t (set_loops ls r)) with (topic_refs t r). rewrite decide_True by done.
      change (GetNextConsumer cs order t (set_loops ls r)) with (GetNextConsumer cs order t r).
      rewrite Hn, Hfq. change dispatchBatchSize with 8%nat. by rewrite Hb.
    - pose proof (dispatch_batch_same marshal 8 clock t (Some i) q (set_loops ls r) cs s'.1 s'.2) as Hs.
      rewrite <- surjective_pairing in Hs. specialize (Hs Hb).
      by rewrite (queued_at t i c') by (rewrite ?(st_chans _ _ Hs); done). }
  destruct (dl_ch d) as [ch|] eqn:Hch.
  - pose proof (rw_loop_queue _ Hwf _ _ _ Hd Hlive Hch) as ->. rewrite Hdt, Hi in Hch.
    destruct (Hround (rt_loops r)) as (s' & Hst & Hlt).
    { rewrite Hd. destruct d. cbn in *. by subst. }
    exists id, [EvLoopRound id clock order], s'. split_and!; [by left| |done].
    assert (set_loops (rt_loops r) r = r) as Heq by (by destruct r). rewrite Heq in Hst.
    by rewrite run_cons, Hst.
  - destruct (Hround (<[id := start_loop r d]> (rt_loops r))) as (s' & Hst & Hlt).
    { rewrite lookup_insert_eq. unfold start_loop. by rewrite Hdt, Hi, Hlive. }
    exists id, [EvLoopStart id; EvLoopRound id clock order], s'. split_and!; [by right| |done].
    rewrite run_cons. cbn [router_step]. rewrite Hd, Hch. cbn [mbind option_bind].
    by rewrite run_cons, Hst.
Qed.

End Refinement.

(** ** Concrete runs *)

Module SpecExample.

Definition encode (d : ToConsumerDelivery) : option bytes := Some [td_SeqID d].
Definition carol : Consumer := NewConsumer "carol" "u1" "t" (Some (mkConn [] false)) 10.
Definition jobs : list (option Job) := [Some (mkJob "a" "t" []); Some (mkJob "b" "t" [])].

Definition enqueued : list router_event :=
  [EvAdd 0 "t" 0%nat carol; EvLoopStart 1%nat; EvEnqueue 0 "t" jobs].

End SpecExample.
Import SpecExample.

Theorem router_refines_spec_witness :
  match run (router_step encode) (enqueued ++ [EvRemove "t" "carol"]) (NewDefaultRouter, ∅) with
  | Some s => spec_run encode (enqueued ++ [EvRemove "t" "carol"]) (∅, ∅) (observed s)
  | None => False
  end.
Proof.
  destruct (run (router_step encode) (enqueued ++ [EvRemove "t" "carol"]) (NewDefaultRouter, ∅))
    as [s|] eqn:Hr; [|by vm_compute in Hr].
  apply (router_refines_spec encode _ s Hr).
Defined.

Theorem queue_drains_witness :
  match run (router_step encode) enqueued (NewDefaultRouter, ∅) with
  | Some s => length (queued "t" s.1) = 2%nat ∧
      ∃ id es' s', (es' = [EvLoopRound id (λ _, 0) [0%nat]] ∨
          es' = [EvLoopStart id; EvLoopRound id (λ _, 0) [0%nat]]) ∧
        run (router_step encode) es' s = Some s' ∧ (length (queued "t" s'.1) < 2)%nat
  | None => False
  end.
Proof.
  destruct (run (router_step encode) enqueued (NewDefaultRouter, ∅)) as [s|] eqn:Hr;
    [|by vm_compute in Hr].
  assert (Some (queued "t" s.1, topic_refs "t" s.1, free_of s.2 0%nat) =
    Some ([mkQueued (Some (mkJob "a" "t" [])) 0; mkQueued (Some (mkJob "b" "t" [])) 0], [0%nat], 10)) as He.
  { transitivity ((λ s : DefaultRouter * gmap cref Consumer,
      (queued "t" s.1, topic_refs "t" s.1, free_of s.2 0%nat)) <$>
      run (router_step encode) enqueued (NewDefaultRouter, ∅)); [by rewrite Hr|]. vm_compute. reflexivity. }
  injection He as Hq Hrefs Hf. split; [by rewrite Hq|].
  destruct (queue_drains encode enqueued s "t" 0%nat (λ _, 0) [0%nat] Hr) as (id & es' & s' & H1 & H2 & H3).
  - rewrite Hq. discriminate.
  - rewrite Hq. repeat constructor; eauto.
  - rewrite Hrefs. left.
  - rewrite Hf. reflexivity.
  - by rewrite Hrefs.
  - exists id, es', s'. split; [exact H1|]. split; [exact H2|]. by rewrite Hq in H3.
Defined.
