(* ===== verification/RouterConc.v ===== *)
(** * The router, statement by statement (internal/api/router.go)

    [Router] takes a call, or a dispatcher's batch, as one step. Here they
    interleave as the code lets them: EnqueueJobs looks the queue up under the
    lock and sends one job at a time without it; RemoveConsumer holds the lock
    while it drains; a dispatcher reads its queue without the lock, checks its
    context, picks a consumer under the lock and sends job by job; the handler of
    a session writes its first message after the consumer was registered and
    closes the consumer at its end, and the write loops of the consumers run beside them. The theorem about deliveries holds at
    this grain as well. *)

From S2P Require Import Prelude GoRuntime Messages Consumer Router Delivery.

Local Open Scope Z_scope.

(** ** State *)

(** Where a dispatcher that read its queue is: at the check of its context,
    looking for a consumer (and whether it waited, so that it checks again), in
    a batch with so many rounds left, or returned. *)
Inductive loop_pc := LCheck | LPick (waited : bool) | LBatch (rounds : nat) (p : cref) | LDone.

(** A call of EnqueueJobs past its lookup; [eq_mark] when a job was just
    rejected and the topic is to be marked. *)
Record enqueuer := mkEnqueuer {
  eq_topic : string;
  eq_ch : chanid;
  eq_jobs : list (option Job);
  eq_rejected : Z;
  eq_mark : bool
}.

(** The call of RemoveConsumer that holds the lock to drain a topic: at the test
    of the loop, or at its receive. *)
Inductive drainer := DrainTest (topic : string) | DrainRecv (topic : string).

(** [cn_greeting] are the consumers whose session has registered them and has
    not yet written its "accepted". *)
Record conc := mkConc {
  cn_router : DefaultRouter;
  cn_cs : gmap cref Consumer;
  cn_pcs : gmap loopid loop_pc;
  cn_enqs : gmap nat enqueuer;
  cn_drain : option drainer;
  cn_greeting : gset cref
}.

Definition with_router r (s : conc) : conc :=
  mkConc r (cn_cs s) (cn_pcs s) (cn_enqs s) (cn_drain s) (cn_greeting s).
Definition with_cs cs (s : conc) : conc :=
  mkConc (cn_router s) cs (cn_pcs s) (cn_enqs s) (cn_drain s) (cn_greeting s).
Definition with_pc id pc (s : conc) : conc :=
  mkConc (cn_router s) (cn_cs s) (<[id := pc]> (cn_pcs s)) (cn_enqs s) (cn_drain s) (cn_greeting s).
Definition with_enqs enqs (s : conc) : conc :=
  mkConc (cn_router s) (cn_cs s) (cn_pcs s) enqs (cn_drain s) (cn_greeting s).
Definition with_drain d (s : conc) : conc :=
  mkConc (cn_router s) (cn_cs s) (cn_pcs s) (cn_enqs s) d (cn_greeting s).
Definition with_greeting g (s : conc) : conc :=
  mkConc (cn_router s) (cn_cs s) (cn_pcs s) (cn_enqs s) (cn_drain s) g.

(** The jobs sent on a queue, the messages put into a consumer's channel, each by
    a dispatcher or ([None]) by the session's handler, the results of EnqueueJobs, and what a consumer had been sent
    before it was registered. *)
Record conc_log := mkConcLog {
  cl_accepted : list (string * chanid * queuedJob);
  cl_sent : list (option loopid * cref * bytes);
  cl_results : list (string * Z);
  cl_before : gmap cref (list bytes)
}.

(** ** Steps *)

Inductive conc_event :=
  | CAdd (now : Z) (topic : string) (p : cref) (c : Consumer)
  | CGreet (p : cref) (take_done : bool)
  | CClose (p : cref)
  | CRemove (topic consumerID : string)
  | CDrain
  | CReport (now : Z)
  | CAck (p : cref) (n : Z)
  | CEnqueue (e : nat) (topic : string) (jobs : list (option Job))
  | CEnqueueSend (e : nat) (now : Z)
  | CEnqueueMark (e : nat) (now : Z)
  | CEnqueueEnd (e : nat) (now : Z)
  | CLoopStart (id : loopid)
  | CLoopCheck (id : loopid)
  | CLoopPick (id : loopid) (order : list cref)
  | CLoopExit (id : loopid)
  | CLoopRound (id : loopid) (now : Z)
  | CWrite (p : cref) (ctx_done take_ctx ok : bool).

(** [r.mu] is free for a call that takes and releases it in one step. *)
Definition unlocked (s : conc) : option unit :=
  match cn_drain s with None => Some () | Some _ => None end.

(** RemoveConsumer up to its drain. *)
Definition remove_begin (topic consumerID : string) (s : conc) : conc :=
  let r := cn_router s in
  match rt_topicConsumers r !! topic with
  | None => s
  | Some consumers =>
      let consumers' := delete consumerID consumers in
      let r1 := set_topicConsumers (<[topic := consumers']> (rt_topicConsumers r)) r in
      if (size consumers' =? 0)%nat then
        with_drain (Some (DrainTest topic)) (with_router (stopDispatcher topic r1) s)
      else with_router r1 s
  end.

(** The deletions after the drain. *)
Definition remove_end (topic : string) (r : DefaultRouter) : DefaultRouter :=
  mkRouter (delete topic (rt_topicConsumers r)) (delete topic (rt_mainChans r))
    (rt_dispatchCancel r) (delete topic (rt_topicPressure r)) (rt_chans r) (rt_loops r)
    (rt_next r) (rt_pushed r) (rt_dropped r).

(** A step of the drain; receiving from an empty queue waits, and so does
    receiving from a nil channel, whose length is zero. *)
Definition drain_step (s : conc) : option conc :=
  let r := cn_router s in
  match cn_drain s with
  | None => None
  | Some (DrainTest topic) =>
      match queue_of (rt_mainChans r !! topic) r with
      | Some (_, c) =>
          if (0 <? chan_len c)%nat then Some (with_drain (Some (DrainRecv topic)) s)
          else Some (with_drain None (with_router (remove_end topic r) s))
      | None => Some (with_drain None (with_router (remove_end topic r) s))
      end
  | Some (DrainRecv topic) =>
      '(i, c) ← queue_of (rt_mainChans r !! topic) r;
      '(_, c) ← recv c;
      Some (with_drain (Some (DrainTest topic)) (with_router (set_chans (<[i := c]> (rt_chans r)) r) s))
  end.

(** One job of EnqueueJobs: the call and whether the job went in. *)
Definition enqueue_send (now : Z) (e : enqueuer) (r : DefaultRouter)
    : option (enqueuer * DefaultRouter * option queuedJob) :=
  match eq_jobs e with
  | [] => None
  | j :: rest =>
      c ← rt_chans r !! eq_ch e;
      let qj := mkQueued j now in
      let '(c', sent) := try_send c qj in
      if sent then
        Some (mkEnqueuer (eq_topic e) (eq_ch e) rest (eq_rejected e) false,
              set_chans (<[eq_ch e := c']> (rt_chans r)) r, Some qj)
      else
        Some (mkEnqueuer (eq_topic e) (eq_ch e) rest (eq_rejected e + 1) true,
              JobsDropped (eq_topic e) r, None)
  end.

Section Steps.
Context (marshal : ToConsumerDelivery → option bytes).

(** The pick: the lock is taken for reading, [order] is the order of the range. *)
Definition loop_pick (order : list cref) (topic : string) (s : conc) : option loop_pc :=
  if decide (order ≡ₚ topic_refs topic (cn_router s)) then
    match GetNextConsumer (cn_cs s) order topic (cn_router s) with
    | None => Some (LPick true)
    | Some p =>
        if free_of (cn_cs s) p <=? 0 then Some (LPick true) else Some (LBatch dispatchBatchSize p)
    end
  else None.

(** A round of the batch loop, or its end. *)
Definition loop_round (now : Z) (d : dispatcher) (ch : option chanid) (rounds : nat) (p : cref)
    (r : DefaultRouter) (cs : gmap cref Consumer)
    : option (DefaultRouter * gmap cref Consumer * loop_pc) :=
  match rounds with
  | O => Some (r, cs, LCheck)
  | S n =>
      match dispatch_round marshal now (dl_topic d) ch p (r, cs) with
      | Returns (r, cs, fin) => Some (r, cs, if (fin : bool) then LCheck else LBatch n p)
      | _ => None
      end
  end.

Definition conc_step (e : conc_event) (sl : conc * conc_log) : option (conc * conc_log) :=
  let '(s, lg) := sl in
  let r := cn_router s in
  let log_result topic n :=
    mkConcLog (cl_accepted lg) (cl_sent lg) (cl_results lg ++ [(topic, n)]) (cl_before lg) in
  match e with
  | CAdd now topic p c =>
      unlocked s;;
      match cn_cs s !! p with
      | Some _ => None
      | None =>
          Some (with_greeting ({[p]} ∪ cn_greeting s)
                  (with_cs (<[p := c]> (cn_cs s)) (with_router (AddConsumer now topic p c r) s)),
                mkConcLog (cl_accepted lg) (cl_sent lg) (cl_results lg) (<[p := output c]> (cl_before lg)))
      end
  | CGreet p take_done =>
      if decide (p ∈ cn_greeting s) then
        c ← cn_cs s !! p;
        match WriteMessage take_done (accepted_message marshal) c with
        | Returns (_, c') =>
            Some (with_greeting (cn_greeting s ∖ {[p]}) (with_cs (<[p := c']> (cn_cs s)) s),
              mkConcLog (cl_accepted lg)
                (cl_sent lg ++ (pair (None, p) <$>
                   drop (length (ch_buf (cs_writeCh c))) (ch_buf (cs_writeCh c'))))
                (cl_results lg) (cl_before lg))
        | _ => None
        end
      else None
  | CClose p => Some (with_cs (alter (λ c, (Close (cs_doneClosed c) c).2) p (cn_cs s)) s, lg)
  | CRemove topic id => unlocked s;; Some (remove_begin topic id s, lg)
  | CDrain => s ← drain_step s; Some (s, lg)
  | CReport now =>
      unlocked s;;
      Some (with_router (BuildHeartbeatReport now (cn_cs s) (map_to_list (rt_topicConsumers r)) r).2 s, lg)
  | CAck p n => Some (with_cs (alter (UpdateDeliveryAck n) p (cn_cs s)) s, lg)
  | CEnqueue e topic jobs =>
      unlocked s;;
      match cn_enqs s !! e, rt_mainChans r !! topic with
      | Some _, _ => None
      | None, None => Some (s, log_result topic (Z.of_nat (length jobs)))
      | None, Some i => Some (with_enqs (<[e := mkEnqueuer topic i jobs 0 false]> (cn_enqs s)) s, lg)
      end
  | CEnqueueSend e now =>
      q ← cn_enqs s !! e;
      if eq_mark q then None
      else
        '(q', r', qj) ← enqueue_send now q r;
        Some (with_enqs (<[e := q']> (cn_enqs s)) (with_router r' s),
          match qj with
          | None => lg
          | Some qj => mkConcLog (cl_accepted lg ++ [(eq_topic q, eq_ch q, qj)]) (cl_sent lg)
                         (cl_results lg) (cl_before lg)
          end)
  | CEnqueueMark e now =>
      unlocked s;;
      q ← cn_enqs s !! e;
      if eq_mark q then
        Some (with_enqs (<[e := mkEnqueuer (eq_topic q) (eq_ch q) (eq_jobs q) (eq_rejected q) false]> (cn_enqs s))
                (with_router (markSaturated now (eq_topic q) r) s), lg)
      else None
  | CEnqueueEnd e now =>
      q ← cn_enqs s !! e;
      match eq_jobs q, eq_mark q with
      | [], false =>
          let s := with_enqs (delete e (cn_enqs s)) s in
          if 0 <? eq_rejected q then
            unlocked s;; Some (with_router (markSaturated now (eq_topic q) r) s, log_result (eq_topic q) (eq_rejected q))
          else Some (s, log_result (eq_topic q) (eq_rejected q))
      | _, _ => None
      end
  | CLoopStart id =>
      d ← rt_loops r !! id;
      match dl_ch d with
      | Some _ => None
      | None => Some (with_pc id LCheck (with_router (set_loops (<[id := start_loop r d]> (rt_loops r)) r) s), lg)
      end
  | CLoopCheck id =>
      d ← rt_loops r !! id;
      _ ← dl_ch d;
      match cn_pcs s !! id with
      | Some LCheck => Some (with_pc id (if dl_cancelled d then LDone else LPick false) s, lg)
      | _ => None
      end
  | CLoopPick id order =>
      unlocked s;;
      d ← rt_loops r !! id;
      match cn_pcs s !! id with
      | Some (LPick _) => pc ← loop_pick order (dl_topic d) s; Some (with_pc id pc s, lg)
      | _ => None
      end
  | CLoopExit id =>
      d ← rt_loops r !! id;
      match cn_pcs s !! id with
      | Some (LPick true) => if dl_cancelled d then Some (with_pc id LDone s, lg) else None
      | _ => None
      end
  | CLoopRound id now =>
      d ← rt_loops r !! id;
      ch ← dl_ch d;
      match cn_pcs s !! id with
      | Some (LBatch n p) =>
          '(r', cs', pc) ← loop_round now d ch n p r (cn_cs s);
          Some (with_pc id pc (with_cs cs' (with_router r' s)),
            mkConcLog (cl_accepted lg)
              (cl_sent lg ++ (pair (Some id, p) <$> drop (length (pending p (cn_cs s))) (pending p cs')))
              (cl_results lg) (cl_before lg))
      | _ => None
      end
  | CWrite p ctx_done take_ctx ok =>
      c ← cn_cs s !! p;
      '(_, c) ← StartWriteLoop_step ctx_done take_ctx ok c;
      Some (with_cs (<[p := c]> (cn_cs s)) s, lg)
  end.

End Steps.

Definition conc_init : conc * conc_log :=
  (mkConc NewDefaultRouter ∅ ∅ ∅ None ∅, mkConcLog [] [] [] ∅).

(** ** Queues and their dispatchers *)

(** AddConsumer makes a topic's queue and its dispatcher together. *)
Definition dispatcher_of (i : chanid) : loopid := S i.

Definition owner (i : chanid) (r : DefaultRouter) (t : string) : Prop :=
  ∃ d, rt_loops r !! dispatcher_of i = Some d ∧ dl_topic d = t.

(** A dispatcher that may take jobs. *)
Definition taking (pc : loop_pc) : bool :=
  match pc with LPick _ | LBatch _ _ => true | LCheck | LDone => false end.

Definition draining (d : drainer) : string := match d with DrainTest t | DrainRecv t => t end.

Record conc_wf (s : conc) : Prop := {
  cw_fresh_chan : ∀ i c, rt_chans (cn_router s) !! i = Some c → (i < rt_next (cn_router s))%nat;
  cw_fresh_loop : ∀ l d, rt_loops (cn_router s) !! l = Some d → (l < rt_next (cn_router s))%nat;
  cw_main : ∀ t i, rt_mainChans (cn_router s) !! t = Some i →
    is_Some (rt_chans (cn_router s) !! i) ∧ owner i (cn_router s) t;
  cw_cancel : ∀ t l, rt_dispatchCancel (cn_router s) !! t = Some l →
    (∃ i, rt_mainChans (cn_router s) !! t = Some i ∧ l = dispatcher_of i) ∧
    is_Some (rt_topicConsumers (cn_router s) !! t);
  cw_live : ∀ l d, rt_loops (cn_router s) !! l = Some d → dl_cancelled d = false →
    rt_dispatchCancel (cn_router s) !! dl_topic d = Some l;
  cw_ch : ∀ l d ch, rt_loops (cn_router s) !! l = Some d → dl_cancelled d = false → dl_ch d = Some ch →
    ∃ i, ch = Some i ∧ l = dispatcher_of i ∧ is_Some (rt_chans (cn_router s) !! i);
  cw_pc : ∀ l pc, cn_pcs s !! l = Some pc → taking pc = true →
    ∃ d i, rt_loops (cn_router s) !! l = Some d ∧ dl_ch d = Some (Some i) ∧ l = dispatcher_of i ∧
      is_Some (rt_chans (cn_router s) !! i);
  cw_enq : ∀ e q, cn_enqs s !! e = Some q →
    is_Some (rt_chans (cn_router s) !! eq_ch q) ∧ owner (eq_ch q) (cn_router s) (eq_topic q);
  cw_drain : ∀ d, cn_drain s = Some d → rt_dispatchCancel (cn_router s) !! draining d = None
}.

(** Routers with the same queues (not their contents) and dispatchers. *)
Record same_shape (r r' : DefaultRouter) : Prop := {
  sh_main : rt_mainChans r' = rt_mainChans r;
  sh_cancel : rt_dispatchCancel r' = rt_dispatchCancel r;
  sh_loops : rt_loops r' = rt_loops r;
  sh_next : rt_next r' = rt_next r;
  sh_consumers : ∀ t, is_Some (rt_topicConsumers r !! t) → is_Some (rt_topicConsumers r' !! t);
  sh_chans : ∀ i, is_Some (rt_chans r' !! i) ↔ is_Some (rt_chans r !! i)
}.

Lemma same_topics_shape r r' : same_topics r r' → same_shape r r'.
Proof.
  intros [a1 a2 a3 a4 a5 a6 a7]. split; try done; [by rewrite a1|].
  intros i. specialize (a7 i). by destruct (rt_chans r !! i), (rt_chans r' !! i).
Qed.

#[export] Instance same_shape_preorder : PreOrder same_shape.
Proof.
  split; [by split|]. intros r1 r2 r3 [a1 a2 a3 a4 a5 a6] [b1 b2 b3 b4 b5 b6].
  split; try congruence; [by auto|]. intros i. by rewrite b6.
Qed.

Lemma report_loop_shape now cs topics acc r : same_shape r (report_loop now cs topics acc r).2.
Proof.
  revert acc r. induction topics as [|[t m] topics IH]; intros acc r; [reflexivity|]. cbn.
  destruct (report_topic _ _ _ _ _) as [pr caps]. etransitivity; [|apply IH]. by split.
Qed.

Lemma shape_insert i c r :
  is_Some (rt_chans r !! i) → same_shape r (set_chans (<[i := c]> (rt_chans r)) r).
Proof.
  intros Hi. split; try done. intros i'. cbn. destruct (decide (i = i')) as [<-|Hne].
  - by rewrite lookup_insert_eq.
  - by rewrite lookup_insert_ne.
Qed.

Lemma owner_shape i r r' t : same_shape r r' → owner i r' t ↔ owner i r t.
Proof. intros Hs. unfold owner. by rewrite (sh_loops _ _ Hs). Qed.

Lemma wf_shape r' s : same_shape (cn_router s) r' → conc_wf s → conc_wf (with_router r' s).
Proof.
  intros Hs [w1 w2 w3 w4 w5 w6 w7 w8 w9]. pose proof Hs as [a1 a2 a3 a4 a5 a6].
  split; cbn; rewrite ?a1, ?a2, ?a3, ?a4; try done.
  - intros i c Hc. assert (is_Some (rt_chans (cn_router s) !! i)) as [c' Hc'] by (apply a6; eauto). eauto.
  - intros t i Ht. destruct (w3 t i Ht). rewrite a6, (owner_shape _ _ _ _ Hs). done.
  - intros t l Ht. destruct (w4 t l Ht). split; [done|by apply a5].
  - intros l d ch Hl Hd Hch. destruct (w6 l d ch Hl Hd Hch) as (i & ? & ? & ?). exists i. by rewrite a6.
  - intros l pc Hl Hp. destruct (w7 l pc Hl Hp) as (d & i & ? & ? & ? & ?). exists d, i. by rewrite a6.
  - intros e q Hq. destruct (w8 e q Hq). by rewrite a6, (owner_shape _ _ _ _ Hs).
Qed.

Lemma wf_cs cs s : conc_wf s → conc_wf (with_cs cs s).
Proof. by intros [? ? ? ? ? ? ? ? ?]. Qed.

Lemma wf_greeting g s : conc_wf s → conc_wf (with_greeting g s).
Proof. by intros [? ? ? ? ? ? ? ? ?]. Qed.

Lemma wf_pc l pc s :
  (taking pc = true → ∃ d i, rt_loops (cn_router s) !! l = Some d ∧ dl_ch d = Some (Some i) ∧
    l = dispatcher_of i ∧ is_Some (rt_chans (cn_router s) !! i)) →
  conc_wf s → conc_wf (with_pc l pc s).
Proof.
  intros Hpc [? ? ? ? ? ? w7 ? ?]. split; try done. intros l' pc'. cbn.
  rewrite lookup_insert_Some. intros [[<- <-]|[_ ?]]; eauto.
Qed.

Lemma wf_enq e q s :
  is_Some (rt_chans (cn_router s) !! eq_ch q) → owner (eq_ch q) (cn_router s) (eq_topic q) →
  conc_wf s → conc_wf (with_enqs (<[e := q]> (cn_enqs s)) s).
Proof.
  intros Hc Ho [? ? ? ? ? ? ? w8 ?]. split; try done. intros e' q'. cbn.
  rewrite lookup_insert_Some. intros [[_ <-]|[_ ?]]; eauto.
Qed.

Lemma wf_unenq e s : conc_wf s → conc_wf (with_enqs (delete e (cn_enqs s)) s).
Proof.
  intros [? ? ? ? ? ? ? w8 ?]. split; try done. cbn. intros e' q' [_ ?]%lookup_delete_Some. eauto.
Qed.

Lemma wf_drain d s :
  (∀ d', d = Some d' → rt_dispatchCancel (cn_router s) !! draining d' = None) →
  conc_wf s → conc_wf (with_drain d s).
Proof. intros Hd [? ? ? ? ? ? ? ? ?]. by split. Qed.

Lemma wf_add now t p c s :
  cn_drain s = None → conc_wf s → conc_wf (with_router (AddConsumer now t p c (cn_router s)) s).
Proof.
  intros Hdr Hwf. destruct (rt_topicConsumers (cn_router s) !! t) as [m|] eqn:Ht.
  { rewrite (AddConsumer_old _ _ _ _ _ _ Ht). apply wf_shape; [|done]. split; try done.
    intros t' Ht'. cbn. apply lookup_insert_is_Some'. by right. }
  rewrite (AddConsumer_new _ _ _ _ _ Ht).
  destruct Hwf as [w1 w2 w3 w4 w5 w6 w7 w8 w9]. set (r := cn_router s) in *. set (n := rt_next r) in *.
  assert (rt_dispatchCancel r !! t = None) as Hnc.
  { destruct (rt_dispatchCancel r !! t) as [l|] eqn:Hl; [|done]. destruct (w4 t l Hl) as [_ [? ?]]. congruence. }
  assert (∀ i c0, is_Some (rt_chans r !! i) → is_Some (<[n := c0]> (rt_chans r) !! i)) as Hch
    by (intros i c0 ?; apply lookup_insert_is_Some'; by right).
  assert (∀ l d, rt_loops r !! l = Some d → <[S n := mkDispatcher t None false]> (rt_loops r) !! l = Some d) as Hlp.
  { intros l d Hl. rewrite lookup_insert_ne; [done|]. specialize (w2 l d Hl). unfold n. lia. }
  split; cbn.
  - intros i c0. rewrite lookup_insert_Some. intros [[<- _]|[_ Hi]]; [unfold n; lia|].
    specialize (w1 i c0 Hi). unfold n. lia.
  - intros l d. rewrite lookup_insert_Some. intros [[<- _]|[_ Hl]]; [unfold n; lia|].
    specialize (w2 l d Hl). unfold n. lia.
  - intros t' i. rewrite lookup_insert_Some. unfold owner. cbn. intros [[<- <-]|[_ Hi]].
    + split; [rewrite lookup_insert_eq; by eexists|]. unfold dispatcher_of. rewrite lookup_insert_eq. by eexists.
    + destruct (w3 t' i Hi) as [? (d & Hd & ?)]. split; [by apply Hch|]. exists d. auto.
  - intros t' l. rewrite lookup_insert_Some. intros [[<- <-]|[Hne Hl]].
    + split; [exists n; by rewrite lookup_insert_eq|]. rewrite lookup_insert_eq. by eexists.
    + destruct (w4 t' l Hl) as [(i & Hi & ->) Hs]. split; [exists i; by rewrite lookup_insert_ne|].
      apply lookup_insert_is_Some'. by right.
  - intros l d. rewrite lookup_insert_Some. intros [[<- <-]|[Hne Hl]] Hc; cbn.
    + by rewrite lookup_insert_eq.
    + specialize (w5 l d Hl Hc). rewrite lookup_insert_ne; [done|]. intros Heq. congruence.
  - intros l d ch. rewrite lookup_insert_Some. intros [[<- <-]|[Hne Hl]] Hc Hd; [done|].
    destruct (w6 l d ch Hl Hc Hd) as (i & ? & ? & ?). exists i. auto.
  - intros l pc Hl Hp. destruct (w7 l pc Hl Hp) as (d & i & ? & ? & ? & ?). exists d, i. auto.
  - intros e q Hq. destruct (w8 e q Hq) as [? (d & Hd & ?)]. split; [by apply Hch|]. exists d. auto.
  - intros d. by rewrite Hdr.
Qed.

Lemma lookup_cancel l l' d (loops : gmap loopid dispatcher) :
  loops !! l' = Some d →
  ∃ d', alter cancel_loop l loops !! l' = Some d' ∧ dl_topic d' = dl_topic d ∧ dl_ch d' = dl_ch d.
Proof.
  intros Hd. destruct (decide (l = l')) as [->|Hne].
  - rewrite lookup_alter_eq, Hd. by eexists.
  - rewrite lookup_alter_ne by done. by eexists.
Qed.

(** Cancelling a dispatcher. *)
Lemma wf_stop t s : conc_wf s → conc_wf (with_router (stopDispatcher t (cn_router s)) s).
Proof.
  intros Hwf. unfold stopDispatcher. destruct (rt_dispatchCancel (cn_router s) !! t) as [l|] eqn:Hl.
  2: { by destruct s. }
  destruct Hwf as [w1 w2 w3 w4 w5 w6 w7 w8 w9]. set (r := cn_router s) in *.
  assert (∀ i t', owner i r t' → ∃ d, alter cancel_loop l (rt_loops r) !! dispatcher_of i = Some d ∧ dl_topic d = t')
    as Ho.
  { intros i t' (d & Hd & <-). destruct (lookup_cancel l _ _ _ Hd) as (d' & ? & ? & _). by exists d'. }
  assert (∀ l' d, alter cancel_loop l (rt_loops r) !! l' = Some d → dl_cancelled d = false →
    l' ≠ l ∧ rt_loops r !! l' = Some d) as Hlive.
  { intros l' d. rewrite lookup_alter_Some. intros [(<- & d0 & _ & ->)|[Hne Hd]] Hc; [done|].
    split; [congruence|done]. }
  split; cbn; try done.
  - intros l' d. rewrite lookup_alter_Some. intros [(<- & d0 & Hd & _)|[_ Hd]]; eauto.
  - intros t' i Hi. destruct (w3 t' i Hi). split; [done|by apply Ho].
  - intros t' l'. rewrite lookup_delete_Some. intros [_ ?]. eauto.
  - intros l' d Hd Hc. destruct (Hlive l' d Hd Hc) as [Hne Hd']. specialize (w5 l' d Hd' Hc).
    rewrite lookup_delete_ne; [done|]. intros Heq. congruence.
  - intros l' d ch Hd Hc. destruct (Hlive l' d Hd Hc) as [_ Hd']. by eapply w6.
  - intros l' pc Hp Ht. destruct (w7 l' pc Hp Ht) as (d & i & Hd & Hch & ? & ?).
    destruct (lookup_cancel l _ _ _ Hd) as (d' & ? & _ & Hch'). exists d', i. by rewrite Hch'.
  - intros e q Hq. destruct (w8 e q Hq). split; [done|by apply Ho].
  - intros d Hd. apply lookup_delete_None. right. auto.
Qed.

Lemma wf_remove t id s :
  cn_drain s = None → conc_wf s → conc_wf (remove_begin t id s).
Proof.
  intros Hdr Hwf. unfold remove_begin. destruct (rt_topicConsumers (cn_router s) !! t) as [m|] eqn:Ht; [|done].
  set (r1 := set_topicConsumers _ _).
  assert (conc_wf (with_router r1 s)) as Hwf1.
  { apply wf_shape; [|done]. split; try done. intros t' Ht'. cbn. apply lookup_insert_is_Some'. by right. }
  destruct (size _ =? 0)%nat; [|done]. apply wf_drain; [|by apply (wf_stop t (with_router r1 s))].
  intros d [= <-]. cbn. unfold stopDispatcher. destruct (rt_dispatchCancel r1 !! t) eqn:Hl; [|done].
  cbn. apply lookup_delete_eq.
Qed.

Lemma wf_remove_end t s :
  rt_dispatchCancel (cn_router s) !! t = None → conc_wf s →
  conc_wf (with_router (remove_end t (cn_router s)) s).
Proof.
  intros Hc [w1 w2 w3 w4 w5 w6 w7 w8 w9]. split; cbn; try done.
  - intros t' i [_ ?]%lookup_delete_Some. by apply w3.
  - intros t' l Hl. destruct (w4 t' l Hl) as [(i & Hi & ->) Hs].
    assert (t ≠ t') by congruence. split; [exists i|]; by rewrite lookup_delete_ne.
Qed.

Lemma queue_of_Some ch r i c : queue_of ch r = Some (i, c) → ch = Some i ∧ rt_chans r !! i = Some c.
Proof.
  unfold queue_of. destruct ch as [i'|]; [|done]. destruct (rt_chans r !! i') eqn:Hc; [|done].
  by intros [= <- <-].
Qed.

Lemma drain_step_wf s s' : drain_step s = Some s' → conc_wf s → conc_wf s'.
Proof.
  intros Hs Hwf. unfold drain_step in Hs. destruct (cn_drain s) as [[t|t]|] eqn:Hd; [| |done].
  - pose proof (cw_drain _ Hwf _ Hd) as Hc. cbn in Hc.
    assert (conc_wf (with_drain None (with_router (remove_end t (cn_router s)) s))) as Hend
      by (apply wf_drain; [done|by apply wf_remove_end]).
    destruct (queue_of _ _) as [[i c]|]; [|by simplify_eq]. case_match; simplify_eq; [|done].
    apply wf_drain; [|done]. by intros d [= <-].
  - destruct (queue_of _ _) as [[i c]|] eqn:Hq; [|done]. cbn in Hs.
    destruct (recv c) as [[qj c']|]; [|done]. injection Hs as <-. apply queue_of_Some in Hq as [_ Hq].
    apply wf_drain; [intros d [= <-]; by apply (cw_drain _ Hwf _ Hd)|].
    apply wf_shape; [|done]. apply shape_insert. by eexists.
Qed.

Lemma wf_start l d s :
  rt_loops (cn_router s) !! l = Some d → dl_ch d = None → conc_wf s →
  conc_wf (with_router (set_loops (<[l := start_loop (cn_router s) d]> (rt_loops (cn_router s))) (cn_router s)) s).
Proof.
  intros Hl Hch [w1 w2 w3 w4 w5 w6 w7 w8 w9]. set (r := cn_router s) in *.
  assert (∀ i t, owner i r t → ∃ d', <[l := start_loop r d]> (rt_loops r) !! dispatcher_of i = Some d' ∧ dl_topic d' = t)
    as Ho.
  { intros i t (d' & Hd' & <-). rewrite lookup_insert. case_decide as He; [|by eexists].
    subst l. eexists. split; [done|]. cbn. congruence. }
  split; cbn; try done.
  - intros l' d'. rewrite lookup_insert_Some. intros [[<- _]|[_ ?]]; eauto.
  - intros t i Hi. destruct (w3 t i Hi). split; [done|by apply Ho].
  - intros l' d'. rewrite lookup_insert_Some. intros [[<- <-]|[_ Hd']] Hc; cbn in *; [by apply w5|eauto].
  - intros l' d' ch. rewrite lookup_insert_Some. intros [[<- <-]|[_ Hd']] Hc Hd; cbn in *; [|eauto].
    injection Hd as <-. destruct (w4 _ _ (w5 l d Hl Hc)) as [(i & Hi & ->) _]. exists i.
    split; [done|]. split; [done|]. by apply (w3 _ _ Hi).
  - intros l' pc Hp Ht. destruct (w7 l' pc Hp Ht) as (d' & i & Hd' & Hc' & ? & ?). exists d', i.
    rewrite lookup_insert_ne; [done|]. intros <-. congruence.
  - intros e q Hq. destruct (w8 e q Hq). split; [done|by apply Ho].
Qed.

Lemma enqueue_send_shape now q r q' r' qj :
  enqueue_send now q r = Some (q', r', qj) →
  same_shape r r' ∧ eq_topic q' = eq_topic q ∧ eq_ch q' = eq_ch q.
Proof.
  unfold enqueue_send. destruct (eq_jobs q) as [|j rest]; [done|].
  destruct (rt_chans r !! eq_ch q) as [c|] eqn:Hc; [|done]. cbn.
  destruct (try_send c _) as [c' [|]]; intros [= <- <- <-]; split; try done.
  apply shape_insert. by eexists.
Qed.

(** ** The flow through a queue *)

Definition buf_of (i : chanid) (r : DefaultRouter) : list queuedJob :=
  match rt_chans r !! i with Some c => ch_buf c | None => [] end.

Definition topic_of (i : chanid) (r : DefaultRouter) : string :=
  match rt_loops r !! dispatcher_of i with Some d => dl_topic d | None => "" end.

Definition accepted_on (i : chanid) (lg : conc_log) : list queuedJob :=
  omap (λ e : string * chanid * queuedJob, if decide (e.1.2 = i) then Some e.2 else None) (cl_accepted lg).
Definition sent_from (l : loopid) (lg : conc_log) : list bytes :=
  omap (λ e : option loopid * cref * bytes, if decide (e.1.1 = Some l) then Some e.2 else None) (cl_sent lg).
Definition sent_to (p : cref) (lg : conc_log) : list bytes :=
  omap (λ e : option loopid * cref * bytes, if decide (e.1.2 = p) then Some e.2 else None) (cl_sent lg).

(** What the session's handler wrote to a consumer. *)
Definition greetings (p : cref) (lg : conc_log) : list bytes :=
  omap (λ e : option loopid * cref * bytes, if decide (e.1 = (None, p)) then Some e.2 else None) (cl_sent lg).

(** The dispatchers that were there keep their topics. *)
Definition loops_grow (r r' : DefaultRouter) : Prop :=
  ∀ l d, rt_loops r !! l = Some d → ∃ d', rt_loops r' !! l = Some d' ∧ dl_topic d' = dl_topic d.

Lemma loops_same r r' : rt_loops r' = rt_loops r → loops_grow r r'.
Proof. intros Hl l d Hd. exists d. by rewrite Hl. Qed.

Lemma topic_of_grow i r r' :
  loops_grow r r' → is_Some (rt_loops r !! dispatcher_of i) → topic_of i r' = topic_of i r.
Proof.
  intros Hg [d Hd]. destruct (Hg _ _ Hd) as (d' & Hd' & Ht). unfold topic_of. by rewrite Hd, Hd'.
Qed.

Lemma owner_grow i r r' t : loops_grow r r' → owner i r t → owner i r' t.
Proof. intros Hg (d & Hd & <-). destruct (Hg _ _ Hd) as (d' & ? & ?). by exists d'. Qed.

Section Flow.
Context (marshal : ToConsumerDelivery → option bytes).

Definition queue_flow (i : chanid) (r : DefaultRouter) (lg : conc_log) : Prop :=
  ∃ gone js, accepted_on i lg = gone ++ buf_of i r ∧ js `sublist_of` gone ∧
    Forall2 (message marshal (topic_of i r)) js (sent_from (dispatcher_of i) lg).

Record conc_flow (sl : conc * conc_log) : Prop := {
  cf_queue : ∀ i, queue_flow i (cn_router sl.1) sl.2;
  cf_accepted : ∀ t i qj, (t, i, qj) ∈ cl_accepted sl.2 → owner i (cn_router sl.1) t;
  cf_sent : ∀ o p m, (o, p, m) ∈ cl_sent sl.2 → is_Some (cn_cs sl.1 !! p) ∧
    match o with
    | Some l => is_Some (rt_loops (cn_router sl.1) !! l) ∧ ∃ i, l = dispatcher_of i
    | None => m = accepted_message marshal
    end;
  cf_greeting : ∀ p, p ∈ cn_greeting sl.1 → greetings p sl.2 = [] ∧ is_Some (cn_cs sl.1 !! p);
  cf_greeted : ∀ p, (length (greetings p sl.2) ≤ 1)%nat;
  cf_consumer : ∀ p c, cn_cs sl.1 !! p = Some c →
    ∃ before, cl_before sl.2 !! p = Some before ∧ output c `sublist_of` before ++ sent_to p sl.2
}.

Lemma unsent_loop l s lg :
  conc_flow (s, lg) → rt_loops (cn_router s) !! l = None → sent_from l lg = [].
Proof.
  intros Hf Hl. apply omap_untagged, Forall_forall. intros [[l' p] m] Hin. cbn.
  apply decide_False. intros ->. destruct (cf_sent _ Hf _ _ _ Hin) as (_ & [d Hd] & _). cbn in Hd. congruence.
Qed.

Lemma ungreeted p s lg : conc_flow (s, lg) → cn_cs s !! p = None → greetings p lg = [].
Proof.
  intros Hf Hp. apply omap_untagged, Forall_forall. intros [[o q] m] Hin. cbn.
  apply decide_False. intros [= -> ->]. destruct (cf_sent _ Hf _ _ _ Hin) as ([c Hc] & _). cbn in Hc. congruence.
Qed.

Lemma queue_flow_step i s r' lg lg' more taken js ms :
  conc_flow (s, lg) → loops_grow (cn_router s) r' →
  accepted_on i lg' = accepted_on i lg ++ more →
  buf_of i (cn_router s) ++ more = taken ++ buf_of i r' →
  sent_from (dispatcher_of i) lg' = sent_from (dispatcher_of i) lg ++ ms →
  js `sublist_of` taken → Forall2 (message marshal (topic_of i r')) js ms →
  queue_flow i r' lg'.
Proof.
  intros Hf Hg Ha Hb Hs Hjs Hms. destruct (cf_queue _ Hf i) as (gone & js0 & Ha0 & Hjs0 & Hms0).
  cbn in *. exists (gone ++ taken), (js0 ++ js). split_and!.
  - by rewrite Ha, Ha0, <- !app_assoc, Hb.
  - by apply sublist_app.
  - rewrite Hs. apply Forall2_app; [|done].
    destruct (rt_loops (cn_router s) !! dispatcher_of i) as [d|] eqn:Hd.
    + by rewrite (topic_of_grow i (cn_router s) r' Hg).
    + rewrite (unsent_loop _ _ _ Hf Hd) in Hms0 |- *. apply Forall2_nil_inv_r in Hms0 as ->. constructor.
Qed.

(** Steps that accept and hand over nothing; jobs may be discarded. *)
Lemma flow_quiet s s' lg lg' :
  conc_flow (s, lg) → loops_grow (cn_router s) (cn_router s') →
  cl_accepted lg' = cl_accepted lg → cl_sent lg' = cl_sent lg →
  (∀ i, ∃ taken, buf_of i (cn_router s) = taken ++ buf_of i (cn_router s')) →
  (∀ p c, cn_cs s' !! p = Some c → ∃ before, cl_before lg' !! p = Some before ∧
    output c `sublist_of` before ++ sent_to p lg) →
  (∀ p, is_Some (cn_cs s !! p) → is_Some (cn_cs s' !! p)) →
  (∀ p, p ∈ cn_greeting s' → p ∈ cn_greeting s ∨ cn_cs s !! p = None ∧ is_Some (cn_cs s' !! p)) →
  conc_flow (s', lg').
Proof.
  intros Hf Hg Ha Hs Hb Hc Hk Hgr. pose proof Hf as [Hq Hacc Hsent Hgreet Honce _]. cbn [fst snd] in *.
  assert (∀ p, sent_to p lg' = sent_to p lg) as Hto by (intros; unfold sent_to; by rewrite Hs).
  assert (∀ p, greetings p lg' = greetings p lg) as Hgs by (intros; unfold greetings; by rewrite Hs).
  split; cbn [fst snd].
  - intros i. destruct (Hb i) as [taken Ht].
    eapply (queue_flow_step i s _ lg lg' [] taken [] []); try done.
    + unfold accepted_on. by rewrite Ha, app_nil_r.
    + by rewrite app_nil_r.
    + unfold sent_from. by rewrite Hs, app_nil_r.
    + apply sublist_nil_l.
  - intros t i qj. rewrite Ha. intros Hin. eapply owner_grow; [done|]. by eapply Hacc.
  - intros o p m. rewrite Hs. intros Hin. destruct (Hsent o p m Hin) as (? & Ho). split; [by apply Hk|].
    destruct o as [l|]; [|done]. destruct Ho as ([d Hd] & ?).
    destruct (Hg l d Hd) as (d' & Hd' & _). split; [by eexists|done].
  - intros p Hp. rewrite Hgs. destruct (Hgr p Hp) as [Hp'|[Hn ?]].
    + destruct (Hgreet p Hp'). split; [done|by apply Hk].
    + split; [by eapply ungreeted|done].
  - intros p. by rewrite Hgs.
  - by setoid_rewrite Hto.
Qed.

Lemma buf_same i r r' : rt_chans r' !! i = rt_chans r !! i → ∃ taken, buf_of i r = taken ++ buf_of i r'.
Proof. intros He. exists []. unfold buf_of. by rewrite He. Qed.

(** A new router with the same consumers. *)
Lemma flow_router r' s lg :
  conc_flow (s, lg) → loops_grow (cn_router s) r' →
  (∀ i, ∃ taken, buf_of i (cn_router s) = taken ++ buf_of i r') →
  conc_flow (with_router r' s, lg).
Proof. intros Hf Hg Hb. eapply flow_quiet; [done|done|done|done|done|apply (cf_consumer _ Hf)|done|by left]. Qed.

Lemma flow_local s s' lg :
  cn_router s' = cn_router s → cn_cs s' = cn_cs s → cn_greeting s' = cn_greeting s →
  conc_flow (s, lg) → conc_flow (s', lg).
Proof. intros Hr Hc Hg [? ? ? ? ? ?]. split; cbn in *; rewrite ?Hr, ?Hc, ?Hg; done. Qed.

Lemma flow_results s lg lg' :
  cl_accepted lg' = cl_accepted lg → cl_sent lg' = cl_sent lg → cl_before lg' = cl_before lg →
  conc_flow (s, lg) → conc_flow (s, lg').
Proof.
  intros Ha Hs Hb Hf. eapply flow_quiet; [done|by apply loops_same|done|done|by intros; apply buf_same| |done|by left].
  rewrite Hb. apply (cf_consumer _ Hf).
Qed.

Lemma flow_add now t p c s lg :
  conc_wf s → cn_cs s !! p = None → conc_flow (s, lg) →
  conc_flow (with_greeting ({[p]} ∪ cn_greeting s)
      (with_cs (<[p := c]> (cn_cs s)) (with_router (AddConsumer now t p c (cn_router s)) s)),
    mkConcLog (cl_accepted lg) (cl_sent lg) (cl_results lg) (<[p := output c]> (cl_before lg))).
Proof.
  intros Hwf Hp Hf. eapply flow_quiet; [done|..]; try done; cbn.
  - intros l d Hd. destruct (rt_topicConsumers (cn_router s) !! t) as [m|] eqn:Ht.
    + rewrite (AddConsumer_old _ _ _ _ _ _ Ht). by exists d.
    + rewrite (AddConsumer_new _ _ _ _ _ Ht). exists d. cbn. rewrite lookup_insert_ne; [done|].
      apply (cw_fresh_loop _ Hwf) in Hd. lia.
  - intros i. destruct (rt_topicConsumers (cn_router s) !! t) as [m|] eqn:Ht.
    + rewrite (AddConsumer_old _ _ _ _ _ _ Ht). by apply buf_same.
    + rewrite (AddConsumer_new _ _ _ _ _ Ht). unfold buf_of. cbn.
      destruct (decide (rt_next (cn_router s) = i)) as [<-|Hne].
      * rewrite lookup_insert_eq. eexists. by rewrite app_nil_r.
      * rewrite lookup_insert_ne by done. by exists [].
  - intros q cq. rewrite lookup_insert_Some. intros [[<- <-]|[Hne Hq]].
    + exists (output c). rewrite lookup_insert_eq. split; [done|]. by apply sublist_inserts_r.
    + rewrite lookup_insert_ne by done. by apply (cf_consumer _ Hf).
  - intros q Hq. apply lookup_insert_is_Some'. by right.
  - intros q [->%elem_of_singleton|?]%elem_of_union; [right|by left].
    split; [done|]. rewrite lookup_insert_eq. by eexists.
Qed.

(** The handler's first message. *)
Lemma flow_greet p td k k' r s lg :
  conc_flow (s, lg) → p ∈ cn_greeting s → cn_cs s !! p = Some k →
  WriteMessage td (accepted_message marshal) k = Returns (r, k') →
  conc_flow (with_greeting (cn_greeting s ∖ {[p]}) (with_cs (<[p := k']> (cn_cs s)) s),
    mkConcLog (cl_accepted lg)
      (cl_sent lg ++ (pair (None, p) <$> drop (length (ch_buf (cs_writeCh k))) (ch_buf (cs_writeCh k'))))
      (cl_results lg) (cl_before lg)).
Proof.
  intros Hf Hp Hk Hw. pose proof Hf as [Hq Hacc Hsent Hgreet Honce Hcons]. cbn [fst snd] in *.
  destruct (WriteMessage_output _ _ _ _ _ Hw) as (ms & -> & Ho & Hms).
  set (lg' := mkConcLog _ _ _ _).
  assert (∀ q, sent_to q lg' = sent_to q lg ++ if decide (p = q) then ms else []) as Hto.
  { intros q. unfold sent_to, lg'. cbn. rewrite omap_app. f_equal.
    destruct Hms as [-> | ->]; cbn; by repeat case_decide. }
  assert (∀ q, greetings q lg' = greetings q lg ++ if decide (p = q) then ms else []) as Hgs.
  { intros q. unfold greetings, lg'. cbn. rewrite omap_app. f_equal.
    destruct Hms as [-> | ->]; cbn; repeat case_decide; naive_solver. }
  split; cbn [fst snd with_greeting with_cs cn_router cn_cs cn_greeting]; try done.
  - intros i. destruct (Hq i) as (gone & js & H1 & H2 & H3). exists gone, js. split_and!; [done..|].
    assert (sent_from (dispatcher_of i) lg' = sent_from (dispatcher_of i) lg) as ->; [|done].
    unfold sent_from, lg'. cbn. rewrite omap_app, (omap_untagged _ (pair _ <$> ms)), app_nil_r; [done|].
    by apply Forall_fmap, Forall_true.
  - intros o q m. cbn. intros [Hin|Hin]%elem_of_app.
    + destruct (Hsent o q m Hin). split; [|done]. apply lookup_insert_is_Some'. by right.
    + apply list_elem_of_fmap in Hin as (m' & [= -> -> ->] & Hm'). rewrite lookup_insert_eq.
      split; [by eexists|]. destruct Hms as [-> | ->]; [by apply elem_of_nil in Hm'|].
      by apply list_elem_of_singleton in Hm'.
  - intros q [Hq' Hne%not_elem_of_singleton]%elem_of_difference. rewrite Hgs.
    destruct (Hgreet q Hq') as [-> ?]. rewrite decide_False by done. split; [done|].
    apply lookup_insert_is_Some'. by right.
  - intros q. rewrite Hgs. case_decide as He; [subst q|by rewrite app_nil_r].
    destruct (Hgreet p Hp) as [-> _]. destruct Hms as [-> | ->]; cbn; lia.
  - intros q cq. rewrite Hto, lookup_insert_Some. intros [[<- <-]|[Hne Hq']].
    + destruct (Hcons p k Hk) as (before & Hb & Hs). exists before. split; [done|].
      rewrite decide_True by done. rewrite Ho, app_assoc. by apply sublist_app.
    + rewrite decide_False by done. rewrite app_nil_r. by apply Hcons.
Qed.

Lemma flow_accept t i qj c enqs lg' s lg :
  conc_flow (s, lg) → owner i (cn_router s) t → rt_chans (cn_router s) !! i = Some c →
  cl_accepted lg' = cl_accepted lg ++ [(t, i, qj)] → cl_sent lg' = cl_sent lg → cl_before lg' = cl_before lg →
  conc_flow (with_enqs enqs (with_router (set_chans (<[i := chan_push c qj]> (rt_chans (cn_router s))) (cn_router s)) s), lg').
Proof.
  intros Hf Ho Hc Ha Hs Hb. pose proof Hf as [Hq Hacc Hsent Hgreet Honce Hcons]. cbn [fst snd] in *.
  assert (∀ p, greetings p lg' = greetings p lg) as Hgs by (intros; unfold greetings; by rewrite Hs).
  split; cbn [fst snd with_enqs with_router cn_router cn_cs cn_greeting]; try (by setoid_rewrite Hgs).
  - intros j. eapply (queue_flow_step j s _ lg lg' (if decide (i = j) then [qj] else []) [] [] []); try done.
    + by apply loops_same.
    + unfold accepted_on. rewrite Ha, omap_app. cbn. by case_decide.
    + unfold buf_of. cbn. case_decide as He.
      * subst j. by rewrite lookup_insert_eq, Hc.
      * by rewrite lookup_insert_ne, app_nil_r.
    + unfold sent_from. by rewrite Hs, app_nil_r.
  - intros t' j qj'. rewrite Ha. intros [?|Hin]%elem_of_app; [by eapply Hacc|].
    apply list_elem_of_singleton in Hin. by simplify_eq.
  - intros l p m. rewrite Hs. apply Hsent.
  - intros p k Hp. unfold sent_to. rewrite Hs, Hb. by apply Hcons.
Qed.

Lemma flow_round l p d i r' cs' pc taken sent s lg lg' :
  conc_flow (s, lg) → rt_loops (cn_router s) !! l = Some d → l = dispatcher_of i →
  rt_loops r' = rt_loops (cn_router s) → is_Some (rt_chans (cn_router s) !! i) →
  is_Some (cn_cs s !! p) →
  effect marshal (dl_topic d) i p (cn_router s, cn_cs s) (r', cs') taken sent →
  cl_accepted lg' = cl_accepted lg → cl_before lg' = cl_before lg →
  cl_sent lg' = cl_sent lg ++ (pair (Some l, p) <$> sent.*2) →
  conc_flow (with_pc l pc (with_cs cs' (with_router r' s)), lg').
Proof.
  intros Hf Hd -> Hl [c Hc] [k Hk] [e1 e2 e3 e4 e5 e6 _] Ha Hb Hs.
  pose proof Hf as [Hq Hacc Hsent Hgreet Honce Hcons]. cbn [fst snd] in *.
  destruct (e1 c Hc) as (c' & Hc' & Hbuf). destruct (e5 k Hk) as (k' & Hk' & Hconn & Hw).
  assert (loops_grow (cn_router s) r') as Hg by (by apply loops_same).
  assert (∀ q, greetings q lg' = greetings q lg) as Hgs.
  { intros q. unfold greetings. rewrite Hs, omap_app, (omap_untagged _ (pair _ <$> _)), app_nil_r; [done|].
    by apply Forall_fmap, Forall_true. }
  split; cbn [fst snd with_pc with_cs with_router cn_router cn_cs cn_greeting].
  - intros j. eapply (queue_flow_step j s r' lg lg' [] (if decide (i = j) then taken else [])
      (if decide (i = j) then sent.*1 else []) (if decide (i = j) then sent.*2 else [])); try done.
    + unfold accepted_on. by rewrite Ha, app_nil_r.
    + rewrite app_nil_r. unfold buf_of. case_decide as He; [subst j; by rewrite Hc, Hc'|].
      by rewrite e2.
    + unfold sent_from. rewrite Hs, omap_app. f_equal. case_decide as He.
      * subst j. rewrite (omap_tagged _ snd); [by rewrite <- list_fmap_compose, list_fmap_id|].
        apply Forall_fmap, Forall_true. intros x. cbn. by rewrite decide_True.
      * apply omap_untagged, Forall_fmap, Forall_true. intros x. cbn. apply decide_False.
        unfold dispatcher_of. congruence.
    + by case_decide.
    + case_decide as He; [|constructor]. subst j. unfold topic_of. rewrite Hl, Hd.
      by apply Forall2_fmap, Forall_Forall2_diag.
  - intros t j qj. rewrite Ha. intros Hin. eapply owner_grow; [done|]. by eapply Hacc.
  - intros o q m. rewrite Hs, Hl. intros [Hin|Hin]%elem_of_app.
    + destruct (Hsent o q m Hin) as (Hq' & ?). split; [|done].
      destruct (decide (q = p)) as [->|Hne]; [by eexists|by rewrite e6].
    + apply list_elem_of_fmap in Hin as (m' & [= -> -> ->] & _). split_and!; by eexists.
  - intros q Hq'. rewrite Hgs. destruct (Hgreet q Hq') as [? ?]. split; [done|].
    destruct (decide (q = p)) as [->|Hne]; [by eexists|by rewrite e6].
  - intros q. by rewrite Hgs.
  - intros q cq Hq'. unfold sent_to. rewrite Hs, Hb, omap_app.
    destruct (decide (q = p)) as [->|Hne].
    + rewrite (omap_tagged _ snd (pair (Some (dispatcher_of i), p) <$> sent.*2)).
      2: { apply Forall_fmap, Forall_true. intros x. cbn. by rewrite decide_True. }
      rewrite Hk' in Hq'. injection Hq' as <-. destruct (Hcons p k Hk) as (before & Hbf & Hsub).
      exists before. split; [done|]. rewrite <- list_fmap_compose, list_fmap_id, app_assoc.
      unfold output. rewrite Hconn, Hw, app_assoc. by apply sublist_app.
    + rewrite (omap_untagged _ (pair (Some (dispatcher_of i), p) <$> sent.*2)), app_nil_r.
      2: { apply Forall_fmap, Forall_true. intros x. cbn. by rewrite decide_False. }
      rewrite e6 in Hq' by done. by apply Hcons.
Qed.

(** ** Every step keeps the shape and the flow *)

Definition conc_ok (sl : conc * conc_log) : Prop := conc_wf sl.1 ∧ conc_flow sl.

Lemma shape_router r' s lg :
  same_shape (cn_router s) r' → (∀ i, ∃ taken, buf_of i (cn_router s) = taken ++ buf_of i r') →
  conc_ok (s, lg) → conc_ok (with_router r' s, lg).
Proof.
  intros Hs Hb [Hwf Hf]. split; [by apply wf_shape|]. apply flow_router; [done| |done].
  apply loops_same, (sh_loops _ _ Hs).
Qed.

Lemma mark_ok now t s lg :
  conc_ok (s, lg) → conc_ok (with_router (markSaturated now t (cn_router s)) s, lg).
Proof.
  apply shape_router; [apply same_topics_shape, same_topics_mark|]. intros i. apply buf_same.
  by rewrite (proj1 (markSaturated_frame now t (cn_router s))).
Qed.

Lemma remove_ok t id s lg :
  cn_drain s = None → conc_ok (s, lg) → conc_ok (remove_begin t id s, lg).
Proof.
  intros Hd [Hwf Hf]. split; [by apply wf_remove|]. unfold remove_begin.
  destruct (rt_topicConsumers (cn_router s) !! t) as [m|]; [|done]. set (r1 := set_topicConsumers _ _).
  destruct (size _ =? 0)%nat.
  - apply (flow_local (with_router (stopDispatcher t r1) s)); [done|done|done|]. apply flow_router; [done|..].
    + intros l d Hl. unfold stopDispatcher. destruct (rt_dispatchCancel r1 !! t) as [l'|]; [|by exists d]. cbn.
      destruct (lookup_cancel l' l d _ Hl) as (d' & ? & ? & _). by exists d'.
    + intros i. apply buf_same. unfold stopDispatcher. by case_match.
  - apply flow_router; [done|by apply loops_same|]. intros i. by apply buf_same.
Qed.

Lemma drain_ok s s' lg : drain_step s = Some s' → conc_ok (s, lg) → conc_ok (s', lg).
Proof.
  intros Hs [Hwf Hf]. split; [by eapply drain_step_wf|]. unfold drain_step in Hs.
  destruct (cn_drain s) as [[t|t]|]; [| |done].
  - assert (conc_flow (with_drain None (with_router (remove_end t (cn_router s)) s), lg)) as Hend.
    { eapply (flow_local (with_router (remove_end t (cn_router s)) s)); [done|done|done|].
      apply flow_router; [done|by apply loops_same|]. intros i. by apply buf_same. }
    destruct (queue_of _ _) as [[i c]|]; [|by simplify_eq]. case_match; simplify_eq; [|done].
    by apply (flow_local s).
  - destruct (queue_of _ _) as [[i c]|] eqn:Hq; [|done]. cbn in Hs.
    destruct (recv c) as [[qj c']|] eqn:Hr; [|done]. injection Hs as <-.
    apply queue_of_Some in Hq as [_ Hq]. apply recv_Some in Hr as [Hr _].
    eapply (flow_local (with_router (set_chans (<[i := c']> (rt_chans (cn_router s))) (cn_router s)) s)); [done|done|done|].
    apply flow_router; [done|by apply loops_same|]. intros j. unfold buf_of. cbn.
    destruct (decide (i = j)) as [<-|Hne].
    + rewrite lookup_insert_eq, Hq, Hr. by exists [qj].
    + rewrite lookup_insert_ne by done. by exists [].
Qed.

Lemma enqueue_send_ok e now q q' r' qj s lg :
  conc_ok (s, lg) → cn_enqs s !! e = Some q → enqueue_send now q (cn_router s) = Some (q', r', qj) →
  conc_ok (with_enqs (<[e := q']> (cn_enqs s)) (with_router r' s),
    match qj with
    | None => lg
    | Some qj => mkConcLog (cl_accepted lg ++ [(eq_topic q, eq_ch q, qj)]) (cl_sent lg) (cl_results lg) (cl_before lg)
    end).
Proof.
  intros [Hwf Hf] Hq Hs. pose proof (enqueue_send_shape _ _ _ _ _ _ Hs) as (Hsh & Ht & Hch).
  destruct (cw_enq _ Hwf e q Hq) as [Hc Ho]. split.
  - apply (wf_enq e q' (with_router r' s)); cbn.
    + rewrite Hch. by apply (sh_chans _ _ Hsh).
    + rewrite Hch, Ht. by apply (owner_shape _ _ _ _ Hsh).
    + by apply wf_shape.
  - unfold enqueue_send in Hs. destruct (eq_jobs q) as [|j rest]; [done|]. destruct Hc as [c Hc]. cbn [fst] in Hc.
    rewrite Hc in Hs. cbn in Hs. unfold try_send in Hs. destruct (chan_full c); injection Hs as <- <- <-.
    + eapply (flow_local (with_router (JobsDropped (eq_topic q) (cn_router s)) s)); [done|done|done|].
      apply flow_router; [done|by apply loops_same|]. intros i. by apply buf_same.
    + by eapply flow_accept.
Qed.

Lemma round_ok l now d ch n p r' cs' pc s lg :
  conc_ok (s, lg) → rt_loops (cn_router s) !! l = Some d → dl_ch d = Some ch →
  cn_pcs s !! l = Some (LBatch n p) →
  loop_round marshal now d ch n p (cn_router s) (cn_cs s) = Some (r', cs', pc) →
  conc_ok (with_pc l pc (with_cs cs' (with_router r' s)),
    mkConcLog (cl_accepted lg)
      (cl_sent lg ++ (pair (Some l, p) <$> drop (length (pending p (cn_cs s))) (pending p cs')))
      (cl_results lg) (cl_before lg)).
Proof.
  intros [Hwf Hf] Hd Hch Hpc Hr.
  destruct (cw_pc _ Hwf l _ Hpc eq_refl) as (d' & i & Hd' & Hch' & -> & Hi).
  cbn [fst] in *. rewrite Hd in Hd'. injection Hd' as <-. rewrite Hch in Hch'. injection Hch' as ->.
  unfold loop_round in Hr. destruct n as [|n].
  { injection Hr as <- <- <-. rewrite drop_all, fmap_nil, app_nil_r.
    split; [by apply wf_pc, wf_cs, wf_shape|]. apply (flow_results _ lg); [done..|]. by apply (flow_local s). }
  destruct (dispatch_round _ _ _ _ _ _) as [[[r1 cs1] fin]| |] eqn:Hround; [|done..]. injection Hr as <- <- <-.
  pose proof (same_topics_shape _ _ (dispatch_round_same _ _ _ _ _ _ _ _ _ _ Hround)) as Hsh.
  destruct (cn_cs s !! p) as [k|] eqn:Hk.
  2: { unfold dispatch_round in Hround. by rewrite Hk in Hround. }
  destruct (round_effect _ _ _ _ _ (cn_router s, cn_cs s) (r1, cs1) _ Hi Hround) as (taken & sent & _ & He).
  destruct (ef_consumer _ _ _ _ _ _ _ _ He k Hk) as (k' & Hk' & _ & Hw). cbn in Hk'. split.
  - apply wf_pc; [|by apply wf_cs, wf_shape]. intros _. exists d, i. cbn.
    by rewrite (sh_loops _ _ Hsh), (sh_chans _ _ Hsh).
  - eapply flow_round; [done|done|done|apply (sh_loops _ _ Hsh)|done|by eexists|done|done|done|].
    cbn. unfold pending. by rewrite Hk, Hk', Hw, drop_app_length.
Qed.

Lemma consumers_ok cs s lg :
  (∀ p c, cs !! p = Some c → ∃ c0, cn_cs s !! p = Some c0 ∧ output c `sublist_of` output c0) →
  (∀ p, is_Some (cn_cs s !! p) → is_Some (cs !! p)) →
  conc_ok (s, lg) → conc_ok (with_cs cs s, lg).
Proof.
  intros Hc Hk [Hwf Hf]. split; [by apply wf_cs|].
  eapply flow_quiet; [done|by apply loops_same|done|done|by intros; apply buf_same| |done|by left].
  intros p c Hp. destruct (Hc p c Hp) as (c0 & Hc0 & Hs).
  destruct (cf_consumer _ Hf p c0 Hc0) as (before & Hb & Hs'). exists before. split; [done|]. by etrans.
Qed.

Lemma local_ok s s' lg :
  cn_router s' = cn_router s → cn_cs s' = cn_cs s → cn_greeting s' = cn_greeting s → conc_wf s' →
  conc_ok (s, lg) → conc_ok (s', lg).
Proof. intros Hr Hc Hg Hwf [_ Hf]. split; [done|]. by apply (flow_local s). Qed.

Lemma results_ok s lg lg' :
  cl_accepted lg' = cl_accepted lg → cl_sent lg' = cl_sent lg → cl_before lg' = cl_before lg →
  conc_ok (s, lg) → conc_ok (s, lg').
Proof. intros Ha Hs Hb [Hwf Hf]. split; [done|]. by apply (flow_results s lg). Qed.

Lemma unlocked_Some s : unlocked s = Some () → cn_drain s = None.
Proof. unfold unlocked. by case_match. Qed.

(** The picked consumer changes where the dispatcher is, nothing else. *)
Lemma pick_ok l d w pc s lg :
  conc_ok (s, lg) → rt_loops (cn_router s) !! l = Some d → cn_pcs s !! l = Some (LPick w) →
  conc_ok (with_pc l pc s, lg).
Proof.
  intros Hok Hd Hpc. eapply local_ok; [..|exact Hok]; [done..|]. apply wf_pc; [|apply Hok].
  intros _. by apply (cw_pc _ (proj1 Hok) l _ Hpc).
Qed.

Lemma enqueue_ok e t jobs s sl' lg :
  conc_ok (s, lg) → conc_step marshal (CEnqueue e t jobs) (s, lg) = Some sl' → conc_ok sl'.
Proof.
  intros Hok Hs. cbn in Hs. destruct (unlocked s) as [[]|]; [|done]. cbn in Hs.
  destruct (cn_enqs s !! e); [done|]. destruct (rt_mainChans (cn_router s) !! t) as [i|] eqn:Ht; injection Hs as <-.
  - destruct (cw_main _ (proj1 Hok) t i Ht). apply (local_ok s); [done..| |done].
    apply wf_enq; [done..|apply Hok].
  - by apply (results_ok s lg).
Qed.

Lemma enqueue_mark_ok e now s sl' lg :
  conc_ok (s, lg) → conc_step marshal (CEnqueueMark e now) (s, lg) = Some sl' → conc_ok sl'.
Proof.
  intros Hok Hs. cbn in Hs. destruct (unlocked s) as [[]|]; [|done]. cbn in Hs.
  destruct (cn_enqs s !! e) as [q|] eqn:Hq; [|done]. cbn in Hs. destruct (eq_mark q); [|done]. injection Hs as <-.
  apply (mark_ok now (eq_topic q)) in Hok. destruct (cw_enq _ (proj1 Hok) e q Hq) as [Hc Ho].
  eapply local_ok; [..|exact Hok]; [done..|]. apply (wf_enq e _ (with_router _ s)); [done..|apply Hok].
Qed.

Lemma enqueue_end_ok e now s sl' lg :
  conc_ok (s, lg) → conc_step marshal (CEnqueueEnd e now) (s, lg) = Some sl' → conc_ok sl'.
Proof.
  intros Hok Hs. cbn in Hs. destruct (cn_enqs s !! e) as [q|] eqn:Hq; [|done]. cbn in Hs.
  destruct (eq_jobs q); [|done]. destruct (eq_mark q); [done|].
  assert (conc_ok (with_enqs (delete e (cn_enqs s)) s, lg)) as Hok1.
  { apply (local_ok s); [done..|by apply wf_unenq, Hok|done]. }
  destruct (0 <? eq_rejected q).
  - destruct (unlocked _) as [[]|]; [|done]. injection Hs as <-.
    pose proof (mark_ok now (eq_topic q) _ _ Hok1) as Hm. eapply results_ok; [..|exact Hm]; done.
  - injection Hs as <-. by apply (results_ok (with_enqs (delete e (cn_enqs s)) s) lg).
Qed.

Lemma loop_check_ok l d s lg :
  conc_ok (s, lg) → rt_loops (cn_router s) !! l = Some d → is_Some (dl_ch d) →
  conc_ok (with_pc l (if dl_cancelled d then LDone else LPick false) s, lg).
Proof.
  intros Hok Hd [ch Hch]. apply (local_ok s); [done..| |done]. apply wf_pc; [|apply Hok].
  destruct (dl_cancelled d) eqn:Hc; [done|]. intros _.
  destruct (cw_ch _ (proj1 Hok) l d ch Hd Hc Hch) as (i & -> & -> & Hi). by exists d, i.
Qed.

Lemma alter_ok (f : Consumer → Consumer) p s lg :
  (∀ c, output (f c) = output c) → conc_ok (s, lg) → conc_ok (with_cs (alter f p (cn_cs s)) s, lg).
Proof.
  intros Hf. apply consumers_ok.
  - intros q c [(<- & c0 & Hc0 & ->)|[_ Hc]]%lookup_alter_Some; [|by exists c].
    exists c0. by rewrite Hf.
  - intros q Hq. by rewrite lookup_alter_is_Some.
Qed.

Lemma write_ok p ctx_done take_ctx ok c st c' s lg :
  cn_cs s !! p = Some c → StartWriteLoop_step ctx_done take_ctx ok c = Some (st, c') →
  conc_ok (s, lg) → conc_ok (with_cs (<[p := c']> (cn_cs s)) s, lg).
Proof.
  intros Hp Hw. apply consumers_ok.
  - intros q k [[<- <-]|[_ Hk]]%lookup_insert_Some; [|by exists k]. exists c.
    split; [done|by eapply write_output].
  - intros q Hq. apply lookup_insert_is_Some'. by right.
Qed.

Lemma loop_start_ok l d s lg :
  conc_ok (s, lg) → rt_loops (cn_router s) !! l = Some d → dl_ch d = None →
  conc_ok (with_pc l LCheck
    (with_router (set_loops (<[l := start_loop (cn_router s) d]> (rt_loops (cn_router s))) (cn_router s)) s), lg).
Proof.
  intros [Hwf Hf] Hd Hch. split; [by apply wf_pc, (wf_start l d)|].
  eapply (flow_local (with_router (set_loops _ _) s)); [done..|]. apply flow_router; [done| |by intros; apply buf_same].
  intros l' d' Hd'. cbn. rewrite lookup_insert. case_decide as He; [|by eexists].
  subst l'. rewrite Hd in Hd'. injection Hd' as <-. by eexists.
Qed.

Lemma conc_step_ok e sl sl' : conc_ok sl → conc_step marshal e sl = Some sl' → conc_ok sl'.
Proof.
  destruct sl as [s lg]. intros Hok Hs. destruct e as [now t p c|p td|p|t id| |now|p n|e t jobs|e now|e now|e now|
    l|l|l order|l|l now|p ctx_done take_ctx ok]; try (by eapply enqueue_ok); try (by eapply enqueue_mark_ok);
    try (by eapply enqueue_end_ok); cbn in Hs.
  - destruct (unlocked s) as [[]|] eqn:Hu; [|done]. cbn in Hs. destruct (cn_cs s !! p) eqn:Hp; [done|].
    injection Hs as <-. apply unlocked_Some in Hu. destruct Hok as [Hwf Hf].
    split; [by apply wf_greeting, wf_cs, wf_add|by apply flow_add].
  - destruct (decide (p ∈ cn_greeting s)) as [Hg|]; [|done]. destruct (cn_cs s !! p) as [k|] eqn:Hp; [|done].
    cbn in Hs. destruct (WriteMessage _ _ k) as [[w k']| |] eqn:Hw; [|done..]. injection Hs as <-.
    destruct Hok as [Hwf Hf]. split; [by apply wf_greeting, wf_cs|by eapply flow_greet].
  - injection Hs as <-. apply alter_ok; [|done]. intros c. apply Close_output.
  - destruct (unlocked s) as [[]|] eqn:Hu; [|done]. injection Hs as <-. apply remove_ok; [by apply unlocked_Some|done].
  - destruct (drain_step s) as [s'|] eqn:Hd; [|done]. injection Hs as <-. by eapply drain_ok.
  - destruct (unlocked s) as [[]|]; [|done]. injection Hs as <-.
    apply shape_router; [apply report_loop_shape| |done]. intros i. apply buf_same.
    unfold BuildHeartbeatReport. by rewrite (proj1 (report_loop_frame _ _ _ _ _)).
  - injection Hs as <-. apply alter_ok; [|done]. intros c. apply ack_output.
  - destruct (cn_enqs s !! e) as [q|] eqn:Hq; [|done]. cbn in Hs. destruct (eq_mark q); [done|].
    destruct (enqueue_send _ _ _) as [[[q' r'] qj]|] eqn:He; [|done]. injection Hs as <-.
    by eapply (enqueue_send_ok e now q).
  - destruct (rt_loops _ !! l) as [d|] eqn:Hd; [|done]. cbn in Hs. destruct (dl_ch d) eqn:Hch; [done|].
    injection Hs as <-. by apply loop_start_ok.
  - destruct (rt_loops _ !! l) as [d|] eqn:Hd; [|done]. cbn in Hs. destruct (dl_ch d) as [ch|] eqn:Hch; [|done].
    cbn in Hs. destruct (cn_pcs s !! l) as [[| | |]|]; try done. injection Hs as <-.
    apply (loop_check_ok l d); [done..|by eexists].
  - destruct (unlocked s) as [[]|]; [|done]. cbn in Hs. destruct (rt_loops _ !! l) as [d|] eqn:Hd; [|done]. cbn in Hs.
    destruct (cn_pcs s !! l) as [[|w| |]|] eqn:Hpc; try done. destruct (loop_pick _ _ _) as [pc|]; [|done].
    injection Hs as <-. by apply (pick_ok l d w).
  - destruct (rt_loops _ !! l) as [d|] eqn:Hd; [|done]. cbn in Hs.
    destruct (cn_pcs s !! l) as [[|[]| |]|] eqn:Hpc; try done. destruct (dl_cancelled d); [|done].
    injection Hs as <-. by apply (pick_ok l d true).
  - destruct (rt_loops _ !! l) as [d|] eqn:Hd; [|done]. cbn in Hs. destruct (dl_ch d) as [ch|] eqn:Hch; [|done].
    cbn in Hs. destruct (cn_pcs s !! l) as [[| |n p|]|] eqn:Hpc; try done.
    destruct (loop_round _ _ _ _ _ _ _ _) as [[[r' cs'] pc]|] eqn:Hr; [|done]. injection Hs as <-.
    by eapply round_ok.
  - destruct (cn_cs s !! p) as [c|] eqn:Hp; [|done]. cbn in Hs.
    destruct (StartWriteLoop_step _ _ _ c) as [[st c']|] eqn:Hw; [|done]. injection Hs as <-.
    by eapply write_ok.
Qed.

Lemma conc_init_ok : conc_ok conc_init.
Proof.
  split; [by split|]. split; [|cbn; intros ??? Hin; by apply elem_of_nil in Hin..|done|cbn; lia|done].
  intros i. exists [], []. split_and!; [done..|constructor].
Qed.

Lemma reachable_ok evs sl : run (conc_step marshal) evs conc_init = Some sl → conc_ok sl.
Proof. apply run_invariant; [|apply conc_init_ok]. intros e s1 s2 Hok Hs. by eapply conc_step_ok. Qed.

(** C4: Deliveries come from the queues, in order and never twice, however the
    calls, the dispatchers, the sessions and the write loops interleave. For every
    queue: the jobs accepted on it are those that left it followed by those still
    in it, they all belong to the queue's topic, and the messages its dispatcher
    handed out are, one for one and in order, deliveries of some of the jobs that
    left. Every message handed to a consumer comes from the dispatcher of a queue
    or is the one "accepted" its session writes, at most once, before or after the
    first deliveries. What a consumer's connection was given or has waiting is, in
    order, part of what was there when it was registered followed by the messages
    handed to it. *)
Theorem deliveries_in_order evs s lg :
  run (conc_step marshal) evs conc_init = Some (s, lg) →
  (∀ i, ∃ gone js, accepted_on i lg = gone ++ buf_of i (cn_router s) ∧ js `sublist_of` gone ∧
    Forall2 (message marshal (topic_of i (cn_router s))) js (sent_from (dispatcher_of i) lg)) ∧
  (∀ t i qj, (t, i, qj) ∈ cl_accepted lg → topic_of i (cn_router s) = t) ∧
  (∀ o p m, (o, p, m) ∈ cl_sent lg →
    (∃ i, o = Some (dispatcher_of i)) ∨ o = None ∧ m = accepted_message marshal) ∧
  (∀ p, (length (greetings p lg) ≤ 1)%nat) ∧
  (∀ p c, cn_cs s !! p = Some c → ∃ before, cl_before lg !! p = Some before ∧
    output c `sublist_of` before ++ sent_to p lg).
Proof.
  intros Hr%reachable_ok. destruct Hr as [_ [Hq Ha Hs _ Hg Hc]]. split_and!; [exact Hq| | |exact Hg|exact Hc].
  - intros t i qj Hin. destruct (Ha t i qj Hin) as (d & Hd & Ht). unfold topic_of. cbn [fst] in Hd. by rewrite Hd.
  - intros o p m Hin. destruct (Hs o p m Hin) as (_ & Ho). destruct o as [l|]; [left|by right].
    destruct Ho as (_ & i & ->). by exists i.
Qed.

End Flow.

(** ** A concrete run *)

Module ConcExample.

(** The delivery's sequence number, then the job's data. *)
Definition encode (d : ToConsumerDelivery) : option bytes := Some (td_SeqID d :: td_Data d).

Definition job (id : string) (data : bytes) : option Job := Some (mkJob id "t" data).

Definition carol : Consumer := NewConsumer "carol" "u1" "t" (Some (mkConn [] false)) 10.

(** A consumer connects and its dispatcher looks for work; one job is in when
    the dispatcher begins its batch, the second arrives during the batch; the
    session writes its "accepted" between the two deliveries. *)
Definition events : list conc_event :=
  [CAdd 0 "t" 0%nat carol; CLoopStart 1%nat; CEnqueue 0%nat "t" [job "a" [10]; job "b" [20]];
   CEnqueueSend 0%nat 0; CLoopCheck 1%nat; CLoopPick 1%nat [0%nat]; CLoopRound 1%nat 0;
   CGreet 0%nat false; CEnqueueSend 0%nat 0; CLoopRound 1%nat 0; CEnqueueEnd 0%nat 0;
   CWrite 0%nat false false true].

End ConcExample.
Import ConcExample.

Theorem deliveries_in_order_witness :
  ∃ s lg, run (conc_step encode) events conc_init = Some (s, lg) ∧
    accepted_on 0 lg = [mkQueued (job "a" [10]) 0; mkQueued (job "b" [20]) 0] ∧
    sent_from 1 lg = [[1; 10]; [2; 20]] ∧ sent_to 0%nat lg = [[1; 10]; [0]; [2; 20]] ∧
    ∃ js, js `sublist_of` accepted_on 0 lg ∧
      Forall2 (message encode (topic_of 0 (cn_router s))) js (sent_from 1 lg).
Proof.
  destruct (run (conc_step encode) events conc_init) as [[s lg]|] eqn:Hr; [|by vm_compute in Hr].
  assert (Some (accepted_on 0 lg, sent_from 1 lg, sent_to 0%nat lg) =
    Some ([mkQueued (job "a" [10]) 0; mkQueued (job "b" [20]) 0], [[1; 10]; [2; 20]], [[1; 10]; [0]; [2; 20]])) as He.
  { transitivity ((λ sl : conc * conc_log, (accepted_on 0 sl.2, sent_from 1 sl.2, sent_to 0%nat sl.2)) <$>
      run (conc_step encode) events conc_init); [by rewrite Hr|]. vm_compute. reflexivity. }
  injection He as Ha Hs Ht. exists s, lg. split_and!; [reflexivity|exact Ha|exact Hs|exact Ht|].
  destruct (deliveries_in_order encode events s lg Hr) as [Hq _].
  destruct (Hq 0%nat) as (gone & js & Hg & Hj & Hf). exists js. split; [|exact Hf].
  rewrite Hg. etrans; [exact Hj|]. apply sublist_inserts_r. reflexivity.
Defined.
