(* ===== verification/RouterRaces.v ===== *)
(** * Executions of the router that calls alone do not show (internal/api/router.go)

    On the statements of [RouterConc]: what the drain of RemoveConsumer and the
    send of EnqueueJobs, which hold the lock too long and not at all, can do to
    each other and to a dispatcher. *)

From S2P Require Import Prelude GoRuntime Messages Consumer Router Delivery RouterConc.

Local Open Scope Z_scope.

Section Races.
Context (marshal : ToConsumerDelivery → option bytes).

(** ** The drain that waits for ever *)

(** RemoveConsumer saw the last job of the queue, and the dispatcher took it. *)
Record drain_stuck (t : string) (i : chanid) (s : conc) : Prop := {
  ds_drain : cn_drain s = Some (DrainRecv t);
  ds_enqs : cn_enqs s = ∅;
  ds_main : rt_mainChans (cn_router s) !! t = Some i;
  ds_queue : ∃ c, rt_chans (cn_router s) !! i = Some c ∧ ch_buf c = []
}.

Lemma round_empty now t ch p r cs r' cs' fin i c :
  dispatch_round marshal now t ch p (r, cs) = Returns (r', cs', fin) →
  rt_chans r !! i = Some c → ch_buf c = [] → ∃ c', rt_chans r' !! i = Some c' ∧ ch_buf c' = [].
Proof.
  intros Hr Hi Hb. destruct (queue_of ch r) as [[j k]|] eqn:Hq.
  2: { destruct (dispatch_round_nil_queue _ _ _ _ _ _ _ _ _ _ Hq Hr) as (-> & _). by exists c. }
  apply queue_of_Some in Hq as [-> Hj].
  destruct (round_effect marshal _ _ _ _ (r, cs) (r', cs') _ ltac:(by exists k) Hr) as (taken & sent & _ & He).
  destruct (decide (i = j)) as [->|Hne].
  - destruct (ef_queue _ _ _ _ _ _ _ _ He c Hi) as (c' & Hc' & Hbuf). exists c'. split; [done|].
    rewrite Hb in Hbuf. symmetry in Hbuf. by apply app_eq_nil in Hbuf as [_ ?].
  - exists c. split; [|done]. rewrite <- Hi. by apply (ef_queues _ _ _ _ _ _ _ _ He).
Qed.

Lemma drain_stuck_step t i e s lg s' lg' :
  drain_stuck t i s → conc_step marshal e (s, lg) = Some (s', lg') → drain_stuck t i s'.
Proof.
  intros [Hd He Hm (c & Hc & Hb)] Hs.
  assert (unlocked s = None) as Hu by (unfold unlocked; by rewrite Hd).
  destruct e; cbn in Hs; rewrite ?Hu, ?He in Hs; try done.
  - destruct (decide _); [|done]. destruct (cn_cs s !! p) as [k|]; [|done]. cbn in Hs.
    destruct (WriteMessage _ _ _) as [[w k']| |]; [|done..]. simplify_eq. split; try done. by exists c.
  - simplify_eq. split; try done. by exists c.
  - unfold drain_step in Hs. rewrite Hd, Hm in Hs. cbn in Hs. rewrite Hc in Hs. cbn in Hs.
    unfold recv in Hs. by rewrite Hb in Hs.
  - simplify_eq. split; try done. by exists c.
  - destruct (rt_loops _ !! _) as [d|]; [|done]. cbn in Hs. destruct (dl_ch d); [done|].
    simplify_eq. split; try done. by exists c.
  - destruct (rt_loops _ !! _) as [d|]; [|done]. cbn in Hs. destruct (dl_ch d); [|done]. cbn in Hs.
    destruct (cn_pcs s !! _) as [[| | |]|]; simplify_eq. split; try done. by exists c.
  - destruct (rt_loops _ !! _) as [d|]; [|done]. cbn in Hs.
    destruct (cn_pcs s !! _) as [[|[]| |]|]; try done. case_match; simplify_eq. split; try done. by exists c.
  - destruct (rt_loops _ !! _) as [d|]; [|done]. cbn in Hs. destruct (dl_ch d) as [ch|]; [|done]. cbn in Hs.
    destruct (cn_pcs s !! _) as [[| |n p|]|]; try done.
    destruct (loop_round _ _ _ _ _ _ _ _) as [[[r1 cs1] pc]|] eqn:Hr; [|done]. cbn in Hs. injection Hs as <- <-.
    unfold loop_round in Hr. destruct n as [|n]; [injection Hr as <- <- <-; split; cbn; [done..|by exists c]|].
    destruct (dispatch_round _ _ _ _ _ _) as [[[r2 cs2] fin]| |] eqn:Hround; [|done..]. injection Hr as <- <- <-.
    split; cbn; try done.
    + by rewrite (st_chans _ _ (dispatch_round_same _ _ _ _ _ _ _ _ _ _ Hround)).
    + by eapply round_empty.
  - destruct (cn_cs s !! p) as [k|]; [|done]. cbn in Hs.
    destruct (StartWriteLoop_step _ _ _ _) as [[st k']|]; [|done]. cbn in Hs. injection Hs as <- <-. split; cbn; [done..|by exists c].
Qed.

(** C21: The removal of a topic's last consumer can hold the router's lock for
    ever. Once the drain of RemoveConsumer waits at its receive for a job the
    dispatcher took meanwhile, and no EnqueueJobs is past its lookup, it waits in
    every continuation: the lock is never free again, so no consumer is added or
    removed, no report is built and no dispatcher picks a consumer. *)
Theorem drain_waits_for_ever t i s lg evs s' lg' :
  drain_stuck t i s → run (conc_step marshal) evs (s, lg) = Some (s', lg') →
  unlocked s' = None ∧
  ∀ now p c id order n, conc_step marshal (CAdd now t p c) (s', lg') = None ∧
    conc_step marshal (CRemove t id) (s', lg') = None ∧ conc_step marshal (CReport now) (s', lg') = None ∧
    conc_step marshal (CLoopPick n order) (s', lg') = None.
Proof.
  intros Hd Hr. assert (drain_stuck t i s') as [Hdr _ _ _].
  { apply (run_invariant (conc_step marshal) (λ sl, drain_stuck t i sl.1)) in Hr; [done| |done].
    intros e [s1 lg1] [s2 lg2] H1 H2. by eapply drain_stuck_step. }
  assert (unlocked s' = None) as Hu by (unfold unlocked; by rewrite Hdr).
  split; [done|]. intros now p c id order n. cbn. by rewrite Hu.
Qed.

(** ** The queue that is no longer a topic's *)

(** Its topic was removed: no topic has it, its dispatcher is cancelled and is
    not in a batch. *)
Record retired (i : chanid) (s : conc) : Prop := {
  rq_main : ∀ t, rt_mainChans (cn_router s) !! t ≠ Some i;
  rq_chan : is_Some (rt_chans (cn_router s) !! i);
  rq_loop : ∃ d, rt_loops (cn_router s) !! dispatcher_of i = Some d ∧ dl_cancelled d = true;
  rq_pc : ∀ pc, cn_pcs s !! dispatcher_of i = Some pc → taking pc = false
}.

(** Between two states of a run: what the queue took in stays in it. *)
Definition swallowed (i : chanid) (sl sl' : conc * conc_log) : Prop :=
  sent_from (dispatcher_of i) sl'.2 = sent_from (dispatcher_of i) sl.2 ∧
  ∃ more, accepted_on i sl'.2 = accepted_on i sl.2 ++ more ∧
    buf_of i (cn_router sl'.1) = buf_of i (cn_router sl.1) ++ more.

Lemma swallowed_trans i sl1 sl2 sl3 : swallowed i sl1 sl2 → swallowed i sl2 sl3 → swallowed i sl1 sl3.
Proof.
  intros [Hs1 (m1 & Ha1 & Hb1)] [Hs2 (m2 & Ha2 & Hb2)]. split; [by rewrite Hs2|].
  exists (m1 ++ m2). by rewrite Ha2, Ha1, Hb2, Hb1, !app_assoc.
Qed.

Lemma swallowed_quiet i s lg s' lg' :
  rt_chans (cn_router s') !! i = rt_chans (cn_router s) !! i →
  cl_accepted lg' = cl_accepted lg → sent_from (dispatcher_of i) lg' = sent_from (dispatcher_of i) lg →
  swallowed i (s, lg) (s', lg').
Proof.
  intros Hc Ha Hs. split; [done|]. exists []. unfold accepted_on, buf_of. cbn. by rewrite Hc, Ha, !app_nil_r.
Qed.

(** A step on the router and the dispatchers' places that keeps the queue out. *)
Lemma retired_keep i s s' :
  retired i s →
  (∀ t, rt_mainChans (cn_router s') !! t = Some i → rt_mainChans (cn_router s) !! t = Some i) →
  is_Some (rt_chans (cn_router s') !! i) →
  (∀ d, rt_loops (cn_router s) !! dispatcher_of i = Some d → dl_cancelled d = true →
    ∃ d', rt_loops (cn_router s') !! dispatcher_of i = Some d' ∧ dl_cancelled d' = true) →
  (∀ pc, cn_pcs s' !! dispatcher_of i = Some pc → taking pc = true → cn_pcs s !! dispatcher_of i = Some pc) →
  retired i s'.
Proof.
  intros [r1 r2 (d & Hd & Hx) r4] Hm Hc Hl Hp. split; [|done|by eapply Hl|].
  - intros t Ht%Hm. by eapply r1.
  - intros pc Hpc. destruct (taking pc) eqn:Ht; [|done]. rewrite <- Ht. by apply r4, Hp.
Qed.

Lemma retired_shape i s s' :
  retired i s → same_shape (cn_router s) (cn_router s') → cn_pcs s' = cn_pcs s → retired i s'.
Proof.
  intros Hr [a1 _ a3 _ _ a6] Hp. eapply retired_keep; [done|..]; rewrite ?a1, ?a3, ?Hp; try done; [|by eauto].
  apply a6, Hr.
Qed.

Lemma retired_add i now t p c s :
  conc_wf s → retired i s → retired i (with_router (AddConsumer now t p c (cn_router s)) s) ∧
  rt_chans (AddConsumer now t p c (cn_router s)) !! i = rt_chans (cn_router s) !! i.
Proof.
  intros Hwf Hr. pose proof Hr as [_ [k Hk] _ _]. apply (cw_fresh_chan _ Hwf) in Hk as Hlt.
  destruct (rt_topicConsumers (cn_router s) !! t) as [m|] eqn:Ht.
  { rewrite (AddConsumer_old _ _ _ _ _ _ Ht). split; [|done].
    eapply retired_keep; [done|done|by eexists|by eauto|done]. }
  rewrite (AddConsumer_new _ _ _ _ _ Ht).
  assert (rt_next (cn_router s) ≠ i) as Hne by lia. split; [|by apply lookup_insert_ne].
  eapply retired_keep; [done|..]; cbn.
  - intros t'. rewrite lookup_insert_Some. intros [[_ ?]|[_ ?]]; done.
  - rewrite lookup_insert_ne by done. by eexists.
  - intros d Hd Hx. exists d. rewrite lookup_insert_ne; [done|]. unfold dispatcher_of. lia.
  - done.
Qed.

Lemma retired_remove i t id s :
  retired i s → retired i (remove_begin t id s) ∧
  rt_chans (cn_router (remove_begin t id s)) = rt_chans (cn_router s).
Proof.
  intros Hr. unfold remove_begin. destruct (rt_topicConsumers (cn_router s) !! t) as [m|]; [|done].
  set (r1 := set_topicConsumers _ _). pose proof Hr as [_ Hc _ _].
  destruct (size _ =? 0)%nat; [|split; [|done]; eapply retired_keep; [done|done|done|by eauto|done]].
  assert (rt_chans (stopDispatcher t r1) = rt_chans (cn_router s) ∧
    rt_mainChans (stopDispatcher t r1) = rt_mainChans (cn_router s)) as [Hch Hma]
    by (unfold stopDispatcher; by case_match).
  split; [|done]. eapply retired_keep; [done|..]; cbn; rewrite ?Hch, ?Hma; try done.
  intros d Hd Hx. unfold stopDispatcher. destruct (rt_dispatchCancel r1 !! t) as [l|]; [cbn|by exists d].
  destruct (decide (l = dispatcher_of i)) as [->|Hne].
  - rewrite lookup_alter_eq, Hd. by eexists.
  - rewrite lookup_alter_ne by done. by exists d.
Qed.

Lemma retired_drain i s s' :
  retired i s → drain_step s = Some s' →
  retired i s' ∧ rt_chans (cn_router s') !! i = rt_chans (cn_router s) !! i.
Proof.
  intros Hr Hs. pose proof Hr as [Hm Hc _ _]. unfold drain_step in Hs.
  destruct (cn_drain s) as [[t|t]|]; [| |done].
  - assert (retired i (with_drain None (with_router (remove_end t (cn_router s)) s))) as Hend.
    { eapply retired_keep; [done| |done|by eauto|done]. cbn. by intros t' [_ ?]%lookup_delete_Some. }
    destruct (queue_of _ _) as [[j c]|]; [|by simplify_eq]. case_match; simplify_eq; [|done].
    split; [|done]. apply (retired_keep i s); [done|done|done|by eauto|done].
  - destruct (queue_of _ _) as [[j c]|] eqn:Hq; [|done]. cbn in Hs.
    destruct (recv c) as [[qj c']|]; [|done]. injection Hs as <-. apply queue_of_Some in Hq as [Ht Hq].
    assert (j ≠ i) as Hne by (intros ->; by eapply Hm). cbn. rewrite lookup_insert_ne by done.
    split; [|done]. eapply retired_keep; [done|done| |by eauto|done]. cbn. by rewrite lookup_insert_ne.
Qed.

Lemma retired_enqueue i e now q q' r' qj s lg :
  retired i s → enqueue_send now q (cn_router s) = Some (q', r', qj) →
  swallowed i (s, lg) (with_enqs (<[e := q']> (cn_enqs s)) (with_router r' s),
    match qj with
    | None => lg
    | Some qj => mkConcLog (cl_accepted lg ++ [(eq_topic q, eq_ch q, qj)]) (cl_sent lg) (cl_results lg) (cl_before lg)
    end).
Proof.
  intros Hr Hs. unfold enqueue_send in Hs. destruct (eq_jobs q) as [|j rest]; [done|].
  destruct (rt_chans (cn_router s) !! eq_ch q) as [c|] eqn:Hc; [|done]. cbn in Hs.
  unfold try_send in Hs. destruct (chan_full c); injection Hs as <- <- <-; [by apply swallowed_quiet|].
  split; [done|]. unfold accepted_on, buf_of. cbn. rewrite omap_app. cbn.
  destruct (decide (eq_ch q = i)) as [<-|Hne].
  - exists [mkQueued j now]. by rewrite lookup_insert_eq, Hc.
  - exists []. by rewrite lookup_insert_ne, !app_nil_r.
Qed.

(** A dispatcher's round does not reach a queue that is not its own. *)
Lemma retired_round i l now d ch n p r' cs' pc s lg :
  conc_wf s → retired i s → rt_loops (cn_router s) !! l = Some d → dl_ch d = Some ch →
  cn_pcs s !! l = Some (LBatch n p) →
  loop_round marshal now d ch n p (cn_router s) (cn_cs s) = Some (r', cs', pc) →
  retired i (with_pc l pc (with_cs cs' (with_router r' s))) ∧
  swallowed i (s, lg) (with_pc l pc (with_cs cs' (with_router r' s)),
    mkConcLog (cl_accepted lg)
      (cl_sent lg ++ (pair (Some l, p) <$> drop (length (pending p (cn_cs s))) (pending p cs')))
      (cl_results lg) (cl_before lg)).
Proof.
  intros Hwf Hr Hd Hch Hpc Hround.
  destruct (cw_pc _ Hwf l _ Hpc eq_refl) as (d' & j & Hd' & Hch' & -> & Hj).
  rewrite Hd in Hd'. injection Hd' as <-. rewrite Hch in Hch'. injection Hch' as ->.
  assert (j ≠ i) as Hne by (intros ->; by apply (rq_pc _ _ Hr) in Hpc).
  assert (same_shape (cn_router s) r' ∧ rt_chans r' !! i = rt_chans (cn_router s) !! i) as [Hsh Hi].
  { unfold loop_round in Hround. destruct n as [|n]; [by injection Hround as <- <- <-|].
    destruct (dispatch_round _ _ _ _ _ _) as [[[r1 cs1] fin]| |] eqn:He; [|done..]. injection Hround as <- <- <-.
    split; [by eapply same_topics_shape, dispatch_round_same|].
    destruct (round_effect marshal _ _ _ _ (cn_router s, cn_cs s) (r1, cs1) _ Hj He) as (taken & sent & _ & Hef).
    by apply (ef_queues _ _ _ _ _ _ _ _ Hef). }
  split.
  - apply (retired_keep i (with_router r' s)); [|done|by apply (sh_chans _ _ Hsh), Hr|by eauto|].
    + by apply (retired_shape i s).
    + cbn. intros pc' [[? _]|[_ ?]]%lookup_insert_Some; [|done]. unfold dispatcher_of in *. congruence.
  - apply swallowed_quiet; [done|done|]. unfold sent_from. cbn. rewrite omap_app.
    rewrite (omap_untagged _ (pair _ <$> _)), app_nil_r; [done|]. apply Forall_fmap, Forall_true.
    intros x. cbn. apply decide_False. unfold dispatcher_of. congruence.
Qed.

Lemma retired_with_router i s lg r' :
  retired i s → same_shape (cn_router s) r' → rt_chans r' !! i = rt_chans (cn_router s) !! i →
  retired i (with_router r' s) ∧ swallowed i (s, lg) (with_router r' s, lg).
Proof. intros. split; [by apply (retired_shape i s)|by apply swallowed_quiet]. Qed.

Lemma retired_mark i s lg now t :
  retired i s →
  retired i (with_router (markSaturated now t (cn_router s)) s) ∧
  swallowed i (s, lg) (with_router (markSaturated now t (cn_router s)) s, lg).
Proof.
  intros Hr. apply retired_with_router; [done|apply same_topics_shape, same_topics_mark|].
  by rewrite (proj1 (markSaturated_frame _ _ _)).
Qed.

Definition enqueue_event (e : conc_event) : bool :=
  match e with CEnqueue _ _ _ | CEnqueueSend _ _ | CEnqueueMark _ _ | CEnqueueEnd _ _ => true | _ => false end.

Definition loop_event (e : conc_event) : bool :=
  match e with
  | CLoopStart _ | CLoopCheck _ | CLoopPick _ _ | CLoopExit _ | CLoopRound _ _ => true
  | _ => false
  end.

Lemma retired_enqueue_step i e s lg s' lg' :
  enqueue_event e = true → retired i s → conc_step marshal e (s, lg) = Some (s', lg') →
  retired i s' ∧ swallowed i (s, lg) (s', lg').
Proof.
  intros Hev Hr Hs. destruct e as [| | | | | | |e t jobs|e now|e now|e now| | | | | |]; try done; clear Hev; cbn in Hs.
  - destruct (unlocked s); [|done]. cbn in Hs. destruct (cn_enqs s !! e); [done|].
    destruct (rt_mainChans _ !! t); injection Hs as <- <-; (split; [by apply (retired_shape i s)|by apply swallowed_quiet]).
  - destruct (cn_enqs s !! e) as [q|] eqn:Hq; [|done]. cbn in Hs. destruct (eq_mark q); [done|].
    destruct (enqueue_send _ _ _) as [[[q' r'] qj]|] eqn:He; [|done]. injection Hs as <- <-.
    split; [|by eapply retired_enqueue]. apply (retired_shape i s); [done| |done].
    by destruct (enqueue_send_shape _ _ _ _ _ _ He).
  - destruct (unlocked s); [|done]. cbn in Hs. destruct (cn_enqs s !! e) as [q|]; [|done]. cbn in Hs.
    destruct (eq_mark q); [|done]. injection Hs as <- <-. destruct (retired_mark i s lg now (eq_topic q) Hr) as [Hr' Hsw].
    split; [by apply (retired_shape i (with_router (markSaturated now (eq_topic q) (cn_router s)) s))|exact Hsw].
  - destruct (cn_enqs s !! e) as [q|]; [|done]. cbn in Hs. destruct (eq_jobs q); [|done]. destruct (eq_mark q); [done|].
    destruct (retired_mark i s lg now (eq_topic q) Hr) as [Hr' Hsw]. destruct (0 <? eq_rejected q).
    + destruct (unlocked _); [|done]. injection Hs as <- <-.
      split; [by apply (retired_shape i (with_router (markSaturated now (eq_topic q) (cn_router s)) s))|exact Hsw].
    + injection Hs as <- <-. split; [by apply (retired_shape i s)|by apply swallowed_quiet].
Qed.

Lemma retired_loop_step i e s lg s' lg' :
  loop_event e = true → conc_wf s → retired i s → conc_step marshal e (s, lg) = Some (s', lg') →
  retired i s' ∧ swallowed i (s, lg) (s', lg').
Proof.
  intros Hev Hwf Hr Hs. pose proof Hr as [Hm Hc Hl Hpc].
  destruct e as [| | | | | | | | | | |l|l|l order|l|l now|]; try done; clear Hev; cbn in Hs.
  - destruct (rt_loops _ !! l) as [d|] eqn:Hd; [|done]. cbn in Hs. destruct (dl_ch d); [done|]. injection Hs as <- <-.
    split; [|by apply swallowed_quiet]. apply (retired_keep i s); [done|done|done| |]; cbn.
    + intros d0 Hd0 Hx. rewrite lookup_insert. case_decide as He; [|by exists d0]. subst l.
      rewrite Hd in Hd0. injection Hd0 as <-. by eexists.
    + by intros pc [[_ <-]|[_ ?]]%lookup_insert_Some.
  - destruct (rt_loops _ !! l) as [d|] eqn:Hd; [|done]. cbn in Hs. destruct (dl_ch d); [|done]. cbn in Hs.
    destruct (cn_pcs s !! l) as [[| | |]|]; try done. injection Hs as <- <-.
    split; [|by apply swallowed_quiet]. apply (retired_keep i s); [done|done|done|by eauto|]. cbn.
    intros pc [[-> <-]|[_ ?]]%lookup_insert_Some; [|done]. destruct Hl as (d0 & Hd0 & Hx).
    rewrite Hd in Hd0. injection Hd0 as <-. by rewrite Hx.
  - destruct (unlocked s); [|done]. cbn in Hs. destruct (rt_loops _ !! l) as [d|] eqn:Hd; [|done]. cbn in Hs.
    destruct (cn_pcs s !! l) as [[|w| |]|] eqn:Hp; try done. destruct (loop_pick _ _ _) as [pc|]; [|done].
    injection Hs as <- <-. split; [|by apply swallowed_quiet].
    apply (retired_keep i s); [done|done|done|by eauto|]. cbn.
    intros pc' [[-> _]|[_ ?]]%lookup_insert_Some; [|done]. by apply Hpc in Hp.
  - destruct (rt_loops _ !! l) as [d|] eqn:Hd; [|done]. cbn in Hs.
    destruct (cn_pcs s !! l) as [[|[]| |]|] eqn:Hp; try done. destruct (dl_cancelled d); [|done].
    injection Hs as <- <-. split; [|by apply swallowed_quiet].
    apply (retired_keep i s); [done|done|done|by eauto|]. cbn.
    by intros pc' [[_ <-]|[_ ?]]%lookup_insert_Some.
  - destruct (rt_loops _ !! l) as [d|] eqn:Hd; [|done]. cbn in Hs. destruct (dl_ch d) as [ch|] eqn:Hch; [|done].
    cbn in Hs. destruct (cn_pcs s !! l) as [[| |n p|]|] eqn:Hp; try done.
    destruct (loop_round _ _ _ _ _ _ _ _) as [[[r' cs'] pc]|] eqn:He; [|done]. injection Hs as <- <-.
    by eapply retired_round.
Qed.

Lemma retired_step i e s lg s' lg' :
  conc_wf s → retired i s → conc_step marshal e (s, lg) = Some (s', lg') →
  retired i s' ∧ swallowed i (s, lg) (s', lg').
Proof.
  intros Hwf Hr Hs. destruct (loop_event e) eqn:Hle; [by eapply retired_loop_step|].
  destruct (enqueue_event e) eqn:Hee; [by eapply retired_enqueue_step|].
  destruct e as [now t p c|p td|p|t id| |now|p n| | | | | | | | | |p b1 b2 b3]; try done; cbn in Hs.
  - destruct (unlocked s); [|done]. cbn in Hs. destruct (cn_cs s !! p); [done|]. injection Hs as <- <-.
    destruct (retired_add i now t p c s Hwf Hr) as [Hr' Hi]. split; [|by apply swallowed_quiet].
    by apply (retired_shape i (with_router (AddConsumer now t p c (cn_router s)) s)).
  - destruct (decide _); [|done]. destruct (cn_cs s !! p) as [k|]; [|done]. cbn in Hs.
    destruct (WriteMessage _ _ _) as [[w k']| |]; [|done..]. injection Hs as <- <-.
    split; [by apply (retired_shape i s)|]. apply swallowed_quiet; [done|done|]. unfold sent_from. cbn.
    rewrite omap_app, (omap_untagged _ (pair _ <$> _)), app_nil_r; [done|]. by apply Forall_fmap, Forall_true.
  - injection Hs as <- <-. split; [by apply (retired_shape i s)|by apply swallowed_quiet].
  - destruct (unlocked s); [|done]. injection Hs as <- <-.
    destruct (retired_remove i t id s Hr) as [Hr' Hi]. split; [done|]. apply swallowed_quiet; [by rewrite Hi|done..].
  - destruct (drain_step s) as [s1|] eqn:Hd; [|done]. injection Hs as <- <-.
    destruct (retired_drain i s s1 Hr Hd) as [Hr' Hi]. split; [done|]. by apply swallowed_quiet.
  - destruct (unlocked s); [|done]. injection Hs as <- <-.
    apply retired_with_router; [done|apply report_loop_shape|].
    unfold BuildHeartbeatReport. by rewrite (proj1 (report_loop_frame _ _ _ _ _)).
  - injection Hs as <- <-. split; [by apply (retired_shape i s)|by apply swallowed_quiet].
  - destruct (cn_cs s !! p) as [k|]; [|done]. cbn in Hs.
    destruct (StartWriteLoop_step _ _ _ _) as [[st k']|]; [|done]. injection Hs as <- <-.
    split; [by apply (retired_shape i s)|by apply swallowed_quiet].
Qed.

(** A call of EnqueueJobs with room for its jobs puts them all in. *)
Lemma enqueue_sends e now t i jobs n s lg c :
  cn_enqs s !! e = Some (mkEnqueuer t i jobs n false) → rt_chans (cn_router s) !! i = Some c →
  Z.of_nat (length (ch_buf c) + length jobs) <= ch_cap c →
  ∃ s' lg', run (conc_step marshal) (replicate (length jobs) (CEnqueueSend e now)) (s, lg) = Some (s', lg') ∧
    cn_enqs s' !! e = Some (mkEnqueuer t i [] n false) ∧
    buf_of i (cn_router s') = ch_buf c ++ ((λ j, mkQueued j now) <$> jobs) ∧ cl_results lg' = cl_results lg.
Proof.
  revert s lg c. induction jobs as [|j jobs IH]; intros s lg c He Hc Hroom.
  - exists s, lg. split_and!; [done..| |done]. unfold buf_of. by rewrite Hc, app_nil_r.
  - cbn [length replicate] in *. rewrite run_cons. cbn [conc_step]. rewrite He. cbn [mbind option_bind].
    unfold enqueue_send at 1. cbn [eq_mark eq_jobs eq_ch]. rewrite Hc. cbn [mbind option_bind].
    unfold try_send, chan_full at 1, chan_len. rewrite (proj2 (Z.leb_gt _ _)) by lia. cbn [mbind option_bind].
    edestruct (IH (with_enqs (<[e := mkEnqueuer t i jobs n false]> (cn_enqs s))
      (with_router (set_chans (<[i := chan_push c (mkQueued j now)]> (rt_chans (cn_router s))) (cn_router s)) s)))
      as (s' & lg' & Hr & He' & Hb & Hres).
    + cbn. apply lookup_insert_eq.
    + cbn. apply lookup_insert_eq.
    + cbn. rewrite length_app. cbn. lia.
    + exists s', lg'. split_and!; [exact Hr|done| |by rewrite Hres].
      rewrite Hb. cbn. by rewrite <- app_assoc.
Qed.

(** C22: What is enqueued while the topic is being removed is lost without a
    trace. When the last consumer of a topic goes between the lookup of
    EnqueueJobs and its sends, the jobs still go into the queue that no topic and
    no dispatcher has any more: in every continuation they stay in it and nothing
    from it is sent. Nobody is told: a call of EnqueueJobs that is at this queue,
    has rejected nothing so far and finds room for the rest of its jobs puts them
    all in and returns zero rejected. *)
Theorem retired_queue_swallows evs s lg i evs' s' lg' :
  run (conc_step marshal) evs conc_init = Some (s, lg) → retired i s →
  run (conc_step marshal) evs' (s, lg) = Some (s', lg') →
  sent_from (dispatcher_of i) lg' = sent_from (dispatcher_of i) lg ∧
  (∃ more, accepted_on i lg' = accepted_on i lg ++ more ∧
    buf_of i (cn_router s') = buf_of i (cn_router s) ++ more) ∧
  ∀ e t jobs now c, cn_enqs s' !! e = Some (mkEnqueuer t i jobs 0 false) →
    rt_chans (cn_router s') !! i = Some c → Z.of_nat (length (ch_buf c) + length jobs) <= ch_cap c →
    ∃ s2 lg2, run (conc_step marshal) (replicate (length jobs) (CEnqueueSend e now) ++ [CEnqueueEnd e now])
        (s', lg') = Some (s2, lg2) ∧
      cl_results lg2 = cl_results lg' ++ [(t, 0)] ∧
      buf_of i (cn_router s2) = buf_of i (cn_router s') ++ ((λ j, mkQueued j now) <$> jobs).
Proof.
  intros Hr0%reachable_ok Hr Hrun.
  apply (run_invariant (conc_step marshal) (λ sl, conc_ok marshal sl ∧ retired i sl.1 ∧ swallowed i (s, lg) sl))
    in Hrun as (_ & _ & Hs & Hm); [split_and!; [exact Hs|exact Hm|]| |].
  - intros e t jobs now c He Hc Hroom.
    destruct (enqueue_sends e now t i jobs 0 s' lg' c He Hc Hroom) as (s2 & lg2 & Hr2 & He2 & Hb & Hres).
    rewrite run_app, Hr2. unfold mbind. cbn [option_bind]. rewrite run_cons. cbn [conc_step]. rewrite He2.
    eexists _, _. split; [done|]. cbn. split; [by rewrite Hres|]. by rewrite Hb; unfold buf_of; rewrite Hc.
  - intros e [s1 lg1] [s2 lg2] (Hok & Hr1 & Hs1) Hst. split; [by eapply conc_step_ok|].
    destruct (retired_step i e s1 lg1 s2 lg2 (proj1 Hok) Hr1 Hst) as [Hr2 Hs2].
    split; [done|by eapply swallowed_trans].
  - split_and!; [done|done|by apply swallowed_quiet].
Qed.

End Races.

(** ** Concrete runs *)

Module RaceExample.
Import ConcExample.

(** One job, one consumer; the consumer goes while the dispatcher has it in hand,
    and the drain tests the queue before the dispatcher receives. *)
Definition stuck_events : list conc_event :=
  [CAdd 0 "t" 0%nat carol; CLoopStart 1%nat; CEnqueue 0%nat "t" [job "a" [10]]; CEnqueueSend 0%nat 0;
   CEnqueueEnd 0%nat 0; CLoopCheck 1%nat; CLoopPick 1%nat [0%nat]; CRemove "t" "carol"; CDrain; CLoopRound 1%nat 0].

(** The topic is removed between the lookup and the send. *)
Definition retire_events : list conc_event :=
  [CAdd 0 "t" 0%nat carol; CEnqueue 0%nat "t" [job "a" [10]]; CRemove "t" "carol"; CDrain].

End RaceExample.
Import RaceExample.

Theorem drain_waits_for_ever_witness :
  ∃ s lg, run (conc_step ConcExample.encode) stuck_events conc_init = Some (s, lg) ∧ drain_stuck "t" 0 s ∧
    ∀ evs s' lg', run (conc_step ConcExample.encode) evs (s, lg) = Some (s', lg') → unlocked s' = None.
Proof.
  destruct (run (conc_step ConcExample.encode) stuck_events conc_init) as [[s lg]|] eqn:Hr; [|by vm_compute in Hr].
  assert (Some (cn_drain s, map_to_list (cn_enqs s), rt_mainChans (cn_router s) !! "t"%string,
    rt_chans (cn_router s) !! 0%nat) =
    Some (Some (DrainRecv "t"), [], Some 0%nat, Some (Chan perTopicBufferSize []))) as He.
  { transitivity ((λ sl : conc * conc_log, (cn_drain sl.1, map_to_list (cn_enqs sl.1),
      rt_mainChans (cn_router sl.1) !! "t"%string, rt_chans (cn_router sl.1) !! 0%nat)) <$>
      run (conc_step ConcExample.encode) stuck_events conc_init); [by rewrite Hr|]. vm_compute. reflexivity. }
  injection He as Hd Hq Hm Hc. apply map_to_list_empty_iff in Hq.
  assert (drain_stuck "t" 0 s) as Hs 
    by (split; [exact Hd|exact Hq|exact Hm|exists (Chan perTopicBufferSize []); split; [exact Hc|reflexivity]]).
  exists s, lg. split_and!; [reflexivity|exact Hs|]. intros evs s' lg' Hrun.
  exact (proj1 (drain_waits_for_ever _ _ _ _ _ _ _ _ Hs Hrun)).
Defined.

(** The call that looked the queue up before it was retired is told that none of
    its jobs was rejected, and the job is in the queue nobody reads. *)
Theorem retired_queue_swallows_witness :
  ∃ s lg s2 lg2, run (conc_step ConcExample.encode) retire_events conc_init = Some (s, lg) ∧ retired 0 s ∧
    run (conc_step ConcExample.encode) [CEnqueueSend 0%nat 0; CEnqueueEnd 0%nat 0] (s, lg) = Some (s2, lg2) ∧
    cl_results lg2 = cl_results lg ++ [("t"%string, 0)] ∧
    buf_of 0 (cn_router s2) = buf_of 0 (cn_router s) ++ [mkQueued (ConcExample.job "a" [10]) 0].
Proof.
  destruct (run (conc_step ConcExample.encode) retire_events conc_init) as [[s lg]|] eqn:Hr; [|by vm_compute in Hr].
  assert (Some (map_to_list (rt_mainChans (cn_router s)), rt_chans (cn_router s) !! 0%nat,
    rt_loops (cn_router s) !! 1%nat, cn_pcs s !! 1%nat, cn_enqs s !! 0%nat) =
    Some ([], Some (make_chan perTopicBufferSize), Some (mkDispatcher "t" None true), None,
      Some (mkEnqueuer "t" 0 [ConcExample.job "a" [10]] 0 false))) as He.
  { transitivity ((λ sl : conc * conc_log, (map_to_list (rt_mainChans (cn_router sl.1)),
      rt_chans (cn_router sl.1) !! 0%nat, rt_loops (cn_router sl.1) !! 1%nat, cn_pcs sl.1 !! 1%nat,
      cn_enqs sl.1 !! 0%nat)) <$>
      run (conc_step ConcExample.encode) retire_events conc_init); [by rewrite Hr|]. vm_compute. reflexivity. }
  injection He as Hm Hc Hl Hp Hq. apply map_to_list_empty_iff in Hm.
  assert (retired 0 s) as Hret.
  { split.
    - intros t. rewrite Hm, lookup_empty. discriminate.
    - eexists. exact Hc.
    - eexists. split; [exact Hl|reflexivity].
    - intros pc Hpc. unfold dispatcher_of in Hpc. rewrite Hp in Hpc. discriminate. }
  destruct (retired_queue_swallows _ _ _ _ _ [] _ _ Hr Hret eq_refl) as (_ & _ & Hcall).
  destruct (Hcall _ _ _ 0 _ Hq Hc) as (s2 & lg2 & Hr2 & Hres & Hb); [vm_compute; discriminate|].
  exists s, lg, s2, lg2. split_and!; [reflexivity|exact Hret|exact Hr2|exact Hres|exact Hb].
Defined.
