(* ===== verification/Leadership.v ===== *)
(** * Leadership (internal/cluster/process.go, cluster/model.go)

    The proxy's view of the Cue cluster: the last heartbeat of every node, the
    leader a quorum of them agrees on, and whether that leader is available.
    Times are integers, in nanoseconds. A heartbeat is handled under the
    topology lock, so a step is a whole call of [handleHeartbeat]; the three
    readings of the clock it makes are its parameters. *)

From S2P Require Import Prelude GoRuntime Messages Config.

Local Open Scope Z_scope.

(** ** State *)

Record NodeHeartbeatInfo := mkNodeHeartbeatInfo {
  nh_ClaimedLeader : string;
  nh_Term : Z;
  nh_LastSeen : Z;
  nh_Status : string
}.

(** A nil [NodeHeartbeats] reads as the empty map, which the handler puts in
    its place before it writes. *)
Record CueTopology := mkCueTopology {
  ct_Leader : string;
  ct_Term : Z;
  ct_Voters : list string;
  ct_Learners : list string;
  ct_LastUpdate : option Z;
  ct_NodeHeartbeats : gmap string NodeHeartbeatInfo
}.

(** The fields of ClusterAgent about leadership. An atomic.Value that nothing
    was stored in is [None]. *)
Record Leadership := mkLeadership {
  currentLeader : option string;
  leaderAvailable : bool;
  cueTopology : CueTopology;
  ld_discoveryKind : DiscoveryKind
}.

Definition empty_topology : CueTopology := mkCueTopology "" 0 [] [] None ∅.

(** NewClusterAgent: currentLeader.Store(""); main stores false in
    leaderAvailable. *)
Definition init_leadership (kind : DiscoveryKind) : Leadership :=
  mkLeadership (Some "") false empty_topology kind.

Definition set_available (b : bool) (s : Leadership) : Leadership :=
  mkLeadership (currentLeader s) b (cueTopology s) (ld_discoveryKind s).

Definition set_heartbeats (m : gmap string NodeHeartbeatInfo) (s : Leadership) : Leadership :=
  let t := cueTopology s in
  mkLeadership (currentLeader s) (leaderAvailable s)
    (mkCueTopology (ct_Leader t) (ct_Term t) (ct_Voters t) (ct_Learners t)
       (ct_LastUpdate t) m)
    (ld_discoveryKind s).

(** ** evaluateLeadership *)

Definition stale_after : Z := 5 * 1000000000.

Definition stale (now : Z) (info : NodeHeartbeatInfo) : bool :=
  stale_after <? now - nh_LastSeen info.

Definition agrees (now : Z) (claimedLeader : string) (term : Z) (info : NodeHeartbeatInfo) : bool :=
  negb (stale now info) && bool_decide (nh_ClaimedLeader info = claimedLeader)
  && (nh_Term info =? term).

Definition activeNodes (now : Z) (m : gmap string NodeHeartbeatInfo) : Z :=
  Z.of_nat (size (filter (λ kv, stale now kv.2 = false) m)).

Definition agreementCount (now : Z) (claimedLeader : string) (term : Z)
    (m : gmap string NodeHeartbeatInfo) : Z :=
  Z.of_nat (size (filter (λ kv, agrees now claimedLeader term kv.2 = true) m)).

(** len(Voters)/2 + 1, and the fallback on the active nodes. *)
Definition quorum_of (voters : list string) (active : Z) : Z :=
  let quorum := Z.of_nat (length voters) `div` 2 + 1 in
  if quorum =? 0 then active `div` 2 + 1 else quorum.

(** The comparison made before the voters are replaced. *)
Definition voters_changed (old new : list string) : bool :=
  if negb (length old =? length new)%nat then true
  else existsb (λ v, negb (bool_decide (v ∈ old))) new.

(** The new state, and whether a goroutine running updateDiscovery is started. *)
Definition evaluateLeadership (now : Z) (claimedLeader : string) (hb : ToProxyHeartbeat)
    (s : Leadership) : Leadership * bool :=
  let t := cueTopology s in
  let active := activeNodes now (ct_NodeHeartbeats t) in
  let agreement := agreementCount now claimedLeader (hb_Term hb) (ct_NodeHeartbeats t) in
  if active =? 0 then (s, false)
  else
    let quorum := quorum_of (ct_Voters t) active in
    let leader := default "" (currentLeader s) in
    let currentTerm := ct_Term t in
    if quorum <=? agreement then
      if (currentTerm <? hb_Term hb)
         || ((hb_Term hb =? currentTerm) && negb (bool_decide (claimedLeader = leader))) then
        let updated :=
          bool_decide (ld_discoveryKind s = DiscoveryKindHttp)
          && voters_changed (ct_Voters t) (hb_Voters hb) in
        (mkLeadership (Some claimedLeader) true
           (mkCueTopology claimedLeader (hb_Term hb) (hb_Voters hb) (hb_Learners hb)
              (Some now) (ct_NodeHeartbeats t))
           (ld_discoveryKind s), updated)
      else (s, false)
    else if bool_decide (claimedLeader = leader) && (agreement <? quorum)
    then (set_available false s, false)
    else (s, false).

(** ** handleHeartbeat *)

(** [seen] is the time stored in the entry, [now] the one stale entries are
    removed at, [now'] the one evaluateLeadership reads. *)
Definition handleHeartbeat (seen now now' : Z) (senderID : string) (hb : ToProxyHeartbeat)
    (s : Leadership) : Leadership * bool :=
  let info := mkNodeHeartbeatInfo (hb_Leader hb) (hb_Term hb) seen (hb_NodeStatus hb) in
  let m := <[senderID := info]> (ct_NodeHeartbeats (cueTopology s)) in
  let m := filter (λ kv, stale now kv.2 = false) m in
  let s := set_heartbeats m s in
  if decide (hb_NodeStatus hb = NodeStatus_String NodeStatusLeaderActive) then
    evaluateLeadership now' senderID hb s
  else if decide (hb_NodeStatus hb = NodeStatus_String NodeStatusUnavailable) then
    let s := if decide (Some senderID = currentLeader s) then set_available false s else s in
    (set_heartbeats (delete senderID (ct_NodeHeartbeats (cueTopology s))) s, false)
  else if decide (hb_NodeStatus hb = NodeStatus_String NodeStatusFollowerActive) then
    if negb (bool_decide (hb_Leader hb = "")) && negb (bool_decide (hb_Leader hb = senderID)) then
      evaluateLeadership now' (hb_Leader hb) hb s
    else (s, false)
  else (s, false).

(** ** GetStatus *)

Record Status := mkStatus {
  st_leader : option string;
  st_available : bool;
  st_term : Z;
  st_voters : list string;
  st_learners : list string;
  st_active_nodes : nat;
  st_node_heartbeats : gmap string NodeHeartbeatInfo;
  st_last_update : option Z
}.

Definition GetStatus (s : Leadership) : Status :=
  let t := cueTopology s in
  mkStatus (currentLeader s) (leaderAvailable s) (ct_Term t) (ct_Voters t) (ct_Learners t)
    (size (ct_NodeHeartbeats t)) (ct_NodeHeartbeats t) (ct_LastUpdate t).

(** ** A proxy receiving heartbeats *)

Record hb_event := HbEvent {
  ev_seen : Z;
  ev_now : Z;
  ev_now' : Z;
  ev_sender : string;
  ev_hb : ToProxyHeartbeat
}.

Definition leadership_step (e : hb_event) (s : Leadership) : option Leadership :=
  Some (handleHeartbeat (ev_seen e) (ev_now e) (ev_now' e) (ev_sender e) (ev_hb e) s).1.

(** ** Lemmas *)

Lemma quorum_of_voters voters active :
  quorum_of voters active = Z.of_nat (length voters) `div` 2 + 1.
Proof.
  unfold quorum_of. case_match eqn:Hq; [|done]. reflect_arith.
  pose proof (Z.div_pos (Z.of_nat (length voters)) 2). lia.
Qed.

(** A majority: more than half of the voters. *)
Lemma quorum_majority voters active n :
  quorum_of voters active <= n ↔ Z.of_nat (length voters) < 2 * n.
Proof.
  rewrite quorum_of_voters.
  pose proof (Z.div_mod (Z.of_nat (length voters)) 2 ltac:(lia)).
  pose proof (Z.mod_pos_bound (Z.of_nat (length voters)) 2 ltac:(lia)). lia.
Qed.

(** Whether the claim in [hb] is newer than what the proxy holds. *)
Definition supersedes (claimed : string) (term : Z) (s : Leadership) : Prop :=
  ct_Term (cueTopology s) < term ∨
  term = ct_Term (cueTopology s) ∧ claimed ≠ default "" (currentLeader s).

(** A majority of the voters the proxy knows claims [claimed] in [term]. *)
Definition has_quorum (now : Z) (claimed : string) (term : Z) (s : Leadership) : Prop :=
  Z.of_nat (length (ct_Voters (cueTopology s))) <
  2 * agreementCount now claimed term (ct_NodeHeartbeats (cueTopology s)).

(** The state after a claim is accepted. *)
Definition accept (now : Z) (claimed : string) (hb : ToProxyHeartbeat) (s : Leadership) : Leadership :=
  mkLeadership (Some claimed) true
    (mkCueTopology claimed (hb_Term hb) (hb_Voters hb) (hb_Learners hb) (Some now)
       (ct_NodeHeartbeats (cueTopology s)))
    (ld_discoveryKind s).

(** The three outcomes of evaluateLeadership. *)
Inductive verdict (now : Z) (claimed : string) (hb : ToProxyHeartbeat) (s : Leadership) :
    Leadership * bool → Prop :=
  | verdict_accept :
      has_quorum now claimed (hb_Term hb) s →
      supersedes claimed (hb_Term hb) s →
      verdict now claimed hb s
        (accept now claimed hb s,
         bool_decide (ld_discoveryKind s = DiscoveryKindHttp)
         && voters_changed (ct_Voters (cueTopology s)) (hb_Voters hb))
  | verdict_lost :
      ¬ has_quorum now claimed (hb_Term hb) s →
      claimed = default "" (currentLeader s) →
      0 < activeNodes now (ct_NodeHeartbeats (cueTopology s)) →
      verdict now claimed hb s (set_available false s, false)
  | verdict_keep :
      ¬ (has_quorum now claimed (hb_Term hb) s ∧ supersedes claimed (hb_Term hb) s) →
      (has_quorum now claimed (hb_Term hb) s ∨
       claimed ≠ default "" (currentLeader s) ∨
       activeNodes now (ct_NodeHeartbeats (cueTopology s)) = 0) →
      verdict now claimed hb s (s, false).

Lemma agrees_spec now claimed term info :
  agrees now claimed term info = true ↔
  stale now info = false ∧ nh_ClaimedLeader info = claimed ∧ nh_Term info = term.
Proof.
  unfold agrees. rewrite !andb_true_iff, negb_true_iff, bool_decide_eq_true, Z.eqb_eq. tauto.
Qed.

Lemma agreement_active now claimed term m :
  agreementCount now claimed term m <= activeNodes now m.
Proof.
  unfold agreementCount, activeNodes. apply inj_le, map_subseteq_size.
  apply map_filter_subseteq_ext. by intros ? info _ [? _]%agrees_spec.
Qed.

Lemma agreement_nonneg now claimed term m : 0 <= agreementCount now claimed term m.
Proof. unfold agreementCount. lia. Qed.

Lemma evaluateLeadership_verdict now claimed hb s :
  verdict now claimed hb s (evaluateLeadership now claimed hb s).
Proof.
  unfold evaluateLeadership.
  pose proof (agreement_active now claimed (hb_Term hb) (ct_NodeHeartbeats (cueTopology s))).
  pose proof (agreement_nonneg now claimed (hb_Term hb) (ct_NodeHeartbeats (cueTopology s))).
  pose proof (quorum_majority (ct_Voters (cueTopology s))
    (activeNodes now (ct_NodeHeartbeats (cueTopology s)))
    (agreementCount now claimed (hb_Term hb) (ct_NodeHeartbeats (cueTopology s)))) as Hq.
  assert (has_quorum now claimed (hb_Term hb) s ↔ quorum_of (ct_Voters (cueTopology s))
    (activeNodes now (ct_NodeHeartbeats (cueTopology s)))
    <= agreementCount now claimed (hb_Term hb) (ct_NodeHeartbeats (cueTopology s))) as Hq'
    by (unfold has_quorum; lia).
  case_match eqn:Ha; reflect_arith.
  { apply verdict_keep; [|auto]. unfold has_quorum. lia. }
  case_match eqn:Hn; reflect_arith.
  - assert (supersedes claimed (hb_Term hb) s ↔
      ((ct_Term (cueTopology s) <? hb_Term hb) || ((hb_Term hb =? ct_Term (cueTopology s)) &&
        negb (bool_decide (claimed = default "" (currentLeader s))))) = true) as Hs.
    { rewrite orb_true_iff, andb_true_iff, Z.ltb_lt, Z.eqb_eq, negb_true_iff, bool_decide_eq_false.
      done. }
    case_match eqn:Hc.
    + apply verdict_accept; tauto.
    + apply verdict_keep; [intros [_ Hs2]; by apply Hs in Hs2|left; tauto].
  - case_match eqn:Hc; [apply andb_true_iff in Hc as [Hc _]|apply andb_false_iff in Hc as [Hc|]];
      reflect_arith; [apply bool_decide_eq_true in Hc|apply bool_decide_eq_false in Hc|lia].
    + apply verdict_lost; [rewrite Hq'; lia|done|]. unfold activeNodes in *. lia.
    + apply verdict_keep; [|auto]. rewrite Hq'. lia.
Qed.

(** What a heartbeat claims: a leader claims itself, a follower the leader it
    names, if it is another node. *)
Definition claim (senderID : string) (hb : ToProxyHeartbeat) : option string :=
  if decide (hb_NodeStatus hb = NodeStatusLeaderActive) then Some senderID
  else if decide (hb_NodeStatus hb = NodeStatusFollowerActive ∧ hb_Leader hb ≠ ""
                  ∧ hb_Leader hb ≠ senderID) then Some (hb_Leader hb)
  else None.

(** The heartbeats kept when [senderID]'s is recorded. *)
Definition record_heartbeat (seen now : Z) (senderID : string) (hb : ToProxyHeartbeat)
    (s : Leadership) : Leadership :=
  set_heartbeats
    (filter (λ kv, stale now kv.2 = false)
       (<[senderID := mkNodeHeartbeatInfo (hb_Leader hb) (hb_Term hb) seen (hb_NodeStatus hb)]>
          (ct_NodeHeartbeats (cueTopology s)))) s.

(** handleHeartbeat: the entry is recorded, then the claim, if there is one,
    is evaluated; a node that is unavailable is forgotten. *)
Lemma handleHeartbeat_cases seen now now' sender hb s :
  let s0 := record_heartbeat seen now sender hb s in
  match claim sender hb with
  | Some c => handleHeartbeat seen now now' sender hb s = evaluateLeadership now' c hb s0
  | None =>
      hb_NodeStatus hb ≠ NodeStatusUnavailable ∧
      handleHeartbeat seen now now' sender hb s = (s0, false) ∨
      hb_NodeStatus hb = NodeStatusUnavailable ∧
      handleHeartbeat seen now now' sender hb s =
        (set_heartbeats (delete sender (ct_NodeHeartbeats (cueTopology s0)))
           (if decide (Some sender = currentLeader s0) then set_available false s0 else s0), false)
  end.
Proof.
  cbv zeta. unfold claim, handleHeartbeat, record_heartbeat.
  change (NodeStatus_String NodeStatusLeaderActive) with NodeStatusLeaderActive.
  change (NodeStatus_String NodeStatusUnavailable) with NodeStatusUnavailable.
  change (NodeStatus_String NodeStatusFollowerActive) with NodeStatusFollowerActive.
  destruct (decide (hb_NodeStatus hb = NodeStatusLeaderActive)) as [|]; [done|].
  destruct (decide (hb_NodeStatus hb = NodeStatusUnavailable)) as [Hu|].
  { rewrite Hu. rewrite decide_False by (by intros [? _]). right. split; [done|].
    by case_decide. }
  destruct (decide (hb_NodeStatus hb = NodeStatusFollowerActive)).
  2: { rewrite decide_False by (by intros [? _]). by left. }
  destruct (decide (hb_Leader hb = "")) as [Hl|Hl].
  { rewrite (bool_decide_true _ Hl), decide_False by (by intros (?&?&?)). by left. }
  destruct (decide (hb_Leader hb = sender)) as [Hs|Hs].
  { rewrite (bool_decide_true _ Hs), andb_comm, decide_False by (by intros (?&?&?)). by left. }
  by rewrite (bool_decide_false _ Hl), (bool_decide_false _ Hs), decide_True.
Qed.

Lemma heartbeats_set m s : ct_NodeHeartbeats (cueTopology (set_heartbeats m s)) = m.
Proof. done. Qed.

(** A property of the leader, the term, the voters and the availability holds
    after a heartbeat if it holds when the claim is accepted, when it loses its
    quorum, and when nothing changes. *)
Lemma handleHeartbeat_ind (P : Leadership * bool → Prop) seen now now' sender hb s :
  let s0 := record_heartbeat seen now sender hb s in
  (∀ c, claim sender hb = Some c → ∀ r, verdict now' c hb s0 r → P r) →
  (claim sender hb = None → P (s0, false)) →
  (hb_NodeStatus hb = NodeStatusUnavailable →
   P (set_heartbeats (delete sender (ct_NodeHeartbeats (cueTopology s0)))
        (if decide (Some sender = currentLeader s) then set_available false s0 else s0), false)) →
  P (handleHeartbeat seen now now' sender hb s).
Proof.
  cbv zeta. intros Hc Hn Hu. pose proof (handleHeartbeat_cases seen now now' sender hb s) as H.
  cbv zeta in H. destruct (claim sender hb) as [c|].
  - rewrite H. apply (Hc c); [done|apply evaluateLeadership_verdict].
  - destruct H as [[_ ->]|[He ->]]; [by apply Hn|by apply Hu].
Qed.

(** *** Quorum *)

(** The nodes that agree, as a set. *)
Definition agreeing (now : Z) (claimed : string) (term : Z) (m : gmap string NodeHeartbeatInfo) :
  gset string := dom (filter (λ kv, agrees now claimed term kv.2 = true) m).

Lemma elem_of_agreeing now claimed term m n :
  n ∈ agreeing now claimed term m ↔
  ∃ info, m !! n = Some info ∧ now - nh_LastSeen info <= stale_after ∧
          nh_ClaimedLeader info = claimed ∧ nh_Term info = term.
Proof.
  unfold agreeing. rewrite elem_of_dom. unfold is_Some. setoid_rewrite map_lookup_filter_Some.
  setoid_rewrite agrees_spec. unfold stale. setoid_rewrite Z.ltb_ge. done.
Qed.

Lemma size_agreeing now claimed term m :
  agreementCount now claimed term m = Z.of_nat (size (agreeing now claimed term m)).
Proof. unfold agreementCount, agreeing. by rewrite size_dom. Qed.

(** C17: The proxy changes its leader only to the node a heartbeat claims, in a
    term not older than its own, when more than half as many nodes as there are
    known voters have, in the last five seconds, claimed that leader in that
    term; the new leader is then available and the voters are the
    heartbeat's. *)
Theorem leader_change_needs_majority seen now now' sender hb s s' :
  (handleHeartbeat seen now now' sender hb s).1 = s' →
  currentLeader s' ≠ currentLeader s →
  ∃ c (nodes : gset string),
    claim sender hb = Some c ∧ currentLeader s' = Some c ∧ leaderAvailable s' = true ∧
    ct_Term (cueTopology s) <= hb_Term hb ∧ ct_Term (cueTopology s') = hb_Term hb ∧
    ct_Voters (cueTopology s') = hb_Voters hb ∧
    Z.of_nat (length (ct_Voters (cueTopology s))) < 2 * Z.of_nat (size nodes) ∧
    ∀ n, n ∈ nodes → ∃ info,
      ct_NodeHeartbeats (cueTopology s') !! n = Some info ∧
      now' - nh_LastSeen info <= stale_after ∧
      nh_ClaimedLeader info = c ∧ nh_Term info = hb_Term hb.
Proof.
  intros <-. apply handleHeartbeat_ind; [|done|by repeat case_decide].
  intros c Hc r Hv Hne. destruct Hv as [Hq Hs|Hq|]; [|done|done].
  exists c, (agreeing now' c (hb_Term hb) (ct_NodeHeartbeats (cueTopology
    (record_heartbeat seen now sender hb s)))).
  unfold has_quorum in Hq. rewrite size_agreeing in Hq.
  split_and!; try done.
  - destruct Hs as [Hs|[-> _]]; cbn in *; lia.
  - intros n Hn. by apply elem_of_agreeing.
Qed.

(** The term never goes back, in any sequence of heartbeats. *)
Theorem term_monotone es s s' :
  run leadership_step es s = Some s' →
  ct_Term (cueTopology s) <= ct_Term (cueTopology s').
Proof.
  assert (PreOrder (λ s s', ct_Term (cueTopology s) <= ct_Term (cueTopology s')))
    by (split; [intros ?; lia|intros ???; lia]).
  apply (run_preorder leadership_step (λ s s', ct_Term (cueTopology s) <= ct_Term (cueTopology s'))).
  intros e s1 s2 [= <-]. apply handleHeartbeat_ind; [|done|by case_decide].
  intros c _ r [_ Hs| |]; cbn; [|lia|lia]. destruct Hs as [Hs|[-> _]]; cbn in *; lia.
Qed.

Lemma disjoint_claims now c1 t1 c2 t2 m :
  (c1, t1) ≠ (c2, t2) → agreeing now c1 t1 m ## agreeing now c2 t2 m.
Proof.
  intros Hne n (i1 & Hm1 & _ & Hc1 & Ht1)%elem_of_agreeing (i2 & Hm2 & _ & Hc2 & Ht2)%elem_of_agreeing.
  simplify_eq.
Qed.

Lemma size_list_to_set (l : list string) : (size (list_to_set l : gset string) <= length l)%nat.
Proof.
  induction l as [|x l IH]; cbn; [by rewrite size_empty|].
  rewrite size_union_alt, size_singleton.
  pose proof (subseteq_size (list_to_set l ∖ {[x]} : gset string) (list_to_set l)
    (subseteq_difference_l _ _ _ (reflexivity _))). lia.
Qed.

Lemma rival_quorum now c1 t1 c2 t2 s :
  dom (ct_NodeHeartbeats (cueTopology s)) ⊆@{gset string} list_to_set (ct_Voters (cueTopology s)) →
  has_quorum now c1 t1 s → has_quorum now c2 t2 s → (c2, t2) = (c1, t1).
Proof.
  unfold has_quorum. rewrite !size_agreeing. intros Hd H1 H2.
  destruct (decide ((c2, t2) = (c1, t1))) as [|Hne]; [done|]. exfalso.
  pose proof (size_union _ _ (disjoint_claims now _ _ _ _ (ct_NodeHeartbeats (cueTopology s)) Hne)) as Hu.
  pose proof (size_list_to_set (ct_Voters (cueTopology s))) as Hl.
  assert (agreeing now c2 t2 (ct_NodeHeartbeats (cueTopology s)) ∪
          agreeing now c1 t1 (ct_NodeHeartbeats (cueTopology s))
          ⊆ list_to_set (ct_Voters (cueTopology s))) as Hs%subseteq_size.
  { etrans; [|apply Hd]. intros n [Hn|Hn]%elem_of_union;
      apply elem_of_agreeing in Hn as (i & Hi & _); by apply elem_of_dom_2 in Hi. }
  lia.
Qed.

(** C18: Two rival claims are never both accepted. When only voters have reported
    and evaluateLeadership, on a claim of a leader in a term, changes the proxy's
    leader or its term, then on the same reports it leaves the leader, the term,
    the voters and everything else it knows of the cluster as they are for every
    other claim: another leader, or the same one in another term. *)
Theorem quorum_unique now c1 hb1 c2 hb2 s :
  dom (ct_NodeHeartbeats (cueTopology s)) ⊆@{gset string} list_to_set (ct_Voters (cueTopology s)) →
  (let s1 := (evaluateLeadership now c1 hb1 s).1 in
   currentLeader s1 ≠ currentLeader s ∨ ct_Term (cueTopology s1) ≠ ct_Term (cueTopology s)) →
  (c2, hb_Term hb2) ≠ (c1, hb_Term hb1) →
  let s2 := (evaluateLeadership now c2 hb2 s).1 in
  currentLeader s2 = currentLeader s ∧ cueTopology s2 = cueTopology s.
Proof.
  intros Hd H1 Hne s2. subst s2.
  destruct (evaluateLeadership_verdict now c1 hb1 s) as [Hq1 _|?|]; [|by destruct H1..].
  destruct (evaluateLeadership_verdict now c2 hb2 s) as [Hq2 _|?|]; [|done..].
  destruct Hne. by eapply rival_quorum.
Qed.

(** *** The heartbeat table *)

Lemma evaluateLeadership_heartbeats now c hb s :
  ct_NodeHeartbeats (cueTopology (evaluateLeadership now c hb s).1)
  = ct_NodeHeartbeats (cueTopology s).
Proof. by destruct (evaluateLeadership_verdict now c hb s). Qed.

(** After a heartbeat the table holds the sender's entry as the heartbeat
    gives it, unless it says it is unavailable, and the other nodes' entries
    not older than five seconds; nothing else. *)
Theorem heartbeat_table_exact seen now now' sender hb s n :
  let info := mkNodeHeartbeatInfo (hb_Leader hb) (hb_Term hb) seen (hb_NodeStatus hb) in
  seen <= now <= seen + stale_after →
  ct_NodeHeartbeats (cueTopology (handleHeartbeat seen now now' sender hb s).1) !! n =
  if decide (n = sender) then
    if decide (hb_NodeStatus hb = NodeStatusUnavailable) then None else Some info
  else
    match ct_NodeHeartbeats (cueTopology s) !! n with
    | Some i => if decide (now - nh_LastSeen i <= stale_after) then Some i else None
    | None => None
    end.
Proof.
  intros info Ht.
  assert (ct_NodeHeartbeats (cueTopology (record_heartbeat seen now sender hb s)) !! n =
    if decide (n = sender) then Some info
    else match ct_NodeHeartbeats (cueTopology s) !! n with
         | Some i => if decide (now - nh_LastSeen i <= stale_after) then Some i else None
         | None => None
         end) as Hr.
  { unfold record_heartbeat. rewrite heartbeats_set, map_lookup_filter. unfold stale.
    destruct (decide (n = sender)) as [->|Hn].
    - rewrite lookup_insert_eq. cbn. rewrite option_guard_True; [done|]. apply Z.ltb_ge. cbn. lia.
    - rewrite lookup_insert_ne by done. destruct (_ !! n) as [i|]; [|done]. cbn.
      case_decide; [rewrite option_guard_True|rewrite option_guard_False]; try done;
        rewrite Z.ltb_ge; lia. }
  pose proof (handleHeartbeat_cases seen now now' sender hb s) as H. cbv zeta in H.
  destruct (claim sender hb) as [c|] eqn:Hc.
  - rewrite H, evaluateLeadership_heartbeats, Hr.
    rewrite (decide_False (P := hb_NodeStatus hb = NodeStatusUnavailable)); [done|].
    intros Hu. unfold claim in Hc. rewrite Hu in Hc. repeat case_decide; naive_solver.
  - destruct (decide (hb_NodeStatus hb = NodeStatusUnavailable)) as [Hu|Hu].
    + destruct H as [[? _]|[_ ->]]; [done|].
      cbn [fst]. rewrite (heartbeats_set (delete sender _)). destruct (decide (n = sender)) as [->|Hn].
      * apply lookup_delete_eq.
      * by rewrite lookup_delete_ne, Hr by done.
    + destruct H as [[_ ->]|[? _]]; [|done]. cbn [fst]. by rewrite Hr.
Qed.

(** *** Availability *)

(** The leader stored, the topology and the availability flag agree. *)
Definition coherent (s : Leadership) : Prop :=
  currentLeader s = Some (ct_Leader (cueTopology s)) ∧
  (leaderAvailable s = true →
   ct_Leader (cueTopology s) ≠ "" ∧ is_Some (ct_LastUpdate (cueTopology s))).

Lemma coherent_set m s : coherent s → coherent (set_heartbeats m s).
Proof. done. Qed.

Lemma coherent_step e s s' :
  ev_sender e ≠ "" → coherent s → leadership_step e s = Some s' → coherent s'.
Proof.
  intros Hne [Hl Ha] [= <-]. apply handleHeartbeat_ind; [|done|].
  - intros c Hc r [_ _| |]; [|split; [done|by intros [=]]|done].
    split; [done|]. intros _. split; [|by eexists].
    cbn. unfold claim in Hc. repeat case_decide; naive_solver.
  - intros _. case_decide; [|done]. split; [done|by intros [=]].
Qed.

(** C31: As long as every node that reports has an identifier, the stored leader
    and the topology's leader are the same node, and the proxy only takes the
    leader for available after a claim was accepted. *)
Theorem leadership_coherent kind es s :
  Forall (λ e, ev_sender e ≠ "") es →
  run leadership_step es (init_leadership kind) = Some s →
  coherent s.
Proof.
  intros Hes. assert (coherent (init_leadership kind)) as H0 by (by split).
  revert H0. generalize (init_leadership kind). induction Hes as [|e es Hne _ IH]; intros s0 H0 Hr.
  - by injection Hr as <-.
  - rewrite run_cons in Hr. cbn in Hr. eapply IH; [|done]. by eapply coherent_step.
Qed.

(** Availability is not restored by a quorum on the leader in place: once
    the leader is unavailable, heartbeats that claim that leader in that term,
    or anything in an older term, leave it unavailable, however many nodes
    agree. *)
Theorem availability_not_restored es s s' l :
  currentLeader s = Some l →
  leaderAvailable s = false →
  Forall (λ e, ∀ c, claim (ev_sender e) (ev_hb e) = Some c →
            hb_Term (ev_hb e) < ct_Term (cueTopology s) ∨
            hb_Term (ev_hb e) = ct_Term (cueTopology s) ∧ c = l) es →
  run leadership_step es s = Some s' →
  leaderAvailable s' = false ∧ currentLeader s' = Some l.
Proof.
  intros Hl Ha Hes. remember (ct_Term (cueTopology s)) as T eqn:HT. symmetry in HT. revert s Hl Ha HT.
  induction Hes as [|e es He _ IH]; intros s Hl Ha HT Hr.
  { by injection Hr as <-. }
  rewrite run_cons in Hr. cbn in Hr.
  assert (∀ r : Leadership * bool, r = handleHeartbeat (ev_seen e) (ev_now e) (ev_now' e)
      (ev_sender e) (ev_hb e) s →
    currentLeader r.1 = Some l ∧ leaderAvailable r.1 = false ∧ ct_Term (cueTopology r.1) = T) as H.
  { intros r ->. apply handleHeartbeat_ind; [|done|by intros _; case_decide].
    intros c Hc r [_ Hs| |]; [exfalso|done|done]. destruct (He c Hc) as [Ht|[Ht ->]];
      unfold supersedes in Hs; cbn in Hs; rewrite Hl in Hs; cbn in Hs; naive_solver lia. }
  destruct (H _ eq_refl) as (H1 & H2 & H3). by eapply (IH _ H1 H2 H3).
Qed.

(** *** Discovery refresh *)

Lemma voters_changed_spec old new :
  NoDup old → NoDup new → voters_changed old new = false ↔ old ≡ₚ new.
Proof.
  intros Ho Hn. unfold voters_changed.
  destruct (Nat.eqb_spec (length old) (length new)) as [Hl|Hl]; cbn.
  - split.
    + intros H. symmetry. apply submseteq_length_Permutation; [|lia].
      apply NoDup_submseteq; [done|]. intros x Hx.
      destruct (decide (x ∈ old)) as [|Hx']; [done|]. exfalso.
      assert (existsb (λ v, negb (bool_decide (v ∈ old))) new = true); [|congruence].
      apply existsb_exists. exists x. split; [by apply list_elem_of_In|]. by rewrite bool_decide_false.
    + intros Hp. apply not_true_iff_false. intros (x & Hx & Hb)%existsb_exists.
      apply negb_true_iff, bool_decide_eq_false in Hb. apply Hb. rewrite Hp. by apply list_elem_of_In.
  - split; [done|]. by intros Hp%Permutation_length.
Qed.

(** A heartbeat starts a refresh of the discovery map exactly when discovery
    is over HTTP, the claim is accepted, and the voters it carries are not the
    known ones in some order (both lists being free of repetitions). *)
Theorem discovery_refresh_exact now c hb s :
  NoDup (ct_Voters (cueTopology s)) → NoDup (hb_Voters hb) →
  (evaluateLeadership now c hb s).2 = true ↔
  ld_discoveryKind s = DiscoveryKindHttp ∧ has_quorum now c (hb_Term hb) s ∧
  supersedes c (hb_Term hb) s ∧ ¬ ct_Voters (cueTopology s) ≡ₚ hb_Voters hb.
Proof.
  intros Ho Hn. rewrite <- (voters_changed_spec _ _ Ho Hn), not_false_iff_true.
  destruct (evaluateLeadership_verdict now c hb s); cbn; [|intuition discriminate..].
  rewrite andb_true_iff, bool_decide_eq_true. tauto.
Qed.

(** ** Concrete clusters *)

Module Scenario.

(** Node [n] reports [leader] at second [t]; the voters are A, B and C. *)
Definition beat (t : Z) (n status leader : string) (term : Z) : hb_event :=
  HbEvent (t * 1000000000) (t * 1000000000) (t * 1000000000) n
    (mkHeartbeat status ["A"; "B"; "C"] ["L"; "M"] leader term).

(** A cluster with an elected leader, whose first heartbeat arrives twice
    before the followers'; then everybody agrees. *)
Definition first_beats : list hb_event := [beat 0 "A" "leader" "A" 1; beat 1 "A" "leader" "A" 1].
Definition all_agree : list hb_event :=
  [beat 1 "B" "follower" "A" 1; beat 1 "C" "follower" "A" 1; beat 2 "A" "leader" "A" 1].

Definition state_after (es : list hb_event) : Leadership :=
  default (init_leadership DiscoveryKindStatic) (run leadership_step es (init_leadership DiscoveryKindStatic)).

(** Two learners that claim one of them, in the next term. *)
Definition learners_claim : list hb_event :=
  [beat 2 "L" "follower" "M" 2; beat 2 "M" "leader" "M" 2].

(** A and B report A for term 2, C reports itself for term 3; B's report is in
    the table and not yet evaluated. *)
Definition split : Leadership :=
  record_heartbeat (3 * 1000000000) (3 * 1000000000) "B" (ev_hb (beat 3 "B" "follower" "A" 2))
    (state_after (first_beats ++ all_agree ++ [beat 3 "A" "leader" "A" 2; beat 3 "C" "leader" "C" 3])).

End Scenario.
Import Scenario.

(** A healthy cluster can leave the proxy without a leader for good: when
    the leader's second heartbeat comes before a follower's first, the proxy
    drops the leader it accepted with no known voters, and full agreement of
    the three voters afterwards does not bring it back. *)
Theorem startup_order_blocks_leader :
  leaderAvailable (state_after (take 1 first_beats)) = true ∧
  leaderAvailable (state_after first_beats) = false ∧
  let s := state_after (first_beats ++ all_agree) in
  leaderAvailable s = false ∧ currentLeader s = Some "A" ∧
  agreementCount (2 * 1000000000) "A" 1 (ct_NodeHeartbeats (cueTopology s)) = 3 ∧
  ct_Voters (cueTopology s) = ["A"; "B"; "C"].
Proof. repeat split; vm_compute; reflexivity. Qed.

(** The agreement counts every node that reports, voter or not: the
    heartbeats of two learners make one of them the proxy's leader. *)
Theorem learners_elect_leader :
  let s := state_after ([beat 1 "A" "leader" "A" 1; beat 1 "B" "follower" "A" 1] ++ learners_claim) in
  currentLeader s = Some "M" ∧ leaderAvailable s = true ∧
  ct_Voters (cueTopology s) = ["A"; "B"; "C"].
Proof. repeat split; vm_compute; reflexivity. Qed.

Theorem leader_change_needs_majority_witness :
  ∃ nodes : gset string, 0 < 2 * Z.of_nat (size nodes).
Proof.
  pose proof (leader_change_needs_majority 0 0 0 "A" (ev_hb (beat 0 "A" "leader" "A" 1))
    (init_leadership DiscoveryKindStatic) (state_after [beat 0 "A" "leader" "A" 1])) as H.
  destruct H as (c & nodes & _ & _ & _ & _ & _ & _ & Hn & _);
    [vm_compute; reflexivity|vm_compute; discriminate|].
  exists nodes. exact Hn.
Defined.

Theorem term_monotone_witness :
  ct_Term (cueTopology (init_leadership DiscoveryKindStatic))
  <= ct_Term (cueTopology (state_after first_beats)).
Proof.
  apply (term_monotone first_beats (init_leadership DiscoveryKindStatic)). vm_compute. reflexivity.
Defined.

(** A and B report A in the next term, C reports itself in a later one. *)
Theorem quorum_unique_witness :
  ct_Term (cueTopology (evaluateLeadership (3 * 1000000000) "A" (ev_hb (beat 3 "B" "follower" "A" 2)) split).1) = 2 ∧
  currentLeader (evaluateLeadership (3 * 1000000000) "C" (ev_hb (beat 3 "C" "leader" "C" 3)) split).1 = Some "A" ∧
  ct_Term (cueTopology
    (evaluateLeadership (3 * 1000000000) "C" (ev_hb (beat 3 "C" "leader" "C" 3)) split).1) = 1.
Proof.
  split; [vm_compute; reflexivity|].
  destruct (quorum_unique (3 * 1000000000) "A" (ev_hb (beat 3 "B" "follower" "A" 2))
    "C" (ev_hb (beat 3 "C" "leader" "C" 3)) split) as [Hl Ht].
  - apply (bool_decide_unpack _). vm_compute. exact I.
  - right. vm_compute. discriminate.
  - discriminate.
  - split; [rewrite Hl|rewrite Ht]; vm_compute; reflexivity.
Defined.

Theorem heartbeat_table_exact_witness :
  ct_NodeHeartbeats (cueTopology (handleHeartbeat 7000000000 7000000000 7000000000 "B"
    (ev_hb (beat 7 "B" "follower" "A" 1)) (state_after first_beats)).1) !! "A" = None.
Proof.
  rewrite (heartbeat_table_exact 7000000000 7000000000 7000000000 "B"
    (ev_hb (beat 7 "B" "follower" "A" 1)) (state_after first_beats) "A").
  - vm_compute. reflexivity.
  - vm_compute. split; discriminate.
Defined.

Theorem leadership_coherent_witness : coherent (state_after (first_beats ++ all_agree)).
Proof.
  apply (leadership_coherent DiscoveryKindStatic (first_beats ++ all_agree)).
  - repeat constructor; discriminate.
  - vm_compute. reflexivity.
Defined.

Theorem availability_not_restored_witness :
  leaderAvailable (state_after (first_beats ++ all_agree)) = false ∧
  currentLeader (state_after (first_beats ++ all_agree)) = Some "A".
Proof.
  apply (availability_not_restored all_agree (state_after first_beats) _ "A").
  - vm_compute. reflexivity.
  - vm_compute. reflexivity.
  - repeat (apply Forall_cons; split; [intros c; vm_compute; intros [= <-]; by right|]). by apply Forall_nil.
  - vm_compute. reflexivity.
Defined.

Theorem discovery_refresh_exact_witness :
  (evaluateLeadership 0 "A" (ev_hb (beat 0 "A" "leader" "A" 1))
    (record_heartbeat 0 0 "A" (ev_hb (beat 0 "A" "leader" "A" 1))
      (init_leadership DiscoveryKindHttp))).2 = true.
Proof.
  apply discovery_refresh_exact.
  - constructor.
  - apply (bool_decide_unpack _). vm_compute. exact I.
  - split; [done|]. split; [vm_compute; reflexivity|]. split; [left; vm_compute; reflexivity|].
    intros Hp%Permutation_length. vm_compute in Hp. discriminate.
Defined.
