(* ===== verification/Discovery.v ===== *)
(** * Peer discovery (internal/cluster/model.go, helper.go, discovery.go)

    The identity and address of a Cue node, their validation, and the two
    sources of the peer map: a YAML file read at startup and an HTTP endpoint
    polled while the proxy runs. The decoders and the HTTP client are
    parameters. *)

From S2P Require Import Prelude GoRuntime GoNet Config.

Local Open Scope string_scope.

(** ** IdentityKind, a uint8 *)

Inductive IdentityKind :=
  | IdentityDNS
  | IdentityIP
  | IdentitySPIFFE
  | IdentityOther (n : Z).

#[export] Instance IdentityKind_eq_dec : EqDecision IdentityKind.
Proof. solve_decision. Defined.

Definition identityKindStrings (k : IdentityKind) : option string :=
  match k with
  | IdentityDNS => Some "dns"
  | IdentityIP => Some "ip"
  | IdentitySPIFFE => Some "spiffe"
  | IdentityOther _ => None
  end.

Definition stringToIdentityKind (s : string) : option IdentityKind :=
  if decide (s = "dns") then Some IdentityDNS
  else if decide (s = "ip") then Some IdentityIP
  else if decide (s = "spiffe") then Some IdentitySPIFFE
  else None.

(** The number of a kind. *)
Definition IdentityKind_num (k : IdentityKind) : Z :=
  match k with
  | IdentityDNS => 0
  | IdentityIP => 1
  | IdentitySPIFFE => 2
  | IdentityOther n => n
  end.

Definition IdentityKind_String (k : IdentityKind) : string :=
  match identityKindStrings k with
  | Some s => s
  | None => "unknown(" +:+ pretty (IdentityKind_num k) +:+ ")"
  end.

(** The text is kept as a string; the error is always nil. *)
Definition MarshalText (k : IdentityKind) : string := IdentityKind_String k.

Definition UnmarshalText (u : unicode) (text : string) : result string IdentityKind :=
  let s := ToLower u (TrimSpace u text) in
  match stringToIdentityKind s with
  | Some kind => Ok kind
  | None => Err ("unknown identity kind: " +:+ s)
  end.

(** ** Identities and peers *)

Record TLSIdentity := mkTLSIdentity {
  id_Kind : IdentityKind;
  id_Value : string
}.

Definition TLSIdentity_String (i : TLSIdentity) : string :=
  match id_Kind i with
  | IdentityDNS => "DNS:" +:+ id_Value i
  | IdentityIP => "IP:" +:+ id_Value i
  | IdentitySPIFFE => "SPIFFE:" +:+ id_Value i
  | IdentityOther _ => "Unknown:" +:+ id_Value i
  end.

Definition TLSIdentity_Validate (u : unicode) (i : TLSIdentity) : option string :=
  if decide (TrimSpace u (id_Value i) = "") then Some "identity value is required"
  else
    match id_Kind i with
    | IdentityOther _ =>
        Some ("unknown identity kind: " +:+ IdentityKind_String (id_Kind i)
              +:+ " (valid: dns, ip, spiffe)")
    | IdentityDNS =>
        if (253 <? String.length (id_Value i))%nat then
          Some "DNS name too long (max 253 characters)"
        else None
    | IdentityIP =>
        match ParseIP (id_Value i) with
        | None => Some ("invalid IP address in identity: " +:+ id_Value i)
        | Some _ => None
        end
    | IdentitySPIFFE =>
        if HasPrefix (ToLower u (id_Value i)) "spiffe://" then None
        else Some "SPIFFE identity must start with spiffe://"
    end.

(** Port is a uint16. *)
Record PeerInfo := mkPeerInfo {
  pi_NodeID : string;
  pi_Host : string;
  pi_Port : Z;
  pi_Identity : TLSIdentity
}.

Definition PeerInfo_String (p : PeerInfo) : string :=
  "NodeID:" +:+ pi_NodeID p +:+ ", IP:" +:+ pi_Host p +:+ ", Port:" +:+ pretty (pi_Port p)
  +:+ ", Identity:" +:+ TLSIdentity_String (pi_Identity p).

Definition PeerInfo_Validate (u : unicode) (p : PeerInfo) : option string :=
  if decide (TrimSpace u (pi_NodeID p) = "") then Some "node_id is required"
  else if (64 <? String.length (pi_NodeID p))%nat then
    Some "node_id too long (max 64 characters)"
  else if bool_decide (TrimSpace u (pi_Host p) ≠ "") && bool_decide (ParseIP (pi_Host p) = None)
  then Some ("invalid IP address: " +:+ pi_Host p)
  else
    match TLSIdentity_Validate u (pi_Identity p) with
    | Some err => Some ("invalid identity: " +:+ err)
    | None => None
    end.

#[export] Instance TLSIdentity_eq_dec : EqDecision TLSIdentity.
Proof. solve_decision. Defined.
#[export] Instance PeerInfo_eq_dec : EqDecision PeerInfo.
Proof. solve_decision. Defined.

(** ** The discovery file *)

Section File.
(** os.ReadFile and yaml.Unmarshal into a struct with the list of nodes. *)
Context (ReadFile : string → result string (list Z))
      (Unmarshal : list Z → result string (list PeerInfo))
      (u : unicode).

(** The loop over the nodes, from index [i]. *)
Fixpoint load_nodes (i : nat) (nodes : list PeerInfo) (infos : gmap string PeerInfo) :
  result string (gmap string PeerInfo) :=
match nodes with
| [] => Ok infos
| node :: rest =>
    match PeerInfo_Validate u node with
    | Some err =>
        Err ("validation failed for node at index " +:+ pretty (N.of_nat i) +:+ " ("
             +:+ pi_NodeID node +:+ "): " +:+ err)
    | None =>
        match infos !! pi_NodeID node with
        | Some _ => Err ("duplicate node_id: " +:+ pi_NodeID node)
        | None => load_nodes (S i) rest (<[pi_NodeID node := node]> infos)
        end
    end
end.

Definition LoadDiscoveryFile (pathStr : string) : result string (gmap string PeerInfo) :=
match ReadFile pathStr with
| Err err => Err ("failed to read discovery file " +:+ pathStr +:+ ": " +:+ err)
| Ok data =>
    match Unmarshal data with
    | Err err => Err ("failed to parse discovery.yml: " +:+ err)
    | Ok nodes =>
        if (length nodes =? 0)%nat then Err "no nodes defined in discovery file"
        else load_nodes 0 nodes ∅
    end
end.
End File.

(** ** The HTTP endpoint *)

Record httpPeersResponse := mkHttpPeersResponse {
  hp_Version : Z;
  hp_Peers : list PeerInfo
}.

(** An answer: the status code, and the body or the error of reading it. *)
Record http_response := mkHttpResponse {
  http_StatusCode : Z;
  http_Body : result string (list Z)
}.

(** The later entry replaces the earlier one with the same identifier. *)
Definition peers_map (peers : list PeerInfo) : gmap string PeerInfo :=
  fold_left (λ m p, <[pi_NodeID p := p]> m) peers ∅.

Section Http.
(** http.NewRequest, client.Do and json.Unmarshal. *)
Context (NewRequest : string → option string)
      (Do : string → result string http_response)
      (Unmarshal : list Z → result string httpPeersResponse).

Definition refreshFromHTTP (discoveryHTTPHost : string) : result string (gmap string PeerInfo) :=
if decide (discoveryHTTPHost = "") then Err "no HTTP endpoint configured"
else
  let addr := discoveryHTTPHost +:+ "?client=cueproxy" in
  match NewRequest addr with
  | Some err => Err ("failed to create request: " +:+ err)
  | None =>
      match Do addr with
      | Err err => Err ("http request failed: " +:+ err)
      | Ok resp =>
          if negb (http_StatusCode resp =? 200)%Z then
            Err ("http status not OK: " +:+ pretty (http_StatusCode resp))
          else
            match http_Body resp with
            | Err err => Err ("failed to read response: " +:+ err)
            | Ok body =>
                match Unmarshal body with
                | Ok httpResp =>
                    if (0 <? hp_Version httpResp)%Z then
                      if negb (hp_Version httpResp =? 1)%Z then
                        Err ("unsupported version: " +:+ pretty (hp_Version httpResp))
                      else Ok (peers_map (hp_Peers httpResp))
                    else Err "received empty peer list"
                | Err _ => Err "received empty peer list"
                end
            end
      end
  end.
End Http.

(** The discovery fields of ClusterAgent; [ds_locked] tells whether some
    goroutine holds discoveryMu. *)
Record DiscoveryState := mkDiscoveryState {
  ds_discovery : gmap string PeerInfo;
  ds_locked : bool;
  ds_discovering : bool
}.

(** updateDiscovery, given what refreshFromHTTP returns. *)
Definition updateDiscovery (fetched : result string (gmap string PeerInfo)) (s : DiscoveryState) :
    exec DiscoveryState :=
  if ds_discovering s then Returns s
  else
    match fetched with
    | Err _ => Returns s
    | Ok peers =>
        if (size peers =? 0)%nat then Returns s
        else if ds_locked s then Blocks
        else Returns (mkDiscoveryState peers false false)
    end.

(** syncPeers: one update at once, then one at each tick; nothing for static
    discovery. The list holds what the endpoint answers at each of them. *)
Fixpoint sync_updates (fetches : list (result string (gmap string PeerInfo)))
    (s : DiscoveryState) : exec DiscoveryState :=
  match fetches with
  | [] => Returns s
  | f :: rest => s ← updateDiscovery f s; sync_updates rest s
  end.

Definition syncPeers (kind : DiscoveryKind) (fetches : list (result string (gmap string PeerInfo)))
    (s : DiscoveryState) : exec DiscoveryState :=
  if decide (kind = DiscoveryKindHttp) then sync_updates fetches s else Returns s.

(** ** Properties of the data *)

Lemma stringToIdentityKind_spec s k :
  stringToIdentityKind s = Some k ↔ identityKindStrings k = Some s.
Proof.
  unfold stringToIdentityKind. repeat case_decide; destruct k; cbn; naive_solver.
Qed.

(** The text of a known identity kind reads back as that kind, and a text is
    read as a kind only if it is the kind's name, up to surrounding space and
    letter case. *)
Theorem identity_text_roundtrip (u : unicode) :
  (∀ k, is_Some (identityKindStrings k) → UnmarshalText u (MarshalText k) = Ok k) ∧
  (∀ text k, UnmarshalText u text = Ok k ↔
             identityKindStrings k = Some (ToLower u (TrimSpace u text))).
Proof.
  split.
  - intros k [s Hs]. destruct k; [reflexivity..|done].
  - intros text k. unfold UnmarshalText. rewrite <- stringToIdentityKind_spec.
    destruct (stringToIdentityKind _); naive_solver.
Qed.

(** What an identity must satisfy. *)
Definition identity_ok (u : unicode) (i : TLSIdentity) : Prop :=
  TrimSpace u (id_Value i) ≠ "" ∧
  match id_Kind i with
  | IdentityDNS => (String.length (id_Value i) <= 253)%nat
  | IdentityIP => is_Some (ParseIP (id_Value i))
  | IdentitySPIFFE => HasPrefix (ToLower u (id_Value i)) "spiffe://" = true
  | IdentityOther _ => False
  end.

Definition peer_ok (u : unicode) (p : PeerInfo) : Prop :=
  TrimSpace u (pi_NodeID p) ≠ "" ∧ (String.length (pi_NodeID p) <= 64)%nat ∧
  (TrimSpace u (pi_Host p) = "" ∨ is_Some (ParseIP (pi_Host p))) ∧
  identity_ok u (pi_Identity p).

Lemma TLSIdentity_Validate_ok u i : TLSIdentity_Validate u i = None ↔ identity_ok u i.
Proof.
  unfold TLSIdentity_Validate, identity_ok.
  case_decide; [naive_solver|]. destruct (id_Kind i); repeat case_match; reflect_arith;
    split; intros; dest_hyps; try done; try (split; [done|]); eauto; try lia.
Qed.

Lemma PeerInfo_Validate_ok u p : PeerInfo_Validate u p = None ↔ peer_ok u p.
Proof.
  unfold PeerInfo_Validate, peer_ok. rewrite <- TLSIdentity_Validate_ok.
  case_decide; [naive_solver|]. case_match; reflect_arith; [split; [done|intros; dest_hyps; lia]|].
  destruct (decide (TrimSpace u (pi_Host p) = "")) as [Ht|Ht].
  - rewrite bool_decide_false by tauto. cbn. destruct (TLSIdentity_Validate _ _); naive_solver.
  - rewrite bool_decide_true by done. cbn.
    destruct (ParseIP (pi_Host p)) as [ip|]; cbn.
    + destruct (TLSIdentity_Validate _ _); naive_solver.
    + split; [done|]. intros (_ & _ & [?|[? ?]] & _); done.
Qed.

(** A peer validates exactly when its identifier is not blank and has at
    most 64 bytes, its host is blank or an IP address, and its identity names a
    DNS name of at most 253 bytes, an IP address, or a SPIFFE URI. *)
Theorem PeerInfo_Validate_exact (u : unicode) (p : PeerInfo) :
  PeerInfo_Validate u p = None ↔ peer_ok u p.
Proof. apply PeerInfo_Validate_ok. Qed.

(** ** The discovery file *)

Lemma load_nodes_ok u i nodes infos m :
  load_nodes u i nodes infos = Ok m ↔
  Forall (peer_ok u) nodes ∧ NoDup (pi_NodeID <$> nodes) ∧
  Forall (λ p, infos !! pi_NodeID p = None) nodes ∧
  m = fold_left (λ m p, <[pi_NodeID p := p]> m) nodes infos.
Proof.
  revert i infos. induction nodes as [|p nodes IH]; intros i infos; cbn.
  { split; [intros [= <-]; repeat constructor|by intros (_ & _ & _ & ->)]. }
  rewrite NoDup_cons, !Forall_cons, <- (PeerInfo_Validate_ok u p).
  destruct (PeerInfo_Validate u p); [naive_solver|].
  destruct (infos !! pi_NodeID p) eqn:Hp; [naive_solver|].
  rewrite IH, list_elem_of_fmap, !Forall_forall. setoid_rewrite lookup_insert_None.
  naive_solver.
Qed.

Lemma peers_map_list_to_map nodes (m : gmap string PeerInfo) :
  NoDup (pi_NodeID <$> nodes) →
  fold_left (λ m p, <[pi_NodeID p := p]> m) nodes m
  = list_to_map ((λ p, (pi_NodeID p, p)) <$> nodes) ∪ m.
Proof.
  revert m. induction nodes as [|p nodes IH]; intros m; cbn; [by rewrite (left_id_L ∅ (∪))|].
  intros [Hp Hn]%NoDup_cons. rewrite IH by done.
  rewrite <- insert_union_r, insert_union_l; [done|].
  apply not_elem_of_list_to_map_1. rewrite <- list_fmap_compose. exact Hp.
Qed.

Section FileProps.
Context (ReadFile : string → result string (list Z))
      (Unmarshal : list Z → result string (list PeerInfo))
      (u : unicode).

(** C34: Loading the discovery file succeeds exactly when it can be read and
  decoded, lists at least one node, every node is valid and no two share an
  identifier; the result then maps each identifier to its node. *)
Theorem LoadDiscoveryFile_exact (path : string) (m : gmap string PeerInfo) :
LoadDiscoveryFile ReadFile Unmarshal u path = Ok m ↔
∃ data nodes, ReadFile path = Ok data ∧ Unmarshal data = Ok nodes ∧ nodes ≠ [] ∧
  Forall (peer_ok u) nodes ∧ NoDup (pi_NodeID <$> nodes) ∧
  m = list_to_map ((λ p, (pi_NodeID p, p)) <$> nodes).
Proof.
unfold LoadDiscoveryFile. destruct (ReadFile path) as [data|].
2: { split; [done|]. by intros (? & ? & [=] & _). }
destruct (Unmarshal data) as [nodes|] eqn:Hu.
2: { split; [done|]. intros (? & ? & [= <-] & ? & _). congruence. }
destruct (length nodes =? 0)%nat eqn:Hl; reflect_arith.
{ apply nil_length_inv in Hl as ->. split; [done|]. intros (? & ? & [= <-] & ? & ? & _). congruence. }
rewrite load_nodes_ok. split.
- intros (Hf & Hn & _ & ->). exists data, nodes. rewrite peers_map_list_to_map by done.
  rewrite (right_id_L ∅ (∪)). split_and!; try done. by intros ->.
- intros (data' & nodes' & [= <-] & ? & _ & Hf & Hn & ->). assert (nodes' = nodes) as -> by congruence.
  split_and!; try done; [|by rewrite peers_map_list_to_map, (right_id_L ∅ (∪))].
  apply Forall_forall. intros. apply lookup_empty.
Qed.
End FileProps.

(** ** The HTTP endpoint *)

Lemma peers_map_snoc peers p : peers_map (peers ++ [p]) = <[pi_NodeID p := p]> (peers_map peers).
Proof. unfold peers_map. by rewrite fold_left_app. Qed.

(** Every peer in the map is one of the answer's, under its own identifier. *)
Lemma peers_map_lookup peers id p :
  peers_map peers !! id = Some p → p ∈ peers ∧ pi_NodeID p = id.
Proof.
  induction peers as [|q peers IH] using rev_ind; [done|].
  rewrite peers_map_snoc, elem_of_app, lookup_insert_Some. set_solver.
Qed.

(** While nobody holds the discovery lock, an update never empties the peer
    map and never mixes two answers: afterwards the map is the old one, or
    exactly the non-empty map of the answer fetched. *)
Theorem updateDiscovery_atomic fetched s :
  ds_locked s = false →
  ∃ s', updateDiscovery fetched s = Returns s' ∧
    ds_locked s' = false ∧ ds_discovering s' = ds_discovering s ∧
    (ds_discovery s' = ds_discovery s ∨
     ds_discovering s = false ∧ fetched = Ok (ds_discovery s') ∧ ds_discovery s' ≠ ∅) ∧
    (ds_discovery s ≠ ∅ → ds_discovery s' ≠ ∅).
Proof.
  intros Hl. unfold updateDiscovery. destruct (ds_discovering s) eqn:Hd; [eauto 10|].
  destruct fetched as [peers|]; [|eauto 10].
  destruct (size peers =? 0)%nat eqn:Hs; reflect_arith; [eauto 10|].
  rewrite Hl. eexists. split; [done|]. cbn.
  apply map_size_non_empty_iff in Hs. eauto 10.
Qed.

(** The peers of an HTTP answer are not validated. *)
Definition bad_peer : PeerInfo := mkPeerInfo "" "not an address" 0 (mkTLSIdentity (IdentityOther 9) "").

Example http_peers_not_validated :
  PeerInfo_Validate ascii_unicode bad_peer ≠ None ∧
  refreshFromHTTP (λ _, None) (λ _, Ok (mkHttpResponse 200 (Ok [])))
    (λ _, Ok (mkHttpPeersResponse 1 [bad_peer])) "http://peers" = Ok {["" := bad_peer]}.
Proof. split; vm_compute; [discriminate|reflexivity]. Qed.

Theorem updateDiscovery_atomic_witness :
  ∃ s', updateDiscovery (Ok {["n" := bad_peer]}) (mkDiscoveryState ∅ false false) = Returns s' ∧
    ds_discovery s' = {["n" := bad_peer]}.
Proof.
  destruct (updateDiscovery_atomic (Ok {["n" := bad_peer]}) (mkDiscoveryState ∅ false false) eq_refl)
    as (s' & Hs & _).
  exists s'. split; [exact Hs|]. vm_compute in Hs. injection Hs as <-. reflexivity.
Defined.
