(* ===== verification/Transport.v ===== *)
(** * Transport (internal/cluster/quic.go, tls.go, tasks.go)

    Frames, the dial with its handshake and identity check, sending with
    retries, and the task that keeps the connections in step with discovery.
    QUIC, TLS and msgpack are parameters; a connection is a number. *)

From S2P Require Import Prelude GoRuntime GoNet Messages Metrics Config Discovery Leadership.

Local Open Scope Z_scope.

Abbreviation connid := nat.

(** ** Errors (error.go) *)

Inductive send_error :=
  | ErrDeadlineExceeded
  | ErrConnNotFound
  | ErrMaxRetriesExceeded
  | ErrLeaderUnavailable
  | ErrSend (msg : string).

#[export] Instance send_error_eq_dec : EqDecision send_error.
Proof. solve_decision. Defined.

Definition send_error_Error (e : send_error) : string :=
  match e with
  | ErrDeadlineExceeded => "deadline exceeded"
  | ErrConnNotFound => "no connection found to node"
  | ErrMaxRetriesExceeded => "max retries exceeded"
  | ErrLeaderUnavailable => "leader unavailable"
  | ErrSend msg => msg
  end.

(** ** Frames *)

(** What a stream delivers: its bytes, and how it ends after them. *)
Inductive io_error := EOF | ErrUnexpectedEOF | IOError (msg : string).

Record stream := mkStream { sm_bytes : bytes; sm_end : io_error }.

(** io.ReadFull into a buffer of [n] bytes, n > 0. *)
Definition ReadFull (n : Z) (s : stream) : result io_error (bytes * stream) :=
  if n <=? Z.of_nat (length (sm_bytes s)) then
    Ok (take (Z.to_nat n) (sm_bytes s), mkStream (drop (Z.to_nat n) (sm_bytes s)) (sm_end s))
  else
    match sm_end s with
    | EOF => Err (if (length (sm_bytes s) =? 0)%nat then EOF else ErrUnexpectedEOF)
    | e => Err e
    end.

Inductive read_failure :=
  | ReadIO (e : io_error)
  | InvalidMessageSize (length : Z)
  | UnmarshalFailed (msg : string).

Definition max_message : Z := 10 * 1024 * 1024.

Definition decode_length (lenBuf : bytes) : Z :=
  match lenBuf with
  | [b0; b1; b2; b3] => LE.get_uint32 b0 b1 b2 b3
  | _ => 0
  end.

Section Read.
(** msgpack.Unmarshal into a ToProxyMessage. *)
Context (Unmarshal : bytes → result string ToProxyMessage).

Definition readRequest (s : stream) (m : ClusterMetrics) :
    result read_failure ToProxyMessage * ClusterMetrics :=
  match ReadFull 4 s with
  | Err e => (Err (ReadIO e), ReceiveError m)
  | Ok (lenBuf, s) =>
      let length := decode_length lenBuf in
      if (length =? 0) || (max_message <? length) then (Err (InvalidMessageSize length), m)
      else
        match ReadFull length s with
        | Err e => (Err (ReadIO e), ReceiveError m)
        | Ok (data, _) =>
            match Unmarshal data with
            | Err e => (Err (UnmarshalFailed e), ReceiveError m)
            | Ok req => (Ok req, AddBytesReceived length (MessageReceived m))
            end
        end
  end.
End Read.

(** The bytes of a message on the wire. *)
Definition frame (data : bytes) : bytes :=
  LE.put_uint32 (uint32 (Z.of_nat (length data))) ++ data.

Section Send.
(** msgpack.Marshal of a request. *)
Context (Marshal : ProxyRequest → result string bytes).

(** What the connection does with one request: opening the stream and the two
    writes, each with the error it returns. *)
Record send_env := mkSendEnv {
  se_open : option string;
  se_write_len : option string;
  se_write_data : option string
}.

(** The bytes written if everything went well. *)
Definition sendRequest (env : send_env) (req : ProxyRequest) (m : ClusterMetrics) :
    result string bytes * ClusterMetrics :=
  match se_open env with
  | Some err => (Err err, m)
  | None =>
      match Marshal req with
      | Err err => (Err err, m)
      | Ok data =>
          match se_write_len env with
          | Some err => (Err err, m)
          | None =>
              match se_write_data env with
              | Some err => (Err err, m)
              | None =>
                  (Ok (frame data), AddBytesSent (Z.of_nat (length data)) (MessageSent m))
              end
          end
      end
  end.

(** ** Sending with retries *)

Definition millisecond : Z := 1000000.
Definition maxRetries : nat := 3.
Definition first_backoff : Z := 5 * millisecond.
Definition max_backoff : Z := 100 * millisecond.
Definition send_deadline : Z := 400 * millisecond.

(** What an attempt finds: the clock, the connection in the map, and how the
    connection behaves. *)
Record attempt_env := mkAttempt {
  at_now : Z;
  at_conn : option connid;
  at_send : connid → send_env
}.

(** The error returned (nil is [None]), the frames written, the times slept. *)
Record send_outcome := mkSendOutcome {
  so_err : option send_error;
  so_frames : list bytes;
  so_sleeps : list Z
}.

Definition slept (d : Z) (o : send_outcome) : send_outcome :=
  mkSendOutcome (so_err o) (so_frames o) (d :: so_sleeps o).

(** [left] attempts remain; the number of the attempt is [maxRetries - left]. *)
Fixpoint send_attempts (left : nat) (env : nat → attempt_env) (deadline backoff : Z)
    (req : ProxyRequest) (m : ClusterMetrics) : send_outcome * ClusterMetrics :=
  match left with
  | O => (mkSendOutcome (Some ErrMaxRetriesExceeded) [] [], m)
  | S left' =>
      let attempt := (maxRetries - left)%nat in
      let e := env attempt in
      if deadline <? at_now e then (mkSendOutcome (Some ErrDeadlineExceeded) [] [], m)
      else
        match at_conn e with
        | None =>
            if (attempt <? maxRetries - 1)%nat then
              let '(o, m) := send_attempts left' env deadline (Z.min (backoff * 2) max_backoff) req m in
              (slept backoff o, m)
            else (mkSendOutcome (Some ErrConnNotFound) [] [], m)
        | Some conn =>
            match sendRequest (at_send e conn) req m with
            | (Err err, m) =>
                let m := SendError m in
                if (attempt <? maxRetries - 1)%nat then
                  let '(o, m) :=
                    send_attempts left' env deadline (Z.min (backoff * 2) max_backoff) req m in
                  (slept backoff o, m)
                else (mkSendOutcome (Some (ErrSend err)) [] [], m)
            | (Ok f, m) => (mkSendOutcome None [f] [], m)
            end
        end
  end.

(** [start] is the time of the call; [env k] the attempt number [k]. *)
Definition sendRequestByNodeID (start : Z) (env : nat → attempt_env) (req : ProxyRequest)
    (m : ClusterMetrics) : send_outcome * ClusterMetrics :=
  send_attempts maxRetries env (start + send_deadline) first_backoff req m.

(** The type assertion panics when nothing was stored in currentLeader. [env]
    is what the attempts find for a node. *)
Definition sendToLeader (l : Leadership) (start : Z) (env : string → nat → attempt_env)
    (req : ProxyRequest) (m : ClusterMetrics) : exec (send_outcome * ClusterMetrics) :=
  match currentLeader l with
  | None => Panics TypeAssertion
  | Some leaderID =>
      if bool_decide (leaderID = "") || negb (leaderAvailable l) then
        Returns (mkSendOutcome (Some ErrLeaderUnavailable) [] [], m)
      else Returns (sendRequestByNodeID start (env leaderID) req m)
  end.
End Send.

(** *** Reading back a frame *)

Lemma length_frame data : length (frame data) = S (S (S (S (length data)))).
Proof. done. Qed.

Lemma ReadFull_app a b e :
  ReadFull (Z.of_nat (length a)) (mkStream (a ++ b) e) = Ok (a, mkStream b e).
Proof.
  unfold ReadFull. cbn. rewrite length_app, (proj2 (Z.leb_le _ _)) by lia.
  by rewrite Nat2Z.id, take_app_length, drop_app_length.
Qed.

(** A stream that ends too early. *)
Lemma ReadFull_short n bs :
  Z.of_nat (length bs) < n →
  ReadFull n (mkStream bs EOF) = Err (if (length bs =? 0)%nat then EOF else ErrUnexpectedEOF).
Proof. intros. unfold ReadFull. cbn. by rewrite (proj2 (Z.leb_gt _ _)). Qed.

Lemma decode_length_put v : is_uint32 v → decode_length (LE.put_uint32 v) = v.
Proof. intros Hv. apply (LE.get_put_uint32 v Hv). Qed.



(** A stream that ends inside a frame never yields a message: the error is
    EOF if it ends before the length or right after it, an unexpected EOF
    otherwise, and counts as a receive error. *)
Theorem truncated_frame_refused Unmarshal data k m :
  0 < Z.of_nat (length data) <= max_message →
  (k < length (frame data))%nat →
  readRequest Unmarshal (mkStream (take k (frame data)) EOF) m
  = (Err (ReadIO (if bool_decide (k = 0 ∨ k = 4)%nat then EOF else ErrUnexpectedEOF)), ReceiveError m).
Proof.
  intros Hn Hk.
  assert (is_uint32 (Z.of_nat (length data))) as Hl by (unfold is_uint32, max_message in *; lia).
  unfold readRequest. destruct (decide (k < 4)%nat) as [Hlt|Hge].
  - assert (length (take k (frame data)) = k) as Hlen by (rewrite length_take; lia).
    rewrite ReadFull_short by lia. rewrite Hlen.
    destruct k; [done|]. cbn [Nat.eqb]. by rewrite bool_decide_false by lia.
  - assert (take k (frame data) = LE.put_uint32 (Z.of_nat (length data)) ++ take (k - 4) data) as ->.
    { unfold frame. rewrite uint32_small, take_app_ge by (done || (rewrite LE.length_put_uint32; lia)). done. }
    change 4 with (Z.of_nat (length (LE.put_uint32 (Z.of_nat (length data))))).
    rewrite ReadFull_app, decode_length_put by done.
    rewrite (proj2 (Z.eqb_neq _ 0)), (proj2 (Z.ltb_ge max_message _)) by lia. cbn [orb].
    rewrite length_frame in Hk.
    assert (length (take (k - 4) data) = (k - 4)%nat) as Hlen by (rewrite length_take; lia).
    rewrite ReadFull_short by lia. rewrite Hlen.
    destruct (Nat.eqb_spec (k - 4) 0); [rewrite bool_decide_true by lia|rewrite bool_decide_false by lia];
      done.
Qed.

Definition no_decoder : bytes → result string ToProxyMessage := λ _, Err "".


Theorem truncated_frame_refused_witness :
  readRequest no_decoder (mkStream (take 5 (frame [1; 2])) EOF) no_metrics
  = (Err (ReadIO ErrUnexpectedEOF), ReceiveError no_metrics).
Proof.
  apply (truncated_frame_refused no_decoder [1; 2] 5 no_metrics).
  - vm_compute. split; [reflexivity|discriminate].
  - vm_compute. repeat constructor.
Defined.

(** *** What sending amounts to *)

(** What one attempt comes to. *)
Inductive attempt_result := Late | NoConn | Failed (err : string) | Sent (f : bytes).

Definition attempt_of Marshal (e : attempt_env) (deadline : Z) (req : ProxyRequest) : attempt_result :=
  if deadline <? at_now e then Late
  else
    match at_conn e with
    | None => NoConn
    | Some conn =>
        match (sendRequest Marshal (at_send e conn) req no_metrics).1 with
        | Err err => Failed err
        | Ok f => Sent f
        end
    end.

Definition retried (r : attempt_result) : Prop := r = NoConn ∨ ∃ err, r = Failed err.

(** The result of the attempt that ends the loop. *)
Definition ends_with (k : nat) (r : attempt_result) (err : option send_error) (fs : list bytes) : Prop :=
  match r with
  | Late => err = Some ErrDeadlineExceeded ∧ fs = []
  | Sent f => err = None ∧ fs = [f]
  | NoConn => k = 2%nat ∧ err = Some ErrConnNotFound ∧ fs = []
  | Failed e => k = 2%nat ∧ err = Some (ErrSend e) ∧ fs = []
  end.

Lemma sendRequest_result Marshal env req m m' :
  (sendRequest Marshal env req m).1 = (sendRequest Marshal env req m').1.
Proof. unfold sendRequest. by repeat case_match. Qed.

Lemma send_attempts_S Marshal left env deadline backoff req m :
  let k := (maxRetries - S left)%nat in
  let o := (send_attempts Marshal (S left) env deadline backoff req m).1 in
  let r := attempt_of Marshal (env k) deadline req in
  (k < 2)%nat ∧ retried r ∧
    (∃ m', o = slept backoff
      (send_attempts Marshal left env deadline (Z.min (backoff * 2) max_backoff) req m').1) ∨
  ((2 <= k)%nat ∨ ¬ retried r) ∧ so_sleeps o = [] ∧
    match r with
    | Late => so_err o = Some ErrDeadlineExceeded ∧ so_frames o = []
    | Sent f => so_err o = None ∧ so_frames o = [f]
    | NoConn => so_err o = Some ErrConnNotFound ∧ so_frames o = []
    | Failed e => so_err o = Some (ErrSend e) ∧ so_frames o = []
    end.
Proof.
  cbv zeta. cbn [send_attempts]. unfold attempt_of, retried.
  set (k := (maxRetries - S left)%nat). destruct (deadline <? at_now (env k)); [naive_solver|].
  destruct (at_conn (env k)) as [c|].
  - rewrite (sendRequest_result _ _ _ no_metrics m).
    destruct (sendRequest Marshal (at_send (env k) c) req m) as [[f|err] m1]; [cbn; naive_solver|]. cbn [fst].
    destruct (k <? maxRetries - 1)%nat eqn:Hk; reflect_arith; change (maxRetries - 1)%nat with 2%nat in Hk.
    + left. split; [lia|]. split; [eauto|]. exists (SendError m1). by destruct (send_attempts _ _ _ _ _ _ _).
    + right. split; [left; lia|done].
  - destruct (k <? maxRetries - 1)%nat eqn:Hk; reflect_arith; change (maxRetries - 1)%nat with 2%nat in Hk.
    + left. split; [lia|]. split; [eauto|]. exists m. by destruct (send_attempts _ _ _ _ _ _ _).
    + right. split; [left; lia|done].
Qed.

(** C25: Sending makes at most three attempts, at indices 0, 1 and 2, and sleeps
    5 ms then 10 ms between them. All attempts before the last one found no
    connection or failed; the last one decides the result: the frame was
    written, exactly once, and there is no error, or the deadline had passed,
    or it was the third and its error is returned. "max retries exceeded" is
    never returned. *)
Theorem sendRequestByNodeID_exact Marshal start env req m :
  let o := (sendRequestByNodeID Marshal start env req m).1 in
  let result_of k := attempt_of Marshal (env k) (start + send_deadline) req in
  so_err o ≠ Some ErrMaxRetriesExceeded ∧
  ∃ k, (k <= 2)%nat ∧ (∀ j, (j < k)%nat → retried (result_of j)) ∧
    ends_with k (result_of k) (so_err o) (so_frames o) ∧
    so_sleeps o = take k [5 * millisecond; 10 * millisecond].
Proof.
  intros o result_of. subst o. unfold sendRequestByNodeID, maxRetries.
  assert (∀ k err fs, ends_with k (result_of k) err fs → err ≠ Some ErrMaxRetriesExceeded) as Hmax.
  { intros k err fs. unfold ends_with. destruct (result_of k); naive_solver. }
  assert (∀ k err fs, ¬ retried (result_of k) ∨ k = 2%nat →
    match result_of k with
    | Late => err = Some ErrDeadlineExceeded ∧ fs = []
    | Sent f => err = None ∧ fs = [f]
    | NoConn => err = Some ErrConnNotFound ∧ fs = []
    | Failed e => err = Some (ErrSend e) ∧ fs = []
    end → ends_with k (result_of k) err fs) as Hend.
  { intros k err fs. unfold ends_with, retried. destruct (result_of k); naive_solver. }
  enough (∃ k, (k <= 2)%nat ∧ (∀ j, (j < k)%nat → retried (result_of j)) ∧
    ends_with k (result_of k) (so_err (send_attempts Marshal 3 env (start + send_deadline) first_backoff req m).1)
      (so_frames (send_attempts Marshal 3 env (start + send_deadline) first_backoff req m).1) ∧
    so_sleeps (send_attempts Marshal 3 env (start + send_deadline) first_backoff req m).1
      = take k [5 * millisecond; 10 * millisecond]) as (k & ? & ? & ? & ?) by eauto 10.
  destruct (send_attempts_S Marshal 2 env (start + send_deadline) first_backoff req m)
    as [(_ & Hr0 & m1 & ->)|(Hn & Hs & Hr)]; cbn [Nat.sub maxRetries] in *.
  2: { exists 0%nat. split; [lia|]. split; [lia|]. split; [|done]. apply Hend; [left; destruct Hn as [?|Hn]; [lia|exact Hn]|exact Hr]. }
  destruct (send_attempts_S Marshal 1 env (start + send_deadline)
    (Z.min (first_backoff * 2) max_backoff) req m1) as [(_ & Hr1 & m2 & ->)|(Hn & Hs & Hr)];
    cbn [Nat.sub maxRetries] in *.
  2: { exists 1%nat. split; [lia|]. split; [intros [|]; [done|lia]|].
       cbn [slept so_err so_frames so_sleeps]. rewrite Hs. split; [|done].
       apply Hend; [left; destruct Hn as [?|Hn]; [lia|exact Hn]|exact Hr]. }
  destruct (send_attempts_S Marshal 0 env (start + send_deadline)
    (Z.min (Z.min (first_backoff * 2) max_backoff * 2) max_backoff) req m2)
    as [(? & _)|(Hn & Hs & Hr)]; cbn [Nat.sub maxRetries] in *; [lia|].
  exists 2%nat. split; [lia|]. split; [intros [|[|]]; [done|done|lia]|].
  cbn [slept so_err so_frames so_sleeps]. rewrite Hs. split; [|done]. apply Hend; [by right|exact Hr].
Qed.

(** ** Dialling a node *)

Record URL := mkURL { url_Scheme : string; url_String : string }.

(** The fields of an x509 certificate the identity check reads; [c_raw] stands
    for the rest of it. *)
Record Certificate := mkCertificate {
  c_raw : bytes;
  c_DNSNames : list string;
  c_IPAddresses : list (list Z);
  c_URIs : list URL
}.

Definition VerifyTLSIdentity (cert : Certificate) (expected : TLSIdentity) : option string :=
  match id_Kind expected with
  | IdentityDNS =>
      if bool_decide (id_Value expected ∈ c_DNSNames cert) then None
      else Some ("certificate does not contain expected DNS SAN: " +:+ id_Value expected
                 +:+ ". cert.DNSNames: [" +:+ Join (c_DNSNames cert) " " +:+ "]")%string
  | IdentityIP =>
      match ParseIP (id_Value expected) with
      | None => Some ("invalid IP in expected identity: " +:+ id_Value expected)%string
      | Some expectedIP =>
          if existsb (λ ip, IP_Equal ip expectedIP) (c_IPAddresses cert) then None
          else Some ("certificate does not contain expected IP SAN: " +:+ id_Value expected)%string
      end
  | IdentitySPIFFE =>
      if existsb (λ uri, bool_decide (url_Scheme uri = "spiffe")
                         && bool_decide (url_String uri = id_Value expected)) (c_URIs cert)
      then None
      else Some ("certificate does not contain expected SPIFFE URI: " +:+ id_Value expected)%string
  | IdentityOther n => Some ("unsupported identity kind: " +:+ pretty n)%string
  end.

Inductive ConnectionType := ConnectionTypeInbound | ConnectionTypeOutbound.

Definition protocolVersion : Z := 1.

Record Handshake := mkHandshake {
  hs_ProxyID : string;
  hs_ConnectionType : ConnectionType;
  hs_ProtocolVersion : Z
}.

Record HandshakeResponse := mkHandshakeResponse {
  hsr_Status : string;
  hsr_Message : string;
  hsr_NodeID : string
}.

(** quic.DialAddr with its verification callback, x509's Verify, opening the
    handshake stream, and msgpack on it. *)
Record quic_env := mkQuicEnv {
  q_DialAddr : string → (list Certificate → option string) →
               result string (connid * list Certificate);
  q_Verify : Certificate → list Certificate → option string;
  q_OpenStreamSync : connid → option string;
  q_Encode : connid → Handshake → option string;
  q_Decode : connid → result string HandshakeResponse
}.

(** crypto/tls: the handshake completes only if VerifyConnection returned nil
    on the certificates the peer presented. *)
Definition dial_runs_callback (q : quic_env) : Prop :=
  ∀ addr cb c certs, q_DialAddr q addr cb = Ok (c, certs) → cb certs = None.

(** The callback of dialWithHandshake. *)
Definition verifyConnection (q : quic_env) (certs : list Certificate) : option string :=
  match certs with
  | [] => Some "no peer certificate"%string
  | leaf :: intermediates =>
      match q_Verify q leaf intermediates with
      | Some err => Some ("certificate chain verification failed: " +:+ err)%string
      | None => None
      end
  end.

Definition remote_addr (peer : PeerInfo) : string :=
  let host := if decide (pi_Host peer = ""%string) then pi_NodeID peer else pi_Host peer in
  JoinHostPort host (pretty (pi_Port peer)).

(** The connection or the error, and the connection the call opened and did
    not close. *)
Definition dialWithHandshake (q : quic_env) (proxyID : string) (connType : ConnectionType)
    (peer : PeerInfo) : exec (result string connid * option connid) :=
  match q_DialAddr q (remote_addr peer) (verifyConnection q) with
  | Err err => Returns (Err err, None)
  | Ok (conn, certs) =>
      match certs with
      | [] => Panics IndexOutOfRange
      | leaf :: _ =>
          match VerifyTLSIdentity leaf (pi_Identity peer) with
          | Some err => Returns (Err err, Some conn)
          | None =>
              match q_OpenStreamSync q conn with
              | Some err => Returns (Err err, None) (* CloseWithError *)
              | None =>
                  match q_Encode q conn (mkHandshake proxyID connType protocolVersion) with
                  | Some err => Returns (Err err, Some conn)
                  | None =>
                      match q_Decode q conn with
                      | Err err => Returns (Err err, Some conn)
                      | Ok resp =>
                          if decide (hsr_NodeID resp = ""%string) then
                            Returns (Err ("handshake failed: " +:+ hsr_Message resp)%string, Some conn)
                          else Returns (Ok conn, Some conn)
                      end
                  end
              end
          end
      end
  end.

(** The connection maps; [cs_open] are the connections the proxy opened and
    did not close, [cs_accepting] those it handed to a goroutine running
    handleRecvConnection, with the sender's name. *)
Record Connections := mkConnections {
  sendConns : gmap string connid;
  recvConns : gmap string connid;
  nodeToAddr : gmap string string;
  addressToNode : gmap string string;
  cs_open : gset connid;
  cs_accepting : gmap connid string
}.

Definition opened (c : option connid) (s : Connections) : Connections :=
  match c with
  | None => s
  | Some c =>
      mkConnections (sendConns s) (recvConns s) (nodeToAddr s) (addressToNode s)
        ({[c]} ∪ cs_open s) (cs_accepting s)
  end.

Definition dial_error (peer : PeerInfo) (err : string) : string :=
  ("dial to " +:+ pi_NodeID peer +:+ " failed: " +:+ err)%string.

Definition dialSendConnection (q : quic_env) (proxyID : string) (peer : PeerInfo) (s : Connections) :
    exec (option string * Connections) :=
  '(r, c) ← dialWithHandshake q proxyID ConnectionTypeInbound peer;
  let s := opened c s in
  match r with
  | Err err => Returns (Some (dial_error peer err), s)
  | Ok conn =>
      Returns (None, mkConnections (<[pi_NodeID peer := conn]> (sendConns s)) (recvConns s)
        (nodeToAddr s) (addressToNode s) (cs_open s) (cs_accepting s))
  end.

Definition dialRecvConnection (q : quic_env) (proxyID : string) (peer : PeerInfo) (s : Connections) :
    exec (option string * Connections) :=
  '(r, c) ← dialWithHandshake q proxyID ConnectionTypeOutbound peer;
  let s := opened c s in
  match r with
  | Err err => Returns (Some (dial_error peer err), s)
  | Ok conn =>
      Returns (None, mkConnections (sendConns s) (<[pi_NodeID peer := conn]> (recvConns s))
        (nodeToAddr s) (addressToNode s) (cs_open s) (<[conn := pi_NodeID peer]> (cs_accepting s)))
  end.

(** ** handleRecvConnection *)

(** What AcceptStream returned on a connection whose goroutine runs: the stream
    and the node it is handled for ([go a.handleSingleStream(senderID, stream)]),
    or the end of the goroutine, which closes the connection. *)
Definition handleRecvConnection (conn : connid) (accepted : result string stream) (s : Connections)
    : option (option (string * stream) * Connections) :=
  match cs_accepting s !! conn with
  | None => None
  | Some senderID =>
      match accepted with
      | Ok st => Some (Some (senderID, st), s)
      | Err _ =>
          Some (None, mkConnections (sendConns s) (recvConns s) (nodeToAddr s) (addressToNode s)
                        (cs_open s ∖ {[conn]}) (delete conn (cs_accepting s)))
      end
  end.

(** ** syncConnectionsTask *)

(** The entries of a connection map whose node is not desired are closed and
    removed. *)
Definition keep_nodes (ids : list string) (m : gmap string connid) : gmap string connid :=
  filter (λ kv, kv.1 ∈ ids) m.
Definition drop_nodes (ids : list string) (m : gmap string connid) : gmap string connid :=
  filter (λ kv, kv.1 ∉ ids) m.

Definition values (m : gmap string connid) : gset connid := list_to_set (snd <$> map_to_list m).

Definition remove_nodes (ids : list string) (s : Connections) : Connections :=
  let gone := dom (drop_nodes ids (sendConns s)) ∪ dom (drop_nodes ids (recvConns s)) in
  mkConnections (keep_nodes ids (sendConns s)) (keep_nodes ids (recvConns s))
    (filter (λ kv, kv.1 ∉ gone) (nodeToAddr s)) (filter (λ kv, kv.1 ∉ gone) (addressToNode s))
    (cs_open s ∖ (values (drop_nodes ids (sendConns s)) ∪ values (drop_nodes ids (recvConns s))))
    (cs_accepting s).

(** !ok || con.Context().Err() != nil *)
Definition needs_dial (alive : connid → bool) (m : gmap string connid) (id : string) : bool :=
  match m !! id with
  | None => true
  | Some c => negb (alive c)
  end.

(** The goroutine of one peer. *)
Definition connect_peer (q : quic_env) (proxyID : string) (alive : connid → bool) (ni : PeerInfo)
    (s : Connections) : exec Connections :=
  s ← (if needs_dial alive (sendConns s) (pi_NodeID ni) then
         snd <$> dialSendConnection q proxyID ni s else Returns s);
  if needs_dial alive (recvConns s) (pi_NodeID ni) then
    snd <$> dialRecvConnection q proxyID ni s else Returns s.

Fixpoint connect_peers (q : quic_env) (proxyID : string) (alive : connid → bool)
    (peers : list PeerInfo) (s : Connections) : exec Connections :=
  match peers with
  | [] => Returns s
  | ni :: rest => s ← connect_peer q proxyID alive ni s; connect_peers q proxyID alive rest s
  end.

(** One tick. [range] gives the order in which the map is traversed; the
    peers' goroutines, which touch different entries, are run in that order. *)
Definition syncConnections (q : quic_env) (proxyID : string) (alive : connid → bool)
    (range : gmap string PeerInfo → list PeerInfo) (ds : DiscoveryState) (s : Connections) :
    exec (DiscoveryState * Connections) :=
  if ds_locked ds then Blocks (* discoveryMu.Lock() *)
  else if (size (ds_discovery ds) =? 0)%nat then
    (* continue, without discoveryMu.Unlock() *)
    Returns (mkDiscoveryState (ds_discovery ds) true (ds_discovering ds), s)
  else
    let peers := range (ds_discovery ds) in
    if (length peers =? 0)%nat then Returns (ds, s)
    else
      s ← connect_peers q proxyID alive peers (remove_nodes (pi_NodeID <$> peers) s);
      Returns (ds, s).

(** *** Properties of the dial *)

(** The certificate carries the identity the configuration expects. *)
Definition identity_matches (cert : Certificate) (i : TLSIdentity) : Prop :=
  match id_Kind i with
  | IdentityDNS => id_Value i ∈ c_DNSNames cert
  | IdentityIP =>
      ∃ expected ip, ParseIP (id_Value i) = Some expected ∧ ip ∈ c_IPAddresses cert ∧
                     IP_Equal ip expected = true
  | IdentitySPIFFE => mkURL "spiffe" (id_Value i) ∈ c_URIs cert
  | IdentityOther _ => False
  end.

Lemma VerifyTLSIdentity_ok cert i : VerifyTLSIdentity cert i = None ↔ identity_matches cert i.
Proof.
  unfold VerifyTLSIdentity, identity_matches. destruct (id_Kind i).
  - case_bool_decide; naive_solver.
  - destruct (ParseIP (id_Value i)) as [e|]; [|naive_solver].
    case_match eqn:He.
    + apply existsb_exists in He as (ip & Hip & He). apply list_elem_of_In in Hip. naive_solver.
    + split; [done|]. intros (e' & ip & [= <-] & Hip & Heq).
      assert (existsb (λ ip, IP_Equal ip e) (c_IPAddresses cert) = true); [|congruence].
      apply existsb_exists. exists ip. by rewrite <- list_elem_of_In.
  - case_match eqn:He.
    + apply existsb_exists in He as ([sch str] & Hu & [Hc%bool_decide_eq_true Hs%bool_decide_eq_true]%andb_true_iff).
      cbn in Hc, Hs. subst sch str. apply list_elem_of_In in Hu. naive_solver.
    + split; [done|]. intros Hu.
      assert (existsb (λ uri, bool_decide (url_Scheme uri = "spiffe")
        && bool_decide (url_String uri = id_Value i)) (c_URIs cert) = true); [|congruence].
      apply existsb_exists. eexists. split; [by apply list_elem_of_In|]. cbn. by rewrite !bool_decide_true.
  - naive_solver.
Qed.

Lemma verifyConnection_ok q certs :
  verifyConnection q certs = None ↔
  ∃ leaf intermediates, certs = leaf :: intermediates ∧ q_Verify q leaf intermediates = None.
Proof.
  unfold verifyConnection. destruct certs as [|leaf inter]; [naive_solver|].
  destruct (q_Verify q leaf inter) eqn:Hv; naive_solver.
Qed.

Lemma dial_returns q proxyID ct peer :
  dial_runs_callback q → ∃ r, dialWithHandshake q proxyID ct peer = Returns r.
Proof.
  intros Hq. unfold dialWithHandshake. destruct (q_DialAddr _ _ _) as [[c certs]|] eqn:Hd; [|eauto].
  apply Hq, verifyConnection_ok in Hd as (leaf & inter & -> & _).
  repeat case_match; eauto.
Qed.

(** What is true of a connection the handshake accepted. *)
Definition accepted_by (q : quic_env) (proxyID : string) (ct : ConnectionType) (peer : PeerInfo)
    (c : connid) : Prop :=
  ∃ leaf intermediates resp,
    q_DialAddr q (remote_addr peer) (verifyConnection q) = Ok (c, leaf :: intermediates) ∧
    q_Verify q leaf intermediates = None ∧
    identity_matches leaf (pi_Identity peer) ∧
    q_Encode q c (mkHandshake proxyID ct protocolVersion) = None ∧
    q_Decode q c = Ok resp ∧ hsr_NodeID resp ≠ ""%string.

Lemma dial_ok q proxyID ct peer c o :
  dial_runs_callback q →
  dialWithHandshake q proxyID ct peer = Returns (Ok c, o) → accepted_by q proxyID ct peer c.
Proof.
  intros Hq. unfold dialWithHandshake. destruct (q_DialAddr _ _ _) as [[c' certs]|] eqn:Hd; [|done].
  pose proof (Hq _ _ _ _ Hd) as (leaf & inter & -> & Hv)%verifyConnection_ok.
  destruct (VerifyTLSIdentity leaf _) eqn:Hi; [done|]. apply VerifyTLSIdentity_ok in Hi.
  destruct (q_OpenStreamSync q c'); [done|]. destruct (q_Encode q c' _) eqn:He; [done|].
  destruct (q_Decode q c') as [resp|] eqn:Hr; [|done]. case_decide; [done|]. intros [= <- <-].
  by exists leaf, inter, resp.
Qed.

(** C28: A connection enters the send map only under the peer it was dialled
    for, after the certificate chain was verified, the leaf certificate carries
    the identity configured for that peer, and the node answered the handshake
    with an identifier; a failed dial leaves both maps as they were. *)
Theorem send_connection_verified q proxyID peer s e s' :
  dial_runs_callback q →
  dialSendConnection q proxyID peer s = Returns (e, s') →
  recvConns s' = recvConns s ∧
  match e with
  | Some _ => sendConns s' = sendConns s
  | None => ∃ c, sendConns s' = <[pi_NodeID peer := c]> (sendConns s) ∧
                 accepted_by q proxyID ConnectionTypeInbound peer c
  end.
Proof.
  intros Hq. unfold dialSendConnection. intros [[r o] [Hd Hr]]%exec_bind_returns.
  destruct r as [c|err]; simplify_eq; cbn.
  - apply dial_ok in Hd; [|done]. destruct o; cbn; eauto.
  - by destruct o.
Qed.

Lemma dialSend_maps q proxyID peer s e s' :
  dialSendConnection q proxyID peer s = Returns (e, s') →
  recvConns s' = recvConns s ∧
  (sendConns s' = sendConns s ∨ ∃ c, sendConns s' = <[pi_NodeID peer := c]> (sendConns s)).
Proof.
  unfold dialSendConnection. intros [[r o] [Hd Hr]]%exec_bind_returns.
  destruct r, o; simplify_eq; cbn; eauto.
Qed.

Lemma dialRecv_maps q proxyID peer s e s' :
  dialRecvConnection q proxyID peer s = Returns (e, s') →
  sendConns s' = sendConns s ∧
  (recvConns s' = recvConns s ∨ ∃ c, recvConns s' = <[pi_NodeID peer := c]> (recvConns s)).
Proof.
  unfold dialRecvConnection. intros [[r o] [Hd Hr]]%exec_bind_returns.
  destruct r, o; simplify_eq; cbn; eauto.
Qed.

(** *** Properties of a tick *)

(** The entries of [m'] are those of nodes in [ids], or old ones, and a live
    connection is never replaced. *)
Definition map_kept (alive : connid → bool) (ids : list string) (m m' : gmap string connid) : Prop :=
  (∀ id, is_Some (m' !! id) → is_Some (m !! id) ∨ id ∈ ids) ∧
  (∀ id c, m !! id = Some c → alive c = true → m' !! id = Some c).

#[export] Instance map_kept_refl alive ids : Reflexive (map_kept alive ids).
Proof. intros m. split; auto. Qed.

#[export] Instance map_kept_trans alive ids : Transitive (map_kept alive ids).
Proof. intros m1 m2 m3 [H1 H1'] [H2 H2']. split; [|eauto]. intros id [H|]%H2; auto. Qed.

Lemma map_kept_insert alive ids m id c :
  needs_dial alive m id = true → id ∈ ids → map_kept alive ids m (<[id := c]> m).
Proof.
  intros Hn Hid. split.
  - intros id' [->|[_ H]]%lookup_insert_is_Some; auto.
  - intros id' c' Hc Ha. destruct (decide (id = id')) as [->|]; [|by rewrite lookup_insert_ne].
    exfalso. unfold needs_dial in Hn. rewrite Hc, Ha in Hn. done.
Qed.

Lemma connect_peer_kept q proxyID alive ni ids s s' :
  pi_NodeID ni ∈ ids →
  connect_peer q proxyID alive ni s = Returns s' →
  map_kept alive ids (sendConns s) (sendConns s') ∧ map_kept alive ids (recvConns s) (recvConns s').
Proof.
  intros Hid. unfold connect_peer. intros (s1 & H1 & H2)%exec_bind_returns.
  assert (recvConns s1 = recvConns s ∧ map_kept alive ids (sendConns s) (sendConns s1)) as [Hr Hs].
  { destruct (needs_dial alive (sendConns s) _) eqn:Hn; [|by simplify_eq].
    apply exec_fmap_returns in H1 as ([e s2] & [Hr Hd]%dialSend_maps & ->). split; [done|].
    cbn. destruct Hd as [->|[c ->]]; [reflexivity|by apply map_kept_insert]. }
  destruct (needs_dial alive (recvConns s1) _) eqn:Hn; [|simplify_eq; rewrite Hr; split; [done|reflexivity]].
  apply exec_fmap_returns in H2 as ([e s2] & [Hs2 Hd]%dialRecv_maps & ->). cbn. rewrite Hs2, <- Hr.
  split; [done|]. destruct Hd as [->|[c ->]]; [reflexivity|by apply map_kept_insert].
Qed.

Lemma connect_peers_kept q proxyID alive ids peers s s' :
  (pi_NodeID <$> peers) ⊆ ids →
  connect_peers q proxyID alive peers s = Returns s' →
  map_kept alive ids (sendConns s) (sendConns s') ∧ map_kept alive ids (recvConns s) (recvConns s').
Proof.
  revert s. induction peers as [|ni peers IH]; intros s Hids; cbn [connect_peers].
  { intros [= <-]. split; reflexivity. }
  intros (s1 & H1 & H2)%exec_bind_returns. cbn in Hids.
  apply (connect_peer_kept _ _ _ _ ids) in H1 as [Hs Hr]; [|set_solver].
  apply IH in H2 as [Hs2 Hr2]; [|set_solver]. split; etrans; eauto.
Qed.

Lemma connect_peers_returns q proxyID alive peers s :
  dial_runs_callback q → ∃ s', connect_peers q proxyID alive peers s = Returns s'.
Proof.
  intros Hq. revert s. induction peers as [|ni peers IH]; intros s; cbn [connect_peers]; [eauto|].
  assert (∃ s', connect_peer q proxyID alive ni s = Returns s') as [s1 ->]; [|apply IH].
  unfold connect_peer, dialSendConnection, dialRecvConnection.
  destruct (dial_returns q proxyID ConnectionTypeInbound ni Hq) as [[[c|e] o] ->],
    (dial_returns q proxyID ConnectionTypeOutbound ni Hq) as [[[c'|e'] o'] ->];
    destruct (needs_dial alive (sendConns s) (pi_NodeID ni)); cbn;
    (match goal with |- context [needs_dial ?a ?m ?i] => destruct (needs_dial a m i) end); cbn; eauto.
Qed.

(** C27: While the lock is free and some peer is known, a tick of the sync task
    returns with the lock free; afterwards both connection maps hold only nodes
    of the discovery map, and every live connection to one of them is still the
    one in the map. *)
Theorem sync_tick_exact q proxyID alive range ds s :
  dial_runs_callback q →
  (∀ m p, p ∈ range m ↔ ∃ id, m !! id = Some p) →
  ds_locked ds = false → ds_discovery ds ≠ ∅ →
  let desired id := ∃ k p, ds_discovery ds !! k = Some p ∧ pi_NodeID p = id in
  ∃ s', syncConnections q proxyID alive range ds s = Returns (ds, s') ∧
    (∀ id, is_Some (sendConns s' !! id) ∨ is_Some (recvConns s' !! id) → desired id) ∧
    (∀ id c, desired id → alive c = true → sendConns s !! id = Some c → sendConns s' !! id = Some c) ∧
    (∀ id c, desired id → alive c = true → recvConns s !! id = Some c → recvConns s' !! id = Some c).
Proof.
  intros Hq Hrange Hl Hne desired. unfold syncConnections. rewrite Hl.
  destruct (size (ds_discovery ds) =? 0)%nat eqn:Hz; reflect_arith; [by apply map_size_empty_inv in Hz|].
  set (peers := range (ds_discovery ds)).
  assert (∀ id, id ∈ pi_NodeID <$> peers ↔ desired id) as Hids.
  { intros id. rewrite list_elem_of_fmap. unfold peers, desired. setoid_rewrite Hrange. naive_solver. }
  destruct (length peers =? 0)%nat eqn:Hp; reflect_arith.
  { apply nil_length_inv in Hp. destruct (map_choose _ Hne) as (k & p & Hkp).
    assert (p ∈ peers) as Hin by (apply Hrange; eauto). rewrite Hp in Hin. by apply not_elem_of_nil in Hin. }
  destruct (connect_peers_returns q proxyID alive peers (remove_nodes (pi_NodeID <$> peers) s) Hq)
    as [s' Hs']. exists s'. rewrite Hs'. split; [done|].
  apply (connect_peers_kept _ _ _ (pi_NodeID <$> peers)) in Hs' as [[Hs1 Hs2] [Hr1 Hr2]]; [|done].
  cbn [remove_nodes sendConns recvConns] in *. unfold keep_nodes in *. split_and!.
  - intros id [[H|H]%Hs1|[H|H]%Hr1]; try by apply Hids.
    all: destruct H as [c [_ Hc]%map_lookup_filter_Some]; by apply Hids.
  - intros id c Hd Ha Hc. apply Hs2; [|done]. apply map_lookup_filter_Some. by rewrite Hids.
  - intros id c Hd Ha Hc. apply Hr2; [|done]. apply map_lookup_filter_Some. by rewrite Hids.
Qed.

(** C40: A tick that finds no peer keeps the discovery lock for ever: every later
    tick waits for it, and so does every update of the map with an answer that
    has peers, so that the proxy never connects. *)
Theorem empty_discovery_deadlock q proxyID alive range ds s fetched :
  ds_locked ds = false → ds_discovery ds = ∅ → ds_discovering ds = false →
  ∃ ds', syncConnections q proxyID alive range ds s = Returns (ds', s) ∧
    syncConnections q proxyID alive range ds' s = Blocks ∧
    (fetched ≠ ∅ → updateDiscovery (Ok fetched) ds' = Blocks).
Proof.
  intros Hl He Hd. unfold syncConnections. rewrite Hl, He.
  eexists. split; [done|]. split; [done|]. intros Hf%map_size_non_empty_iff.
  unfold updateDiscovery. cbn. rewrite Hd. case_match eqn:Hs; [by reflect_arith|done].
Qed.

(** ** A concrete network *)

Module Net.

(** Two nodes; n2's certificate does not name it. A dial completes if the
    callback accepts the certificate. *)
Definition cert_of (addr : string) : list Certificate :=
  if decide (addr = "10.0.0.1:8322"%string) then [mkCertificate [] ["n1"%string] [] []]
  else [mkCertificate [] ["other"%string] [] []].

Definition quic : quic_env :=
  mkQuicEnv
    (λ addr cb, match cb (cert_of addr) with
                | Some err => Err err
                | None => Ok (String.length addr, cert_of addr)
                end)
    (λ _ _, None) (λ _, None) (λ _ _, None)
    (λ _, Ok (mkHandshakeResponse "refused" "" "n1")).

Lemma quic_runs_callback : dial_runs_callback quic.
Proof.
  intros addr cb c certs. cbn. destruct (cb (cert_of addr)) eqn:Hc; [done|].
  by intros [= <- <-].
Qed.

Definition peer1 : PeerInfo := mkPeerInfo "n1" "10.0.0.1" 8322 (mkTLSIdentity IdentityDNS "n1").
Definition peer2 : PeerInfo := mkPeerInfo "n2" "" 8322 (mkTLSIdentity IdentityDNS "n2").

Definition no_conns : Connections := mkConnections ∅ ∅ ∅ ∅ ∅ ∅.

Definition range (m : gmap string PeerInfo) : list PeerInfo := snd <$> map_to_list m.

Lemma range_spec m p : p ∈ range m ↔ ∃ id, m !! id = Some p.
Proof.
  unfold range. rewrite list_elem_of_fmap. split.
  - intros ([id p'] & -> & H%elem_of_map_to_list). eauto.
  - intros [id H]. exists (id, p). split; [done|]. by apply elem_of_map_to_list.
Qed.

End Net.

Theorem send_connection_verified_witness :
  ∃ c, sendConns (mkConnections {["n1"%string := 13%nat]} ∅ ∅ ∅ {[13%nat]} ∅)
       = <["n1"%string := c]> (sendConns Net.no_conns) ∧
  accepted_by Net.quic "p" ConnectionTypeInbound Net.peer1 c.
Proof.
  destruct (send_connection_verified Net.quic "p" Net.peer1 Net.no_conns None
    (mkConnections {["n1"%string := 13%nat]} ∅ ∅ ∅ {[13%nat]} ∅)) as [_ H].
  - exact Net.quic_runs_callback.
  - vm_compute. reflexivity.
  - exact H.
Defined.

Theorem sync_tick_exact_witness :
  ∃ s', syncConnections Net.quic "p" (λ _, true) Net.range
    (mkDiscoveryState {["n1"%string := Net.peer1]} false false) Net.no_conns
    = Returns (mkDiscoveryState {["n1"%string := Net.peer1]} false false, s').
Proof.
  destruct (sync_tick_exact Net.quic "p" (λ _, true) Net.range
    (mkDiscoveryState {["n1"%string := Net.peer1]} false false) Net.no_conns) as (s' & H & _).
  - exact Net.quic_runs_callback.
  - exact Net.range_spec.
  - reflexivity.
  - vm_compute. discriminate.
  - exists s'. exact H.
Defined.

Theorem empty_discovery_deadlock_witness :
  syncConnections Net.quic "p" (λ _, true) Net.range (mkDiscoveryState ∅ true false) Net.no_conns
  = Blocks.
Proof.
  destruct (empty_discovery_deadlock Net.quic "p" (λ _, true) Net.range
    (mkDiscoveryState ∅ false false) Net.no_conns ∅ eq_refl eq_refl eq_refl) as (ds' & H1 & H2 & _).
  vm_compute in H1. injection H1 as <-. exact H2.
Defined.

(** A node with the wrong certificate: the connection is opened and neither
    kept nor closed. *)
Example identity_mismatch_leaks :
  dialWithHandshake Net.quic "p" ConnectionTypeInbound Net.peer2
  = Returns (Err "certificate does not contain expected DNS SAN: n2. cert.DNSNames: [other]"%string,
             Some 7%nat).
Proof. vm_compute. reflexivity. Qed.

(** A handshake answer whose status is a refusal is accepted. *)
Example handshake_status_ignored :
  q_Decode Net.quic 13%nat = Ok (mkHandshakeResponse "refused" "" "n1") ∧
  dialWithHandshake Net.quic "p" ConnectionTypeInbound Net.peer1 = Returns (Ok 13%nat, Some 13%nat).
Proof. split; vm_compute; reflexivity. Qed.

(** ** QUIC and TLS settings (tls.go) *)

Record quic_Config := mkQuicConfig {
  qc_InitialPacketSize : Z;
  qc_InitialStreamReceiveWindow : Z;
  qc_MaxStreamReceiveWindow : Z;
  qc_InitialConnectionReceiveWindow : Z;
  qc_MaxConnectionReceiveWindow : Z;
  qc_MaxIncomingStreams : Z;
  qc_MaxIncomingUniStreams : Z;
  qc_MaxIdleTimeout : Z;
  qc_HandshakeIdleTimeout : Z;
  qc_KeepAlivePeriod : Z;
  qc_Allow0RTT : bool;
  qc_EnableDatagrams : bool
}.

Definition createTransportConfig : quic_Config :=
  let heartbeatInterval := 5 * 1000 * millisecond in
  let idleTimeout := 30 * 1000 * millisecond in
  mkQuicConfig 1350 2000000 8000000 8000000 32000000 10000 0
    idleTimeout (10 * 1000 * millisecond) heartbeatInterval false false.

(** tls.Config: [K] are key pairs, [P] certificate pools. *)
Record tls_Config (K P : Type) := mkTLSConfig {
  tls_Certificates : list K;
  tls_RootCAs : P;
  tls_MinVersion : Z;
  tls_SessionTicketsDisabled : bool;
  tls_InsecureSkipVerify : bool
}.
Arguments mkTLSConfig {K P}.
Arguments tls_InsecureSkipVerify {K P}.
Arguments tls_RootCAs {K P}.

Definition VersionTLS13 : Z := 0x0304.

Section TLS.
(** tls.LoadX509KeyPair, os.ReadFile and AppendCertsFromPEM on an empty pool. *)
Context {K P : Type} (LoadX509KeyPair : string → string → result string K)
  (ReadFile : string → result string bytes) (CertsFromPEM : bytes → option P).

Definition loadClientTLSConfig (certPath keyPath caCertPath : string) : result string (tls_Config K P) :=
  match LoadX509KeyPair certPath keyPath with
  | Err err => Err ("failed to load keypair: " +:+ err)%string
  | Ok cert =>
      match ReadFile caCertPath with
      | Err err => Err ("failed to read CA cert: " +:+ err)%string
      | Ok caCert =>
          match CertsFromPEM caCert with
          | None => Err "failed to parse CA certificate"%string
          | Some caCertPool => Ok (mkTLSConfig [cert] caCertPool VersionTLS13 true true)
          end
      end
  end.

(** The library's own verification is always off; the roots of the file are
    the ones verifyConnection uses. *)
Lemma loadClientTLSConfig_ok certPath keyPath caPath c :
  loadClientTLSConfig certPath keyPath caPath = Ok c →
  tls_InsecureSkipVerify c = true ∧
  ∃ pem, ReadFile caPath = Ok pem ∧ CertsFromPEM pem = Some (tls_RootCAs c).
Proof.
  unfold loadClientTLSConfig. intros H. repeat (case_match; simplify_eq). eauto.
Qed.
End TLS.

Lemma keepalive_before_idle :
  qc_KeepAlivePeriod createTransportConfig < qc_MaxIdleTimeout createTransportConfig.
Proof. vm_compute. reflexivity. Qed.
