(* ===== verification/Agent.v ===== *)
(** * Cluster agent (internal/cluster/agent.go, tasks.go, process.go, quic.go)

    The tasks of the agent: taking requests from the API, routing them into the
    per-topic buffers or to the leader, routing the leader's answers back, the
    batch of Done commands, the heartbeat, and the dispatch of one incoming
    message. How a request reaches the leader is an interface, [LeaderLink],
    which the transport implements. *)

From S2P Require Import Prelude GoRuntime Messages Config Consumer Router JobBuffer.
From S2P Require Import Metrics Leadership Discovery Transport.

Local Open Scope Z_scope.

(** ** The way to the leader *)

(** sendToLeader as its callers see it: an error or nil. *)
Class LeaderLink := {
  link_send : Leadership → ProxyRequest → exec (option send_error);
(** With a leader stored, the call returns. *)
  link_returns l req : is_Some (currentLeader l) → ∃ e, link_send l req = Returns e;
(** Without an available leader, the error says so. *)
  link_no_leader l req leader :
    currentLeader l = Some leader → leader = ""%string ∨ leaderAvailable l = false →
    link_send l req = Returns (Some ErrLeaderUnavailable)
}.

(** The transport's sendToLeader, started at [start] in the environment [env]. *)
#[export, refine] Instance transport_link (Marshal : ProxyRequest → result string bytes) (start : Z)
    (env : string → nat → attempt_env) (m : ClusterMetrics) : LeaderLink :=
  { link_send l req := (so_err ∘ fst) <$> sendToLeader Marshal l start env req m }.
Proof.
  - intros l req [leader Hl]. unfold sendToLeader. rewrite Hl. case_match; cbn; eauto.
  - intros l req leader Hl Hor. unfold sendToLeader. rewrite Hl.
    assert (bool_decide (leader = ""%string) || negb (leaderAvailable l) = true) as ->; [|done].
    destruct Hor as [->| ->]; [done|apply orb_true_r].
Defined.

(** ** State *)

(** The fields of ClusterAgent the tasks below change. [ag_respHeap] holds the
    channels producers wait on; [ag_log] records every request given to
    sendToLeader and the error it returned. *)
Record Agent := mkAgent {
  ag_proxyID : string;
  ag_leader : Leadership;
  ag_router : DefaultRouter;
  ag_requestMap : gmap Z (option chanid);
  ag_requestIdToTopic : gmap Z string;
  ag_topicJobBuffers : gmap string JobBuffer;
  ag_doneCmdBatchBuffer : gmap string (list string);
  ag_reqIDCounter : Z;
  ag_respHeap : resp_heap;
  ag_log : list (ProxyRequest * option send_error)
}.

Definition NewClusterAgent (proxyID : string) (router : DefaultRouter) (kind : DiscoveryKind) : Agent :=
  mkAgent proxyID (init_leadership kind) router ∅ ∅ ∅ ∅ 0 ∅ [].

Definition set_leader l (a : Agent) : Agent :=
  mkAgent (ag_proxyID a) l (ag_router a) (ag_requestMap a) (ag_requestIdToTopic a)
    (ag_topicJobBuffers a) (ag_doneCmdBatchBuffer a) (ag_reqIDCounter a) (ag_respHeap a) (ag_log a).
Definition set_router r (a : Agent) : Agent :=
  mkAgent (ag_proxyID a) (ag_leader a) r (ag_requestMap a) (ag_requestIdToTopic a)
    (ag_topicJobBuffers a) (ag_doneCmdBatchBuffer a) (ag_reqIDCounter a) (ag_respHeap a) (ag_log a).
Definition set_requestMap m (a : Agent) : Agent :=
  mkAgent (ag_proxyID a) (ag_leader a) (ag_router a) m (ag_requestIdToTopic a)
    (ag_topicJobBuffers a) (ag_doneCmdBatchBuffer a) (ag_reqIDCounter a) (ag_respHeap a) (ag_log a).
Definition set_requestIdToTopic m (a : Agent) : Agent :=
  mkAgent (ag_proxyID a) (ag_leader a) (ag_router a) (ag_requestMap a) m
    (ag_topicJobBuffers a) (ag_doneCmdBatchBuffer a) (ag_reqIDCounter a) (ag_respHeap a) (ag_log a).
Definition set_topicJobBuffers m (a : Agent) : Agent :=
  mkAgent (ag_proxyID a) (ag_leader a) (ag_router a) (ag_requestMap a) (ag_requestIdToTopic a)
    m (ag_doneCmdBatchBuffer a) (ag_reqIDCounter a) (ag_respHeap a) (ag_log a).
Definition set_done m (a : Agent) : Agent :=
  mkAgent (ag_proxyID a) (ag_leader a) (ag_router a) (ag_requestMap a) (ag_requestIdToTopic a)
    (ag_topicJobBuffers a) m (ag_reqIDCounter a) (ag_respHeap a) (ag_log a).
Definition set_reqIDCounter n (a : Agent) : Agent :=
  mkAgent (ag_proxyID a) (ag_leader a) (ag_router a) (ag_requestMap a) (ag_requestIdToTopic a)
    (ag_topicJobBuffers a) (ag_doneCmdBatchBuffer a) n (ag_respHeap a) (ag_log a).
Definition set_respHeap h (a : Agent) : Agent :=
  mkAgent (ag_proxyID a) (ag_leader a) (ag_router a) (ag_requestMap a) (ag_requestIdToTopic a)
    (ag_topicJobBuffers a) (ag_doneCmdBatchBuffer a) (ag_reqIDCounter a) h (ag_log a).
Definition log_send req e (a : Agent) : Agent :=
  mkAgent (ag_proxyID a) (ag_leader a) (ag_router a) (ag_requestMap a) (ag_requestIdToTopic a)
    (ag_topicJobBuffers a) (ag_doneCmdBatchBuffer a) (ag_reqIDCounter a) (ag_respHeap a)
    (ag_log a ++ [(req, e)]).

(** nextRequestID: an atomic uint32. *)
Definition nextRequestID (a : Agent) : Z * Agent :=
  let id := uint32 (ag_reqIDCounter a + 1) in (id, set_reqIDCounter id a).

(** ** Answers from the leader *)

(** select { case buffer.responseInputCh <- resp: default: } *)
Definition push_response (resp : ToProducerResponse) (b : JobBuffer) : JobBuffer :=
  set_responseInputCh (try_send (jb_responseInputCh b) resp).1 b.

(** A topic without a buffer is left alone. *)
Definition to_buffer (topic : string) (resp : ToProducerResponse) (a : Agent) : Agent :=
  match ag_topicJobBuffers a !! topic with
  | Some b => set_topicJobBuffers (<[topic := push_response resp b]> (ag_topicJobBuffers a)) a
  | None => a
  end.

Definition handleResponse (resp : ToProducerResponse) (a : Agent) : Agent :=
  let id := tp_RequestID resp in
  match ag_requestMap a !! id with
  | Some respCh =>
      set_respHeap (send_default respCh resp (ag_respHeap a))
        (set_requestMap (delete id (ag_requestMap a)) a)
  | None =>
      match ag_requestIdToTopic a !! id with
      | None => a
      | Some topic =>
          let a := to_buffer topic resp a in
          set_requestIdToTopic (delete id (ag_requestIdToTopic a)) a
      end
  end.

Section Tasks.
Context `{LeaderLink}.

(** A call of sendToLeader. *)
Definition send_to_leader (req : ProxyRequest) (a : Agent) : exec (option send_error * Agent) :=
  e ← link_send (ag_leader a) req;
  Returns (e, log_send req e a).

(** ** Requests from the API *)

(** LoadOrStore; only this goroutine creates buffers, and a new one's goroutine
    starts with it. *)
Definition getOrCreateJobBuffer (topic : string) (a : Agent) : JobBuffer * Agent :=
  match ag_topicJobBuffers a !! topic with
  | Some b => (b, a)
  | None =>
      let b := NewJobBuffer topic in
      (b, set_topicJobBuffers (<[topic := b]> (ag_topicJobBuffers a)) a)
  end.

Definition handleAddJobsRequest (req : ApiRequestWithRespCh) (a : Agent) : Agent :=
  match pr_AddJobs (ar_ProxyRequest req) with
  | None => a
  | Some p =>
      if decide (aj_Topic p = ""%string) then a
      else
        let topic := aj_Topic p in
        let '(b, a) := getOrCreateJobBuffer topic a in
        let '(c, sent) := try_send (jb_apiInputCh b) req in
        if sent then
          set_topicJobBuffers (<[topic := set_apiInputCh c b]> (ag_topicJobBuffers a)) a
        else
          (* a nil channel takes the default branch as well *)
          set_respHeap (send_default (ar_RespCh req)
            (error_response (pr_RequestID (ar_ProxyRequest req)) "proxy busy") (ag_respHeap a)) a
  end.

Definition handleDoneRequest (req : ApiRequestWithRespCh) (a : Agent) : Agent :=
  match pr_Done (ar_ProxyRequest req) with
  | None => a
  | Some d =>
      set_done (<[dn_Topic d := default [] (ag_doneCmdBatchBuffer a !! dn_Topic d) ++ dn_JobIDs d]>
                  (ag_doneCmdBatchBuffer a)) a
  end.

Definition handleAddTopicRequest (req : ApiRequestWithRespCh) (a : Agent) : exec Agent :=
  let id := pr_RequestID (ar_ProxyRequest req) in
  let a := set_requestMap (<[id := ar_RespCh req]> (ag_requestMap a)) a in
  '(e, a) ← send_to_leader (ar_ProxyRequest req) a;
  match e with
  | None => Returns a
  | Some _ =>
      let a := set_requestMap (delete id (ag_requestMap a)) a in
      Returns (set_respHeap (send_default (ar_RespCh req)
        (error_response id "leader unavailable") (ag_respHeap a)) a)
  end.

(** One round of requestReceiverTask. *)
Definition receive_request (req : ApiRequestWithRespCh) (a : Agent) : exec Agent :=
  match pr_Type (ar_ProxyRequest req) with
  | ReqAddJobs => Returns (handleAddJobsRequest req a)
  | ReqDone => Returns (handleDoneRequest req a)
  | ReqAddTopic => handleAddTopicRequest req a
  | ReqHeartbeatReport => Returns a
  end.

(** ** Batches from the buffers *)

(** The registration made before the send; the topic is that of the batch's
    first job. *)
Definition register_batch (request : ProxyRequest) (a : Agent) : exec (option (string * Agent)) :=
  match pr_AddJobs request with
  | None => Returns None
  | Some p =>
      match aj_Jobs p with
      | [] => Panics IndexOutOfRange
      | None :: _ => Panics NilDereference
      | Some j :: _ =>
          Returns (Some (job_Topic j,
            set_requestIdToTopic (<[pr_RequestID request := job_Topic j]> (ag_requestIdToTopic a)) a))
      end
  end.

Definition handleSendJobs (request : ProxyRequest) (a : Agent) : exec Agent :=
  r ← register_batch request a;
  match r with
  | None => Returns a
  | Some (topic, a) =>
      '(e, a) ← send_to_leader request a;
      match e with
      | None => Returns a
      | Some err =>
          let a := set_requestIdToTopic (delete (pr_RequestID request) (ag_requestIdToTopic a)) a in
          Returns (to_buffer topic (error_response (pr_RequestID request) (send_error_Error err)) a)
      end
  end.

(** ** Done commands *)

(** flushTopic up to the send: the request and the ids it carries. *)
Definition flush_take (topic : string) (a : Agent) : option (ProxyRequest * list string * Agent) :=
  match ag_doneCmdBatchBuffer a !! topic with
  | None | Some [] => None
  | Some jobIDs =>
      let '(id, a) := nextRequestID a in
      Some (done_request id (mkDone topic jobIDs), jobIDs,
            set_done (<[topic := []]> (ag_doneCmdBatchBuffer a)) a)
  end.

(** The part after a failed send. *)
Definition flush_restore (topic : string) (jobsCopy : list string) (a : Agent) : Agent :=
  if (length (default [] (ag_doneCmdBatchBuffer a !! topic)) =? 0)%nat then
    set_done (<[topic := default [] (ag_doneCmdBatchBuffer a !! topic) ++ jobsCopy]>
                (ag_doneCmdBatchBuffer a)) a
  else a.

(** The whole of flushTopic when nothing comes in between. *)
Definition flushTopic (topic : string) (a : Agent) : exec Agent :=
  match flush_take topic a with
  | None => Returns a
  | Some (request, jobsCopy, a) =>
      '(e, a) ← send_to_leader request a;
      match e with
      | None => Returns a
      | Some _ => Returns (flush_restore topic jobsCopy a)
      end
  end.

Fixpoint flush_topics (topics : list string) (a : Agent) : exec Agent :=
  match topics with
  | [] => Returns a
  | topic :: rest => a ← flushTopic topic a; flush_topics rest a
  end.

(** [range] gives the order in which the map is traversed. *)
Definition flushAllTopics (range : gmap string (list string) → list string) (a : Agent) : exec Agent :=
  flush_topics (range (ag_doneCmdBatchBuffer a)) a.

(** ** Heartbeats to the leader *)

Definition send_report (now : Z) (capacities : list TopicCapacity) (a : Agent) : exec Agent :=
  let '(id, a) := nextRequestID a in
  snd <$> send_to_leader (heartbeat_request id (mkHeartbeatReport (ag_proxyID a) (now `div` second) capacities)) a.

(** A tick of heartbeatTask; [cs] are the consumers, [topics] the router's
    topics in the order the report visits them. *)
Definition heartbeat_tick (now : Z) (cs : gmap cref Consumer)
    (topics : list (string * gmap string cref)) (a : Agent) : exec Agent :=
  let '(capacities, r) := BuildHeartbeatReport now cs topics (ag_router a) in
  send_report now capacities (set_router r a).

(** ** One incoming message *)

(** handleSingleStream after a successful read: the agent and whether
    updateDiscovery was started. The clock readings are [now] (jobs, report)
    and [seen], [now1], [now2] (heartbeat). *)
Definition route_message (now seen now1 now2 : Z) (senderID : string) (msg : ToProxyMessage)
    (a : Agent) : exec (Agent * bool) :=
  if decide (tpm_Type msg = ProxyMessageResponse) then
    match tpm_Response msg with
    | None => Returns (a, false)
    | Some resp => Returns (handleResponse resp a, false)
    end
  else if decide (tpm_Type msg = ProxyMessageOutbound) then
    match tpm_Outbound msg with
    | None => Returns (a, false)
    | Some out =>
        let '(rejected, r) := EnqueueJobs now (tcm_Topic out) (tcm_Jobs out) (ag_router a) in
        let a := set_router r a in
        if 0 <? rejected then
          a ← send_report now [mkTopicCapacity (tcm_Topic out) 0] a; Returns (a, false)
        else Returns (a, false)
    end
  else if decide (tpm_Type msg = ProxyMessageHeartbeat) then
    match tpm_Heartbeat msg with
    | None => Returns (a, false)
    | Some hb =>
        let '(l, spawn) := handleHeartbeat seen now1 now2 senderID hb (ag_leader a) in
        Returns (set_leader l a, spawn)
    end
  else Returns (a, false).

Definition handleSingleStream (Unmarshal : bytes → result string ToProxyMessage)
    (now seen now1 now2 : Z) (senderID : string) (s : stream) (m : ClusterMetrics) (a : Agent) :
    exec (Agent * bool * ClusterMetrics) :=
  match readRequest Unmarshal s m with
  | (Err _, m) => Returns (a, false, m)
  | (Ok msg, m) =>
      '(a, spawn) ← route_message now seen now1 now2 senderID msg a;
      Returns (a, spawn, m)
  end.

End Tasks.

(** ** Answers *)

(** The answer to an AddTopic request reaches the channel its producer waits
    on, once: the identifier is then forgotten, and a repeated answer, if no
    batch has the same identifier, changes nothing. *)
Theorem add_topic_answered_once resp ch c a :
  ag_requestMap a !! tp_RequestID resp = Some (Some ch) →
  ag_respHeap a !! ch = Some c → Z.of_nat (chan_len c) < ch_cap c →
  ag_requestIdToTopic a !! tp_RequestID resp = None →
  let a' := handleResponse resp a in
  ag_respHeap a' !! ch = Some (chan_push c resp) ∧
  ag_requestMap a' !! tp_RequestID resp = None ∧
  ag_topicJobBuffers a' = ag_topicJobBuffers a ∧
  (∀ resp', tp_RequestID resp' = tp_RequestID resp → handleResponse resp' a' = a').
Proof.
  intros Hm Hc Hs Ht a'.
  assert (a' = set_respHeap (send_default (Some ch) resp (ag_respHeap a))
    (set_requestMap (delete (tp_RequestID resp) (ag_requestMap a)) a)) as ->.
  { unfold a', handleResponse. by rewrite Hm. }
  cbn. split_and!; [by apply send_default_space|apply lookup_delete_eq|done|].
  intros resp' He. unfold handleResponse. rewrite He. cbn. by rewrite lookup_delete_eq, Ht.
Qed.

Lemma to_buffer_Some topic resp b a :
  ag_topicJobBuffers a !! topic = Some b →
  to_buffer topic resp a
  = set_topicJobBuffers (<[topic := push_response resp b]> (ag_topicJobBuffers a)) a.
Proof. intros Hb. unfold to_buffer. by rewrite Hb. Qed.

Lemma to_buffer_None topic resp a :
  ag_topicJobBuffers a !! topic = None → to_buffer topic resp a = a.
Proof. intros Hb. unfold to_buffer. by rewrite Hb. Qed.

Lemma to_buffer_fields topic resp a :
  ag_requestMap (to_buffer topic resp a) = ag_requestMap a ∧
  ag_requestIdToTopic (to_buffer topic resp a) = ag_requestIdToTopic a.
Proof. unfold to_buffer. by case_match. Qed.

(** The answer to a batch: to the buffer of the topic it was registered for. *)
Lemma handleResponse_batch resp topic a :
  ag_requestMap a !! tp_RequestID resp = None →
  ag_requestIdToTopic a !! tp_RequestID resp = Some topic →
  handleResponse resp a =
  set_requestIdToTopic (delete (tp_RequestID resp) (ag_requestIdToTopic a)) (to_buffer topic resp a).
Proof.
  intros Hm Ht. unfold handleResponse. rewrite Hm, Ht. cbv zeta.
  by destruct (to_buffer_fields topic resp a) as [_ ->].
Qed.

Section Batches.
Context `{LeaderLink}.

(** What sending one batch does, given the leader's side. *)
Lemma handleSendJobs_spec req p j js e a :
  pr_AddJobs req = Some p → aj_Jobs p = Some j :: js →
  link_send (ag_leader a) req = Returns e →
  handleSendJobs req a = Returns
    match e with
    | None =>
        log_send req None
          (set_requestIdToTopic (<[pr_RequestID req := job_Topic j]> (ag_requestIdToTopic a)) a)
    | Some err =>
        to_buffer (job_Topic j) (error_response (pr_RequestID req) (send_error_Error err))
          (set_requestIdToTopic (delete (pr_RequestID req) (ag_requestIdToTopic a))
            (log_send req (Some err) a))
    end.
Proof.
  intros Hp Hj He. unfold handleSendJobs, register_batch. rewrite Hp, Hj. cbn.
  unfold send_to_leader. cbn. rewrite He. cbn. destruct e as [err|]; [|done].
  by rewrite delete_insert_eq.
Qed.

(** The buffers after an answer was offered to that of [topic]: it is queued
    there if there is such a buffer and its queue of answers is not full. *)
Definition offered (topic : string) (R : ToProducerResponse) (bs : gmap string JobBuffer)
    : gmap string JobBuffer :=
  alter (λ b, if chan_full (jb_responseInputCh b) then b
              else set_responseInputCh (chan_push (jb_responseInputCh b) R) b) topic bs.

Lemma to_buffer_offered topic R a :
  ag_topicJobBuffers (to_buffer topic R a) = offered topic R (ag_topicJobBuffers a).
Proof.
  unfold to_buffer, offered, push_response, try_send.
  apply map_eq. intros k. destruct (decide (topic = k)) as [<-|Hne].
  - rewrite lookup_alter_eq. destruct (ag_topicJobBuffers a !! topic) as [b|] eqn:Hb; cbn; [|by rewrite Hb].
    rewrite lookup_insert_eq. cbn. case_match; [by destruct b|done].
  - rewrite lookup_alter_ne by done. destruct (ag_topicJobBuffers a !! topic); [|done].
    cbn. by rewrite lookup_insert_ne.
Qed.

Lemma to_buffer_maps topic R a :
  ag_requestMap (to_buffer topic R a) = ag_requestMap a ∧
  ag_requestIdToTopic (to_buffer topic R a) = ag_requestIdToTopic a ∧
  ag_respHeap (to_buffer topic R a) = ag_respHeap a.
Proof. unfold to_buffer. by case_match. Qed.

(** C13: Where the answer to a batch goes. If the batch was sent, the leader's
    answer is offered to the buffer its first job names and to no other, the
    identifier is then free, and a second answer changes nothing; but if an
    AddTopic request is pending under the same identifier, the answer goes to the
    channel of that request and no buffer sees it. If the send failed, its error
    is offered to that buffer at once, the identifier is free, and a late answer
    of the leader changes nothing, unless an AddTopic request waits for it.
    An answer that is offered is queued exactly when the topic has a buffer whose
    queue of answers is not full; otherwise it is dropped. *)
Theorem batch_answer_routed req p j js e resp a :
  pr_AddJobs req = Some p → aj_Jobs p = Some j :: js →
  tp_RequestID resp = pr_RequestID req →
  link_send (ag_leader a) req = Returns e →
  ∃ a', handleSendJobs req a = Returns a' ∧
    match e with
    | None =>
        let a'' := handleResponse resp a' in
        ag_topicJobBuffers a' = ag_topicJobBuffers a ∧
        match ag_requestMap a !! pr_RequestID req with
        | None =>
            ag_topicJobBuffers a'' = offered (job_Topic j) resp (ag_topicJobBuffers a) ∧
            ag_requestIdToTopic a'' !! pr_RequestID req = None ∧ handleResponse resp a'' = a''
        | Some ch =>
            ag_topicJobBuffers a'' = ag_topicJobBuffers a ∧
            ag_respHeap a'' = send_default ch resp (ag_respHeap a) ∧
            ag_requestIdToTopic a'' !! pr_RequestID req = Some (job_Topic j)
        end
    | Some err =>
        ag_topicJobBuffers a' = offered (job_Topic j)
          (error_response (pr_RequestID req) (send_error_Error err)) (ag_topicJobBuffers a) ∧
        ag_requestIdToTopic a' !! pr_RequestID req = None ∧
        (ag_requestMap a !! pr_RequestID req = None → handleResponse resp a' = a')
    end.
Proof.
  intros Hp Hj Hid He. rewrite (handleSendJobs_spec _ _ _ _ _ _ Hp Hj He).
  eexists. split; [done|]. destruct e as [err|].
  - rewrite to_buffer_offered. split; [done|].
    edestruct to_buffer_maps as (Hm & Ht & _). unfold handleResponse. rewrite Hm, Ht, Hid. cbn.
    rewrite lookup_delete_eq. split; [done|]. by intros ->.
  - split; [done|]. unfold handleResponse at 1 4 5. rewrite Hid. cbn.
    destruct (ag_requestMap a !! pr_RequestID req) as [ch|] eqn:Hm; cbn.
    + unfold handleResponse. cbn. rewrite Hid, Hm. cbn. by rewrite lookup_insert_eq.
    + unfold handleResponse. cbn. rewrite Hid, Hm, lookup_insert_eq. cbn.
      edestruct to_buffer_maps as (Hm' & Ht' & _). rewrite to_buffer_offered, Hm', Ht'. cbn.
      by rewrite Hm, !lookup_delete_eq.
Qed.

(** The answer to a batch whose first job names a topic without a buffer is
    lost, whatever topic the batch is for and whether it was sent or not: no
    buffer changes, and the producers of the batch are left to time out. *)
Theorem batch_answer_lost req p j js e resp a :
  pr_AddJobs req = Some p → aj_Jobs p = Some j :: js →
  ag_topicJobBuffers a !! job_Topic j = None →
  ag_requestMap a !! pr_RequestID req = None →
  tp_RequestID resp = pr_RequestID req →
  link_send (ag_leader a) req = Returns e →
  ∃ a', handleSendJobs req a = Returns a' ∧
    ag_topicJobBuffers a' = ag_topicJobBuffers a ∧
    ag_topicJobBuffers (handleResponse resp a') = ag_topicJobBuffers a ∧
    ag_respHeap (handleResponse resp a') = ag_respHeap a.
Proof.
  intros Hp Hj Hb Hm Hid He. rewrite (handleSendJobs_spec _ _ _ _ _ _ Hp Hj He).
  eexists. split; [done|]. destruct e as [err|].
  - rewrite to_buffer_None by done. split; [done|].
    unfold handleResponse. cbn. by rewrite Hid, Hm, lookup_delete_eq.
  - split; [done|]. rewrite (handleResponse_batch _ (job_Topic j)); cbn.
    + by rewrite to_buffer_None.
    + by rewrite Hid.
    + rewrite Hid. apply lookup_insert_eq.
Qed.

(** An AddTopic request ends in one of two ways: it was sent, its channel is
    registered under its identifier and nothing was answered yet; or it was not
    sent, nothing is registered and the channel, if it has room, holds the error
    "leader unavailable". *)
Theorem add_topic_request_exact req ch c a :
  is_Some (currentLeader (ag_leader a)) →
  pr_Type (ar_ProxyRequest req) = ReqAddTopic →
  ar_RespCh req = Some ch → ag_respHeap a !! ch = Some c → Z.of_nat (chan_len c) < ch_cap c →
  let id := pr_RequestID (ar_ProxyRequest req) in
  ∃ e a', receive_request req a = Returns a' ∧
    ag_log a' = ag_log a ++ [(ar_ProxyRequest req, e)] ∧
    match e with
    | None => ag_requestMap a' !! id = Some (Some ch) ∧ ag_respHeap a' = ag_respHeap a
    | Some _ =>
        ag_requestMap a' !! id = None ∧
        ag_respHeap a' !! ch = Some (chan_push c (error_response id "leader unavailable"))
    end.
Proof.
  intros Hl Ht Hch Hc Hs. cbv zeta. unfold receive_request. rewrite Ht.
  destruct (link_returns (ag_leader a) (ar_ProxyRequest req) Hl) as [e He].
  exists e. unfold handleAddTopicRequest, send_to_leader. cbn. rewrite He. cbn.
  destruct e as [err|]; eexists; split; try done; cbn.
  - split_and!; [done|apply lookup_delete_eq|]. rewrite Hch. by apply send_default_space.
  - split_and!; [done| |done]. by rewrite lookup_insert_eq, Hch.
Qed.

(** When jobs of an outbound message are rejected, the leader is told at
    once: one heartbeat with score zero for the topic; when none is, nothing is
    sent. The router is the one EnqueueJobs leaves in both cases. *)
Theorem rejection_reported now seen now1 now2 sender topic proxy jobs a :
  is_Some (currentLeader (ag_leader a)) →
  let '(rejected, r) := EnqueueJobs now topic jobs (ag_router a) in
  ∃ a', route_message now seen now1 now2 sender
      (mkToProxy ProxyMessageOutbound None (Some (mkToConsumer topic proxy jobs)) None) a
      = Returns (a', false) ∧
    ag_router a' = r ∧ ag_doneCmdBatchBuffer a' = ag_doneCmdBatchBuffer a ∧
    (rejected <= 0 → ag_log a' = ag_log a) ∧
    (0 < rejected → ∃ e, ag_log a' = ag_log a ++
       [(heartbeat_request (uint32 (ag_reqIDCounter a + 1))
          (mkHeartbeatReport (ag_proxyID a) (now `div` second) [mkTopicCapacity topic 0]), e)]).
Proof.
  intros Hl. unfold route_message. cbn [tpm_Type tpm_Outbound tcm_Topic tcm_Jobs].
  rewrite decide_False, decide_True by done.
  destruct (EnqueueJobs now topic jobs (ag_router a)) as [rejected r] eqn:He.
  destruct (Z.ltb_spec 0 rejected) as [Hr|Hr].
  - unfold send_report, send_to_leader. cbn.
    destruct (link_returns (ag_leader a) (heartbeat_request (uint32 (ag_reqIDCounter a + 1))
      (mkHeartbeatReport (ag_proxyID a) (now `div` second) [mkTopicCapacity topic 0])) Hl) as [e Hs].
    rewrite Hs. cbn. eexists. split; [done|]. cbn. split_and!; [done..|lia|]. by exists e.
  - eexists. split; [done|]. cbn. split_and!; [done..|lia].
Qed.

End Batches.

(** ** Done commands *)

(** The task that flushes and the goroutine that receives interleave between
    the two critical sections of flushTopic. A flush in flight holds its topic
    and ids; received, delivered and lost ids are recorded with their topics. *)
Record done_state := mkDoneState {
  dt_agent : Agent;
  dt_flight : option (string * list string);
  dt_received : list (string * string);
  dt_delivered : list (string * string);
  dt_lost : list (string * string)
}.

Inductive done_event :=
  | DoneArrives (req : ApiRequestWithRespCh)
  | FlushBegin (topic : string)
  | FlushEnd (err : option send_error).

Definition done_of (req : ApiRequestWithRespCh) : list (string * string) :=
  match pr_Done (ar_ProxyRequest req) with
  | None => []
  | Some d => pair (dn_Topic d) <$> dn_JobIDs d
  end.

Definition buffered (topic : string) (a : Agent) : list string :=
  default [] (ag_doneCmdBatchBuffer a !! topic).

Definition done_step (e : done_event) (s : done_state) : option done_state :=
  let a := dt_agent s in
  match e, dt_flight s with
  | DoneArrives req, _ =>
      Some (mkDoneState (handleDoneRequest req a) (dt_flight s) (dt_received s ++ done_of req)
              (dt_delivered s) (dt_lost s))
  | FlushBegin topic, None =>
      match flush_take topic a with
      | None => Some s
      | Some (_, jobsCopy, a) =>
          Some (mkDoneState a (Some (topic, jobsCopy)) (dt_received s) (dt_delivered s) (dt_lost s))
      end
  | FlushEnd None, Some (topic, jobsCopy) =>
      Some (mkDoneState a None (dt_received s) (dt_delivered s ++ (pair topic <$> jobsCopy)) (dt_lost s))
  | FlushEnd (Some _), Some (topic, jobsCopy) =>
      Some (mkDoneState (flush_restore topic jobsCopy a) None (dt_received s) (dt_delivered s)
              (if (length (buffered topic a) =? 0)%nat then dt_lost s
               else dt_lost s ++ (pair topic <$> jobsCopy)))
  | _, _ => None
  end.

Definition done_init (a : Agent) : done_state := mkDoneState (set_done ∅ a) None [] [] [].

(** Every id in the batch, with its topic. *)
Definition done_pairs (m : gmap string (list string)) : list (string * string) :=
  concat ((λ kv : string * list string, pair kv.1 <$> kv.2) <$> map_to_list m).

Definition in_flight (s : done_state) : list (string * string) :=
  match dt_flight s with
  | None => []
  | Some (topic, ids) => pair topic <$> ids
  end.

Lemma done_pairs_insert_fresh t ids m :
  m !! t = None → done_pairs (<[t := ids]> m) ≡ₚ (pair t <$> ids) ++ done_pairs m.
Proof. intros Ht. unfold done_pairs. by rewrite map_to_list_insert. Qed.

Lemma done_pairs_split t m :
  done_pairs m ≡ₚ (pair t <$> default [] (m !! t)) ++ done_pairs (delete t m).
Proof.
  destruct (m !! t) as [ids|] eqn:Ht; cbn.
  - rewrite <- (insert_delete_id m t ids) at 1 by done.
    by rewrite done_pairs_insert_fresh by apply lookup_delete_eq.
  - by rewrite delete_id.
Qed.

Lemma done_pairs_insert t ids m :
  done_pairs (<[t := ids]> m) ≡ₚ (pair t <$> ids) ++ done_pairs (delete t m).
Proof. by rewrite (done_pairs_split t), lookup_insert_eq, delete_insert_eq. Qed.

(** Where the received ids are. *)
Definition done_conserved (s : done_state) : Prop :=
  dt_received s ≡ₚ
  done_pairs (ag_doneCmdBatchBuffer (dt_agent s)) ++ in_flight s ++ dt_delivered s ++ dt_lost s.

Lemma handleDone_pairs req a :
  done_pairs (ag_doneCmdBatchBuffer (handleDoneRequest req a))
  ≡ₚ done_pairs (ag_doneCmdBatchBuffer a) ++ done_of req.
Proof.
  unfold handleDoneRequest, done_of. destruct (pr_Done _) as [d|]; [|by rewrite app_nil_r].
  cbn. rewrite done_pairs_insert, (done_pairs_split (dn_Topic d) (ag_doneCmdBatchBuffer a)).
  rewrite fmap_app. solve_Permutation.
Qed.

Lemma flush_take_pairs topic a req ids a' :
  flush_take topic a = Some (req, ids, a') →
  pr_Done req = Some (mkDone topic ids) ∧ ids ≠ [] ∧ ids = buffered topic a ∧ buffered topic a' = [] ∧
  done_pairs (ag_doneCmdBatchBuffer a)
    ≡ₚ (pair topic <$> ids) ++ done_pairs (ag_doneCmdBatchBuffer a').
Proof.
  unfold flush_take, buffered. destruct (_ !! topic) as [[|i rest]|] eqn:Ht; [done| |done].
  cbn. intros [= <- <- <-]. cbn. split_and!; try done.
  - by rewrite lookup_insert_eq.
  - rewrite done_pairs_insert, (done_pairs_split topic (ag_doneCmdBatchBuffer a)). by rewrite Ht.
Qed.

Lemma flush_restore_pairs topic ids a :
  done_pairs (ag_doneCmdBatchBuffer (flush_restore topic ids a))
  ≡ₚ (if (length (buffered topic a) =? 0)%nat then pair topic <$> ids else [])
     ++ done_pairs (ag_doneCmdBatchBuffer a).
Proof.
  unfold flush_restore. fold (buffered topic a). case_match eqn:Hl; [|done].
  reflect_arith. apply nil_length_inv in Hl. rewrite Hl. cbn.
  rewrite done_pairs_insert, (done_pairs_split topic (ag_doneCmdBatchBuffer a)).
  fold (buffered topic a). by rewrite Hl.
Qed.

Lemma done_step_conserved e s s' :
  done_conserved s → done_step e s = Some s' → done_conserved s'.
Proof.
  unfold done_conserved, done_step, in_flight. intros Hc Hs.
  destruct e as [req|topic|[err|]], (dt_flight s) as [[topic' ids']|] eqn:Hf; try done.
  - injection Hs as <-. cbn. rewrite Hc, handleDone_pairs. solve_Permutation.
  - injection Hs as <-. cbn. rewrite Hc, handleDone_pairs. solve_Permutation.
  - destruct (flush_take topic (dt_agent s)) as [[[req ids] a]|] eqn:Ht.
    + injection Hs as <-. apply flush_take_pairs in Ht as (_ & _ & _ & _ & Hp). cbn.
      rewrite Hc, Hp. solve_Permutation.
    + injection Hs as <-. by rewrite Hf.
  - injection Hs as <-. cbn. rewrite Hc, flush_restore_pairs.
    destruct (length (buffered topic' (dt_agent s)) =? 0)%nat; solve_Permutation.
  - injection Hs as <-. cbn. rewrite Hc. solve_Permutation.
Qed.

(** No Done arrives between the two halves of a flush. *)
Fixpoint quiet (flying : bool) (es : list done_event) : bool :=
  match es with
  | [] => true
  | DoneArrives _ :: rest => negb flying && quiet false rest
  | FlushBegin _ :: rest => quiet true rest
  | FlushEnd _ :: rest => quiet false rest
  end.

Definition nothing_lost (flying : bool) (s : done_state) : Prop :=
  dt_lost s = [] ∧
  match dt_flight s with
  | None => True
  | Some (topic, _) => flying = true ∧ buffered topic (dt_agent s) = []
  end.

Lemma quiet_run es flying s s' :
  quiet flying es = true → nothing_lost flying s → run done_step es s = Some s' → dt_lost s' = [].
Proof.
  revert flying s. induction es as [|e es IH]; intros flying s Hq [Hl Hf] Hr.
  { by injection Hr as <-. }
  rewrite run_cons in Hr. destruct (done_step e s) as [s1|] eqn:Hs; [|done]. cbn in Hr.
  unfold done_step in Hs. destruct e as [req|topic|err]; cbn [quiet] in Hq.
  - apply andb_true_iff in Hq as [Hfl Hq]. injection Hs as <-.
    eapply (IH false); [done| |exact Hr]. split; [done|]. cbn.
    destruct (dt_flight s) as [[t ids]|]; [|done]. destruct Hf as [-> _]. done.
  - destruct (dt_flight s) as [[t ids]|] eqn:Hfl; [done|].
    destruct (flush_take topic (dt_agent s)) as [[[req ids] a]|] eqn:Ht; injection Hs as <-.
    + apply flush_take_pairs in Ht as (_ & _ & _ & Hb & _). eapply (IH true); [done| |exact Hr]. by split.
    + eapply (IH true); [done| |exact Hr]. split; [done|]. by rewrite Hfl.
  - destruct (dt_flight s) as [[t ids]|]; [|by destruct err]. destruct Hf as [_ Hb].
    destruct err as [err|]; injection Hs as <-; (eapply (IH false); [done| |exact Hr]); [|done].
    split; [|done]. cbn. by rewrite Hb.
Qed.

(** Every Done id received is, at any time, in the batch, in the flush under
    way, delivered to the leader, or lost, and in one of them as often as it
    came; none is lost if no Done arrives while a flush is under way. *)
Theorem done_ids_conserved es a s :
  run done_step es (done_init a) = Some s →
  dt_received s ≡ₚ
    done_pairs (ag_doneCmdBatchBuffer (dt_agent s)) ++ in_flight s ++ dt_delivered s ++ dt_lost s ∧
  (quiet false es = true → dt_lost s = []).
Proof.
  intros Hr. split.
  - refine (run_invariant done_step done_conserved _ es (done_init a) s _ Hr).
    + intros e s1 s2. apply done_step_conserved.
    + unfold done_conserved, done_pairs. cbn. by rewrite map_to_list_empty.
  - intros Hq. eapply quiet_run; [exact Hq| |exact Hr]. done.
Qed.

(** ** Concrete runs *)

Module AgentExample.

(** A link that sends while a leader is available. *)
#[refine] Definition direct_link : LeaderLink :=
  {| link_send l req :=
       match currentLeader l with
       | None => Panics TypeAssertion
       | Some leader =>
           Returns (if bool_decide (leader = ""%string) || negb (leaderAvailable l)
                    then Some ErrLeaderUnavailable else None)
       end |}.
Proof.
  - intros l req [leader ->]. eauto.
  - intros l req leader -> [->| ->]; [done|]. by rewrite orb_true_r.
Defined.

Definition done_req (topic : string) (ids : list string) : ApiRequestWithRespCh :=
  mkApiRequest (done_request 0 (mkDone topic ids)) None.

Definition start : Agent := NewClusterAgent "proxy1" NewDefaultRouter DiscoveryKindStatic.

(** The same agent with an available leader. *)
Definition led : Agent :=
  set_leader (mkLeadership (Some "n1"%string) true empty_topology DiscoveryKindStatic) start.

Definition job (id topic : string) : option Job := Some (mkJob id topic []).

(** An agent with a buffer for the topic "t". *)
Definition with_buffer : Agent := set_topicJobBuffers {["t"%string := NewJobBuffer "t"]} led.

Definition batch (jobs : list (option Job)) : ProxyRequest := add_jobs_request 1 (mkAddJobs "t" jobs).

Definition waiting : Agent :=
  set_respHeap {[0%nat := make_chan 1]} (set_requestMap {[1 := Some 0%nat]} led).

End AgentExample.
Import AgentExample.

(** A Done that arrives while a flush of its topic is failing makes the
    flush drop its own ids: they are not delivered and not in the batch. *)
Theorem done_ids_lost :
  ∃ s, run done_step [DoneArrives (done_req "t" ["a"%string]); FlushBegin "t";
                      DoneArrives (done_req "t" ["b"%string]); FlushEnd (Some ErrLeaderUnavailable)]
         (done_init start) = Some s ∧
    dt_received s = [("t", "a"); ("t", "b")]%string ∧ dt_delivered s = [] ∧ in_flight s = [] ∧
    done_pairs (ag_doneCmdBatchBuffer (dt_agent s)) = [("t", "b")]%string.
Proof. eexists. split; [vm_compute; reflexivity|]. vm_compute. auto. Qed.

Theorem done_ids_conserved_witness :
  ∃ s, run done_step [DoneArrives (done_req "t" ["a"%string]); FlushBegin "t"; FlushEnd None]
         (done_init start) = Some s ∧ dt_lost s = [].
Proof.
  eexists. split; [vm_compute; reflexivity|].
  apply (done_ids_conserved [DoneArrives (done_req "t" ["a"%string]); FlushBegin "t"; FlushEnd None]
    start); vm_compute; reflexivity.
Defined.

Theorem add_topic_answered_once_witness :
  ag_requestMap (handleResponse (success_response 1) waiting) !! 1 = None.
Proof.
  destruct (add_topic_answered_once (success_response 1) 0%nat (make_chan 1) waiting) as (_ & H & _).
  - vm_compute. reflexivity.
  - vm_compute. reflexivity.
  - vm_compute. reflexivity.
  - vm_compute. reflexivity.
  - exact H.
Defined.

Theorem batch_answer_routed_witness :
  ∃ a', @handleSendJobs direct_link (batch [job "j" "t"]) with_buffer = Returns a' ∧
    ag_topicJobBuffers (handleResponse (success_response 1) a')
    = {["t"%string := push_response (success_response 1) (NewJobBuffer "t")]} ∧
    handleResponse (success_response 1) (handleResponse (success_response 1) a')
    = handleResponse (success_response 1) a'.
Proof.
  destruct (@batch_answer_routed direct_link (batch [job "j" "t"]) (mkAddJobs "t" [job "j" "t"])
    (mkJob "j" "t" []) [] None (success_response 1) with_buffer) as (a' & Ha & _ & H & _ & Hr).
  1-4: vm_compute; reflexivity.
  exists a'. split; [exact Ha|]. split; [|exact Hr]. cbv zeta in H. rewrite H. vm_compute. reflexivity.
Defined.

Theorem batch_answer_lost_witness :
  ∃ a', @handleSendJobs direct_link (batch [job "j" ""]) with_buffer = Returns a' ∧
    ag_topicJobBuffers (handleResponse (success_response 1) a') = {["t"%string := NewJobBuffer "t"]}.
Proof.
  destruct (@batch_answer_lost direct_link (batch [job "j" ""]) (mkAddJobs "t" [job "j" ""])
    (mkJob "j" "" []) [] None (success_response 1) with_buffer) as (a' & Ha & _ & H & _).
  1-6: vm_compute; reflexivity.
  exists a'. split; [exact Ha|]. rewrite H. vm_compute. reflexivity.
Defined.

Theorem add_topic_request_exact_witness :
  ∃ e a', @receive_request direct_link
    (mkApiRequest (add_topic_request 1 (mkAddTopic "t")) (Some 0%nat)) waiting = Returns a' ∧
    ag_log a' = [(add_topic_request 1 (mkAddTopic "t"), e)].
Proof.
  destruct (@add_topic_request_exact direct_link
    (mkApiRequest (add_topic_request 1 (mkAddTopic "t")) (Some 0%nat)) 0%nat (make_chan 1) waiting)
    as (e & a' & Ha & Hlog & _).
  - exists "n1"%string. reflexivity.
  - reflexivity.
  - reflexivity.
  - vm_compute. reflexivity.
  - vm_compute. reflexivity.
  - exists e, a'. split; [exact Ha|exact Hlog].
Defined.

Theorem rejection_reported_witness :
  ∃ a', @route_message direct_link 0 0 0 0 "n1"
    (mkToProxy ProxyMessageOutbound None (Some (mkToConsumer "t" "p" [job "j" "t"])) None) led
    = Returns (a', false) ∧ length (ag_log a') = 1%nat.
Proof.
  destruct (@rejection_reported direct_link 0 0 0 0 "n1" "t" "p" [job "j" "t"] led) as (a' & Ha & _ & _ & _ & Hr).
  - exists "n1"%string. reflexivity.
  - exists a'. split; [exact Ha|]. destruct Hr as [e ->]; [vm_compute; reflexivity|]. reflexivity.
Defined.

(** The identifiers of AddTopic requests and of batches come from two
    counters that both start at one: the leader's answer to the first batch goes
    to the producer that waits for the first AddTopic request, and the batch's
    own answer never reaches its buffer. *)
Theorem request_ids_collide :
  ∃ a', @handleSendJobs direct_link (batch [job "j" "t"])
          (set_topicJobBuffers {["t"%string := NewJobBuffer "t"]} waiting) = Returns a' ∧
    ag_respHeap (handleResponse (success_response 1) a') !! 0%nat
      = Some (chan_push (make_chan 1) (success_response 1)) ∧
    ag_topicJobBuffers (handleResponse (success_response 1) a') = {["t"%string := NewJobBuffer "t"]}.
Proof. eexists. split; [vm_compute; reflexivity|]. split; vm_compute; reflexivity. Qed.
