(* ===== verification/Auth.v ===== *)
(** * Authentication (internal/api/auth.go, extractToken of api.go)

    Tokens and roles read from a YAML file and reloaded when it changes, and the
    token of a request. Reading and decoding the file are parameters. *)

From S2P Require Import Prelude GoRuntime.

Local Open Scope string_scope.

(** ** Tokens and roles *)

(** Role is a string: the file can hold any. *)
Definition RoleAdmin : string := "admin".
Definition RoleProducer : string := "producer".
Definition RoleConsumer : string := "consumer".
Definition RoleMonitoring : string := "monitoring".

Record AuthToken := mkAuthToken { tk_Token : string; tk_Role : string }.

(** The field of Authenticator that changes, and whether Close was called. *)
Record Authenticator := mkAuthenticator {
  au_tokens : gmap string string;
  au_stopped : bool
}.

Definition token_map (l : list AuthToken) : gmap string string :=
  fold_left (λ m t, <[tk_Token t := tk_Role t]> m) l ∅.

(** Reading and decoding the file, at one moment. *)
Record auth_file := mkAuthFile {
  af_ReadFile : result string (list Z);
  af_Unmarshal : list Z → result string (list AuthToken)
}.

Definition loadTokens (f : auth_file) (a : Authenticator) : option string * Authenticator :=
  match af_ReadFile f with
  | Err err => (Some err, a)
  | Ok data =>
      match af_Unmarshal f data with
      | Err err => (Some err, a)
      | Ok tokens => (None, mkAuthenticator (token_map tokens) (au_stopped a))
      end
  end.

Definition NewAuthenticator (f : auth_file) : result string Authenticator :=
  match loadTokens f (mkAuthenticator ∅ false) with
  | (Some err, _) => Err ("failed to load auth file: " +:+ err)
  | (None, a) => Ok a
  end.

Definition GetRole (token : string) (a : Authenticator) : option string := au_tokens a !! token.

Definition ValidateRole (token required : string) (a : Authenticator) : bool :=
  match GetRole token a with
  | None => false
  | Some role => if decide (role = RoleAdmin) then true else bool_decide (role = required)
  end.

(** closeOnce.Do(close(stopWatcher)) *)
Definition auth_Close (a : Authenticator) : Authenticator := mkAuthenticator (au_tokens a) true.

(** ** watchFile *)

(** The bits of fsnotify's Op. *)
Record fsnotify_ops := mkOps { op_Write : Z; op_Create : Z; op_Rename : Z; op_Remove : Z }.

(** What the watcher's select receives; the file is read when the event is
    handled. A channel that is closed ends the goroutine. *)
Inductive watch_event :=
  | WatchEvent (op : Z) (f : auth_file)
  | WatchError
  | WatchClosed.

Definition reloads (ops : fsnotify_ops) (op : Z) : bool :=
  negb (Z.land op (Z.lor (op_Write ops) (Z.lor (op_Create ops)
         (Z.lor (op_Rename ops) (op_Remove ops)))) =? 0)%Z.

(** The goroutine over the events it receives, until it is stopped or a channel
    is closed. A failed reload is logged only. *)
Fixpoint watch_loop (ops : fsnotify_ops) (es : list watch_event) (a : Authenticator) : Authenticator :=
  match es with
  | [] => a
  | e :: rest =>
      if au_stopped a then a
      else
        match e with
        | WatchClosed => a
        | WatchError => watch_loop ops rest a
        | WatchEvent op f =>
            watch_loop ops rest (if reloads ops op then (loadTokens f a).2 else a)
        end
  end.

(** fsnotify.NewWatcher, and Add for the file and for its directory; a failure of
    the last is logged only. *)
Record watch_start := mkWatchStart {
  wt_NewWatcher : option string;
  wt_Add_file : option string;
  wt_Add_dir : option string
}.

Definition watchFile (w : watch_start) (ops : fsnotify_ops) (es : list watch_event) (a : Authenticator)
    : Authenticator :=
  match wt_NewWatcher w, wt_Add_file w with
  | None, None => watch_loop ops es a
  | _, _ => a
  end.

(** ** The token of a request *)

(** fmt.Sscanf(auth, "Bearer %s", &token) on ASCII input: the literal, at least
    one space that is not a newline, then a word; what follows is not read. *)
Definition newline_char : Ascii.ascii := Ascii.ascii_of_nat 10.
Definition return_char : Ascii.ascii := Ascii.ascii_of_nat 13.

Fixpoint skip_blanks (s : string) : string :=
  match s with
  | "" => ""
  | String c s' => if is_space c && negb (bool_decide (c = newline_char)) then skip_blanks s' else s
  end.

(** SkipSpace: a newline is an error, also after a carriage return. *)
Fixpoint SkipSpace (s : string) : option string :=
  match s with
  | "" => Some ""
  | String c s' =>
      if decide (c = newline_char) then None
      else if is_space c then SkipSpace s' else Some s
  end.

Fixpoint word (s : string) : string :=
  match s with
  | "" => ""
  | String c s' => if is_space c then "" else String c (word s')
  end.

Fixpoint strip_prefix (p s : string) : option string :=
  match p, s with
  | "", _ => Some s
  | String c p', String d s' => if decide (c = d) then strip_prefix p' s' else None
  | String _ _, "" => None
  end.

Definition scan_bearer (auth : string) : option string :=
  match strip_prefix "Bearer" auth with
  | None => None
  | Some "" => None (* the space matches the end, %s finds nothing *)
  | Some (String c s) =>
      if negb (is_space c) || bool_decide (c = newline_char) then None
      else
        match SkipSpace (skip_blanks s) with
        | None => None
        | Some s => if decide (word s = "") then None else Some (word s)
        end
  end.

(** The header and the query parameter of a request; [scan] is Sscanf on a
    header that is not ASCII. *)
Record http_auth := mkHttpAuth {
  ha_Authorization : string;
  ha_query_token : string
}.

Definition Sscanf_bearer (scan : string → option string) (auth : string) : option string :=
  if is_ascii auth then scan_bearer auth else scan auth.

Definition extractToken (scan : string → option string) (r : http_auth) : string :=
  if decide (ha_Authorization r = "") then ha_query_token r
  else
    match Sscanf_bearer scan (ha_Authorization r) with
    | Some token => if decide (token = "") then ha_query_token r else token
    | None => ha_query_token r
    end.

(** ** Properties *)

Local Open Scope list_scope.

Lemma ValidateRole_spec token required a :
  ValidateRole token required a = true ↔
  ∃ role, au_tokens a !! token = Some role ∧ (role = RoleAdmin ∨ role = required).
Proof.
  unfold ValidateRole, GetRole. destruct (au_tokens a !! token) as [role|]; [|naive_solver].
  case_decide; [naive_solver|]. rewrite bool_decide_eq_true. naive_solver.
Qed.

Lemma token_map_snoc l t : token_map (l ++ [t]) = <[tk_Token t := tk_Role t]> (token_map l).
Proof. unfold token_map. by rewrite fold_left_app. Qed.

(** The role of a token is that of its last entry. *)
Lemma token_map_lookup l token role :
  token_map l !! token = Some role ↔
  ∃ l1 l2, l = l1 ++ mkAuthToken token role :: l2 ∧ Forall (λ t, tk_Token t ≠ token) l2.
Proof.
  induction l as [|[k r] l IH] using rev_ind.
  { split; [done|]. by intros ([|] & ? & ? & _). }
  rewrite token_map_snoc, lookup_insert_Some, IH. cbn. split.
  - intros [[-> ->]|[Hne (l1 & l2 & -> & Hl)]].
    + exists l, []. by split; [|constructor].
    + exists l1, (l2 ++ [mkAuthToken k r]). rewrite <- app_assoc. split; [done|].
      apply Forall_app. split; [done|]. by repeat constructor.
  - intros (l1 & l2 & He & Hl). destruct l2 as [|t l2 _] using rev_ind.
    + apply app_inj_tail in He as [_ [= -> ->]]. by left.
    + rewrite app_comm_cons, app_assoc in He. apply app_inj_tail in He as [-> <-].
      apply Forall_app in Hl as [Hl Ht]. rewrite Forall_singleton in Ht. right. split; [exact Ht|by exists l1, l2].
Qed.

Lemma loadTokens_tokens f a :
  au_tokens (loadTokens f a).2 = au_tokens a ∨
  ∃ data l, af_ReadFile f = Ok data ∧ af_Unmarshal f data = Ok l ∧
            au_tokens (loadTokens f a).2 = token_map l.
Proof.
  unfold loadTokens. destruct (af_ReadFile f) as [data|]; [|by left].
  destruct (af_Unmarshal f data) as [l|] eqn:Hl; [|by left]. right. eauto.
Qed.

(** C32: A request is allowed exactly when the table gives its token a role, and
    the role is the required one or admin. Without an Authorization header and
    without a query parameter the token is the empty string, which is looked up
    like any other: an entry with an empty token in the file lets every such
    request in. *)
Theorem access_exact scan r required a :
  ValidateRole (extractToken scan r) required a = true ↔
  ∃ token role, au_tokens a !! token = Some role ∧ (role = RoleAdmin ∨ role = required) ∧
    ((ha_Authorization r ≠ "" ∧ token ≠ "" ∧ Sscanf_bearer scan (ha_Authorization r) = Some token) ∨
     ((ha_Authorization r = "" ∨ Sscanf_bearer scan (ha_Authorization r) = None ∨
       Sscanf_bearer scan (ha_Authorization r) = Some "") ∧ token = ha_query_token r)).
Proof.
  rewrite ValidateRole_spec. unfold extractToken.
  destruct (decide (ha_Authorization r = "")) as [He|He].
  { split; [naive_solver|]. intros (t & role & H1 & H2 & [[? _]|[_ ->]]); [done|eauto]. }
  destruct (Sscanf_bearer scan (ha_Authorization r)) as [t|] eqn:Hs.
  - case_decide as Ht; [subst t|]; split.
    + naive_solver.
    + intros (t & role & H1 & H2 & [(_ & ? & [= <-])|[_ ->]]); [done|eauto].
    + naive_solver.
    + intros (t' & role & H1 & H2 & [(_ & _ & [= <-])|[[?|[?|?]] ->]]); naive_solver.
  - split; [naive_solver|]. intros (t & role & H1 & H2 & [(_ & _ & ?)|[_ ->]]); [done|eauto].
Qed.

(** Words and blanks. *)
Definition no_space (s : string) : bool := str_forall (λ c, negb (is_space c)) s.

Lemma word_no_space s : no_space s = true → word s = s.
Proof.
  induction s as [|c s IH]; [done|]. cbn. intros [Hc Hs]%andb_true_iff.
  apply negb_true_iff in Hc. by rewrite Hc, IH.
Qed.

Lemma SkipSpace_no_space s : no_space s = true → SkipSpace s = Some s ∧ skip_blanks s = s.
Proof.
  destruct s as [|c s]; [done|]. cbn. intros [Hc _]%andb_true_iff.
  apply negb_true_iff in Hc. rewrite Hc. cbn. case_decide as Hn; [|done].
  subst c. done.
Qed.

(** The header "Bearer <token>", with a token of ASCII characters that are
    not blanks, gives that token. *)
Theorem bearer_roundtrip scan token query :
  token ≠ "" → is_ascii token = true → no_space token = true →
  extractToken scan (mkHttpAuth ("Bearer " +:+ token) query) = token.
Proof.
  intros Hne Ha Hs. unfold extractToken, Sscanf_bearer. cbn [ha_Authorization ha_query_token].
  rewrite decide_False by done.
  assert (is_ascii ("Bearer " +:+ token) = true) as -> by (cbn; exact Ha).
  assert (scan_bearer ("Bearer " +:+ token) = Some token) as ->; [|by rewrite decide_False].
  change (scan_bearer ("Bearer " +:+ token)) with
    (match SkipSpace (skip_blanks token) with
     | None => None
     | Some s => if decide (word s = "") then None else Some (word s)
     end).
  destruct (SkipSpace_no_space token Hs) as [H1 H2].
  by rewrite H2, H1, word_no_space, decide_False.
Qed.

(** ** Reloading *)

(** The event has the Write, Create, Rename or Remove bit. *)
Definition changes (ops : fsnotify_ops) (op : Z) : Prop :=
  ∃ b, b ∈ [op_Write ops; op_Create ops; op_Rename ops; op_Remove ops] ∧ (Z.land op b ≠ 0)%Z.

Definition file_tokens (f : auth_file) (l : list AuthToken) : Prop :=
  ∃ data, af_ReadFile f = Ok data ∧ af_Unmarshal f data = Ok l.

(** The event changed the file, which then held [l]. *)
Definition brings (ops : fsnotify_ops) (l : list AuthToken) (e : watch_event) : Prop :=
  match e with WatchEvent op f => changes ops op ∧ file_tokens f l | _ => False end.

Definition closed (e : watch_event) : bool := match e with WatchClosed => true | _ => false end.

Lemma reloads_changes ops op : reloads ops op = true ↔ changes ops op.
Proof.
  unfold reloads, changes. rewrite negb_true_iff, Z.eqb_neq, !Z.land_lor_distr_r, !Z.lor_eq_0_iff.
  split.
  - intros Hn.
    destruct (decide (Z.land op (op_Write ops) = 0%Z)) as [H1|H1]; [|eexists; split; [by left|exact H1]].
    destruct (decide (Z.land op (op_Create ops) = 0%Z)) as [H2|H2]; [|eexists; split; [by right; left|exact H2]].
    destruct (decide (Z.land op (op_Rename ops) = 0%Z)) as [H3|H3]; [|eexists; split; [by do 2 right; left|exact H3]].
    exists (op_Remove ops). split; [by do 3 right; left|].
    intros H4. by apply Hn.
  - intros (b & Hb & Hn) (H1 & H2 & H3 & H4). rewrite !elem_of_cons, elem_of_nil in Hb.
    destruct Hb as [->|[->|[->|[->|[]]]]]; by destruct Hn.
Qed.

Lemma loadTokens_stopped f a : au_stopped (loadTokens f a).2 = au_stopped a.
Proof. unfold loadTokens. by repeat case_match. Qed.

Lemma loadTokens_file f l a : file_tokens f l → au_tokens (loadTokens f a).2 = token_map l.
Proof. intros (data & Hr & Hu). unfold loadTokens. by rewrite Hr, Hu. Qed.

Lemma loadTokens_keeps f a : (∀ l, ¬ file_tokens f l) → (loadTokens f a).2 = a.
Proof.
  intros Hn. unfold loadTokens. destruct (af_ReadFile f) as [data|] eqn:Hr; [|done].
  destruct (af_Unmarshal f data) as [l|] eqn:Hu; [|done]. destruct (Hn l). by exists data.
Qed.

(** Events that bring nothing change nothing. *)
Lemma watch_idle ops es rest a :
  au_stopped a = false → Forall (λ e, closed e = false ∧ ∀ l, ¬ brings ops l e) es →
  (rest = [] ∨ ∃ r, rest = WatchClosed :: r) → watch_loop ops (es ++ rest) a = a.
Proof.
  intros Ha Hes Hrest. induction Hes as [|e es [Hc Hb] _ IH]; cbn.
  - destruct Hrest as [->|(r & ->)]; [done|]. cbn. by rewrite Ha.
  - rewrite Ha. destruct e as [op f| |]; [|done..]. destruct (reloads ops op) eqn:Hr; [|done].
    rewrite loadTokens_keeps; [done|]. intros l Hl. apply (Hb l). split; [by apply reloads_changes|done].
Qed.

(** Up to an event that brings the file's content. *)
Lemma watch_until ops es e l rest a :
  au_stopped a = false → Forall (λ e, closed e = false) es → brings ops l e →
  ∃ a', watch_loop ops (es ++ e :: rest) a = watch_loop ops rest a' ∧ au_stopped a' = false ∧
    au_tokens a' = token_map l.
Proof.
  intros Ha Hes Hb. revert a Ha. induction Hes as [|e' es Hc _ IH]; intros a Ha; cbn; rewrite Ha.
  - destruct e as [op f| |]; [|done..]. destruct Hb as [Hch Hf]. rewrite (proj2 (reloads_changes _ _) Hch).
    eexists. split; [done|]. split; [by rewrite loadTokens_stopped|by apply loadTokens_file].
  - destruct e' as [op f| |]; [|by apply IH|done]. apply IH. case_match; [|done]. by rewrite loadTokens_stopped.
Qed.

(** C33: The tokens in use follow the file. Of the events an open authenticator
    receives before a channel of its watcher is closed: if [e] is the last that
    is a write, creation, renaming or removal and finds a file that can be read
    and decoded, the role of every token is that of its last entry in that file,
    and other tokens have none; if there is no such event, or the watcher could
    not be set up, the tokens are those it had, revoked ones included. *)
Theorem tokens_follow_file w ops seen rest a :
  au_stopped a = false → Forall (λ e, closed e = false) seen →
  (rest = [] ∨ ∃ r, rest = WatchClosed :: r) →
  let tokens := au_tokens (watchFile w ops (seen ++ rest) a) in
  if decide (wt_NewWatcher w = None ∧ wt_Add_file w = None) then
    (∀ before e after l, seen = before ++ e :: after → brings ops l e →
       Forall (λ e', ∀ l', ¬ brings ops l' e') after →
       ∀ token role, tokens !! token = Some role ↔
         ∃ l1 l2, l = l1 ++ mkAuthToken token role :: l2 ∧ Forall (λ t, tk_Token t ≠ token) l2) ∧
    (Forall (λ e, ∀ l, ¬ brings ops l e) seen → tokens = au_tokens a)
  else tokens = au_tokens a.
Proof.
  intros Ha Hseen Hrest tokens. subst tokens. unfold watchFile. case_decide as Hw.
  2: { destruct (wt_NewWatcher w), (wt_Add_file w); naive_solver. }
  destruct Hw as [-> ->]. split.
  - intros before e after l -> Hb Hafter token role. apply Forall_app in Hseen as [Hbefore Hseen].
    apply Forall_cons in Hseen as [_ Hseen]. rewrite <- app_assoc. cbn [app].
    destruct (watch_until ops before e l (after ++ rest) a Ha Hbefore Hb) as (a' & -> & Ha' & Ht).
    rewrite watch_idle, Ht; [apply token_map_lookup|done| |done]. apply Forall_and. by split.
  - intros Hn. rewrite watch_idle; [done..| |done]. apply Forall_and. by split.
Qed.

(** ** Examples *)

Definition sample_ops : fsnotify_ops := mkOps 2 1 8 4.
Definition sample_file (l : list AuthToken) : auth_file := mkAuthFile (Ok []) (λ _, Ok l).

Example empty_token_open :
  ∃ a, NewAuthenticator (sample_file [mkAuthToken "" "producer"]) = Ok a ∧
    ValidateRole (extractToken (λ _, None) (mkHttpAuth "" "")) RoleProducer a = true.
Proof. eexists. split; reflexivity. Qed.

Theorem bearer_roundtrip_witness :
  extractToken (λ _, None) (mkHttpAuth "Bearer abc" "") = "abc".
Proof. apply (bearer_roundtrip (λ _, None) "abc" ""); [discriminate|reflexivity|reflexivity]. Defined.

(** The file is replaced, with an entry that overrides an earlier one, then
    removed. *)
Theorem tokens_follow_file_witness :
  au_tokens (watchFile (mkWatchStart None None None) sample_ops
    [WatchEvent 1 (sample_file [mkAuthToken "t" "consumer"; mkAuthToken "t" "producer"]);
     WatchEvent 4 (mkAuthFile (Err "gone") (λ _, Ok []))]
    (mkAuthenticator {["old" := "admin"]} false)) !! "t" = Some "producer".
Proof.
  destruct (tokens_follow_file (mkWatchStart None None None) sample_ops
    [WatchEvent 1 (sample_file [mkAuthToken "t" "consumer"; mkAuthToken "t" "producer"]);
     WatchEvent 4 (mkAuthFile (Err "gone") (λ _, Ok []))] []
    (mkAuthenticator {["old" := "admin"]} false)) as [H _].
  - reflexivity.
  - repeat constructor.
  - left. reflexivity.
  - apply (H [] _ [WatchEvent 4 (mkAuthFile (Err "gone") (λ _, Ok []))]
      [mkAuthToken "t" "consumer"; mkAuthToken "t" "producer"] eq_refl).
    + split; [exists 1%Z; split; [right; left|discriminate]|exists []; split; reflexivity].
    + constructor; [|constructor]. intros l [_ (data & Hr & _)]. discriminate Hr.
    + exists [mkAuthToken "t" "consumer"], []. split; [reflexivity|constructor].
Defined.
