(* ===== verification/Api.v ===== *)
(** * HTTP and WebSocket API (internal/api/api.go)

    The two producer handlers, each up to the request it hands to the cluster
    agent and then from the outcome of the wait to the reply; the middleware
    that asks for a leader; and a WebSocket session from the upgrade to the
    clean-up. Decoding a body, the clock and the network are inputs. *)

From S2P Require Import Prelude GoRuntime Messages Config Consumer Router Auth.

Local Open Scope Z_scope.

(** ** State *)

(** The fields of ProxyApi that matter here; [pa_heap] holds the consumers the
    maps and the router refer to, [pa_respHeap] the channels handlers wait on.
    The metrics are the gauge of WebSocket connections, the authentication
    failures, and the requests counted, oldest first, as (endpoint, status). *)
Record ProxyApi := mkProxyApi {
  pa_cfg : APIConfig;
  pa_auth : Authenticator;
  pa_router : DefaultRouter;
  pa_producerCh : chan ApiRequestWithRespCh;
  pa_consumers : gmap string cref;
  pa_consumersByUUID : gmap string cref;
  pa_heap : gmap cref Consumer;
  pa_respHeap : resp_heap;
  pa_reqIDCounter : Z;
  pa_wsConnections : Z;
  pa_authFailures : Z;
  pa_httpTotal : list (string * string)
}.

Definition ProducerReqBufferSize : Z := 10240.

Definition NewProxyApi (cfg : APIConfig) (auth : Authenticator) (router : DefaultRouter) : ProxyApi :=
  mkProxyApi cfg auth router (make_chan ProducerReqBufferSize) ∅ ∅ ∅ ∅ 0 0 0 [].

Definition set_ws (router : DefaultRouter) (consumers byUUID : gmap string cref)
    (heap : gmap cref Consumer) (gauge : Z) (a : ProxyApi) : ProxyApi :=
  mkProxyApi (pa_cfg a) (pa_auth a) router (pa_producerCh a) consumers byUUID heap (pa_respHeap a)
    (pa_reqIDCounter a) gauge (pa_authFailures a) (pa_httpTotal a).
Definition set_heap (heap : gmap cref Consumer) (a : ProxyApi) : ProxyApi :=
  set_ws (pa_router a) (pa_consumers a) (pa_consumersByUUID a) heap (pa_wsConnections a) a.
Definition set_gauge (n : Z) (a : ProxyApi) : ProxyApi :=
  set_ws (pa_router a) (pa_consumers a) (pa_consumersByUUID a) (pa_heap a) n a.
Definition AuthFailure (a : ProxyApi) : ProxyApi :=
  mkProxyApi (pa_cfg a) (pa_auth a) (pa_router a) (pa_producerCh a) (pa_consumers a)
    (pa_consumersByUUID a) (pa_heap a) (pa_respHeap a) (pa_reqIDCounter a) (pa_wsConnections a)
    (pa_authFailures a + 1) (pa_httpTotal a).
Definition HTTPRequest (endpoint status : string) (a : ProxyApi) : ProxyApi :=
  mkProxyApi (pa_cfg a) (pa_auth a) (pa_router a) (pa_producerCh a) (pa_consumers a)
    (pa_consumersByUUID a) (pa_heap a) (pa_respHeap a) (pa_reqIDCounter a) (pa_wsConnections a)
    (pa_authFailures a) (pa_httpTotal a ++ [(endpoint, status)]).

(** A request identifier is taken, a channel of capacity one is made. *)
Definition take_id (a : ProxyApi) : Z * ProxyApi :=
  let id := uint32 (pa_reqIDCounter a + 1) in
  (id, mkProxyApi (pa_cfg a) (pa_auth a) (pa_router a) (pa_producerCh a) (pa_consumers a)
    (pa_consumersByUUID a) (pa_heap a) (pa_respHeap a) id (pa_wsConnections a)
    (pa_authFailures a) (pa_httpTotal a)).
Definition take_respCh (a : ProxyApi) : chanid * ProxyApi :=
  let ch := fresh (dom (pa_respHeap a)) in
  (ch, mkProxyApi (pa_cfg a) (pa_auth a) (pa_router a) (pa_producerCh a) (pa_consumers a)
    (pa_consumersByUUID a) (pa_heap a) (<[ch := make_chan 1]> (pa_respHeap a)) (pa_reqIDCounter a)
    (pa_wsConnections a) (pa_authFailures a) (pa_httpTotal a)).
Definition set_producerCh (c : chan ApiRequestWithRespCh) (a : ProxyApi) : ProxyApi :=
  mkProxyApi (pa_cfg a) (pa_auth a) (pa_router a) c (pa_consumers a)
    (pa_consumersByUUID a) (pa_heap a) (pa_respHeap a) (pa_reqIDCounter a) (pa_wsConnections a)
    (pa_authFailures a) (pa_httpTotal a).

(** ** Replies *)

Inductive chunk :=
  | ErrorText (msg : string)
  | Json (fields : list (string * string)).

(** A handler that writes nothing leaves the server's own 200 and no body. *)
Record reply := mkReply { rp_status : Z; rp_body : list chunk }.

Definition StatusOK : Z := 200.
Definition StatusBadRequest : Z := 400.
Definition StatusUnauthorized : Z := 401.
Definition StatusServiceUnavailable : Z := 503.
Definition StatusGatewayTimeout : Z := 504.

Definition no_writes : reply := mkReply StatusOK [].
Definition http_Error (msg : string) (code : Z) : reply := mkReply code [ErrorText msg].

Definition unavailable_reply : reply :=
  mkReply StatusServiceUnavailable
    [Json [("error", "service_unavailable");
           ("message", "The service is temporarily unavailable. Please try again later.")]%string].

(** withLeaderCheck *)
Definition withLeaderCheck {A} (leaderAvailable : bool) (handler : A) : reply + A :=
  if leaderAvailable then inr handler else inl unavailable_reply.

Definition HealthHandler : reply := mkReply StatusOK [Json [("status", "ok")]%string].

(** The routes of SetupHTTPServer. *)
Inductive endpoint := Health | Metrics | ProducerTopic | ProducerJobs | Ws.

Definition route (path : string) : option endpoint :=
  if decide (path = "/health"%string) then Some Health
  else if decide (path = "/metrics"%string) then Some Metrics
  else if decide (path = "/producer/topic"%string) then Some ProducerTopic
  else if decide (path = "/producer/jobs"%string) then Some ProducerJobs
  else if decide (path = "/ws"%string) then Some Ws
  else None.

Record http_server := mkServer {
  sv_Addr : string;
  sv_ReadTimeout : Z;
  sv_WriteTimeout : Z;
  sv_IdleTimeout : Z
}.

Definition SetupHTTPServer (cfg : APIConfig) (addr : string) : http_server :=
  mkServer addr (int64 (api_ReadTimeoutSec cfg * second)) 0 (int64 (api_IdleTimeoutSec cfg * second)).

(** ** Producers *)

(** A handler either replied, or handed its request over and waits. *)
Inductive begun :=
  | Replied (r : reply)
  | Waiting (id : Z) (ch : chanid).

(** What ends the wait: the context, an answer, or the timer. *)
Inductive waited :=
  | CtxDone
  | Answered (resp : ToProducerResponse)
  | TimedOut.

Section Handlers.
Context (scan : string → option string).

(** The select on producerCh: the request's identifier and channel are made in
    any case; when the channel has no room within the time limit the timer
    fires. *)
Definition hand_over (mk : Z → ProxyRequest) (a : ProxyApi) : begun * ProxyApi :=
  let '(ch, a) := take_respCh a in
  let '(id, a) := take_id a in
  if chan_full (pa_producerCh a) then
    (Replied (http_Error "proxy busy" StatusServiceUnavailable), a)
  else
    (Waiting id ch, set_producerCh (chan_push (pa_producerCh a) (mkApiRequest (mk id) (Some ch))) a).

(** http.Error(w, err.Error(), 400): a nil error panics. *)
Definition bad_request {A} (endpoint : string) (decoded : result string A) (a : ProxyApi) :
    exec (begun * ProxyApi) :=
  let a := HTTPRequest endpoint "400" a in
  match decoded with
  | Err err => Returns (Replied (http_Error err StatusBadRequest), a)
  | Ok _ => Panics NilDereference
  end.

Definition AddTopicHandler_begin (r : http_auth) (decoded : result string AddTopicPayload)
    (a : ProxyApi) : exec (begun * ProxyApi) :=
  if negb (ValidateRole (extractToken scan r) RoleAdmin (pa_auth a)) then
    Returns (Replied (http_Error "Unauthorized" StatusUnauthorized), AuthFailure a)
  else
    match decoded with
    | Ok req =>
        if decide (at_Topic req = ""%string) then bad_request "/producer/topic" decoded a
        else Returns (hand_over (λ id, add_topic_request id req) a)
    | Err _ => bad_request "/producer/topic" decoded a
    end.

Definition AddTopicHandler_end (w : waited) (a : ProxyApi) : reply * ProxyApi :=
  match w with
  | CtxDone => (http_Error "proxy shutting down" StatusServiceUnavailable, a)
  | Answered resp =>
      if decide (tp_Status resp = ToProxyRespStatusSuccess) then
        (mkReply StatusOK [Json [("status", "success")]%string], HTTPRequest "/producer/topic" "200" a)
      else (http_Error (tp_Error resp) StatusBadRequest, HTTPRequest "/producer/topic" "400" a)
  | TimedOut => (http_Error "timeout" StatusGatewayTimeout, HTTPRequest "/producer/topic" "504" a)
  end.

Definition AddJobHandler_begin (r : http_auth) (decoded : result string AddJobsPayload)
    (a : ProxyApi) : exec (begun * ProxyApi) :=
  if negb (ValidateRole (extractToken scan r) RoleProducer (pa_auth a)) then
    Returns (Replied (http_Error "Unauthorized" StatusUnauthorized), AuthFailure a)
  else
    match decoded with
    | Ok req =>
        if decide (aj_Topic req = ""%string ∨ length (aj_Jobs req) = 0%nat) then
          bad_request "/producer/jobs" decoded a
        else Returns (hand_over (λ id, add_jobs_request id req) a)
    | Err _ => bad_request "/producer/jobs" decoded a
    end.

Definition AddJobHandler_end (topic : string) (w : waited) (a : ProxyApi) : reply * ProxyApi :=
  match w with
  | CtxDone => (no_writes, a)
  | Answered resp =>
      if decide (tp_Status resp = ToProxyRespStatusSuccess) then
        (mkReply StatusOK [Json [("status", "success"); ("topic", topic)]%string],
         HTTPRequest "/producer/jobs" "200" a)
      else
        (mkReply StatusBadRequest
           [ErrorText (tp_Error resp); Json [("message", tp_Error resp); ("status", "error")]%string],
         HTTPRequest "/producer/jobs" "400" a)
  | TimedOut => (http_Error "timeout" StatusGatewayTimeout, HTTPRequest "/producer/jobs" "504" a)
  end.

(** ** WebSocket sessions *)

Inductive ws_outcome :=
  | WsUnauthorized
  | WsUpgradeFailed
  | WsInitReadFailed
  | WsRejected
  | WsAccepted (p : cref).

(** json.Marshal of a delivery, as in the dispatcher. *)
Context (marshal : ToConsumerDelivery → option bytes).

(** The read deadline set after the upgrade and after every message: a
    Duration, in nanoseconds. *)
Definition ws_read_deadline (now : Z) (a : ProxyApi) : option Z :=
  if 0 <? api_WSReadTimeoutSec (pa_cfg a)
  then Some (now + int64 (api_WSReadTimeoutSec (pa_cfg a))) else None.

(** Up to the read loop. [upgrade] and [init] are what the upgrade and the first
    read give, [id] the fresh UUID, [p] the new consumer's address. *)
Definition ws_connect (r : http_auth) (upgrade : option string)
    (init : result string WebSocketMessage) (now : Z) (id : string) (p : cref) (a : ProxyApi) :
    exec (ws_outcome * ProxyApi) :=
  if negb (ValidateRole (extractToken scan r) RoleConsumer (pa_auth a)) then Returns (WsUnauthorized, a)
  else
    match upgrade with
    | Some _ => Returns (WsUpgradeFailed, a)
    | None =>
        match init with
        | Err _ => Returns (WsInitReadFailed, a)
        | Ok initMsg =>
            if decide (ws_Action initMsg ≠ "init" ∨ ws_UUID initMsg = "" ∨ ws_Topic initMsg = "")%string
            then Returns (WsRejected, a)
            else
              let consumer := NewConsumer id (ws_UUID initMsg) (ws_Topic initMsg)
                (Some (mkConn [] false)) (api_DefaultMaxInflights (pa_cfg a)) in
              let a := set_ws (AddConsumer now (ws_Topic initMsg) p consumer (pa_router a))
                (<[cs_ID consumer := p]> (pa_consumers a))
                (<[cs_UUID consumer := p]> (pa_consumersByUUID a))
                (<[p := consumer]> (pa_heap a)) (pa_wsConnections a + 1) a in
              '(_, consumer) ← WriteMessage false (accepted_message marshal) consumer;
              Returns (WsAccepted p, set_heap (<[p := consumer]> (pa_heap a)) a)
        end
    end.

(** One message of the read loop. A Done that finds the channel full for a
    second is dropped; its identifier is taken in any case. *)
Definition ws_message (p : cref) (msg : WebSocketMessage) (a : ProxyApi) : ProxyApi :=
  if decide (ws_Action msg = "ack"%string) then
    let a := set_heap (alter (UpdateDeliveryAck (ws_LastID msg)) p (pa_heap a)) a in
    if decide (ws_Topic msg ≠ "" ∧ ws_JobID msg ≠ "")%string then
      let '(id, a) := take_id a in
      if chan_full (pa_producerCh a) then a
      else set_producerCh (chan_push (pa_producerCh a)
             (mkApiRequest (done_request id (mkDone (ws_Topic msg) [ws_JobID msg])) None)) a
    else a
  else a.

(** The clean-up after the read loop. *)
Definition ws_disconnect (p : cref) (a : ProxyApi) : ProxyApi :=
  match pa_heap a !! p with
  | None => a
  | Some consumer =>
      set_ws (RemoveConsumer (cs_Topic consumer) (cs_ID consumer) (pa_router a))
        (delete (cs_ID consumer) (pa_consumers a))
        (delete (cs_UUID consumer) (pa_consumersByUUID a))
        (<[p := (Close (cs_doneClosed consumer) consumer).2]> (pa_heap a))
        (pa_wsConnections a - 1) a
  end.

(** The return at a cancelled context: only the deferred gauge runs. *)
Definition ws_ctx_done (a : ProxyApi) : ProxyApi := set_gauge (pa_wsConnections a - 1) a.

(** ** The API as a machine *)

Inductive api_event :=
  | ApiConnect (r : http_auth) (init : WebSocketMessage) (now : Z) (id : string) (p : cref)
  | ApiMessage (p : cref) (msg : WebSocketMessage)
  | ApiDisconnect (p : cref)
  | ApiJobs (r : http_auth) (req : AddJobsPayload)
  | ApiTopic (r : http_auth) (req : AddTopicPayload)
  | ApiDrain.

(** Whether the session of [p] is open. *)
Definition session_open (p : cref) (a : ProxyApi) : bool :=
  match pa_heap a !! p with
  | None => false
  | Some c => bool_decide (pa_consumers a !! cs_ID c = Some p)
  end.

Definition api_step (e : api_event) (a : ProxyApi) : option ProxyApi :=
  let ran {A} (x : exec (A * ProxyApi)) := match x with Returns (_, a) => Some a | _ => None end in
  match e with
  | ApiConnect r init now id p =>
      match pa_consumers a !! id, pa_heap a !! p with
      | None, None => ran (ws_connect r None (Ok init) now id p a)
      | _, _ => None
      end
  | ApiMessage p msg => if session_open p a then Some (ws_message p msg a) else None
  | ApiDisconnect p => if session_open p a then Some (ws_disconnect p a) else None
  | ApiJobs r req => ran (AddJobHandler_begin r (Ok req) a)
  | ApiTopic r req => ran (AddTopicHandler_begin r (Ok req) a)
  | ApiDrain => '(_, c) ← recv (pa_producerCh a); Some (set_producerCh c a)
  end.

End Handlers.

(** ** The producer handlers *)

Section HandlerFacts.
Context (scan : string → option string).

Definition authorised (r : http_auth) (role : string) (a : ProxyApi) : Prop :=
  ∃ granted, au_tokens (pa_auth a) !! extractToken scan r = Some granted ∧
               (granted = RoleAdmin ∨ granted = role).

Lemma ValidateRole_authorised r role a :
  ValidateRole (extractToken scan r) role (pa_auth a) = true ↔ authorised r role a.
Proof. apply ValidateRole_spec. Qed.

Definition jobs_payload_ok (req : AddJobsPayload) : Prop := aj_Topic req ≠ ""%string ∧ aj_Jobs req ≠ [].

Lemma hand_over_room mk a :
  chan_full (pa_producerCh a) = false →
  ∃ id ch a', hand_over mk a = (Waiting id ch, a') ∧
    id = uint32 (pa_reqIDCounter a + 1) ∧ pa_reqIDCounter a' = id ∧
    pa_respHeap a !! ch = None ∧ pa_respHeap a' = <[ch := make_chan 1]> (pa_respHeap a) ∧
    pa_producerCh a' = chan_push (pa_producerCh a) (mkApiRequest (mk id) (Some ch)).
Proof.
  intros Hf. unfold hand_over, take_respCh, take_id. cbn [pa_producerCh].
  rewrite Hf. eexists _, _, _. split; [done|]. cbn.
  split_and!; try done. apply not_elem_of_dom, is_fresh.
Qed.

Lemma chan_push_ne {A} (c : chan A) v : chan_push c v ≠ c.
Proof.
  intros H. apply (f_equal (length ∘ ch_buf)) in H. cbn in H. rewrite length_app in H. cbn in H. lia.
Qed.

(** C20: A job submission is handed to the cluster agent exactly when its token
    has the producer or the admin role, its body decodes to a topic and at least
    one job, and the channel has room; it is then queued once, with a new
    identifier and a response channel of its own, and the handler waits.
    Otherwise the queue is as it was. *)
Theorem jobs_handed_over r decoded a o a' :
  AddJobHandler_begin scan r decoded a = Returns (o, a') →
  (authorised r RoleProducer a ∧ chan_full (pa_producerCh a) = false ∧
   ∃ req id ch, decoded = Ok req ∧ jobs_payload_ok req ∧ o = Waiting id ch ∧
     id = uint32 (pa_reqIDCounter a + 1) ∧ pa_respHeap a !! ch = None ∧
     pa_respHeap a' !! ch = Some (make_chan 1) ∧
     pa_producerCh a' =
       chan_push (pa_producerCh a) (mkApiRequest (add_jobs_request id req) (Some ch))) ∨
  (pa_producerCh a' = pa_producerCh a ∧
   ¬ (authorised r RoleProducer a ∧ chan_full (pa_producerCh a) = false ∧
      ∃ req, decoded = Ok req ∧ jobs_payload_ok req) ∧
   ∃ rp, o = Replied rp ∧ rp_status rp ≠ StatusOK).
Proof.
  rewrite <- ValidateRole_authorised. unfold AddJobHandler_begin, jobs_payload_ok.
  destruct (ValidateRole _ _ _); cbn [negb].
  2: { intros [= <- <-]. right. split_and!; [done|naive_solver|by eexists]. }
  destruct decoded as [req|err].
  2: { cbn. intros [= <- <-]. right. split_and!; [done|naive_solver|by eexists]. }
  case_decide as Hreq; [by cbn|].
  assert (aj_Topic req ≠ ""%string ∧ aj_Jobs req ≠ []) as Hok.
  { split; [tauto|]. intros Hj. rewrite Hj in Hreq. tauto. }
  destruct (chan_full (pa_producerCh a)) eqn:Hf.
  - unfold hand_over, take_respCh, take_id. cbn [pa_producerCh]. rewrite Hf. cbn [pa_producerCh].
    intros [= <- <-]. right. split_and!; [done|naive_solver|by eexists].
  - destruct (hand_over_room (λ id, add_jobs_request id req) a Hf)
      as (id & ch & a1 & -> & Hid & _ & Hfr & Hh & Hp).
    intros [= <- <-]. left. split_and!; try done. exists req, id, ch.
    split_and!; try done; [apply Hok..|]. rewrite Hh. apply lookup_insert_eq.
Qed.

(** The handler of job submissions panics exactly on an authorised request
    whose body decodes to an empty topic or to no jobs: it asks a nil error for
    its message. *)
Theorem jobs_handler_panics r decoded a :
  AddJobHandler_begin scan r decoded a = Panics NilDereference ↔
  authorised r RoleProducer a ∧ ∃ req, decoded = Ok req ∧ (aj_Topic req = ""%string ∨ aj_Jobs req = []).
Proof.
  rewrite <- ValidateRole_authorised. unfold AddJobHandler_begin.
  destruct (ValidateRole _ _ _); cbn [negb]; [|naive_solver].
  destruct decoded as [req|err]; cbn; [|naive_solver].
  case_decide as Hd.
  - split; [|done]. intros _. split; [done|]. exists req. split; [done|].
    destruct Hd as [?|Hd%nil_length_inv]; auto.
  - split; [done|]. intros (_ & req' & [= <-] & Hor). exfalso. apply Hd.
    destruct Hor as [?| ->]; auto.
Qed.

(** A submission is answered with status 200 exactly when the cluster
    answered "success", or when the proxy is shutting down: the handler then
    returns without writing, and nothing is known about the jobs. *)
Theorem jobs_success_reply topic w a :
  rp_status (AddJobHandler_end topic w a).1 = StatusOK ↔
  w = CtxDone ∨ ∃ resp, w = Answered resp ∧ tp_Status resp = ToProxyRespStatusSuccess.
Proof.
  destruct w as [|resp|]; cbn; [naive_solver| |].
  - case_decide; cbn; naive_solver.
  - split; [done|]. by intros [?|(? & ? & _)].
Qed.

End HandlerFacts.

(** ** Sessions *)

(** The consumer the router has for a topic under an identifier. *)
Definition consumer_at (r : DefaultRouter) (t id : string) : option cref :=
  m ← rt_topicConsumers r !! t; m !! id.

Lemma AddConsumer_at now t p c r t' id :
  consumer_at (AddConsumer now t p c r) t' id =
  if decide (t' = t ∧ id = cs_ID c) then Some p else consumer_at r t' id.
Proof.
  unfold consumer_at, AddConsumer. destruct (rt_topicConsumers r !! t) as [m|] eqn:Ht; cbn.
  - destruct (decide (t' = t)) as [->|Hne].
    + rewrite lookup_alter_eq, Ht. cbn. rewrite lookup_insert. repeat case_decide; naive_solver.
    + rewrite lookup_alter_ne by done. rewrite decide_False; [done|naive_solver].
  - destruct (decide (t' = t)) as [->|Hne].
    + rewrite lookup_alter_eq, lookup_insert_eq, Ht. cbn. rewrite lookup_insert.
      repeat case_decide; try naive_solver.
    + rewrite lookup_alter_ne, lookup_insert_ne by done. rewrite decide_False; [done|naive_solver].
Qed.

Lemma RemoveConsumer_at t cid r t' id :
  consumer_at (RemoveConsumer t cid r) t' id =
  if decide (t' = t ∧ id = cid) then None else consumer_at r t' id.
Proof.
  unfold RemoveConsumer. destruct (rt_topicConsumers r !! t) as [m|] eqn:Ht.
  2: { case_decide as Hd; [|done]. destruct Hd as [-> ->]. unfold consumer_at. by rewrite Ht. }
  assert (∀ r', rt_topicConsumers r' = <[t := delete cid m]> (rt_topicConsumers r) →
    consumer_at r' t' id = if decide (t' = t ∧ id = cid) then None else consumer_at r t' id) as Hins.
  { intros r' Hr. unfold consumer_at. rewrite Hr, lookup_insert.
    destruct (decide (t = t')) as [<-|Hne]; cbn.
    - rewrite Ht. cbn. rewrite lookup_delete. repeat case_decide; naive_solver.
    - rewrite decide_False; [done|naive_solver]. }
  cbv zeta. destruct (size (delete cid m) =? 0)%nat eqn:Hs; [|apply Hins; done].
  reflect_arith. apply map_size_empty_inv in Hs.
  rewrite <- (Hins (set_topicConsumers (<[t := delete cid m]> (rt_topicConsumers r)) r)) by done.
  assert (rt_topicConsumers (drainAndStopTopic t (set_topicConsumers
    (<[t := delete cid m]> (rt_topicConsumers r)) r))
    = delete t (<[t := delete cid m]> (rt_topicConsumers r))) as Hd.
  { unfold drainAndStopTopic, stopDispatcher. cbn. by destruct (rt_dispatchCancel r !! t). }
  unfold consumer_at. rewrite Hd, delete_insert_eq. cbn. rewrite lookup_insert, lookup_delete.
  rewrite Hs. destruct (decide (t = t')); cbn; by rewrite ?lookup_empty.
Qed.

(** The registered consumers, their objects and the router agree. *)
Record api_wf (a : ProxyApi) : Prop := {
  aw_router : router_wf (pa_router a);
  aw_agree : ∀ t id p, consumer_at (pa_router a) t id = Some p ↔
    ∃ c, pa_consumers a !! id = Some p ∧ pa_heap a !! p = Some c ∧ cs_Topic c = t;
  aw_heap : ∀ id p, pa_consumers a !! id = Some p → ∃ c, pa_heap a !! p = Some c ∧ cs_ID c = id
}.

(** Updating an object in place. *)
Lemma api_wf_heap f p a :
  (∀ c, cs_ID (f c) = cs_ID c ∧ cs_Topic (f c) = cs_Topic c) →
  api_wf a → api_wf (set_heap (alter f p (pa_heap a)) a).
Proof.
  intros Hf [w1 w2 w3].
  assert (∀ q c, pa_heap a !! q = Some c →
    ∃ c', alter f p (pa_heap a) !! q = Some c' ∧ cs_ID c' = cs_ID c ∧ cs_Topic c' = cs_Topic c) as Hup.
  { intros q c Hc. destruct (decide (p = q)) as [->|Hne].
    - exists (f c). by rewrite lookup_alter_eq, Hc.
    - exists c. by rewrite lookup_alter_ne. }
  split; cbn; [done| |].
  - intros t id q. rewrite w2. split.
    + intros (c & Hp & Hc & Ht). destruct (Hup _ _ Hc) as (c' & Hc' & _ & Ht'). exists c'. by rewrite Ht'.
    + intros (c' & Hp & Hc' & Ht). destruct (w3 _ _ Hp) as (c & Hc & _).
      destruct (Hup _ _ Hc) as (c2 & Hc2 & _ & Ht2). exists c. simplify_eq. done.
  - intros id q Hp. destruct (w3 _ _ Hp) as (c & Hc & Hid).
    destruct (Hup _ _ Hc) as (c' & Hc' & Hid' & _). exists c'. by rewrite Hid'.
Qed.

(** Fields the invariant does not mention. *)
Lemma api_wf_same a a' :
  pa_router a' = pa_router a → pa_consumers a' = pa_consumers a → pa_heap a' = pa_heap a →
  api_wf a → api_wf a'.
Proof. intros Hr Hc Hh [w1 w2 w3]. split; by rewrite ?Hr, ?Hc, ?Hh. Qed.

Section SessionFacts.
Context (scan : string → option string) (marshal : ToConsumerDelivery → option bytes).

(** What a connection attempt leaves: nothing, or a registered consumer with an
    empty window. *)
Lemma ws_connect_cases r upgrade init now id p a o a' :
  ws_connect scan marshal r upgrade init now id p a = Returns (o, a') →
  a' = a ∧ (∀ q, o ≠ WsAccepted q) ∨
  ∃ msg c, init = Ok msg ∧ o = WsAccepted p ∧ authorised scan r RoleConsumer a ∧
    ws_Action msg = "init"%string ∧ ws_UUID msg ≠ ""%string ∧ ws_Topic msg ≠ ""%string ∧
    cs_ID c = id ∧ cs_UUID c = ws_UUID msg ∧ cs_Topic c = ws_Topic msg ∧
    cs_LastSentID c = 0 ∧ cs_LastDeliveryAckID c = 0 ∧
    cs_MaxInflights c = api_DefaultMaxInflights (pa_cfg a) ∧
    a' = set_ws (AddConsumer now (ws_Topic msg) p c (pa_router a)) (<[id := p]> (pa_consumers a))
           (<[ws_UUID msg := p]> (pa_consumersByUUID a)) (<[p := c]> (pa_heap a))
           (pa_wsConnections a + 1) a.
Proof.
  unfold ws_connect. destruct (ValidateRole _ _ _) eqn:Hv; cbn [negb]; [|intros [= <- <-]; by left].
  destruct upgrade; [intros [= <- <-]; by left|].
  destruct init as [msg|]; [|intros [= <- <-]; by left].
  case_decide as Hm; [intros [= <- <-]; by left|]. intros [= <- <-]. right.
  exists msg, (set_writeCh (Chan write_cap [accepted_message marshal])
    (NewConsumer id (ws_UUID msg) (ws_Topic msg) (Some (mkConn [] false))
      (api_DefaultMaxInflights (pa_cfg a)))).
  split; [done|]. split; [done|].
  split; [by apply ValidateRole_authorised|].
  assert (ws_Action msg = "init" ∧ ws_UUID msg ≠ "" ∧ ws_Topic msg ≠ "")%string as (? & ? & ?).
  { split_and!; [apply dec_stable|..]; tauto. }
  split_and!; try done. unfold set_heap, set_ws. cbn. by rewrite insert_insert_eq.
Qed.

Lemma api_wf_connect now p c a :
  pa_consumers a !! cs_ID c = None → pa_heap a !! p = None → api_wf a →
  ∀ uuid n, api_wf (set_ws (AddConsumer now (cs_Topic c) p c (pa_router a))
    (<[cs_ID c := p]> (pa_consumers a)) (<[uuid := p]> (pa_consumersByUUID a))
    (<[p := c]> (pa_heap a)) n a).
Proof.
  intros Hid Hp [w1 w2 w3] uuid n. split; cbn.
  - by apply AddConsumer_wf.
  - intros t id q. rewrite AddConsumer_at. destruct (decide (id = cs_ID c)) as [->|Hne].
    + rewrite lookup_insert_eq. destruct (decide (t = cs_Topic c)) as [->|Ht].
      * rewrite decide_True by done. split.
        -- intros [= <-]. exists c. by rewrite lookup_insert_eq.
        -- by intros (c' & [= <-] & _).
      * rewrite decide_False by naive_solver. rewrite w2. split.
        -- intros (c' & Hc' & _). by rewrite Hid in Hc'.
        -- intros (c' & [= <-] & Hc' & Ht'). rewrite lookup_insert_eq in Hc'. naive_solver.
    + rewrite decide_False by naive_solver. rewrite w2, lookup_insert_ne by done.
      split; intros (c' & Hq & Hc' & Ht); exists c'; (split; [done|]; split; [|done]).
      * rewrite lookup_insert_ne; [done|]. intros ->. by rewrite Hp in Hc'.
      * destruct (w3 _ _ Hq) as (c2 & Hc2 & _). rewrite lookup_insert_ne in Hc'; [done|].
        intros ->. by rewrite Hp in Hc2.
  - intros id q [[<- <-]|[Hne Hq]]%lookup_insert_Some.
    + exists c. by rewrite lookup_insert_eq.
    + destruct (w3 _ _ Hq) as (c2 & Hc2 & Hid2). exists c2. rewrite lookup_insert_ne; [done|].
      intros ->. by rewrite Hp in Hc2.
Qed.

Lemma api_wf_disconnect p c a n byUUID :
  pa_heap a !! p = Some c → pa_consumers a !! cs_ID c = Some p → api_wf a →
  api_wf (set_ws (RemoveConsumer (cs_Topic c) (cs_ID c) (pa_router a))
    (delete (cs_ID c) (pa_consumers a)) byUUID
    (<[p := (Close (cs_doneClosed c) c).2]> (pa_heap a)) n a).
Proof.
  intros Hp Hid [w1 w2 w3].
  assert (∀ q c', pa_heap a !! q = Some c' →
    ∃ c2, <[p := (Close (cs_doneClosed c) c).2]> (pa_heap a) !! q = Some c2 ∧
          cs_ID c2 = cs_ID c' ∧ cs_Topic c2 = cs_Topic c') as Hup.
  { intros q c' Hc'. destruct (decide (p = q)) as [->|Hne].
    - rewrite lookup_insert_eq. eexists. split; [done|]. simplify_eq. unfold Close. by case_match.
    - exists c'. by rewrite lookup_insert_ne. }
  split; cbn.
  - by apply RemoveConsumer_wf.
  - intros t id q. rewrite RemoveConsumer_at. destruct (decide (id = cs_ID c)) as [->|Hne].
    + rewrite lookup_delete_eq. split; [|by intros (? & ? & _)].
      case_decide as Hd; [done|]. rewrite w2. intros (c' & Hq & Hc' & Ht). simplify_eq. naive_solver.
    + rewrite decide_False by naive_solver. rewrite w2, lookup_delete_ne by done. split.
      * intros (c' & Hq & Hc' & Ht). destruct (Hup _ _ Hc') as (c2 & Hc2 & _ & Ht2).
        exists c2. by rewrite Ht2.
      * intros (c2 & Hq & Hc2 & Ht). destruct (w3 _ _ Hq) as (c' & Hc' & _).
        destruct (Hup _ _ Hc') as (c3 & Hc3 & _ & Ht3). exists c'. simplify_eq. done.
  - intros id q [Hne Hq]%lookup_delete_Some. destruct (w3 _ _ Hq) as (c' & Hc' & Hi).
    destruct (Hup _ _ Hc') as (c2 & Hc2 & Hi2 & _). exists c2. by rewrite Hi2.
Qed.

Lemma handed_same mk a :
  pa_router (hand_over mk a).2 = pa_router a ∧ pa_consumers (hand_over mk a).2 = pa_consumers a ∧
  pa_heap (hand_over mk a).2 = pa_heap a.
Proof. unfold hand_over, take_respCh, take_id. cbn [pa_producerCh]. by case_match. Qed.

(** What the session state is made of. *)
Definition same_sessions (a a' : ProxyApi) : Prop :=
  pa_router a' = pa_router a ∧ pa_consumers a' = pa_consumers a ∧ pa_heap a' = pa_heap a.

Lemma jobs_begin_same r dec a o a' :
  AddJobHandler_begin scan r dec a = Returns (o, a') → same_sessions a a'.
Proof.
  unfold AddJobHandler_begin, same_sessions.
  destruct (ValidateRole _ _ _); cbn [negb]; [|by intros [= <- <-]].
  destruct dec as [req|]; [|by intros [= <- <-]]. case_decide; [done|]. intros [= Hh].
  pose proof (handed_same (λ id, add_jobs_request id req) a) as Hs. by rewrite Hh in Hs.
Qed.

Lemma topic_begin_same r dec a o a' :
  AddTopicHandler_begin scan r dec a = Returns (o, a') → same_sessions a a'.
Proof.
  unfold AddTopicHandler_begin, same_sessions.
  destruct (ValidateRole _ _ _); cbn [negb]; [|by intros [= <- <-]].
  destruct dec as [req|]; [|by intros [= <- <-]]. case_decide; [done|]. intros [= Hh].
  pose proof (handed_same (λ id, add_topic_request id req) a) as Hs. by rewrite Hh in Hs.
Qed.

Lemma ws_message_wf p msg a : api_wf a → api_wf (ws_message p msg a).
Proof.
  intros Hwf. unfold ws_message. case_decide; [|done].
  apply (api_wf_heap (UpdateDeliveryAck (ws_LastID msg)) p) in Hwf.
  2: { intros c. unfold UpdateDeliveryAck. by case_match. }
  case_decide; [|done]. unfold take_id. cbn [pa_producerCh]. by case_match; revert Hwf; apply api_wf_same.
Qed.

Lemma api_step_wf e a a' : api_wf a → api_step scan marshal e a = Some a' → api_wf a'.
Proof.
  intros Hwf Hs. destruct e as [r init now id p|p msg|p|r req|r req|]; cbn in Hs.
  - destruct (pa_consumers a !! id) eqn:Hid, (pa_heap a !! p) eqn:Hp; try done.
    destruct (ws_connect _ _ _ _ _ _ _ _ _) as [[o a1]| |] eqn:Hc; [|done..].
    injection Hs as <-. apply ws_connect_cases in Hc as [[-> _]|(msg & c & _ & _ & _ & _ & _ & _ &
      <- & _ & <- & _ & _ & _ & ->)]; [done|]. by apply api_wf_connect.
  - case_match; [|done]. injection Hs as <-. by apply ws_message_wf.
  - unfold session_open, ws_disconnect in Hs. destruct (pa_heap a !! p) as [c|] eqn:Hp; [|done].
    case_bool_decide as Hid; [|done]. injection Hs as <-. by apply api_wf_disconnect.
  - destruct (AddJobHandler_begin _ _ _ _) as [[o a1]| |] eqn:Hb; [|done..]. injection Hs as <-.
    apply jobs_begin_same in Hb as (? & ? & ?). by eapply api_wf_same.
  - destruct (AddTopicHandler_begin _ _ _ _) as [[o a1]| |] eqn:Hb; [|done..]. injection Hs as <-.
    apply topic_begin_same in Hb as (? & ? & ?). by eapply api_wf_same.
  - destruct (recv _) as [[? c]|]; [|done]. injection Hs as <-. revert Hwf. by apply api_wf_same.
Qed.
End SessionFacts.

(** ** The properties of sessions *)

(** C19: Through any sequence of connections, messages, disconnections and
    submissions, the consumers of the API and those of the router are the same:
    a consumer is registered under its identifier exactly when the router has
    it under the topic it asked for; and the router stays well-formed. *)
Theorem api_router_agree scan marshal cfg auth es a :
  run (api_step scan marshal) es (NewProxyApi cfg auth NewDefaultRouter) = Some a →
  router_wf (pa_router a) ∧
  (∀ t id p, consumer_at (pa_router a) t id = Some p ↔
     ∃ c, pa_consumers a !! id = Some p ∧ pa_heap a !! p = Some c ∧ cs_Topic c = t) ∧
  (∀ id p, pa_consumers a !! id = Some p → ∃ c, pa_heap a !! p = Some c ∧ cs_ID c = id).
Proof.
  intros Hr. assert (api_wf a) as [? ? ?]; [|done].
  refine (run_invariant (api_step scan marshal) api_wf _ es _ a _ Hr).
  - intros e a1 a2. apply api_step_wf.
  - split; [apply NewDefaultRouter_wf| |done]. intros t id p. split; [done|]. by intros (c & ? & _).
Qed.

(** What the messages of a session do not change. *)
Definition session_kept (p : cref) (a a' : ProxyApi) : Prop :=
  pa_router a' = pa_router a ∧ pa_consumers a' = pa_consumers a ∧
  pa_wsConnections a' = pa_wsConnections a ∧
  ∀ c, pa_heap a !! p = Some c →
    ∃ c', pa_heap a' !! p = Some c' ∧ cs_ID c' = cs_ID c ∧ cs_Topic c' = cs_Topic c.

Lemma ws_message_kept p msg a : session_kept p a (ws_message p msg a).
Proof.
  assert (∀ a', pa_router a' = pa_router a → pa_consumers a' = pa_consumers a →
    pa_wsConnections a' = pa_wsConnections a →
    pa_heap a' = alter (UpdateDeliveryAck (ws_LastID msg)) p (pa_heap a) → session_kept p a a') as H.
  { intros a' H1 H2 H3 H4. split_and!; [done..|]. intros c Hc. rewrite H4, lookup_alter_eq, Hc.
    eexists. split; [done|]. unfold UpdateDeliveryAck. by case_match. }
  unfold ws_message. case_decide; [|split_and!; [done..|eauto]].
  case_decide; [|by apply H]. unfold take_id. cbn [pa_producerCh]. case_match; by apply H.
Qed.

Lemma ws_messages_kept p msgs a :
  session_kept p a (fold_left (λ a m, ws_message p m a) msgs a).
Proof.
  revert a. induction msgs as [|m msgs IH]; intros a; cbn; [split_and!; [done..|eauto]|].
  destruct (ws_message_kept p m a) as (H1 & H2 & H3 & H4), (IH (ws_message p m a)) as (K1 & K2 & K3 & K4).
  split_and!; [congruence..|]. intros c Hc. destruct (H4 c Hc) as (c1 & Hc1 & <- & <-). by apply K4.
Qed.

(** C38: A consumer that connects and disconnects leaves the API's table of
    consumers, the consumers of every topic of the router and the gauge as they
    were; what it acknowledged in between does not matter. *)
Theorem session_roundtrip scan marshal r init now id p msgs a a1 :
  api_wf a → pa_consumers a !! id = None → pa_heap a !! p = None →
  ws_connect scan marshal r None (Ok init) now id p a = Returns (WsAccepted p, a1) →
  let a2 := ws_disconnect p (fold_left (λ a m, ws_message p m a) msgs a1) in
  pa_consumers a2 = pa_consumers a ∧
  (∀ t cid, consumer_at (pa_router a2) t cid = consumer_at (pa_router a) t cid) ∧
  pa_wsConnections a2 = pa_wsConnections a.
Proof.
  intros Hwf Hid Hp Hc. apply ws_connect_cases in Hc as [[-> Ho]|(msg & c & _ & _ & _ & _ & _ & _ &
    Hcid & _ & Ht & _ & _ & _ & ->)]; [by destruct (Ho p)|].
  set (a1 := set_ws _ _ _ _ _ _).
  assert (pa_heap a1 !! p = Some c) as Hc1 by apply lookup_insert_eq.
  destruct (ws_messages_kept p msgs a1) as (Hr & Hcs & Hg & Hh).
  destruct (Hh c Hc1) as (c' & Hc' & Hi' & Ht').
  unfold ws_disconnect. rewrite Hc'. cbn. rewrite Hr, Hcs, Hg, Hi', Ht'. cbn. split_and!.
  - rewrite Hcid. by apply delete_insert_id.
  - intros t cid. rewrite RemoveConsumer_at, AddConsumer_at. case_decide as Hd.
    + destruct Hd as [-> ->]. symmetry. apply eq_None_not_Some. intros [q Hq].
      apply (aw_agree _ Hwf) in Hq as (c2 & Hq & _). rewrite Hcid in Hq. by rewrite Hid in Hq.
    + rewrite <- Ht. by rewrite decide_False.
  - lia.
Qed.

(** ** Concrete sessions *)

Module ApiExample.

Definition scan (s : string) : option string := None.
Definition marshal (d : ToConsumerDelivery) : option bytes := Some (bytes_of (td_Action d)).

Definition auth : Authenticator :=
  mkAuthenticator {["c"%string := RoleConsumer; "p"%string := RoleProducer]} false.

Definition api : ProxyApi := NewProxyApi (cfg_API DefaultConfig) auth NewDefaultRouter.

Definition as_role (token : string) : http_auth := mkHttpAuth "" token.
Definition init_message (uuid : string) : WebSocketMessage := mkWebSocketMessage "init" uuid "t" 0 "" [].
Definition ack (n : Z) : WebSocketMessage := mkWebSocketMessage "ack" "" "t" n "j" [].

Definition connect (id uuid : string) (p : cref) : api_event :=
  ApiConnect (as_role "c") (init_message uuid) 0 id p.

Definition jobs : AddJobsPayload := mkAddJobs "t" [Some (mkJob "j" "t" [])].

(** The API after some events. *)
Definition after (es : list api_event) : ProxyApi := default api (run (api_step scan marshal) es api).

End ApiExample.
Import ApiExample.

Theorem jobs_handed_over_witness :
  ∃ o a', AddJobHandler_begin scan (as_role "p") (Ok jobs) api = Returns (o, a') ∧
    ((∃ id ch, o = Waiting id ch) ∨ pa_producerCh a' = pa_producerCh api).
Proof.
  eexists _, _. split; [reflexivity|].
  destruct (jobs_handed_over scan (as_role "p") (Ok jobs) api _ _ eq_refl)
    as [(_ & _ & req & id & ch & _ & _ & H & _)|[H _]].
  - left. exists id, ch. exact H.
  - right. exact H.
Defined.

Theorem api_router_agree_witness :
  router_wf (pa_router (after [connect "i1" "u" 0; connect "i2" "u" 1; ApiDisconnect 0%nat])).
Proof.
  apply (api_router_agree scan marshal (cfg_API DefaultConfig) auth
    [connect "i1" "u" 0; connect "i2" "u" 1; ApiDisconnect 0%nat]).
  vm_compute. reflexivity.
Defined.

Theorem session_roundtrip_witness :
  ∃ a1, ws_connect scan marshal (as_role "c") None (Ok (init_message "u")) 0 "i" 0%nat api
          = Returns (WsAccepted 0%nat, a1) ∧
    pa_consumers (ws_disconnect 0%nat (fold_left (λ a m, ws_message 0%nat m a) [ack 1] a1))
    = pa_consumers api.
Proof.
  eexists. split; [reflexivity|].
  refine (proj1 (session_roundtrip scan marshal (as_role "c") (init_message "u") 0 "i" 0%nat [ack 1]
    api _ _ _ _ _)).
  - split; [apply NewDefaultRouter_wf| |intros id p H; vm_compute in H; discriminate H].
    intros t id p. split; [intros H; vm_compute in H; discriminate H|].
    intros (c & H & _). vm_compute in H. discriminate H.
  - vm_compute. reflexivity.
  - vm_compute. reflexivity.
  - reflexivity.
Defined.

(** A reconnection under the same UUID before the old session is cleaned up:
    the clean-up removes the new session's entry. *)
Example reconnect_uuid_lost :
  let a := after [connect "i1" "u" 0; connect "i2" "u" 1; ApiDisconnect 0%nat] in
  pa_consumers a !! "i2"%string = Some 1%nat ∧ pa_consumersByUUID a !! "u"%string = None.
Proof. split; vm_compute; reflexivity. Qed.

(** At shutdown the session returns with its consumer still in the router. *)
Example shutdown_keeps_consumer :
  consumer_at (pa_router (ws_ctx_done (after [connect "i1" "u" 0]))) "t" "i1" = Some 0%nat.
Proof. vm_compute. reflexivity. Qed.

(** A read timeout of thirty seconds is a deadline thirty nanoseconds away. *)
Example ws_timeout_in_nanoseconds :
  let cfg := mkAPIConfig "" 1 0 0 0 30 0 0 1 "" false "" "" in
  ws_read_deadline 1000 (NewProxyApi cfg auth NewDefaultRouter) = Some 1030.
Proof. reflexivity. Qed.

(** A Done is dropped when the channel to the agent is full. *)
Example done_dropped_when_full :
  let full := set_producerCh (Chan 0 []) (after [connect "i1" "u" 0]) in
  pa_producerCh (ws_message 0%nat (ack 1) full) = pa_producerCh full.
Proof. vm_compute. reflexivity. Qed.
