(* ===== verification/App.v ===== *)
(** * Starting and stopping the proxy (internal/app/run.go, agent.go, api.go)

    RunProxy builds the parts and starts them, waits for the signal and stops
    them: the HTTP server, then the agent with its connections. Its goroutines
    are [Start] of the API, [Run] of the agent and the agent's six tasks; of what
    the tasks do, the Done batch is kept, because its last flush belongs to the
    shutdown. *)

From S2P Require Import Prelude GoRuntime Messages Metrics Config Consumer Router JobBuffer.
From S2P Require Import Leadership Discovery Transport Agent Auth Api.

Local Open Scope Z_scope.

(** ** The HTTP server (api.go) *)

Record server_tls := mkServerTLS {
  st_MinVersion : Z;
  st_CipherSuites : list Z;
  st_CurvePreferences : list Z;
  st_PreferServerCipherSuites : bool;
  st_SessionTicketsDisabled : bool;
  st_NextProtos : list string
}.

(** The constants of crypto/tls. *)
Definition VersionTLS12 : Z := 0x0303.
Definition ECDHE_ECDSA_AES_256_GCM_SHA384 : Z := 0xc02c.
Definition ECDHE_RSA_AES_256_GCM_SHA384 : Z := 0xc030.
Definition ECDHE_ECDSA_CHACHA20_POLY1305 : Z := 0xcca9.
Definition ECDHE_RSA_CHACHA20_POLY1305 : Z := 0xcca8.
Definition ECDHE_ECDSA_AES_128_GCM_SHA256 : Z := 0xc02b.
Definition ECDHE_RSA_AES_128_GCM_SHA256 : Z := 0xc02f.
Definition X25519 : Z := 29.
Definition CurveP256 : Z := 23.
Definition CurveP384 : Z := 24.

Definition GetTLSConfig : server_tls :=
  mkServerTLS VersionTLS12
    [ECDHE_ECDSA_AES_256_GCM_SHA384; ECDHE_RSA_AES_256_GCM_SHA384; ECDHE_ECDSA_CHACHA20_POLY1305;
     ECDHE_RSA_CHACHA20_POLY1305; ECDHE_ECDSA_AES_128_GCM_SHA256; ECDHE_RSA_AES_128_GCM_SHA256]
    [X25519; CurveP256; CurveP384] true false ["h2"; "http/1.1"]%string.

(** An http.Server: what it was built with, whether Shutdown was called, and how
    many of its connections are not idle. *)
Record server_obj := mkServerObj {
  ob_config : option http_server;
  ob_TLSConfig : option server_tls;
  ob_inShutdown : bool;
  ob_listening : bool;
  ob_busy : nat
}.

(** Where the goroutine that calls Start is; it returns nil or an error. *)
Inductive start_pc :=
  | StartNew
  | StartListen (srv : nat)
  | StartServing (srv : nat)
  | StartReturned (err : option string).

(** The server objects, p.httpServer, and the goroutine. *)
Record api_life := mkApiLife {
  al_servers : gmap nat server_obj;
  al_httpServer : nat;
  al_start : start_pc
}.

(** NewProxyApi: httpServer is an empty http.Server. *)
Definition new_api_life : api_life :=
  mkApiLife {[ 0%nat := mkServerObj None None false false 0 ]} 0 StartNew.

(** Start up to ListenAndServe: the field gets a new server. *)
Definition start_setup (cfg : APIConfig) (addr : string) (l : api_life) : option api_life :=
  match al_start l with
  | StartNew =>
      let srv := fresh (dom (al_servers l)) in
      let tls := if api_TLSEnabled cfg then Some GetTLSConfig else None in
      Some (mkApiLife (<[srv := mkServerObj (Some (SetupHTTPServer cfg addr)) tls false false 0]> (al_servers l))
              srv (StartListen srv))
  | _ => None
  end.

Definition listening (b : bool) (o : server_obj) : server_obj :=
  mkServerObj (ob_config o) (ob_TLSConfig o) (ob_inShutdown o) b (ob_busy o).

(** ListenAndServe (or ListenAndServeTLS): ErrServerClosed after Shutdown, an
    error [bind] of the listener or of the certificates, or it serves. *)
Definition start_listen (bind : option string) (l : api_life) : option api_life :=
  match al_start l with
  | StartListen srv =>
      o ← al_servers l !! srv;
      if ob_inShutdown o then Some (mkApiLife (al_servers l) (al_httpServer l) (StartReturned None))
      else
        match bind with
        | Some err => Some (mkApiLife (al_servers l) (al_httpServer l) (StartReturned (Some err)))
        | None =>
            Some (mkApiLife (<[srv := listening true o]> (al_servers l)) (al_httpServer l) (StartServing srv))
        end
  | _ => None
  end.

(** The server that serves returns ErrServerClosed when it is shut down. *)
Definition start_served (l : api_life) : option api_life :=
  match al_start l with
  | StartServing srv =>
      o ← al_servers l !! srv;
      if ob_inShutdown o then Some (mkApiLife (al_servers l) (al_httpServer l) (StartReturned None)) else None
  | _ => None
  end.

(** A connection of the server gets a request, as long as it listens; a request
    is over, or a WebSocket session has taken its connection away. *)
Definition set_busy (n : nat) (o : server_obj) : server_obj :=
  mkServerObj (ob_config o) (ob_TLSConfig o) (ob_inShutdown o) (ob_listening o) n.

Definition request_begins (srv : nat) (l : api_life) : option api_life :=
  o ← al_servers l !! srv;
  if ob_listening o then
    Some (mkApiLife (<[srv := set_busy (S (ob_busy o)) o]> (al_servers l)) (al_httpServer l) (al_start l))
  else None.

Definition request_ends (srv : nat) (l : api_life) : option api_life :=
  o ← al_servers l !! srv;
  match ob_busy o with
  | O => None
  | S n => Some (mkApiLife (<[srv := set_busy n o]> (al_servers l)) (al_httpServer l) (al_start l))
  end.

(** Stop: Shutdown on the server the field holds now. It closes the listener
    and the idle connections, and then waits until no connection is busy or the
    context of the call is done. *)
Definition Stop (l : api_life) : api_life :=
  mkApiLife
    (alter (λ o, mkServerObj (ob_config o) (ob_TLSConfig o) true false (ob_busy o)) (al_httpServer l) (al_servers l))
    (al_httpServer l) (al_start l).

Definition Shutdown_waits (srv : nat) (ctx_done : bool) (l : api_life) : bool :=
  negb ctx_done &&
  match al_servers l !! srv with Some o => negb (ob_busy o =? 0)%nat | None => false end.

(** ** The agent's tasks (agent.go) *)

Inductive task :=
  | SyncConnectionsTask
  | HeartbeatTask
  | RequestReceiverTask
  | FlushDoneCmdsTask
  | SyncPeersTask
  | SendJobsTask.

#[export] Instance task_eq_dec : EqDecision task.
Proof. solve_decision. Defined.

(** In the order in which Run starts them. *)
Definition all_tasks : list task :=
  [SyncConnectionsTask; HeartbeatTask; RequestReceiverTask; FlushDoneCmdsTask; SyncPeersTask; SendJobsTask].

Inductive run_pc :=
  | RunNew
  | RunSpawning (rest : list task)
  | RunWaiting
  | RunJoining
  | RunReturned.

(** The agent's context, Run, the tasks that started and did not return (which
    is what the WaitGroup counts), and where the flush task is. *)
Inductive flush_pc := FlushIdle | FlushTopics (final : bool) (rest : list string).

Record agent_life := mkAgentLife {
  gl_cancelled : bool;
  gl_run : run_pc;
  gl_tasks : list task;
  gl_flush : flush_pc
}.

Definition new_agent_life : agent_life := mkAgentLife false RunNew [] FlushIdle.

Definition Run_step (g : agent_life) : option agent_life :=
  match gl_run g with
  | RunNew => Some (mkAgentLife (gl_cancelled g) (RunSpawning all_tasks) (gl_tasks g) (gl_flush g))
  | RunSpawning (t :: rest) => Some (mkAgentLife (gl_cancelled g) (RunSpawning rest) (gl_tasks g ++ [t]) (gl_flush g))
  | RunSpawning [] => Some (mkAgentLife (gl_cancelled g) RunWaiting (gl_tasks g) (gl_flush g))
  | RunWaiting =>
      if gl_cancelled g then Some (mkAgentLife true RunJoining (gl_tasks g) (gl_flush g)) else None
  | RunJoining =>
      if (length (gl_tasks g) =? 0)%nat then Some (mkAgentLife (gl_cancelled g) RunReturned [] (gl_flush g)) else None
  | RunReturned => None
  end.

Definition task_returns (t : task) (g : agent_life) : agent_life :=
  mkAgentLife (gl_cancelled g) (gl_run g) (filter (λ t', t' ≠ t) (gl_tasks g)) (gl_flush g).

Definition set_flush (f : flush_pc) (g : agent_life) : agent_life :=
  mkAgentLife (gl_cancelled g) (gl_run g) (gl_tasks g) f.

(** Close, its two parts: the context, and under the lock every connection of
    the two maps. *)
Definition Close_cancel (g : agent_life) : agent_life :=
  mkAgentLife true (gl_run g) (gl_tasks g) (gl_flush g).

Definition Close_connections (s : Connections) : Connections :=
  mkConnections (sendConns s) (recvConns s) (nodeToAddr s) (addressToNode s)
    (cs_open s ∖ (values (sendConns s) ∪ values (recvConns s))) (cs_accepting s).

(** ** RunProxy (run.go) *)

(** The goroutine of RunProxy itself: waiting for the signal, in the Shutdown of
    a server, before and after the agent's context is cancelled, returned; [main]
    returns after it, and the process ends. *)
Inductive main_pc :=
  | MainWait
  | MainStopping (srv : nat)
  | MainClosing
  | MainDisconnecting
  | MainReturned
  | MainExited.

#[export] Instance main_pc_eq_dec : EqDecision main_pc.
Proof. solve_decision. Defined.

(** Who holds the lock of the connections, [a.mu]: the connection task, which
    removes the nodes that are gone, or a dial that stores its connection. *)
Inductive mu_holder :=
  | HeldBySync (ids : list string)
  | HeldByDial (send : bool) (node : string) (conn : connid).

(** [px_timer] is the timeout of the shutdown's context. *)
Record proxy := mkProxy {
  px_cfg : Config;
  px_signalled : bool;
  px_main : main_pc;
  px_auth : Authenticator;
  px_api : api_life;
  px_agent : agent_life;
  px_conns : Connections;
  px_done : done_state;
  px_mu : option mu_holder;
  px_timer : bool
}.

Section RunProxy.
(** The tables of package unicode; tls.LoadX509KeyPair, os.ReadFile and
    AppendCertsFromPEM. *)
Context (u : unicode) {K P : Type} (LoadX509KeyPair : string → string → result string K)
        (ReadFile : string → result string bytes) (CertsFromPEM : bytes → option P).

(** Up to the wait: the proxy, or the error and what became of the
    authenticator, which is closed on the way out once it exists. *)
Definition RunProxy_start (f : auth_file) (cfg : Config) : result (string * option Authenticator) proxy :=
  match NewAuthenticator f with
  | Err err => Err ("failed to create authenticator: " +:+ err, None)%string
  | Ok auth =>
      let router := NewDefaultRouter in
      match ParseDiscoveryKind u (cl_DiscoveryKind (cfg_Cluster cfg)) with
      | (_, Some err) => Err ("failed to parse discovery kind: " +:+ err, Some (auth_Close auth))%string
      | (kind, None) =>
          match loadClientTLSConfig LoadX509KeyPair ReadFile CertsFromPEM (cl_CertPath (cfg_Cluster cfg))
                  (cl_KeyPath (cfg_Cluster cfg)) (cl_CAPath (cfg_Cluster cfg)) with
          | Err err => Err ("failed to create cluster agent: load TLS config: " +:+ err, Some (auth_Close auth))%string
          | Ok _ =>
              Ok (mkProxy cfg false MainWait auth new_api_life new_agent_life (mkConnections ∅ ∅ ∅ ∅ ∅ ∅)
                    (done_init (NewClusterAgent (cfg_ProxyID cfg) router kind)) None false)
          end
      end
  end.
End RunProxy.

Definition set_main m (s : proxy) : proxy :=
  mkProxy (px_cfg s) (px_signalled s) m (px_auth s) (px_api s) (px_agent s) (px_conns s) (px_done s)
    (px_mu s) (px_timer s).
Definition set_api a (s : proxy) : proxy :=
  mkProxy (px_cfg s) (px_signalled s) (px_main s) (px_auth s) a (px_agent s) (px_conns s) (px_done s)
    (px_mu s) (px_timer s).
Definition set_agent g (s : proxy) : proxy :=
  mkProxy (px_cfg s) (px_signalled s) (px_main s) (px_auth s) (px_api s) g (px_conns s) (px_done s)
    (px_mu s) (px_timer s).
Definition set_conns c (s : proxy) : proxy :=
  mkProxy (px_cfg s) (px_signalled s) (px_main s) (px_auth s) (px_api s) (px_agent s) c (px_done s)
    (px_mu s) (px_timer s).
Definition set_batch d (s : proxy) : proxy :=
  mkProxy (px_cfg s) (px_signalled s) (px_main s) (px_auth s) (px_api s) (px_agent s) (px_conns s) d
    (px_mu s) (px_timer s).
Definition set_mu h (s : proxy) : proxy :=
  mkProxy (px_cfg s) (px_signalled s) (px_main s) (px_auth s) (px_api s) (px_agent s) (px_conns s) (px_done s)
    h (px_timer s).
Definition signal (s : proxy) : proxy :=
  mkProxy (px_cfg s) true (px_main s) (px_auth s) (px_api s) (px_agent s) (px_conns s) (px_done s)
    (px_mu s) (px_timer s).
Definition fire_timer (s : proxy) : proxy :=
  mkProxy (px_cfg s) (px_signalled s) (px_main s) (px_auth s) (px_api s) (px_agent s) (px_conns s) (px_done s)
    (px_mu s) true.

(** From the wait on: the context is done, Stop is called and, when its wait is
    over, returns; the agent's context is cancelled; Close gets the lock and
    closes the connections; the deferred calls run. *)
Definition main_step (s : proxy) : option proxy :=
  match px_main s with
  | MainWait =>
      if px_signalled s then
        Some (set_main (MainStopping (al_httpServer (px_api s))) (set_api (Stop (px_api s)) s))
      else None
  | MainStopping srv =>
      if Shutdown_waits srv (px_timer s) (px_api s) then None else Some (set_main MainClosing s)
  | MainClosing => Some (set_main MainDisconnecting (set_agent (Close_cancel (px_agent s)) s))
  | MainDisconnecting =>
      match px_mu s with
      | Some _ => None
      | None =>
          Some (mkProxy (px_cfg s) (px_signalled s) MainReturned (auth_Close (px_auth s)) (px_api s) (px_agent s)
                  (Close_connections (px_conns s)) (px_done s) None (px_timer s))
      end
  | MainReturned => Some (set_main MainExited s)
  | MainExited => None
  end.

(** ** The flush task *)

Inductive flush_event :=
  | FlushTick (order : list string)
  | FlushStop (order : list string)
  | FlushNext
  | FlushSent (err : option send_error)
  | FlushOver.

(** flushDoneCmdsTasks: a tick, or the context, starts a flush of the topics in
    the batch, in the order of the range; each topic is taken and sent; the task
    returns after the flush that the context started. *)
Definition flush_step (e : flush_event) (s : proxy) : option proxy :=
  let g := px_agent s in
  let d := px_done s in
  if decide (FlushDoneCmdsTask ∈ gl_tasks g) then
    match e, gl_flush g with
    | FlushTick order, FlushIdle =>
        if decide (order ≡ₚ elements (dom (ag_doneCmdBatchBuffer (dt_agent d)))) then
          Some (set_agent (set_flush (FlushTopics false order) g) s)
        else None
    | FlushStop order, FlushIdle =>
        if decide (gl_cancelled g = true ∧ order ≡ₚ elements (dom (ag_doneCmdBatchBuffer (dt_agent d)))) then
          Some (set_agent (set_flush (FlushTopics true order) g) s)
        else None
    | FlushNext, FlushTopics final (topic :: rest) =>
        d ← done_step (FlushBegin topic) d;
        Some (set_batch d (set_agent (set_flush (FlushTopics final rest) g) s))
    | FlushSent err, FlushTopics _ _ => d ← done_step (FlushEnd err) d; Some (set_batch d s)
    | FlushOver, FlushTopics final [] =>
        match dt_flight d with
        | Some _ => None
        | None => Some (set_agent (if final then task_returns FlushDoneCmdsTask g else set_flush FlushIdle g) s)
        end
    | _, _ => None
    end
  else None.

(** ** The process *)

(** [AppTimer] is the timeout of the context that Shutdown got; [AppLock] and
    [AppUnlock] are the critical sections on the connections. *)
Inductive app_event :=
  | AppSignal
  | AppMain
  | AppTimer
  | AppStart
  | AppListen (bind : option string)
  | AppServed
  | AppRequest (srv : nat)
  | AppRequestEnd (srv : nat)
  | AppRun
  | AppTaskReturns (t : task)
  | AppFlush (e : flush_event)
  | AppDone (req : ApiRequestWithRespCh)
  | AppLock (h : mu_holder)
  | AppUnlock
  | AppAccept (conn : connid) (accepted : result string stream).

(** A dial of the connection task that succeeded: dialSendConnection and
    dialRecvConnection after the handshake. *)
Definition dialed (send : bool) (node : string) (conn : connid) (s : Connections) : Connections :=
  if send then
    mkConnections (<[node := conn]> (sendConns s)) (recvConns s) (nodeToAddr s) (addressToNode s)
      ({[conn]} ∪ cs_open s) (cs_accepting s)
  else
    mkConnections (sendConns s) (<[node := conn]> (recvConns s)) (nodeToAddr s) (addressToNode s)
      ({[conn]} ∪ cs_open s) (<[conn := node]> (cs_accepting s)).

(** What the holder of the lock does before it releases it. *)
Definition locked_section (h : mu_holder) (s : Connections) : Connections :=
  match h with
  | HeldBySync ids => remove_nodes ids s
  | HeldByDial send node conn => dialed send node conn s
  end.

Definition fresh_conn (h : mu_holder) (s : Connections) : Prop :=
  match h with HeldBySync _ => True | HeldByDial _ _ conn => conn ∉ cs_open s end.

#[export] Instance fresh_conn_dec h s : Decision (fresh_conn h s).
Proof. destruct h; apply _. Defined.

Definition discovery_kind (s : proxy) : DiscoveryKind := ld_discoveryKind (ag_leader (dt_agent (px_done s))).

(** The tasks return when the context is done, the connection task not inside
    its critical section; syncPeers returns at once unless discovery is HTTP.
    The flush task has its own last steps. *)
Definition may_return (t : task) (s : proxy) : Prop :=
  t ≠ FlushDoneCmdsTask ∧ (t = SyncConnectionsTask → px_mu s = None) ∧
  (gl_cancelled (px_agent s) = true ∨ t = SyncPeersTask ∧ discovery_kind s ≠ DiscoveryKindHttp).

#[export] Instance mu_free_dec (s : proxy) : Decision (px_mu s = None).
Proof. destruct (px_mu s); [right; discriminate|by left]. Defined.

#[export] Instance may_return_dec t s : Decision (may_return t s).
Proof. unfold may_return. apply _. Defined.

Definition app_step (e : app_event) (s : proxy) : option proxy :=
  if decide (px_main s = MainExited) then None
  else
    match e with
    | AppSignal => Some (signal s)
    | AppMain => main_step s
    | AppTimer => match px_main s with MainStopping _ => Some (fire_timer s) | _ => None end
    | AppStart =>
        l ← start_setup (cfg_API (px_cfg s)) (GetAPIAddress (px_cfg s)) (px_api s); Some (set_api l s)
    | AppListen bind => l ← start_listen bind (px_api s); Some (set_api l s)
    | AppServed => l ← start_served (px_api s); Some (set_api l s)
    | AppRequest srv => l ← request_begins srv (px_api s); Some (set_api l s)
    | AppRequestEnd srv => l ← request_ends srv (px_api s); Some (set_api l s)
    | AppRun => g ← Run_step (px_agent s); Some (set_agent g s)
    | AppTaskReturns t =>
        if decide (t ∈ gl_tasks (px_agent s) ∧ may_return t s) then
          Some (set_agent (task_returns t (px_agent s)) s)
        else None
    | AppFlush e => flush_step e s
    | AppDone req =>
        if decide (RequestReceiverTask ∈ gl_tasks (px_agent s)) then
          d ← done_step (DoneArrives req) (px_done s); Some (set_batch d s)
        else None
    | AppLock h =>
        if decide (px_mu s = None ∧ SyncConnectionsTask ∈ gl_tasks (px_agent s) ∧ fresh_conn h (px_conns s)) then
          Some (set_mu (Some h) s)
        else None
    | AppUnlock => h ← px_mu s; Some (set_mu None (set_conns (locked_section h (px_conns s)) s))
    | AppAccept conn accepted =>
        '(_, c) ← handleRecvConnection conn accepted (px_conns s); Some (set_conns c s)
    end.

(** ** Starting *)

Section StartFacts.
Context (u : unicode) {K P : Type} (LoadX509KeyPair : string → string → result string K)
        (ReadFile : string → result string bytes) (CertsFromPEM : bytes → option P).



End StartFacts.

(** ** Stopping *)

Definition after_cancel (m : main_pc) : bool :=
  match m with MainDisconnecting | MainReturned | MainExited => true | _ => false end.

Definition returned (m : main_pc) : bool :=
  match m with MainReturned | MainExited => true | _ => false end.

(** Which tasks Run has not started. *)
Definition unspawned (r : run_pc) : list task :=
  match r with RunNew => all_tasks | RunSpawning rest => rest | _ => [] end.

(** syncPeers, when there is no HTTP source to poll. *)
Definition ends_early (t : task) (s : proxy) : Prop :=
  t = SyncPeersTask ∧ discovery_kind s ≠ DiscoveryKindHttp.

Record app_inv (s : proxy) : Prop := {
  ai_signal : px_main s ≠ MainWait → px_signalled s = true;
  ai_cancel : gl_cancelled (px_agent s) = after_cancel (px_main s);
  ai_auth : returned (px_main s) = true → au_stopped (px_auth s) = true;
  ai_tasks : gl_cancelled (px_agent s) = false →
    ∀ t, t ∈ unspawned (gl_run (px_agent s)) ∨ t ∈ gl_tasks (px_agent s) ∨ ends_early t s;
  ai_joined : gl_run (px_agent s) = RunReturned → gl_tasks (px_agent s) = [] ∧ gl_cancelled (px_agent s) = true;
  ai_joining : gl_run (px_agent s) = RunJoining → gl_cancelled (px_agent s) = true;
  ai_flush : ∀ rest, gl_flush (px_agent s) = FlushTopics true rest → gl_cancelled (px_agent s) = true;
  ai_done : done_conserved (px_done s)
}.

Lemma all_tasks_all t : t ∈ all_tasks.
Proof. apply (bool_decide_unpack _). by destruct t; vm_compute. Qed.

Lemma done_step_kind e d d' :
  done_step e d = Some d' → ld_discoveryKind (ag_leader (dt_agent d')) = ld_discoveryKind (ag_leader (dt_agent d)).
Proof.
  unfold done_step. intros Hs. destruct e as [req|topic|[err|]], (dt_flight d) as [[t ids]|]; try done.
  - injection Hs as <-. cbn. unfold handleDoneRequest. by case_match.
  - injection Hs as <-. cbn. unfold handleDoneRequest. by case_match.
  - destruct (flush_take _ _) as [[[q ids] a]|] eqn:Hf; injection Hs as <-; [|done].
    unfold flush_take in Hf. destruct (_ !! topic) as [[|]|]; try done. by injection Hf as <- <- <-.
  - injection Hs as <-. cbn. unfold flush_restore. by case_match.
  - by injection Hs as <-.
Qed.

(** The parts a step leaves alone. *)
Lemma inv_agent g s :
  app_inv s → gl_cancelled g = gl_cancelled (px_agent s) →
  (gl_cancelled g = false → ∀ t, t ∈ unspawned (gl_run g) ∨ t ∈ gl_tasks g ∨ ends_early t s) →
  (gl_run g = RunReturned → gl_tasks g = [] ∧ gl_cancelled g = true) →
  (gl_run g = RunJoining → gl_cancelled g = true) →
  (∀ rest, gl_flush g = FlushTopics true rest → gl_cancelled g = true) → app_inv (set_agent g s).
Proof. intros [? ? ? ? ? ? ? ?] Hc Ht Hj Hg Hf. split; cbn; try done. by rewrite Hc. Qed.

Lemma inv_api l s : app_inv s → app_inv (set_api l s).
Proof. by intros [? ? ? ? ? ? ? ?]. Qed.

Lemma inv_conns c s : app_inv s → app_inv (set_conns c s).
Proof. by intros [? ? ? ? ? ? ? ?]. Qed.

Lemma inv_mu h s : app_inv s → app_inv (set_mu h s).
Proof. by intros [? ? ? ? ? ? ? ?]. Qed.

Lemma inv_batch e d s : done_step e (px_done s) = Some d → app_inv s → app_inv (set_batch d s).
Proof.
  intros Hd [? ? ? Ht ? ? ? Hc]. split; try done; cbn; [|by eapply done_step_conserved].
  intros Hx t. destruct (Ht Hx t) as [?|[?|[? ?]]]; [by left|by right; left|]. do 2 right. split; [done|].
  unfold discovery_kind. cbn. by rewrite (done_step_kind _ _ _ Hd).
Qed.

Lemma inv_flush f s :
  app_inv s → (∀ rest, f = FlushTopics true rest → gl_cancelled (px_agent s) = true) →
  app_inv (set_agent (set_flush f (px_agent s)) s).
Proof. intros Hi Hf. pose proof Hi as [? ? ? Ht Hj Hg ? ?]. by apply inv_agent. Qed.

Lemma inv_returns t s :
  app_inv s → gl_cancelled (px_agent s) = true ∨ ends_early t s →
  app_inv (set_agent (task_returns t (px_agent s)) s).
Proof.
  intros Hi Hx. pose proof Hi as [? ? ? Ht Hj Hg ? ?]. apply inv_agent; cbn; try done.
  - intros Hc t'. destruct Hx as [Hx|Hx]; [by rewrite Hx in Hc|].
    destruct (decide (t' = t)) as [->|Hne]; [by do 2 right|].
    destruct (Ht Hc t') as [?|[?|?]]; [by left|right; left|by do 2 right]. by apply list_elem_of_filter.
  - intros Hr. destruct (Hj Hr) as [Hn ?]. by rewrite Hn.
Qed.

Lemma inv_run g s : app_inv s → Run_step (px_agent s) = Some g → app_inv (set_agent g s).
Proof.
  intros Hi Hg. pose proof Hi as [_ _ _ Ht Hj Hjo Hfl _]. unfold Run_step in Hg.
  destruct (gl_run (px_agent s)) as [|[|t rest]| | |] eqn:Hr; try done.
  - injection Hg as <-. by apply inv_agent.
  - injection Hg as <-. by apply inv_agent.
  - injection Hg as <-. apply inv_agent; cbn; try done. intros Hc t'.
    destruct (Ht Hc t') as [Hu|[?|?]]; [|right; left; apply elem_of_app; by left|by do 2 right].
    apply elem_of_cons in Hu as [->|Hu]; [right; left|by left]. apply elem_of_app. right. by left.
  - destruct (gl_cancelled (px_agent s)) eqn:Hc; [|done]. injection Hg as <-. apply inv_agent; cbn; done.
  - destruct (length _ =? 0)%nat eqn:Hl; [|done]. injection Hg as <-. specialize (Hjo eq_refl).
    apply inv_agent; cbn; try done. by rewrite Hjo.
Qed.

Lemma inv_main s s' : app_inv s → main_step s = Some s' → app_inv s'.
Proof.
  intros [h1 h2 h3 h4 h5 h6 h7 h8] Hm. unfold main_step in Hm. destruct (px_main s) as [|srv| | | |] eqn:Hp; try done.
  - destruct (px_signalled s) eqn:Hs; [|done]. injection Hm as <-. by split.
  - destruct (Shutdown_waits _ _ _); [done|]. injection Hm as <-. split; cbn; try done. by intros _; apply h1.
  - injection Hm as <-. split; cbn; try done; [by intros _; apply h1|]. intros Hr. split; [by apply h5|done].
  - destruct (px_mu s); [done|]. injection Hm as <-. split; cbn; try done. by intros _; apply h1.
  - injection Hm as <-. split; cbn; try done. by intros _; apply h1.
Qed.

Lemma inv_flush_step e s s' : app_inv s → flush_step e s = Some s' → app_inv s'.
Proof.
  intros Hi Hs. unfold flush_step in Hs. destruct (decide (FlushDoneCmdsTask ∈ _)); [|done].
  destruct e as [order|order| |err|], (gl_flush (px_agent s)) as [|final [|topic rest]] eqn:Hf; try done.
  - destruct (decide _); [|done]. injection Hs as <-. by apply inv_flush.
  - destruct (decide _) as [[Hc _]|]; [|done]. injection Hs as <-. by apply inv_flush.
  - destruct (done_step _ _) as [d|] eqn:Hd; [|done]. injection Hs as <-.
    apply (inv_batch (FlushBegin topic) d (set_agent _ s)); [done|]. apply inv_flush; [done|].
    intros rest' [= -> ->]. by apply (ai_flush _ Hi (topic :: rest')).
  - destruct (done_step _ _) as [d|] eqn:Hd; [|done]. injection Hs as <-. by eapply inv_batch.
  - destruct (done_step _ _) as [d|] eqn:Hd; [|done]. injection Hs as <-. by eapply inv_batch.
  - destruct (dt_flight (px_done s)); [done|]. injection Hs as <-.
    destruct final; [|by apply inv_flush]. apply inv_returns; [done|left]. by apply (ai_flush _ Hi []).
Qed.

Lemma app_step_inv e s s' : app_inv s → app_step e s = Some s' → app_inv s'.
Proof.
  intros Hi Hs. unfold app_step in Hs. destruct (decide (px_main s = MainExited)); [done|].
  destruct e as [| | | |bind| |srv|srv| |t|e|req|h| |conn acc].
  - injection Hs as <-. by destruct Hi.
  - by eapply inv_main.
  - destruct (px_main s) eqn:Hp; try done. injection Hs as <-. destruct Hi as [? ? ? ? ? ? ? ?].
    split; cbn; rewrite ?Hp in *; done.
  - destruct (start_setup _ _ _) as [l|]; [|done]. injection Hs as <-. by apply inv_api.
  - destruct (start_listen _ _) as [l|]; [|done]. injection Hs as <-. by apply inv_api.
  - destruct (start_served _) as [l|]; [|done]. injection Hs as <-. by apply inv_api.
  - destruct (request_begins _ _) as [l|]; [|done]. injection Hs as <-. by apply inv_api.
  - destruct (request_ends _ _) as [l|]; [|done]. injection Hs as <-. by apply inv_api.
  - destruct (Run_step _) as [g|] eqn:Hg; [|done]. injection Hs as <-. by apply inv_run.
  - destruct (decide _) as [(_ & _ & _ & Hc)|]; [|done]. injection Hs as <-. by apply inv_returns.
  - by eapply inv_flush_step.
  - destruct (decide _); [|done]. injection Hs as <-. by eapply (inv_batch (DoneArrives req)).
  - destruct (decide _); [|done]. injection Hs as <-. by apply inv_mu.
  - destruct (px_mu s) as [h|]; [|done]. injection Hs as <-. by apply inv_mu, inv_conns.
  - destruct (handleRecvConnection _ _ _) as [[o c]|]; [|done]. injection Hs as <-. by apply inv_conns.
Qed.

Section StopFacts.
Context (u : unicode) {K P : Type} (LoadX509KeyPair : string → string → result string K)
        (ReadFile : string → result string bytes) (CertsFromPEM : bytes → option P).

Lemma start_inv f cfg s : RunProxy_start u LoadX509KeyPair ReadFile CertsFromPEM f cfg = Ok s → app_inv s.
Proof.
  unfold RunProxy_start. destruct (NewAuthenticator f); [|done]. destruct (ParseDiscoveryKind u _) as [? [|]]; [done|].
  destruct (loadClientTLSConfig _ _ _ _ _ _); [|done]. intros [= <-].
  split; cbn; try done; [intros _ t; left; apply all_tasks_all|].
  unfold done_conserved, done_pairs. cbn. by rewrite map_to_list_empty.
Qed.

(** C23: The shutdown goes in order. In every run of the started proxy: RunProxy
    leaves its wait only after the signal; the agent's context is done from the
    moment Close is called and not before; until then every task that was started
    is still running, except syncPeers, which ends at once when discovery is not
    over HTTP; Run has returned only when no task runs; closing the agent closes
    every connection its maps hold; when RunProxy has returned the authenticator
    is closed; and every Done id is where the batch's bookkeeping says. *)
Theorem shutdown_in_order f cfg s0 evs s :
  RunProxy_start u LoadX509KeyPair ReadFile CertsFromPEM f cfg = Ok s0 → run app_step evs s0 = Some s →
  (px_main s ≠ MainWait → px_signalled s = true) ∧
  gl_cancelled (px_agent s) = after_cancel (px_main s) ∧
  (gl_cancelled (px_agent s) = false → ∀ t,
     t ∈ unspawned (gl_run (px_agent s)) ∨ t ∈ gl_tasks (px_agent s) ∨
     t = SyncPeersTask ∧ discovery_kind s ≠ DiscoveryKindHttp) ∧
  (gl_run (px_agent s) = RunReturned → gl_tasks (px_agent s) = [] ∧ gl_cancelled (px_agent s) = true) ∧
  (∀ s', px_main s = MainDisconnecting → app_step AppMain s = Some s' → ∀ node c,
     sendConns (px_conns s') !! node = Some c ∨ recvConns (px_conns s') !! node = Some c → c ∉ cs_open (px_conns s')) ∧
  (returned (px_main s) = true → au_stopped (px_auth s) = true) ∧
  done_conserved (px_done s).
Proof.
  intros H0 Hr. apply (run_invariant app_step app_inv) in Hr as [? ? ? ? ? ? ? ?];
    [|intros e s1 s2; apply app_step_inv|by eapply start_inv].
  split_and!; try done. intros s' Hm Hs node c Hc. unfold app_step in Hs. rewrite Hm in Hs. cbn in Hs.
  unfold main_step in Hs. rewrite Hm in Hs. destruct (px_mu s); [done|]. injection Hs as <-. cbn in *. unfold values.
  assert (c ∈ snd <$> map_to_list (sendConns (px_conns s)) ∨ c ∈ snd <$> map_to_list (recvConns (px_conns s))); [|set_solver].
  rewrite !list_elem_of_fmap. setoid_rewrite elem_of_map_to_list'. destruct Hc; [left|right]; by exists (node, c).
Qed.

Definition is_main (e : app_event) : bool := match e with AppMain => true | _ => false end.

(** What can end the waits of RunProxy: no request and no task. *)
Definition ends_wait (e : app_event) : bool :=
  match e with AppMain | AppTimer | AppUnlock => true | _ => false end.

(** Steps of RunProxy until it returns. *)
Definition rank (m : main_pc) : nat :=
  match m with MainWait => 4 | MainStopping _ => 3 | MainClosing => 2 | MainDisconnecting => 1 | _ => 0 end.

(** Only RunProxy itself moves on. *)
Lemma others_wait e s s' :
  is_main e = false → app_step e s = Some s' →
  px_main s' = px_main s ∧ (px_signalled s = true → px_signalled s' = true) ∧
  (match e with AppSignal => False | _ => True end → px_signalled s' = px_signalled s) ∧
  (px_timer s = true → px_timer s' = true).
Proof.
  intros He Hs. unfold app_step in Hs. destruct (decide (px_main s = MainExited)); [done|].
  destruct e as [| | | |bind| |srv|srv| |t|e|req|h| |conn acc]; try done.
  - by injection Hs as <-.
  - destruct (px_main s) eqn:Hp; try done. by injection Hs as <-.
  - destruct (start_setup _ _ _); [|done]. by injection Hs as <-.
  - destruct (start_listen _ _); [|done]. by injection Hs as <-.
  - destruct (start_served _); [|done]. by injection Hs as <-.
  - destruct (request_begins _ _); [|done]. by injection Hs as <-.
  - destruct (request_ends _ _); [|done]. by injection Hs as <-.
  - destruct (Run_step _); [|done]. by injection Hs as <-.
  - destruct (decide _); [|done]. by injection Hs as <-.
  - unfold flush_step in Hs. destruct (decide _); [|done].
    destruct e as [order|order| |err|], (gl_flush (px_agent s)) as [|final [|topic rest]]; try done;
      try (destruct (decide _); [|done]; by injection Hs as <-);
      try (destruct (done_step _ _); [|done]; by injection Hs as <-).
    destruct (dt_flight _); [done|]. by injection Hs as <-.
  - destruct (decide _); [|done]. by injection Hs as <-.
  - destruct (decide _); [|done]. by injection Hs as <-.
  - destruct (px_mu s); [|done]. by injection Hs as <-.
  - destruct (handleRecvConnection _ _ _) as [[o c]|]; [|done]. by injection Hs as <-.
Qed.

(** RunProxy's own step, and the states in which it waits. *)
Lemma main_step_rank s s' :
  main_step s = Some s' →
  (rank (px_main s') ≤ rank (px_main s) - 1)%nat ∧ (px_signalled s = true → px_signalled s' = true) ∧
  (px_timer s = true → px_timer s' = true).
Proof.
  unfold main_step. intros Hm. destruct (px_main s); try done; repeat case_match; try done; injection Hm as <-;
    cbn; split_and!; done || lia.
Qed.

Lemma app_step_rank e s s' :
  px_signalled s = true → app_step e s = Some s' →
  px_signalled s' = true ∧ (rank (px_main s') ≤ rank (px_main s) - (if is_main e then 1 else 0))%nat.
Proof.
  intros Hs Hst. destruct (is_main e) eqn:He.
  - destruct e; try done. unfold app_step in Hst. destruct (decide _); [done|].
    destruct (main_step_rank _ _ Hst) as (? & ? & _). auto.
  - destruct (others_wait e s s' He Hst) as (Hm & Hsig & _). rewrite Hm. split; [by apply Hsig|lia].
Qed.

Lemma main_steps_suffice evs s s' :
  px_signalled s = true → run app_step evs s = Some s' → (4 ≤ length (filter is_main evs))%nat →
  returned (px_main s') = true.
Proof.
  intros Hs Hr Hn.
  assert (rank (px_main s') ≤ rank (px_main s) - length (filter is_main evs))%nat as Hrank.
  { clear Hn. revert s Hs Hr. induction evs as [|e evs IH]; intros s Hs Hr; [injection Hr as <-; cbn; lia|].
    rewrite run_cons in Hr. destruct (app_step e s) as [s1|] eqn:He; [|done].
    destruct (app_step_rank e s s1 Hs He) as [Hs1 Hle]. specialize (IH s1 Hs1 Hr).
    rewrite filter_cons. case_decide as Hd; destruct (is_main e); cbn in *; try done; lia. }
  assert (rank (px_main s) ≤ 4)%nat by (destruct (px_main s); cbn; lia).
  destruct (px_main s'); cbn in *; try done; lia.
Qed.

(** Once the timeout is over, the wait for the requests is. *)
Lemma timer_stays evs s s' :
  px_timer s = true → run app_step evs s = Some s' → px_timer s' = true.
Proof.
  intros Ht Hr. eapply (run_invariant app_step (λ s, px_timer s = true)); [|exact Ht|exact Hr].
  clear. intros e s s' Ht Hs. destruct (is_main e) eqn:He; [|by apply (others_wait e s s' He Hs)].
  destruct e; try done. unfold app_step in Hs. destruct (decide _); [done|]. by apply (main_step_rank s s').
Qed.

Lemma timer_ends_wait srv s :
  px_timer s = true → px_main s = MainStopping srv → is_Some (app_step AppMain s).
Proof.
  intros Ht Hm. unfold app_step. rewrite decide_False by (by rewrite Hm). unfold main_step, Shutdown_waits.
  rewrite Hm, Ht. by eexists.
Qed.

Lemma app_main s s' : main_step s = Some s' → app_step AppMain s = Some s'.
Proof.
  intros Hs. unfold app_step. destruct (decide (px_main s = MainExited)) as [He|]; [|done].
  unfold main_step in Hs. by rewrite He in Hs.
Qed.

(** The way to the end from where RunProxy is. *)
Definition close_steps (h : option mu_holder) : list app_event :=
  match h with Some _ => [AppUnlock; AppMain] | None => [AppMain] end.

Definition last_steps (s : proxy) : list app_event :=
  match px_main s with
  | MainWait => AppMain :: AppTimer :: AppMain :: AppMain :: close_steps (px_mu s)
  | MainStopping _ => AppTimer :: AppMain :: AppMain :: close_steps (px_mu s)
  | MainClosing => AppMain :: close_steps (px_mu s)
  | MainDisconnecting => close_steps (px_mu s)
  | MainReturned | MainExited => []
  end.

Definition ends_well (evs : list app_event) (s : proxy) : Prop :=
  ∃ s', run app_step evs s = Some s' ∧ returned (px_main s') = true.

Lemma ends_well_cons e evs s s1 : app_step e s = Some s1 → ends_well evs s1 → ends_well (e :: evs) s.
Proof. intros He (s' & Hr & Hret). exists s'. split; [|done]. by rewrite run_cons, He. Qed.

Lemma disconnecting_ends s : px_main s = MainDisconnecting → ends_well (close_steps (px_mu s)) s.
Proof.
  assert (∀ s, px_main s = MainDisconnecting → px_mu s = None → ends_well [AppMain] s) as Hlast.
  { intros s0 Hm Hh. eapply ends_well_cons; [apply app_main; unfold main_step; by rewrite Hm, Hh|].
    eexists. by split. }
  intros Hm. destruct (px_mu s) as [h|] eqn:Hh; [|by apply Hlast]. cbn [close_steps].
  apply (ends_well_cons _ _ _ (set_mu None (set_conns (locked_section h (px_conns s)) s))); [|by apply Hlast].
  unfold app_step. by rewrite Hm, decide_False, Hh.
Qed.

Lemma closing_ends s : px_main s = MainClosing → ends_well (AppMain :: close_steps (px_mu s)) s.
Proof.
  intros Hm. eapply ends_well_cons; [apply app_main; unfold main_step; by rewrite Hm|].
  by apply (disconnecting_ends (set_main MainDisconnecting (set_agent (Close_cancel (px_agent s)) s))).
Qed.

Lemma stopping_ends srv s :
  px_main s = MainStopping srv → ends_well (AppTimer :: AppMain :: AppMain :: close_steps (px_mu s)) s.
Proof.
  intros Hm. apply (ends_well_cons _ _ _ (fire_timer s)); [unfold app_step; by rewrite Hm, decide_False|].
  apply (ends_well_cons _ _ _ (set_main MainClosing (fire_timer s))).
  - apply app_main. unfold main_step. cbn [fire_timer px_main px_timer px_api]. by rewrite Hm.
  - by apply (closing_ends (set_main MainClosing (fire_timer s))).
Qed.

Lemma last_steps_return s : px_signalled s = true → ends_well (last_steps s) s.
Proof.
  intros Hs. unfold last_steps. destruct (px_main s) as [|srv| | | |] eqn:Hm.
  - eapply ends_well_cons; [apply app_main; unfold main_step; by rewrite Hm, Hs|].
    by eapply (stopping_ends _ (set_main _ (set_api _ s))).
  - by apply (stopping_ends srv).
  - by apply closing_ends.
  - by apply disconnecting_ends.
  - exists s. split; [done|]. by rewrite Hm.
  - exists s. split; [done|]. by rewrite Hm.
Qed.

(** C24: The shutdown terminates. After the signal, RunProxy returns after at most
    four steps of its own, whatever else happens. It waits in two places only:
    in Shutdown, as long as the server has a busy connection and the timeout is
    not over, and in Close, as long as somebody holds the lock of the connections.
    The first wait ends for good with the timeout, the second with the release of
    the lock, which its holder can always do. So from every state RunProxy can
    return, with at most six steps of its own, the timer and that holder: no
    request has to be answered and no task has to return. *)
Theorem shutdown_terminates s :
  px_signalled s = true →
  (∀ evs s', run app_step evs s = Some s' → (4 ≤ length (filter is_main evs))%nat → returned (px_main s') = true) ∧
  (px_main s ≠ MainExited → app_step AppMain s = None →
    (∃ srv o, px_main s = MainStopping srv ∧ al_servers (px_api s) !! srv = Some o ∧ (0 < ob_busy o)%nat ∧
       px_timer s = false ∧ ∃ s1, app_step AppTimer s = Some s1 ∧
         ∀ evs s', run app_step evs s1 = Some s' → px_main s' = MainStopping srv → is_Some (app_step AppMain s')) ∨
    (∃ h s1, px_main s = MainDisconnecting ∧ px_mu s = Some h ∧ app_step AppUnlock s = Some s1 ∧
       is_Some (app_step AppMain s1))) ∧
  (∃ evs s', Forall (λ e, ends_wait e = true) evs ∧ (length evs ≤ 6)%nat ∧ run app_step evs s = Some s' ∧
     returned (px_main s') = true).
Proof.
  intros Hs. split_and!.
  - intros evs s'. by apply main_steps_suffice.
  - intros Hm Hn. unfold app_step in Hn. rewrite decide_False in Hn by done. unfold main_step in Hn. rewrite Hs in Hn.
    destruct (px_main s) as [|srv| | | |] eqn:Hp; try done.
    + left. destruct (Shutdown_waits _ _ _) eqn:Hw; [|done]. unfold Shutdown_waits in Hw.
      apply andb_true_iff in Hw as [Ht Hw]. apply negb_true_iff in Ht.
      destruct (al_servers (px_api s) !! srv) as [o|] eqn:Ho; [|done]. apply negb_true_iff, Nat.eqb_neq in Hw.
      exists srv, o. split_and!; [done|done|lia|done|]. exists (fire_timer s).
      split; [unfold app_step; by rewrite Hp, decide_False|]. intros evs s' Hr. apply timer_ends_wait.
      by apply (timer_stays evs (fire_timer s)).
    + right. destruct (px_mu s) as [h|] eqn:Hh; [|done]. exists h, (set_mu None (set_conns (locked_section h (px_conns s)) s)).
      split_and!; [done|done|unfold app_step; by rewrite Hp, decide_False, Hh|].
      unfold app_step. cbn. rewrite Hp, decide_False by done. unfold main_step. cbn. rewrite Hp. by eexists.
  - destruct (last_steps_return s Hs) as (s' & Hr & Hret). exists (last_steps s), s'. split_and!; [| |done|done].
    + unfold last_steps. destruct (px_main s), (px_mu s); repeat constructor.
    + unfold last_steps. destruct (px_main s), (px_mu s); cbn; lia.
Qed.

End StopFacts.

(** ** Concrete runs *)

Module AppExample.

Definition no_unicode : unicode := Unicode id id.

Definition tokens : auth_file := mkAuthFile (Ok []) (λ _, Ok [mkAuthToken "s3cret" RoleAdmin]).

Definition start : result (string * option Authenticator) proxy :=
  RunProxy_start no_unicode (λ _ _, Ok ()) (λ _, Ok []) (λ _, Some ()) tokens DefaultConfig.

Definition up : proxy :=
  mkProxy DefaultConfig false MainWait (mkAuthenticator {["s3cret"%string := RoleAdmin]} false)
    new_api_life new_agent_life (mkConnections ∅ ∅ ∅ ∅ ∅ ∅)
    (done_init (NewClusterAgent "" NewDefaultRouter DiscoveryKindStatic)) None false.

Lemma start_up : start = Ok up.
Proof. reflexivity. Qed.

(** The server listens and the six tasks run. *)
Definition boot : list app_event := [AppStart; AppListen None] ++ replicate 8 AppRun.

Definition ack (id : string) : app_event :=
  AppDone (mkApiRequest (done_request 0 (mkDone "t" [id])) None).

Definition stop : list app_event := AppSignal :: replicate 4 AppMain.

Definition lost_events : list app_event := boot ++ [ack "a"] ++ stop ++ [AppMain].

(** The signal comes before the goroutine of Start runs. *)
Definition late_events : list app_event := [AppSignal; AppMain; AppStart; AppListen None; AppMain; AppMain; AppMain].

End AppExample.
Import AppExample.

(** RunProxy does not wait for the agent: the process can end while an
    acknowledged job is still in the Done batch. The flush that the tasks make
    when the context is done has not run, the id was neither delivered nor lost
    by a flush, and no step follows. *)
Theorem exit_loses_done :
  ∃ s, run app_step lost_events up = Some s ∧ px_main s = MainExited ∧
    dt_received (px_done s) = [("t", "a")]%string ∧ dt_delivered (px_done s) = [] ∧ dt_lost (px_done s) = [] ∧
    done_pairs (ag_doneCmdBatchBuffer (dt_agent (px_done s))) = [("t", "a")]%string ∧
    gl_run (px_agent s) = RunWaiting ∧ ∀ e, app_step e s = None.
Proof.
  eexists. split; [vm_compute; reflexivity|]. split_and!; [reflexivity..|].
  intros e. unfold app_step. by rewrite decide_True.
Qed.

(** Stop can miss the server: when the signal comes before the goroutine of
    Start has run, Stop shuts down the empty server NewProxyApi put into the
    field; Start then replaces it and listens, and is still serving when RunProxy
    has returned. *)
Theorem late_start_serves_on :
  ∃ s o, run app_step late_events up = Some s ∧ px_main s = MainReturned ∧
    al_start (px_api s) = StartServing (al_httpServer (px_api s)) ∧
    al_servers (px_api s) !! al_httpServer (px_api s) = Some o ∧ ob_inShutdown o = false ∧ ob_listening o = true.
Proof. do 2 eexists. split; [vm_compute; reflexivity|]. repeat split. Qed.

(** A listener that fails is logged: Start returns its error and RunProxy goes
    on waiting, with no way to accept requests, until the signal. *)
Theorem http_failure_ignored err :
  ∃ s, run app_step [AppStart; AppListen (Some err)] up = Some s ∧ al_start (px_api s) = StartReturned (Some err) ∧
    ∀ evs s', Forall (λ e, e ≠ AppSignal) evs → run app_step evs s = Some s' → px_main s' = MainWait.
Proof.
  eexists. split; [vm_compute; reflexivity|]. split; [reflexivity|]. intros evs s' Hevs Hr.
  match type of Hr with run _ _ ?s = _ => assert (px_main s = MainWait ∧ px_signalled s = false) as H0 by done; generalize dependent s end.
  induction Hevs as [|e evs Hne _ IH]; intros s Hr [Hm Hs]; [by injection Hr as <-|].
  rewrite run_cons in Hr. destruct (app_step e s) as [s1|] eqn:He; [|done]. apply (IH s1 Hr).
  destruct (is_main e) eqn:Hmain.
  - destruct e; try done. unfold app_step in He. destruct (decide _); [done|].
    unfold main_step in He. by rewrite Hm, Hs in He.
  - destruct (others_wait e s s1 Hmain He) as (Hm1 & _ & Hs1 & _). rewrite Hm1. split; [done|].
    rewrite Hs1; [done|]. by destruct e.
Qed.

Theorem shutdown_in_order_witness :
  ∃ s, run app_step (boot ++ [AppTaskReturns SyncPeersTask; ack "a"] ++ stop) up = Some s ∧ px_main s = MainReturned ∧
    au_stopped (px_auth s) = true ∧ gl_cancelled (px_agent s) = true.
Proof.
  destruct (run app_step (boot ++ [AppTaskReturns SyncPeersTask; ack "a"] ++ stop) up) as [s|] eqn:Hr; [|by vm_compute in Hr].
  assert (Some (px_main s) = Some MainReturned) as Hm.
  { transitivity (px_main <$> run app_step (boot ++ [AppTaskReturns SyncPeersTask; ack "a"] ++ stop) up); [by rewrite Hr|vm_compute; reflexivity]. }
  injection Hm as Hm. exists s. split; [reflexivity|]. split; [exact Hm|].
  destruct (shutdown_in_order no_unicode (λ _ _, Ok ()) (λ _, Ok []) (λ _, Some ()) tokens DefaultConfig up
    (boot ++ [AppTaskReturns SyncPeersTask; ack "a"] ++ stop) s start_up Hr) as (_ & Hc & _ & _ & _ & Ha & _).
  split; [apply Ha; rewrite Hm; reflexivity|]. rewrite Hc, Hm. reflexivity.
Defined.

(** A request is under way when the signal comes, and the connection task holds
    the lock; neither ends. *)
Theorem shutdown_terminates_witness :
  ∃ s, run app_step (boot ++ [AppRequest 1; AppLock (HeldBySync []); AppSignal; AppMain]) up = Some s ∧
    app_step AppMain s = None ∧
    ∃ evs s', Forall (λ e, ends_wait e = true) evs ∧ run app_step evs s = Some s' ∧ returned (px_main s') = true.
Proof.
  destruct (run app_step (boot ++ [AppRequest 1; AppLock (HeldBySync []); AppSignal; AppMain]) up) as [s|] eqn:Hr;
    [|by vm_compute in Hr].
  assert (Some (px_signalled s, match app_step AppMain s with None => true | Some _ => false end) = Some (true, true))
    as Hs.
  { transitivity ((λ s, (px_signalled s, match app_step AppMain s with None => true | Some _ => false end)) <$>
      run app_step (boot ++ [AppRequest 1; AppLock (HeldBySync []); AppSignal; AppMain]) up);
      [by rewrite Hr|vm_compute; reflexivity]. }
  injection Hs as Hs Hn. destruct (app_step AppMain s) eqn:Hmain; [discriminate Hn|].
  exists s. split; [reflexivity|]. split; [exact Hmain|].
  destruct (shutdown_terminates s Hs) as (_ & _ & evs & s' & He & _ & Hrun & Hret).
  exists evs, s'. split; [exact He|]. split; [exact Hrun|exact Hret].
Defined.
