(* ===== verification/System.v ===== *)
(** * A submission end to end (internal/cluster/tasks.go, job_buffer.go, process.go)

    The API's channel, the tasks of the agent, the goroutines of the job buffers
    and the leader's answers as one machine, built from the handlers of the
    other files: [SysBuffer] is a step of [jb_step] on the part of the state the
    buffer's goroutine sees. The two tasks that send to the leader are split
    where they wait for it, so answers, other tasks and buffers come in between,
    and the result of a send is any. The theorem is that a producer is never
    told a success the cluster did not report for its own jobs. *)

From S2P Require Import Prelude GoRuntime Messages Config Consumer Router JobBuffer.
From S2P Require Import Metrics Leadership Discovery Transport Agent.

Local Open Scope Z_scope.

(** ** The tasks around their sends *)

(** A round of requestReceiverTask up to the send, and the request to send. *)
Definition receive_begin (req : ApiRequestWithRespCh) (a : Agent)
    : Agent * option ApiRequestWithRespCh :=
  match pr_Type (ar_ProxyRequest req) with
  | ReqAddJobs => (handleAddJobsRequest req a, None)
  | ReqDone => (handleDoneRequest req a, None)
  | ReqAddTopic =>
      (set_requestMap (<[pr_RequestID (ar_ProxyRequest req) := ar_RespCh req]> (ag_requestMap a)) a,
       Some req)
  | ReqHeartbeatReport => (a, None)
  end.

(** The rest of it, once the send returned. *)
Definition add_topic_end (req : ApiRequestWithRespCh) (e : option send_error) (a : Agent) : Agent :=
  let a := log_send (ar_ProxyRequest req) e a in
  match e with
  | None => a
  | Some _ =>
      let id := pr_RequestID (ar_ProxyRequest req) in
      let a := set_requestMap (delete id (ag_requestMap a)) a in
      set_respHeap (send_default (ar_RespCh req) (error_response id "leader unavailable")
        (ag_respHeap a)) a
  end.

(** handleSendJobs after its send; before it there is [register_batch]. *)
Definition send_jobs_end (topic : string) (request : ProxyRequest) (e : option send_error)
    (a : Agent) : Agent :=
  let a := log_send request e a in
  match e with
  | None => a
  | Some err =>
      let a := set_requestIdToTopic (delete (pr_RequestID request) (ag_requestIdToTopic a)) a in
      to_buffer topic (error_response (pr_RequestID request) (send_error_Error err)) a
  end.

(** ** State *)

(** The buffers and the producers' channels are the agent's; a buffer without
    an entry in [sy_pc] has its goroutine in the select. [sy_receiving] and
    [sy_sending] are the sends under way. The last four fields record what was
    submitted, drained, handed to sendToLeader and answered. *)
Record system := mkSystem {
  sy_agent : Agent;
  sy_pc : gmap string jb_pc;
  sy_counter : Z;
  sy_sendJobsCh : chan ProxyRequest;
  sy_producerCh : chan ApiRequestWithRespCh;
  sy_receiving : option ApiRequestWithRespCh;
  sy_sending : option (string * ProxyRequest);
  sy_submitted : list ApiRequestWithRespCh;
  sy_drained : list ProxyRequest;
  sy_sent : list ProxyRequest;
  sy_answers : list ToProducerResponse
}.

Definition set_agent (a : Agent) (s : system) : system :=
  mkSystem a (sy_pc s) (sy_counter s) (sy_sendJobsCh s) (sy_producerCh s) (sy_receiving s)
    (sy_sending s) (sy_submitted s) (sy_drained s) (sy_sent s) (sy_answers s).

Definition pc_of (topic : string) (s : system) : jb_pc := default Selecting (sy_pc s !! topic).

(** What the goroutine of a buffer sees; its ticker may have fired. *)
Definition buffer_view (topic : string) (s : system) : option jb_state :=
  b ← ag_topicJobBuffers (sy_agent s) !! topic;
  Some (mkJB b (pc_of topic s) (sy_counter s) (sy_sendJobsCh s) (ag_respHeap (sy_agent s)) true false).

(** The batch a step drained. *)
Definition newly_drained (pc pc' : jb_pc) : list ProxyRequest :=
  match pc, pc' with
  | Selecting, Sending batch => [batch]
  | _, _ => []
  end.

Definition buffer_update (topic : string) (j : jb_state) (s : system) : system :=
  let a := sy_agent s in
  let a := set_topicJobBuffers (<[topic := js_buf j]> (ag_topicJobBuffers a)) a in
  mkSystem (set_respHeap (js_heap j) a) (<[topic := js_pc j]> (sy_pc s)) (js_counter j)
    (js_sendJobsCh j) (sy_producerCh s) (sy_receiving s) (sy_sending s) (sy_submitted s)
    (sy_drained s ++ newly_drained (pc_of topic s) (js_pc j)) (sy_sent s) (sy_answers s).

(** ** Steps *)

Inductive sys_event :=
  | SysSubmit (req : ApiRequestWithRespCh)
  | SysReceive
  | SysReceiveEnd (e : option send_error)
  | SysBuffer (topic : string) (l : jb_event)
  | SysSendJobs
  | SysSendJobsEnd (e : option send_error)
  | SysAnswer (resp : ToProducerResponse)
  | SysLeader (l : Leadership)
  | SysRead (ch : chanid).

(** The branches the goroutine itself takes. *)
Definition goroutine_event (l : jb_event) : bool :=
  match l with
  | RunApi | RunResponse | RunTick | RunStore | RunSend => true
  | _ => false
  end.

(** A handler makes its response channel, one no other request has, and sends
    the request. *)
Definition sys_submit (req : ApiRequestWithRespCh) (s : system) : option system :=
  let a := sy_agent s in
  let push a :=
    if chan_full (sy_producerCh s) then None
    else Some (mkSystem a (sy_pc s) (sy_counter s) (sy_sendJobsCh s)
      (chan_push (sy_producerCh s) req) (sy_receiving s) (sy_sending s)
      (sy_submitted s ++ [req]) (sy_drained s) (sy_sent s) (sy_answers s)) in
  match ar_RespCh req with
  | None => push a
  | Some ch =>
      if decide (ch ∈ omap ar_RespCh (sy_submitted s)) then None
      else push (set_respHeap (<[ch := make_chan 1]> (ag_respHeap a)) a)
  end.

(** requestReceiverTask takes a request when it is not waiting for the leader. *)
Definition sys_receive (s : system) : option system :=
  match sy_receiving s with
  | Some _ => None
  | None =>
      '(req, c) ← recv (sy_producerCh s);
      let '(a, sending) := receive_begin req (sy_agent s) in
      Some (mkSystem a (sy_pc s) (sy_counter s) (sy_sendJobsCh s) c sending (sy_sending s)
        (sy_submitted s) (sy_drained s) (sy_sent s) (sy_answers s))
  end.

Definition sys_receive_end (e : option send_error) (s : system) : option system :=
  req ← sy_receiving s;
  Some (mkSystem (add_topic_end req e (sy_agent s)) (sy_pc s) (sy_counter s) (sy_sendJobsCh s)
    (sy_producerCh s) None (sy_sending s) (sy_submitted s) (sy_drained s) (sy_sent s)
    (sy_answers s)).

(** sendJobsHandler likewise; a batch without jobs, or whose first is nil, ends
    the process, and the machine with it. *)
Definition sys_send_jobs (s : system) : option system :=
  match sy_sending s with
  | Some _ => None
  | None =>
      '(batch, c) ← recv (sy_sendJobsCh s);
      let mk a sending sent :=
        mkSystem a (sy_pc s) (sy_counter s) c (sy_producerCh s) (sy_receiving s) sending
          (sy_submitted s) (sy_drained s) sent (sy_answers s) in
      match register_batch batch (sy_agent s) with
      | Returns None => Some (mk (sy_agent s) None (sy_sent s))
      | Returns (Some (topic, a)) => Some (mk a (Some (topic, batch)) (sy_sent s ++ [batch]))
      | _ => None
      end
  end.

Definition sys_send_jobs_end (e : option send_error) (s : system) : option system :=
  '(topic, batch) ← sy_sending s;
  Some (mkSystem (send_jobs_end topic batch e (sy_agent s)) (sy_pc s) (sy_counter s)
    (sy_sendJobsCh s) (sy_producerCh s) (sy_receiving s) None (sy_submitted s) (sy_drained s)
    (sy_sent s) (sy_answers s)).

(** A panic in a buffer's goroutine ends the process, and the machine with it. *)
Definition sys_buffer (topic : string) (l : jb_event) (s : system) : option system :=
  if goroutine_event l then
    j ← buffer_view topic s;
    j ← jb_step l j;
    if crashed (js_pc j) then None else Some (buffer_update topic j s)
  else None.

Definition sys_answer (resp : ToProducerResponse) (s : system) : system :=
  mkSystem (handleResponse resp (sy_agent s)) (sy_pc s) (sy_counter s) (sy_sendJobsCh s)
    (sy_producerCh s) (sy_receiving s) (sy_sending s) (sy_submitted s) (sy_drained s) (sy_sent s)
    (sy_answers s ++ [resp]).

Definition sys_read (ch : chanid) (s : system) : option system :=
  c ← ag_respHeap (sy_agent s) !! ch;
  '(_, c) ← recv c;
  Some (set_agent (set_respHeap (<[ch := c]> (ag_respHeap (sy_agent s))) (sy_agent s)) s).

Definition sys_step (e : sys_event) (s : system) : option system :=
  match e with
  | SysSubmit req => sys_submit req s
  | SysReceive => sys_receive s
  | SysReceiveEnd e => sys_receive_end e s
  | SysBuffer topic l => sys_buffer topic l s
  | SysSendJobs => sys_send_jobs s
  | SysSendJobsEnd e => sys_send_jobs_end e s
  | SysAnswer resp => Some (sys_answer resp s)
  | SysLeader l => Some (set_agent (set_leader l (sy_agent s)) s)
  | SysRead ch => sys_read ch s
  end.

Definition sys_init (proxyID : string) (router : DefaultRouter) (kind : DiscoveryKind) : system :=
  mkSystem (NewClusterAgent proxyID router kind) ∅ 0 (make_chan sendJobs_cap)
    (make_chan 10240) None None [] [] [] [].

(** ** Where a value in a producer's channel comes from *)

(** An error the proxy made up. *)
Definition made_error (v : ToProducerResponse) : Prop :=
  tp_Status v = ToProxyRespStatusError ∧ tp_Failures v = [].

(** The requests submitted, the batches drained and handed to sendToLeader, the
    answers received. *)
Record history := mkHistory {
  hi_submitted : list ApiRequestWithRespCh;
  hi_drained : list ProxyRequest;
  hi_sent : list ProxyRequest;
  hi_answers : list ToProducerResponse
}.

Definition history_of (s : system) : history :=
  mkHistory (sy_submitted s) (sy_drained s) (sy_sent s) (sy_answers s).

Record older (h h' : history) : Prop := {
  old_submitted : hi_submitted h ⊆ hi_submitted h';
  old_drained : hi_drained h ⊆ hi_drained h';
  old_sent : hi_sent h ⊆ hi_sent h';
  old_answers : hi_answers h ⊆ hi_answers h'
}.

(** A batch under [id] was handed to sendToLeader. *)
Definition sent_batch (h : history) (id : Z) : Prop :=
  ∃ req, req ∈ hi_sent h ∧ req ∈ hi_drained h ∧ pr_RequestID req = id.

Definition response_ok (h : history) (R : ToProducerResponse) : Prop :=
  (R ∈ hi_answers h ∧ sent_batch h (tp_RequestID R)) ∨ made_error R.

(** A producer that waits for the batch [id]: its jobs are in the batch. *)
Definition call_ok (h : history) (id : Z) (call : ApiWaiting) : Prop :=
  ∃ r batch, r ∈ hi_submitted h ∧ call = waiting_of r ∧ batch ∈ hi_drained h ∧
    pr_RequestID batch = id ∧ req_jobs r ⊆ batch_jobs batch.

Definition explained (h : history) (r : ApiRequestWithRespCh) (v : ToProducerResponse) : Prop :=
  made_error v ∨
  (pr_Type (ar_ProxyRequest r) = ReqAddTopic ∧ v ∈ hi_answers h) ∨
  ∃ R, R ∈ hi_answers h ∧ sent_batch h (tp_RequestID R) ∧
    call_ok h (tp_RequestID R) (waiting_of r) ∧ v = answer R (waiting_of r).

Definition value_ok (h : history) (ch : chanid) (v : ToProducerResponse) : Prop :=
  ∃ r, r ∈ hi_submitted h ∧ ar_RespCh r = Some ch ∧ explained h r v.

Definition heap_ok (h : history) (hp : resp_heap) : Prop :=
  ∀ ch c v, hp !! ch = Some c → v ∈ ch_buf c → value_ok h ch v.

Record buffer_ok (h : history) (b : JobBuffer) : Prop := {
  bo_inv : jb_inv b;
  bo_api : ch_buf (jb_apiInputCh b) ⊆ hi_submitted h;
  bo_store : ch_buf (jb_store b) ⊆ hi_submitted h;
  bo_waiting : ∀ id calls call,
    jb_waitingMap b !! id = Some calls → call ∈ calls → call_ok h id call;
  bo_responses : ∀ R, R ∈ ch_buf (jb_responseInputCh b) → response_ok h R
}.

Definition pc_ok (h : history) (pc : jb_pc) : Prop :=
  match pc with
  | StoreBlocked r => r ∈ hi_submitted h
  | Sending batch => batch ∈ hi_drained h
  | _ => True
  end.

(** The agent's tables. *)
Record agent_ok (h : history) (a : Agent) : Prop := {
  ao_buffers : ∀ t b, ag_topicJobBuffers a !! t = Some b → buffer_ok h b;
  ao_requestMap : ∀ id ch, ag_requestMap a !! id = Some (Some ch) →
    ∃ r, r ∈ hi_submitted h ∧ pr_Type (ar_ProxyRequest r) = ReqAddTopic ∧ ar_RespCh r = Some ch;
  ao_registered : ∀ id t, ag_requestIdToTopic a !! id = Some t → sent_batch h id;
  ao_heap : heap_ok h (ag_respHeap a)
}.

(** The state a buffer's goroutine sees. *)
Record view_ok (h : history) (j : jb_state) : Prop := {
  vo_buf : buffer_ok h (js_buf j);
  vo_pc : pc_ok h (js_pc j);
  vo_heap : heap_ok h (js_heap j);
  vo_sendJobs : ch_buf (js_sendJobsCh j) ⊆ hi_drained h
}.

(** Batches are numbered from one, until the counter wraps. *)
Definition numbered (ctr : Z) (batches : list ProxyRequest) : Prop :=
  Z.of_nat (length batches) < 2 ^ 32 →
  ctr = Z.of_nat (length batches) ∧ pr_RequestID <$> batches = seqZ 1 (Z.of_nat (length batches)).

Record sys_inv (s : system) : Prop := {
  si_agent : agent_ok (history_of s) (sy_agent s);
  si_pcs : ∀ t pc, sy_pc s !! t = Some pc → pc_ok (history_of s) pc;
  si_sendJobs : ch_buf (sy_sendJobsCh s) ⊆ sy_drained s;
  si_producer : ch_buf (sy_producerCh s) ⊆ sy_submitted s;
  si_receiving : ∀ r, sy_receiving s = Some r → r ∈ sy_submitted s;
  si_channels : NoDup (omap ar_RespCh (sy_submitted s));
  si_numbered : numbered (sy_counter s) (sy_drained s)
}.

(** ** Lemmas: histories only grow *)

#[export] Instance older_refl : Reflexive older.
Proof. intros h. by split. Qed.

Section Growing.
Context (h h' : history) (Hle : older h h').

Lemma sent_batch_mono id : sent_batch h id → sent_batch h' id.
Proof. destruct Hle. intros (req & ? & ? & ?). exists req. eauto. Qed.

Lemma response_ok_mono R : response_ok h R → response_ok h' R.
Proof. destruct Hle. intros [[? ?]|?]; [left|by right]. eauto using sent_batch_mono. Qed.

Lemma call_ok_mono id call : call_ok h id call → call_ok h' id call.
Proof. destruct Hle. intros (r & batch & ? & ? & ? & ?). exists r, batch. eauto 10. Qed.

Lemma explained_mono r v : explained h r v → explained h' r v.
Proof.
  destruct Hle. intros [?|[[? ?]|(R & ? & ? & ? & ?)]]; [by left|right; left; eauto|].
  right. right. exists R. eauto 10 using sent_batch_mono, call_ok_mono.
Qed.

Lemma value_ok_mono ch v : value_ok h ch v → value_ok h' ch v.
Proof. destruct Hle. intros (r & ? & ? & ?). exists r. eauto using explained_mono. Qed.

Lemma heap_ok_mono hp : heap_ok h hp → heap_ok h' hp.
Proof. intros Hh ch c v ? ?. eauto using value_ok_mono. Qed.

Lemma buffer_ok_mono b : buffer_ok h b → buffer_ok h' b.
Proof.
  pose proof Hle as []. intros [? ? ? Hw Hr]. split; [done|by etrans|by etrans|..].
  - intros id calls call ? ?. eauto using call_ok_mono.
  - intros R ?. eauto using response_ok_mono.
Qed.

Lemma pc_ok_mono pc : pc_ok h pc → pc_ok h' pc.
Proof. destruct Hle. destruct pc; cbn; auto. Qed.

Lemma agent_ok_mono a : agent_ok h a → agent_ok h' a.
Proof.
  pose proof Hle as []. intros [? Hm ? ?]. split; eauto using buffer_ok_mono, sent_batch_mono, heap_ok_mono.
  intros id ch Hid. destruct (Hm id ch Hid) as (r & ? & ?). exists r. eauto.
Qed.

End Growing.

(** ** Lemmas: the producers' channels *)

Lemma value_made_error h r ch v :
  r ∈ hi_submitted h → ar_RespCh r = Some ch → made_error v → value_ok h ch v.
Proof. intros ? ? ?. exists r. split_and!; [done..|by left]. Qed.

Lemma heap_ok_send h och v hp :
  (∀ ch, och = Some ch → value_ok h ch v) → heap_ok h hp → heap_ok h (send_default och v hp).
Proof.
  intros Hv Hh. destruct och as [ch|]; [|done]. unfold send_default.
  destruct (hp !! ch) as [c|] eqn:Hc; [|done]. intros ch' c' v' Hc' Hv'.
  destruct (decide (ch = ch')) as [<-|Hne].
  - rewrite lookup_insert_eq in Hc'. injection Hc' as <-. unfold try_send in Hv'. case_match; cbn in Hv'.
    + eauto.
    + apply elem_of_app in Hv' as [?| ->%list_elem_of_singleton]; eauto.
  - rewrite lookup_insert_ne in Hc' by done. eauto.
Qed.

Lemma answer_made_error R call : made_error R → made_error (answer R call).
Proof.
  intros [Hs Hf]. unfold answer. rewrite Hs, Hf, decide_False by done. done.
Qed.

Lemma heap_ok_deliver h R calls hp :
  response_ok h R → (∀ call, call ∈ calls → call_ok h (tp_RequestID R) call) →
  heap_ok h hp → heap_ok h (deliver_all R calls hp).
Proof.
  intros HR. revert hp. induction calls as [|call calls IH]; intros hp Hc Hh; [done|].
  rewrite deliver_all_cons. apply IH; [intros ? ?; apply Hc; by right|].
  apply heap_ok_send; [|done]. intros ch Hch.
  pose proof (Hc call ltac:(by left)) as Hcall. pose proof Hcall as (r & batch & Hr & -> & _).
  destruct HR as [[HR Hs]|He].
  - exists r. split_and!; [done..|]. right. right. by exists R.
  - eauto using value_made_error, answer_made_error.
Qed.

(** ** Lemmas: a buffer's goroutine *)

Lemma batch_contains topic id r store :
  r ∈ store → req_jobs r ⊆ batch_jobs (batch_of topic id store).
Proof.
  intros Hr j Hj. rewrite batch_jobs_batch_of, list_elem_of_In, in_concat. exists (req_jobs r).
  rewrite <- !list_elem_of_In. eauto using list_elem_of_fmap_2.
Qed.

Lemma buffer_ok_buffer h r b b' :
  buffer_ok h b → r ∈ hi_submitted h → buffer r b = Returns b' → buffer_ok h b'.
Proof.
  intros [Hi Ha Hs Hw Hr] Hin Hb. pose proof (buffer_inv _ _ _ Hi Hb).
  apply buffer_returns in Hb as (_ & _ & Hs' & _ & _ & _ & Hw' & Ha' & Hr').
  split; rewrite ?Ha', ?Hs', ?Hw', ?Hr'; try done. cbn. set_solver.
Qed.

Lemma buffer_ok_api h c b :
  ch_buf c ⊆ hi_submitted h → buffer_ok h b → buffer_ok h (set_apiInputCh c b).
Proof. intros ? [? ? ? ? ?]. split; [|done..]. by eapply jb_inv_store; last done. Qed.

Lemma buffer_ok_responses h c b :
  (∀ R, R ∈ ch_buf c → response_ok h R) → buffer_ok h b → buffer_ok h (set_responseInputCh c b).
Proof. intros ? [? ? ? ? ?]. split; [|done..]. by eapply jb_inv_store; last done. Qed.

(** A drain puts its requests in the batch and on the waiting map. *)
Lemma buffer_ok_drained h id b :
  let batch := batch_of (jb_topic b) id (ch_buf (jb_store b)) in
  batch ∈ hi_drained h → buffer_ok h b → buffer_ok h (drained id b).
Proof.
  intros batch Hb [Hi Ha Hs Hw Hr]. split; [by apply drained_inv|done|set_solver| |done].
  cbn. intros id' calls call Hid Hc. destruct (decide (id = id')) as [<-|Hne].
  - rewrite lookup_insert_eq in Hid. injection Hid as <-.
    apply list_elem_of_fmap in Hc as (r & -> & Hr'). exists r, batch. split_and!; auto.
    by apply batch_contains.
  - rewrite lookup_insert_ne in Hid by done. eauto.
Qed.

Lemma dispatch_ok h R b hp b' hp' :
  response_ok h R → buffer_ok h b → heap_ok h hp → dispatchResponse R b hp = (b', hp') →
  buffer_ok h b' ∧ heap_ok h hp'.
Proof.
  intros HR Hb Hh. rewrite dispatchResponse_spec. pose proof Hb as [Hi Ha Hs Hw Hr].
  destruct (_ !! _) as [calls|] eqn:Hc; intros [= <- <-]; [|done]. split.
  - split; [by eapply jb_inv_store; last exact Hi|done..| |done]. cbn. intros id calls' call Hid.
    apply lookup_delete_Some in Hid as [_ Hid]. eauto.
  - eauto using heap_ok_deliver.
Qed.

Lemma run_buffer_ok h r j :
  view_ok h j → r ∈ hi_submitted h → view_ok h (run_buffer r j).
Proof.
  intros [Hb Hp Hh Hs] Hr. unfold run_buffer. destruct (buffer r (js_buf j)) as [b| |] eqn:He;
    (split; [|done..]); cbn; [|done..]. by eapply buffer_ok_buffer.
Qed.

(** The history after a step of the goroutine. *)
Definition drain_more (batches : list ProxyRequest) (h : history) : history :=
  mkHistory (hi_submitted h) (hi_drained h ++ batches) (hi_sent h) (hi_answers h).

Lemma older_drain_more batches h : older h (drain_more batches h).
Proof. split; cbn; set_solver. Qed.

Lemma view_ok_mono h h' j : older h h' → view_ok h j → view_ok h' j.
Proof.
  intros Hle [? ? ? ?]. split; eauto using buffer_ok_mono, pc_ok_mono, heap_ok_mono.
  etrans; [done|by destruct Hle].
Qed.

Lemma jb_step_ok h l j j' :
  goroutine_event l = true → view_ok h j → jb_step l j = Some j' →
  view_ok (drain_more (newly_drained (js_pc j) (js_pc j')) h) j'.
Proof.
  intros Hl Hv Hs. destruct l; try done; cbn [jb_step] in Hs;
    destruct (js_pc j) as [|r|batch| |] eqn:Hpc; try done.
  - destruct (recv _) as [[r c]|] eqn:Hr; [|done]. injection Hs as <-. apply recv_Some in Hr as [Hr _].
    eapply view_ok_mono; [apply older_drain_more|]. pose proof Hv as [Hb ? ? ?].
    pose proof (bo_api _ _ Hb) as Ha. rewrite Hr in Ha.
    apply run_buffer_ok; [|set_solver]. split; cbn; [|by rewrite Hpc|done..].
    apply buffer_ok_api; [set_solver|done].
  - destruct (recv _) as [[R c]|] eqn:Hr; [|done]. apply recv_Some in Hr as [Hr _].
    cbn in Hs. destruct (dispatchResponse _ _ _) as [b' hp] eqn:Hd. injection Hs as <-.
    eapply view_ok_mono; [apply older_drain_more|]. destruct Hv as [Hb ? Hh ?].
    pose proof (bo_responses _ _ Hb) as HR. rewrite Hr in HR.
    eapply dispatch_ok in Hd as [? ?]; [by split|apply HR; by left| |done].
    apply buffer_ok_responses; [|done]. intros R' ?. apply HR. by right.
  - destruct (js_tick j); [|done]. pose proof Hv as [Hb _ Hh Hq].
    destruct (drain_cases (js_counter j) (js_buf j) (bo_inv _ _ Hb)) as [[_ Hd]|[(_ & _ & Hd)|[p Hd]]];
      rewrite Hd in Hs; injection Hs as <-; cbn [js_pc newly_drained].
    + eapply view_ok_mono; [apply older_drain_more|]. by split.
    + split; cbn; [|set_solver| |set_solver].
      * apply buffer_ok_drained; [cbn; set_solver|]. by eapply buffer_ok_mono; [apply older_drain_more|].
      * by eapply heap_ok_mono; [apply older_drain_more|].
    + eapply view_ok_mono; [apply older_drain_more|]. by split.
  - destruct (chan_full _); [done|]. injection Hs as <-.
    eapply view_ok_mono; [apply older_drain_more|]. apply run_buffer_ok; [done|].
    destruct Hv as [_ Hp _ _]. by rewrite Hpc in Hp.
  - destruct (chan_full _); [done|]. injection Hs as <-.
    eapply view_ok_mono; [apply older_drain_more|]. destruct Hv as [? Hp ? ?]. rewrite Hpc in Hp.
    split; [done..|]. cbn. cbn in Hp. set_solver.
Qed.

(** ** Lemmas: the agent *)

Lemma agent_ok_buffer h t b a :
  buffer_ok h b → agent_ok h a →
  agent_ok h (set_topicJobBuffers (<[t := b]> (ag_topicJobBuffers a)) a).
Proof.
  intros Hb [Ha ? ? ?]. split; [|done..]. intros t' b'. cbn. rewrite lookup_insert_Some.
  intros [[_ <-]|[_ ?]]; eauto.
Qed.

Lemma agent_ok_heap h hp a : heap_ok h hp → agent_ok h a → agent_ok h (set_respHeap hp a).
Proof. intros ? [? ? ? ?]. by split. Qed.

Lemma agent_ok_send h och v a :
  (∀ ch, och = Some ch → value_ok h ch v) → agent_ok h a →
  agent_ok h (set_respHeap (send_default och v (ag_respHeap a)) a).
Proof. intros ? Ha. apply agent_ok_heap; [|done]. destruct Ha. by apply heap_ok_send. Qed.

Lemma agent_ok_forget h id a :
  agent_ok h a → agent_ok h (set_requestMap (delete id (ag_requestMap a)) a).
Proof. intros [? Hm ? ?]. split; [done| |done..]. cbn. intros i ch [_ ?]%lookup_delete_Some. eauto. Qed.

Lemma agent_ok_unregister h id a :
  agent_ok h a → agent_ok h (set_requestIdToTopic (delete id (ag_requestIdToTopic a)) a).
Proof. intros [? ? Hm ?]. split; [done..| |done]. cbn. intros i t [_ ?]%lookup_delete_Some. eauto. Qed.

Lemma agent_ok_to_buffer h t R a :
  response_ok h R → agent_ok h a → agent_ok h (to_buffer t R a).
Proof.
  intros HR Ha. unfold to_buffer. destruct (_ !! t) as [b|] eqn:Hb; [|done].
  apply agent_ok_buffer; [|done]. pose proof (ao_buffers _ _ Ha _ _ Hb) as Hok.
  apply buffer_ok_responses; [|done]. intros R'. unfold try_send.
  case_match; cbn; [by apply bo_responses|].
  intros [?| ->%list_elem_of_singleton]%elem_of_app; [by eapply bo_responses|done].
Qed.

Lemma buffer_ok_new h t : buffer_ok h (NewJobBuffer t).
Proof. split; [apply jb_inv_new|set_solver..]. Qed.

Lemma agent_ok_add_jobs h r a :
  r ∈ hi_submitted h → agent_ok h a → agent_ok h (handleAddJobsRequest r a).
Proof.
  intros Hr Ha. unfold handleAddJobsRequest. destruct (pr_AddJobs _) as [p|]; [|done].
  destruct (decide _); [done|].
  destruct (getOrCreateJobBuffer (aj_Topic p) a) as [b a'] eqn:Hg.
  assert (buffer_ok h b ∧ agent_ok h a') as [Hb Ha'].
  { unfold getOrCreateJobBuffer in Hg. destruct (_ !! aj_Topic p) as [b'|] eqn:Hl;
      injection Hg as <- <-; [by split; [eapply ao_buffers|]|].
    auto using buffer_ok_new, agent_ok_buffer. }
  destruct (try_send _ r) as [c sent] eqn:Ht. destruct sent.
  - apply agent_ok_buffer; [|done]. apply buffer_ok_api; [|done].
    unfold try_send in Ht. case_match; [done|]. injection Ht as <-. cbn.
    pose proof (bo_api _ _ Hb). set_solver.
  - apply agent_ok_send; [|done]. intros ch Hch. eapply value_made_error; done.
Qed.

Lemma agent_ok_done h r a : agent_ok h a → agent_ok h (handleDoneRequest r a).
Proof. intros [? ? ? ?]. unfold handleDoneRequest. by case_match. Qed.

Lemma agent_ok_log h req e a : agent_ok h a → agent_ok h (log_send req e a).
Proof. by intros [? ? ? ?]. Qed.

Lemma receive_begin_ok h r a :
  r ∈ hi_submitted h → agent_ok h a → agent_ok h (receive_begin r a).1.
Proof.
  intros Hr Ha. unfold receive_begin. destruct (pr_Type _) eqn:Ht; cbn [fst]; [done|..].
  - pose proof Ha as [? Hm ? ?]. split; [done| |done..]. intros id ch. cbn.
    rewrite lookup_insert_Some. intros [[_ Hch]|[_ ?]]; eauto.
  - by apply agent_ok_add_jobs.
  - by apply agent_ok_done.
Qed.

Lemma add_topic_end_ok h r e a :
  r ∈ hi_submitted h → agent_ok h a → agent_ok h (add_topic_end r e a).
Proof.
  intros Hr Ha. unfold add_topic_end. destruct e; [|by apply agent_ok_log].
  apply agent_ok_send; [|by apply agent_ok_forget, agent_ok_log].
  intros ch Hch. by eapply value_made_error.
Qed.

Lemma register_batch_ok h q t a a' :
  q ∈ hi_sent h → q ∈ hi_drained h → agent_ok h a →
  register_batch q a = Returns (Some (t, a')) → agent_ok h a'.
Proof.
  intros Hq Hd Ha Hr. unfold register_batch in Hr. repeat (case_match; try done).
  injection Hr as _ <-. destruct Ha as [? ? Hm ?]. split; [done..| |done].
  intros id t'. cbn. rewrite lookup_insert_Some. intros [[<- _]|[_ ?]]; [|eauto]. by exists q.
Qed.

Lemma send_jobs_end_ok h t q e a : agent_ok h a → agent_ok h (send_jobs_end t q e a).
Proof.
  intros Ha. unfold send_jobs_end. destruct e; [|by apply agent_ok_log].
  apply agent_ok_to_buffer; [by right|]. by apply agent_ok_unregister, agent_ok_log.
Qed.

Lemma handleResponse_ok h R a :
  R ∈ hi_answers h → agent_ok h a → agent_ok h (handleResponse R a).
Proof.
  intros HR Ha. unfold handleResponse. destruct (ag_requestMap a !! _) as [och|] eqn:Hm.
  - apply (agent_ok_send h och R (set_requestMap _ a)); [|by apply agent_ok_forget].
    intros ch ->. destruct (ao_requestMap _ _ Ha _ _ Hm) as (r & ? & ? & ?).
    exists r. split_and!; [done..|]. right. by left.
  - destruct (ag_requestIdToTopic a !! _) as [t|] eqn:Ht; [|done].
    apply agent_ok_unregister, agent_ok_to_buffer; [|done]. left. split; [done|].
    by eapply ao_registered.
Qed.

(** ** Lemmas: the machine *)

Lemma pc_of_ok s t : sys_inv s → pc_ok (history_of s) (pc_of t s).
Proof. intros Hs. unfold pc_of. destruct (_ !! t) eqn:Hp; cbn; [by eapply si_pcs|done]. Qed.

Lemma buffer_view_ok s t j : sys_inv s → buffer_view t s = Some j → view_ok (history_of s) j.
Proof.
  intros Hs Hj. unfold buffer_view in Hj. destruct (_ !! t) as [b|] eqn:Hb; [|done].
  injection Hj as <-. destruct Hs as [Ha ? ? ? ? ? ?] eqn:He. split; cbn.
  - by eapply ao_buffers.
  - by apply pc_of_ok.
  - by apply ao_heap.
  - done.
Qed.

Lemma numbered_snoc ctr batches q :
  numbered ctr batches → pr_RequestID q = uint32 (ctr + 1) →
  numbered (uint32 (ctr + 1)) (batches ++ [q]).
Proof.
  unfold numbered. intros Hn Hq. rewrite length_app, Nat2Z.inj_add. cbn [length]. intros Hlt.
  destruct Hn as [-> Hids]; [lia|].
  assert (uint32 (Z.of_nat (length batches) + 1) = Z.of_nat (length batches) + 1) as Hu.
  { unfold uint32, uwrap. apply Z.mod_small. lia. }
  split; [by rewrite Hu|]. rewrite fmap_app, Hids. cbn [fmap list_fmap]. rewrite Hq, Hu.
  rewrite seqZ_app by lia. f_equal. rewrite seqZ_cons by lia. cbn. f_equal. lia.
Qed.

(** The counter moves with the batches. *)
Lemma jb_step_numbered l j j' batches :
  goroutine_event l = true → jb_inv (js_buf j) → jb_step l j = Some j' →
  numbered (js_counter j) batches →
  numbered (js_counter j') (batches ++ newly_drained (js_pc j) (js_pc j')).
Proof.
  intros Hl Hi Hs Hn. destruct l; try done; cbn [jb_step] in Hs;
    destruct (js_pc j) as [|r|batch| |] eqn:Hpc; try done; cbn in Hs.
  - destruct (recv _) as [[r c]|]; [|done]. cbn in Hs. injection Hs as <-. unfold run_buffer.
    case_match; cbn; by rewrite app_nil_r.
  - destruct (recv _) as [[R c]|]; [|done]. cbn in Hs.
    destruct (dispatchResponse _ _ _). injection Hs as <-. cbn. by rewrite app_nil_r.
  - destruct (js_tick j); [|done].
    destruct (drain_cases (js_counter j) (js_buf j) Hi) as [[_ Hd]|[(_ & _ & Hd)|[p Hd]]];
      rewrite Hd in Hs; injection Hs as <-; cbn; [by rewrite app_nil_r| |by rewrite app_nil_r].
    by apply numbered_snoc.
  - destruct (chan_full _); [done|]. injection Hs as <-. unfold run_buffer.
    case_match; cbn; by rewrite app_nil_r.
  - destruct (chan_full _); [done|]. injection Hs as <-. cbn. by rewrite app_nil_r.
Qed.

Lemma sys_buffer_inv t l s s' : sys_inv s → sys_buffer t l s = Some s' → sys_inv s'.
Proof.
  intros Hs Hb. unfold sys_buffer in Hb. destruct (goroutine_event l) eqn:Hl; [|done].
  destruct (buffer_view t s) as [j|] eqn:Hj; [|done]. cbn in Hb.
  destruct (jb_step l j) as [j'|] eqn:Hst; [|done]. cbn in Hb.
  destruct (crashed _); [done|]. injection Hb as <-.
  pose proof (buffer_view_ok _ _ _ Hs Hj) as Hv.
  pose proof (jb_step_ok _ _ _ _ Hl Hv Hst) as Hv'.
  assert (js_pc j = pc_of t s ∧ js_counter j = sy_counter s) as [Hpc Hctr].
  { unfold buffer_view in Hj. destruct (_ !! t); [|done]. by injection Hj as <-. }
  pose proof (older_drain_more (newly_drained (js_pc j) (js_pc j')) (history_of s)) as Hle.
  rewrite Hpc in Hv', Hle. destruct Hs as [Ha Hpcs Hsj Hp Hr Hch Hn]. destruct Hv' as [Hb' Hp' Hh' Hs'].
  split; try done.
  - apply agent_ok_heap; [done|]. apply agent_ok_buffer; [done|]. by eapply agent_ok_mono.
  - intros t' pc. cbn. rewrite lookup_insert_Some. intros [[_ <-]|[_ ?]]; [done|].
    eapply pc_ok_mono; eauto.
  - cbn. rewrite <- Hpc. eapply jb_step_numbered; [done| |done|by rewrite Hctr].
    by apply (bo_inv _ _ (vo_buf _ _ Hv)).
Qed.

Lemma sys_submit_inv r s s' : sys_inv s → sys_submit r s = Some s' → sys_inv s'.
Proof.
  intros [Ha Hpcs Hsj Hp Hr Hch Hn] Hs. unfold sys_submit in Hs.
  set (h' := mkHistory (sy_submitted s ++ [r]) (sy_drained s) (sy_sent s) (sy_answers s)).
  assert (older (history_of s) h') as Hle by (split; cbn; set_solver).
  pose proof (agent_ok_mono _ _ Hle _ Ha) as Ha'.
  assert (∀ t pc, sy_pc s !! t = Some pc → pc_ok h' pc) as Hpcs' by eauto using pc_ok_mono.
  destruct (ar_RespCh r) as [ch|] eqn:Hc; [destruct (decide _) as [|Hfresh]; [done|]|];
    destruct (chan_full _); try done; injection Hs as <-; split; cbn; try done.
  - apply agent_ok_heap; [|done]. intros ch' c v. rewrite lookup_insert_Some.
    intros [[<- <-]|[_ Hl]] Hv; [by apply elem_of_nil in Hv|]. by eapply (ao_heap _ _ Ha').
  - set_solver.
  - intros r' Hr'. apply elem_of_app. left. auto.
  - rewrite omap_app. cbn. rewrite Hc. apply NoDup_app. split_and!; [done| |by apply NoDup_singleton].
    intros ch' Hin ->%list_elem_of_singleton. done.
  - set_solver.
  - intros r' Hr'. apply elem_of_app. left. auto.
  - rewrite omap_app. cbn. by rewrite Hc, app_nil_r.
Qed.

Lemma sys_receive_inv s s' : sys_inv s → sys_receive s = Some s' → sys_inv s'.
Proof.
  intros [Ha Hpcs Hsj Hp Hr Hch Hn] Hs. unfold sys_receive in Hs.
  destruct (sy_receiving s); [done|]. destruct (recv _) as [[r c]|] eqn:Hc; [|done].
  apply recv_Some in Hc as [Hc _]. rewrite Hc in Hp. cbn in Hs.
  pose proof (receive_begin_ok (history_of s) r _ ltac:(apply Hp; by left) Ha) as Hb.
  destruct (receive_begin r (sy_agent s)) as [a sending] eqn:Hrb. injection Hs as <-.
  split; cbn; try done; [set_solver|]. intros r' ->. unfold receive_begin in Hrb.
  destruct (pr_Type _); simplify_eq. apply Hp. by left.
Qed.

Lemma sys_send_jobs_inv s s' : sys_inv s → sys_send_jobs s = Some s' → sys_inv s'.
Proof.
  intros [Ha Hpcs Hsj Hp Hr Hch Hn] Hs. unfold sys_send_jobs in Hs.
  destruct (sy_sending s); [done|]. destruct (recv _) as [[q c]|] eqn:Hc; [|done].
  apply recv_Some in Hc as [Hc _]. rewrite Hc in Hsj. cbn in Hs.
  destruct (register_batch q _) as [[[t a]|]|p|] eqn:Hb; [| |done..]; injection Hs as <-.
  - set (h' := mkHistory (sy_submitted s) (sy_drained s) (sy_sent s ++ [q]) (sy_answers s)).
    assert (older (history_of s) h') as Hle by (split; cbn; set_solver).
    split; cbn; try done; [|set_solver].
    eapply register_batch_ok; [| |by eapply agent_ok_mono|exact Hb]; cbn; set_solver.
  - split; cbn; try done. set_solver.
Qed.

Lemma sys_answer_inv R s : sys_inv s → sys_inv (sys_answer R s).
Proof.
  intros [Ha Hpcs Hsj Hp Hr Hch Hn].
  set (h' := mkHistory (sy_submitted s) (sy_drained s) (sy_sent s) (sy_answers s ++ [R])).
  assert (older (history_of s) h') as Hle by (split; cbn; set_solver).
  split; cbn; try done.
  apply handleResponse_ok; [cbn; set_solver|by eapply agent_ok_mono].
Qed.

Lemma sys_step_inv e s s' : sys_inv s → sys_step e s = Some s' → sys_inv s'.
Proof.
  intros Hi Hs. destruct e; cbn [sys_step] in Hs.
  - by eapply sys_submit_inv.
  - by eapply sys_receive_inv.
  - unfold sys_receive_end in Hs. destruct (sy_receiving s) as [r|] eqn:Hr; [|done].
    injection Hs as <-. destruct Hi. split; cbn; try done. apply add_topic_end_ok; [by auto|done].
  - by eapply sys_buffer_inv.
  - by eapply sys_send_jobs_inv.
  - unfold sys_send_jobs_end in Hs. destruct (sy_sending s) as [[t q]|]; [|done].
    injection Hs as <-. destruct Hi. split; cbn; try done. by apply send_jobs_end_ok.
  - injection Hs as <-. by apply sys_answer_inv.
  - injection Hs as <-. destruct Hi as [[? ? ? ?] ? ? ? ? ? ?]. by split.
  - unfold sys_read in Hs. destruct (_ !! ch) as [c|] eqn:Hc; [|done]. cbn in Hs.
    destruct (recv c) as [[v c']|] eqn:Hv; [|done]. injection Hs as <-. apply recv_Some in Hv as [Hv _].
    destruct Hi as [Ha ? ? ? ? ? ?]. split; try done. apply agent_ok_heap; [|done].
    intros ch' c0 v0. rewrite lookup_insert_Some. pose proof (ao_heap _ _ Ha) as Hh.
    intros [[<- <-]|[_ ?]] Hin; [|by eapply Hh]. eapply Hh; [done|]. rewrite Hv. by right.
Qed.

Lemma sys_init_inv proxyID router kind : sys_inv (sys_init proxyID router kind).
Proof.
  split; cbn; try done. constructor.
Qed.

Lemma sys_run_inv proxyID router kind evs s :
  run sys_step evs (sys_init proxyID router kind) = Some s → sys_inv s.
Proof.
  apply (run_invariant sys_step sys_inv); [|apply sys_init_inv]. intros e s1 s2. apply sys_step_inv.
Qed.

(** ** Properties *)

(** The two tasks that send to the leader are the split ones with the send in
    between: nothing of what they do is left out by the machine. *)
Theorem tasks_split `{LeaderLink} req batch a :
  receive_request req a =
    match receive_begin req a with
    | (a, None) => Returns a
    | (a, Some q) =>
        e ← link_send (ag_leader a) (ar_ProxyRequest q); Returns (add_topic_end q e a)
    end ∧
  handleSendJobs batch a =
    r ← register_batch batch a;
    match r with
    | None => Returns a
    | Some (topic, a) => e ← link_send (ag_leader a) batch; Returns (send_jobs_end topic batch e a)
    end.
Proof.
  split.
  - unfold receive_request, receive_begin. destruct (pr_Type _); try done.
    unfold handleAddTopicRequest, send_to_leader, add_topic_end. cbn.
    destruct (link_send _ _) as [[err|]|p|]; done.
  - unfold handleSendJobs. destruct (register_batch batch a) as [[[t a']|]|p|]; try done. cbn.
    unfold send_to_leader, send_jobs_end. destruct (link_send _ _) as [[err|]|p|]; done.
Qed.

Lemma omap_NoDup_inj {A B} (f : A → option B) (l : list A) x y b :
  NoDup (omap f l) → x ∈ l → y ∈ l → f x = Some b → f y = Some b → x = y.
Proof.
  induction l as [|z l IH]; [by intros _ ?%elem_of_nil|]. cbn. intros Hnd Hx Hy Hfx Hfy.
  assert (∀ w, w ∈ l → f w = Some b → b ∈ omap f l) as Hin.
  { intros w Hw Hfw. apply list_elem_of_omap. eauto. }
  apply elem_of_cons in Hx, Hy. destruct (f z) as [b'|] eqn:Hz.
  - apply NoDup_cons in Hnd as [Hb Hnd]. destruct Hx as [->|Hx], Hy as [->|Hy]; simplify_eq; try done.
    + by destruct Hb; apply (Hin y).
    + by destruct Hb; apply (Hin x).
    + by apply IH.
  - destruct Hx as [->|Hx], Hy as [->|Hy]; simplify_eq; try done. by apply IH.
Qed.

(** The identifiers of the batches are distinct until the counter wraps. *)
Lemma numbered_inj ctr batches q q' :
  numbered ctr batches → Z.of_nat (length batches) < 2 ^ 32 →
  q ∈ batches → q' ∈ batches → pr_RequestID q = pr_RequestID q' → q = q'.
Proof.
  intros Hn Hlt Hq Hq' He. destruct (Hn Hlt) as [_ Hids].
  assert (NoDup (omap (Some ∘ pr_RequestID) batches)) as Hnd.
  { replace (omap (Some ∘ pr_RequestID) batches) with (pr_RequestID <$> batches);
      [by rewrite Hids; apply NoDup_seqZ|]. clear. induction batches; cbn; congruence. }
  eapply (omap_NoDup_inj _ _ q q' _ Hnd); [done..|]. cbn. by rewrite He.
Qed.

Lemma answer_success_iff R call :
  tp_Status (answer R call) = ToProxyRespStatusSuccess →
  tp_Status R = ToProxyRespStatusSuccess ∨
  ∀ f, f ∈ tp_Failures R → Fnv.sum64a (jf_JobID f) ∉ aw_JobHashes call.
Proof.
  unfold answer. intros Hs. destruct (decide _) as [?|_]; [by left|]. right.
  destruct (bool_decide _ && _) eqn:Hb; [done|]. cbn zeta in Hs.
  intros f Hf Hin. destruct (decide _) as [He|]; [|done].
  apply (elem_of_nil f). rewrite <- He. by apply list_elem_of_filter.
Qed.

(** C1: A producer is never told a success the cluster did not report for its own
    jobs. In every run of the machine in which fewer than 2^32 batches were
    drained, a success in the channel of an AddJobs request comes from an answer
    of the cluster to the one batch with the answer's identifier; that batch was
    handed to the leader, it holds all jobs of the request, and the answer says
    success or names none of them among its failures. *)
Theorem no_false_success proxyID router kind evs s r ch c v :
  run sys_step evs (sys_init proxyID router kind) = Some s →
  Z.of_nat (length (sy_drained s)) < 2 ^ 32 →
  r ∈ sy_submitted s → pr_Type (ar_ProxyRequest r) = ReqAddJobs → ar_RespCh r = Some ch →
  ag_respHeap (sy_agent s) !! ch = Some c → v ∈ ch_buf c →
  tp_Status v = ToProxyRespStatusSuccess →
  ∃ R batch, R ∈ sy_answers s ∧ batch ∈ sy_sent s ∧ pr_RequestID batch = tp_RequestID R ∧
    (∀ q, q ∈ sy_drained s → pr_RequestID q = tp_RequestID R → q = batch) ∧
    req_jobs r ⊆ batch_jobs batch ∧
    (tp_Status R = ToProxyRespStatusSuccess ∨
     ∀ f, f ∈ tp_Failures R → jf_JobID f ∉ req_ids r).
Proof.
  intros Hrun Hlt Hr Ht Hch Hc Hv Hs. pose proof (sys_run_inv _ _ _ _ _ Hrun) as Hi.
  destruct (ao_heap _ _ (si_agent _ Hi) _ _ _ Hc Hv) as (r' & Hr' & Hch' & He).
  pose proof (omap_NoDup_inj _ _ _ _ _ (si_channels _ Hi) Hr Hr' Hch Hch') as <-.
  destruct He as [[He _]|[[He _]|(R & HR & (q & Hq & Hqd & Hid) & Hcall & ->)]].
  { rewrite Hs in He. done. }
  { by rewrite Ht in He. }
  destruct Hcall as (r' & batch & Hr2 & Hw & Hb & Hbid & Hjobs).
  assert (r' = r) as ->.
  { assert (ar_RespCh r' = Some ch) by (rewrite <- Hch; by injection Hw).
    exact (omap_NoDup_inj _ _ _ _ _ (si_channels _ Hi) Hr2 Hr H Hch). }
  pose proof (λ q q', numbered_inj _ _ q q' (si_numbered _ Hi) Hlt) as Hinj.
  assert (q = batch) as <- by (apply Hinj; [done|done|congruence]).
  exists R, q. split_and!; [done..| |done|].
  - intros q' Hq' He. apply Hinj; [done|done|congruence].
  - destruct (answer_success_iff _ _ Hs) as [?|Hf]; [by left|right].
    intros f Hin Hj. apply (Hf f Hin). by apply list_elem_of_fmap_2.
Qed.

(** ** An answered submission *)

(** No request is under way at the tasks or at the topic's buffer, and no
    AddTopic request has the identifier of the next batch. *)
Record idle (topic : string) (b : JobBuffer) (s : system) : Prop := {
  il_receiving : sy_receiving s = None;
  il_sending : sy_sending s = None;
  il_producer : sy_producerCh s = make_chan 10240;
  il_sendJobs : sy_sendJobsCh s = make_chan sendJobs_cap;
  il_requestMap : ag_requestMap (sy_agent s) !! uint32 (sy_counter s + 1) = None;
  il_buffer : default (NewJobBuffer topic) (ag_topicJobBuffers (sy_agent s) !! topic) = b;
  il_pc : pc_of topic s = Selecting;
  il_inv : jb_inv b;
  il_store : ch_buf (jb_store b) = [];
  il_api : jb_apiInputCh b = make_chan input_cap;
  il_responses : jb_responseInputCh b = make_chan input_cap
}.

(** From the handler to sendToLeader, and back with an answer. *)
Definition to_the_leader (topic : string) (r : ApiRequestWithRespCh) : list sys_event :=
  [SysSubmit r; SysReceive; SysBuffer topic RunApi; SysBuffer topic RunTick; SysBuffer topic RunSend;
   SysSendJobs].
Definition answered_by (topic : string) (R : ToProducerResponse) : list sys_event :=
  [SysSendJobsEnd None; SysAnswer R; SysBuffer topic RunResponse].
Definition send_failed (topic : string) (err : send_error) : list sys_event :=
  [SysSendJobsEnd (Some err); SysBuffer topic RunResponse].

(** A request the whole path can carry. *)
Record sendable (topic : string) (r : ApiRequestWithRespCh) : Prop := {
  se_type : pr_Type (ar_ProxyRequest r) = ReqAddJobs;
  se_payload : ∃ p j rest, pr_AddJobs (ar_ProxyRequest r) = Some p ∧ aj_Topic p = topic ∧
    aj_Jobs p = Some j :: rest ∧ job_Topic j = topic;
  se_topic : topic ≠ ""%string;
  se_jobs : Forall is_Some (req_jobs r);
  se_fit : Z.of_nat (length (req_jobs r)) < 2 ^ 31
}.

(** The state once the batch is with sendToLeader. *)
Record at_leader (topic : string) (r : ApiRequestWithRespCh) (ch : chanid) (id : Z) (s : system)
    : Prop := {
  al_buffer : ∃ b, ag_topicJobBuffers (sy_agent s) !! topic = Some b ∧
    jb_responseInputCh b = make_chan input_cap ∧ jb_waitingMap b !! id = Some [waiting_of r];
  al_pc : pc_of topic s = Selecting;
  al_sending : ∃ batch, sy_sending s = Some (topic, batch) ∧ pr_RequestID batch = id;
  al_registered : ag_requestIdToTopic (sy_agent s) !! id = Some topic;
  al_requestMap : ag_requestMap (sy_agent s) !! id = None;
  al_heap : ag_respHeap (sy_agent s) !! ch = Some (make_chan 1)
}.

Lemma buffer_one topic r b :
  jb_inv b → ch_buf (jb_store b) = [] → sendable topic r →
  ∃ b', buffer r b = Returns b' ∧ jb_inv b' ∧ ch_buf (jb_store b') = [r] ∧
    jb_apiInputCh b' = jb_apiInputCh b ∧ jb_responseInputCh b' = jb_responseInputCh b ∧
    ∀ ctr, drain ctr b' = Returns (uint32 (ctr + 1), drained (uint32 (ctr + 1)) b',
      Some (batch_of (jb_topic b') (uint32 (ctr + 1)) [r])).
Proof.
  intros Hi He Hr. destruct (se_payload _ _ Hr) as (p & j & rest & Hp & _).
  destruct (buffer r b) as [b'| |] eqn:Hb.
  - exists b'. pose proof (buffer_inv _ _ _ Hi Hb) as Hi'.
    apply buffer_returns in Hb as (_ & _ & Hs & _ & _ & _ & _ & Ha & Hrs).
    assert (ch_buf (jb_store b') = [r]) as Hst by (rewrite Hs; cbn; by rewrite He).
    split_and!; try done. intros ctr. rewrite <- Hst. apply drain_full; [done| | |].
    + apply jobs_fit_nonneg; [done|]. unfold jobs_fit, stored_jobs. rewrite Hst. cbn.
      rewrite app_nil_r. apply se_fit with (1 := Hr).
    + rewrite Hst. apply Forall_singleton. split; [by rewrite Hp|by eapply se_jobs].
    + by rewrite Hst.
  - unfold buffer, chan_full, chan_len in Hb. destruct Hi as [Hcap _ _ _ _]. rewrite He, Hcap, Hp in Hb. discriminate Hb.
  - unfold buffer, chan_full, chan_len in Hb. destruct Hi as [Hcap _ _ _ _]. by rewrite He, Hcap, Hp in Hb.
Qed.

Lemma getOrCreate_eq topic b a :
  default (NewJobBuffer topic) (ag_topicJobBuffers a !! topic) = b →
  ∃ a', getOrCreateJobBuffer topic a = (b, a') ∧
    ∀ b', set_topicJobBuffers (<[topic := b']> (ag_topicJobBuffers a')) a'
      = set_topicJobBuffers (<[topic := b']> (ag_topicJobBuffers a)) a.
Proof.
  intros Hb. unfold getOrCreateJobBuffer. destruct (_ !! topic) as [b0|]; cbn in Hb; subst;
    eexists; (split; [done|]); [done|]. intros b'. cbn. by rewrite insert_insert_eq.
Qed.

Lemma add_jobs_accepted topic r b a :
  sendable topic r → default (NewJobBuffer topic) (ag_topicJobBuffers a !! topic) = b →
  jb_apiInputCh b = make_chan input_cap →
  receive_begin r a =
    (set_topicJobBuffers
      (<[topic := set_apiInputCh (Chan input_cap [r]) b]> (ag_topicJobBuffers a)) a, None).
Proof.
  intros Hr Hb Hapi. destruct (se_payload _ _ Hr) as (p & j & rest & Hp & Ht & _).
  destruct (getOrCreate_eq _ _ _ Hb) as (a' & Hg & Ha').
  unfold receive_begin. rewrite (se_type _ _ Hr). unfold handleAddJobsRequest.
  rewrite Hp, Ht, decide_False by apply (se_topic _ _ Hr). rewrite Hg, Hapi.
  change (try_send (make_chan input_cap) r) with (Chan input_cap [r], true). cbn iota. by rewrite Ha'.
Qed.

Lemma sys_buffer_step topic l j j' s :
  goroutine_event l = true → buffer_view topic s = Some j → jb_step l j = Some j' →
  crashed (js_pc j') = false →
  sys_step (SysBuffer topic l) s = Some (buffer_update topic j' s).
Proof. intros Hl Hj Hs Hc. cbn. unfold sys_buffer. rewrite Hl, Hj. cbn. rewrite Hs. cbn. by rewrite Hc. Qed.

Lemma view_update topic j s :
  buffer_view topic (buffer_update topic j s) =
    Some (mkJB (js_buf j) (js_pc j) (js_counter j) (js_sendJobsCh j) (js_heap j) true false).
Proof.
  unfold buffer_view, pc_of. cbn. by rewrite lookup_insert_eq; cbn; rewrite lookup_insert_eq.
Qed.

Lemma pc_of_update topic j s : pc_of topic (buffer_update topic j s) = js_pc j.
Proof. unfold pc_of. cbn. by rewrite lookup_insert_eq. Qed.

(** The goroutine takes the request, drains it and hands the batch over. *)
Lemma goroutine_sends topic r b s :
  sendable topic r → jb_inv b → ch_buf (jb_store b) = [] → jb_responseInputCh b = make_chan input_cap →
  ag_topicJobBuffers (sy_agent s) !! topic = Some (set_apiInputCh (Chan input_cap [r]) b) →
  pc_of topic s = Selecting → sy_sendJobsCh s = make_chan sendJobs_cap →
  let id := uint32 (sy_counter s + 1) in
  ∃ s' b' batch,
    run sys_step [SysBuffer topic RunApi; SysBuffer topic RunTick; SysBuffer topic RunSend] s = Some s' ∧
    ag_topicJobBuffers (sy_agent s') !! topic = Some b' ∧
    ag_requestMap (sy_agent s') = ag_requestMap (sy_agent s) ∧
    ag_respHeap (sy_agent s') = ag_respHeap (sy_agent s) ∧
    jb_responseInputCh b' = make_chan input_cap ∧ jb_waitingMap b' !! id = Some [waiting_of r] ∧
    pc_of topic s' = Selecting ∧ sy_sendJobsCh s' = Chan sendJobs_cap [batch] ∧
    pr_RequestID batch = id ∧ batch_jobs batch = req_jobs r ∧ is_Some (pr_AddJobs batch) ∧
    sy_sending s' = sy_sending s.
Proof.
  intros Hr Hi Hst Hrsp Hl Hpc Hsj id.
  destruct (buffer_one topic r (set_apiInputCh (make_chan input_cap) b)) as
    (b' & Hbuf & Hi' & Hst' & Hapi' & Hrsp' & Hdrain); [by eapply jb_inv_store; last done|done..|].
  set (batch := batch_of (jb_topic b') id [r]).
  set (h := ag_respHeap (sy_agent s)). set (c0 := make_chan sendJobs_cap : chan ProxyRequest).
  set (j1 := mkJB b' Selecting (sy_counter s) c0 h true false).
  set (j2 := mkJB (drained id b') (Sending batch) id c0 h false false).
  set (j3 := mkJB (drained id b') Selecting id (Chan sendJobs_cap [batch]) h true false).
  exists (buffer_update topic j3 (buffer_update topic j2 (buffer_update topic j1 s))), (drained id b'), batch.
  split_and!; try done.
  - rewrite run_cons, (sys_buffer_step _ _
      (mkJB (set_apiInputCh (Chan input_cap [r]) b) Selecting (sy_counter s) c0 h true false) j1); [|done| | |done].
    + cbn [mbind option_bind]. rewrite run_cons.
      rewrite (sys_buffer_step _ _ _ j2 _ (eq_refl : goroutine_event RunTick = true)
        (view_update topic j1 s)); [|by cbn; rewrite Hdrain|done].
      cbn [mbind option_bind]. rewrite run_cons.
      by rewrite (sys_buffer_step _ _ _ j3 _ (eq_refl : goroutine_event RunSend = true)
        (view_update topic j2 _)) by done.
    + unfold buffer_view. rewrite Hl. cbn. by rewrite Hpc, Hsj.
    + cbn. unfold run_buffer. cbn [js_buf set_buf].
      change (set_apiInputCh _ (set_apiInputCh _ b)) with (set_apiInputCh (make_chan input_cap) b).
      by rewrite Hbuf.
  - cbn. by rewrite lookup_insert_eq.
  - cbn. by rewrite Hrsp'.
  - cbn. by rewrite lookup_insert_eq, Hst'.
  - apply pc_of_update.
  - cbn. by rewrite app_nil_r.
Qed.

Lemma reaches_leader topic b s r ch :
  idle topic b s → sendable topic r → ar_RespCh r = Some ch →
  ch ∉ omap ar_RespCh (sy_submitted s) →
  ∃ s', run sys_step (to_the_leader topic r) s = Some s' ∧
    at_leader topic r ch (uint32 (sy_counter s + 1)) s'.
Proof.
  intros [Hrc Hsd Hp Hsj Hm Hb Hpc Hi Hst Hapi Hrsp] Hr Hch Hfresh.
  set (a := set_respHeap (<[ch := make_chan 1]> (ag_respHeap (sy_agent s))) (sy_agent s)).
  set (s1 := mkSystem a (sy_pc s) (sy_counter s) (sy_sendJobsCh s) (Chan 10240 [r]) None None
    (sy_submitted s ++ [r]) (sy_drained s) (sy_sent s) (sy_answers s)).
  set (a2 := set_topicJobBuffers
    (<[topic := set_apiInputCh (Chan input_cap [r]) b]> (ag_topicJobBuffers a)) a).
  set (s2 := mkSystem a2 (sy_pc s) (sy_counter s) (sy_sendJobsCh s) (make_chan 10240) None None
    (sy_submitted s ++ [r]) (sy_drained s) (sy_sent s) (sy_answers s)).
  assert (sys_step (SysSubmit r) s = Some s1) as H1.
  { cbn. unfold sys_submit. by rewrite Hch, decide_False, Hp, Hrc, Hsd by done. }
  assert (sys_step SysReceive s1 = Some s2) as H2.
  { cbn. unfold sys_receive. cbn. by rewrite (add_jobs_accepted topic r b a Hr Hb Hapi). }
  destruct (goroutine_sends topic r b s2) as
    (s3 & b' & batch & H3 & Hb3 & Hm3 & Hh3 & Hrsp3 & Hw3 & Hpc3 & Hsj3 & Hid & Hjobs & [q Hq] & Hsd3);
    [done..|by apply lookup_insert_eq|done|done|].
  destruct (se_payload _ _ Hr) as (p & j & rest & Hpay & _ & Hj & Hjt).
  assert (aj_Jobs q = Some j :: rest) as Hqj.
  { unfold batch_jobs in Hjobs. rewrite Hq in Hjobs. rewrite Hjobs. by erewrite req_jobs_some. }
  unfold to_the_leader. rewrite run_cons, H1. cbn [mbind option_bind].
  rewrite run_cons, H2. cbn [mbind option_bind].
  change [SysBuffer topic RunApi; SysBuffer topic RunTick; SysBuffer topic RunSend; SysSendJobs]
    with ([SysBuffer topic RunApi; SysBuffer topic RunTick; SysBuffer topic RunSend] ++ [SysSendJobs]).
  rewrite run_app, H3. cbn [mbind option_bind run sys_step]. unfold sys_send_jobs.
  rewrite Hsd3, Hsj3. cbn. unfold register_batch. rewrite Hq, Hqj, Hjt. eexists. split; [done|].
  split; cbn; try done.
  - eauto.
  - eauto.
  - change (sy_counter s2) with (sy_counter s) in Hid. rewrite <- Hid. apply lookup_insert_eq.
  - by rewrite Hm3.
  - rewrite Hh3. apply lookup_insert_eq.
Qed.

(** The answer is dispatched to the one producer that waits. *)
Lemma buffer_answers topic r ch R b s :
  ag_topicJobBuffers (sy_agent s) !! topic = Some b →
  jb_responseInputCh b = Chan input_cap [R] → jb_waitingMap b !! tp_RequestID R = Some [waiting_of r] →
  pc_of topic s = Selecting → ar_RespCh r = Some ch →
  ag_respHeap (sy_agent s) !! ch = Some (make_chan 1) →
  ∃ s', sys_step (SysBuffer topic RunResponse) s = Some s' ∧
    ag_respHeap (sy_agent s') !! ch = Some (Chan 1 [answer R (waiting_of r)]).
Proof.
  intros Hb Hrsp Hw Hpc Hch Hh. cbn. unfold sys_buffer, buffer_view. cbn [goroutine_event].
  rewrite Hb, Hpc. cbn. rewrite Hrsp. cbn. rewrite dispatchResponse_spec. cbn. rewrite Hw.
  eexists. split; [done|]. cbn [buffer_update set_respHeap sy_agent ag_respHeap js_heap].
  rewrite (deliver_all_eq R [waiting_of r] _ (waiting_of r) ch (make_chan 1)); [done| |by left|done..].
  cbn. rewrite Hch. apply NoDup_singleton.
Qed.

(** C2: A producer gets its answer. When the path is idle (nothing under way or
    stored, no AddTopic request pending under the next batch's identifier), a
    request it can carry (non-nil jobs, the first of them naming the topic), on a
    channel not used before, reaches the leader within the steps of
    [to_the_leader]. If the leader then answers under the batch's identifier,
    and no id the answer names as failed has the FNV hash of another id of the
    request (failures are attributed by hash), the producer's channel holds
    exactly what it is promised; if the send fails, it holds the error of the
    send. *)
Theorem submission_answered topic b s r ch :
  idle topic b s → sendable topic r → ar_RespCh r = Some ch →
  ch ∉ omap ar_RespCh (sy_submitted s) →
  (∀ R, tp_RequestID R = uint32 (sy_counter s + 1) → no_collision R r →
    ∃ s', run sys_step (to_the_leader topic r ++ answered_by topic R) s = Some s' ∧
      ag_respHeap (sy_agent s') !! ch = Some (Chan 1 [promised R r])) ∧
  (∀ err, ∃ s', run sys_step (to_the_leader topic r ++ send_failed topic err) s = Some s' ∧
      ag_respHeap (sy_agent s') !! ch =
        Some (Chan 1 [error_response (pr_RequestID (ar_ProxyRequest r)) (send_error_Error err)])).
Proof.
  intros Hi Hr Hch Hf. destruct (reaches_leader topic b s r ch Hi Hr Hch Hf) as (s1 & H1 & Hal).
  destruct Hal as [(b' & Hb & Hrsp & Hw) Hpc (batch & Hsd & Hid) Hreg Hm Hh].
  set (ended e := mkSystem (send_jobs_end topic batch e (sy_agent s1)) (sy_pc s1) (sy_counter s1)
    (sy_sendJobsCh s1) (sy_producerCh s1) (sy_receiving s1) None (sy_submitted s1) (sy_drained s1)
    (sy_sent s1) (sy_answers s1)).
  assert (∀ e, sys_step (SysSendJobsEnd e) s1 = Some (ended e)) as H2.
  { intros e. cbn. unfold sys_send_jobs_end. by rewrite Hsd. }
  split; [intros R HR Hnc|intros err]; rewrite run_app, H1; cbn [mbind option_bind].
  - destruct (buffer_answers topic r ch R (push_response R b') (sys_answer R (ended None)))
      as (s' & Hs' & Hv); [|by cbn; rewrite Hrsp|by rewrite HR|done|done| |].
    + cbn. unfold handleResponse. cbn. rewrite HR, Hm, Hreg, (to_buffer_Some _ _ b') by done.
      apply lookup_insert_eq.
    + cbn. unfold handleResponse. cbn. by rewrite HR, Hm, Hreg, (to_buffer_Some _ _ b').
    + exists s'. split; [|by rewrite Hv, answer_promised].
      unfold answered_by. rewrite run_cons, H2. cbn [mbind option_bind].
      rewrite run_cons. cbn [sys_step mbind option_bind]. rewrite run_cons.
      by change (sys_buffer topic RunResponse) with (sys_step (SysBuffer topic RunResponse)); rewrite Hs'.
  - set (R := error_response (pr_RequestID batch) (send_error_Error err)).
    assert (ag_topicJobBuffers (sy_agent (ended (Some err))) =
      <[topic := push_response R b']> (ag_topicJobBuffers (sy_agent s1)) ∧
      ag_respHeap (sy_agent (ended (Some err))) = ag_respHeap (sy_agent s1)) as [Hbs Hhs].
    { cbn. by rewrite (to_buffer_Some _ _ b'). }
    destruct (buffer_answers topic r ch R (push_response R b') (ended (Some err)))
      as (s' & Hs' & Hv); [|by cbn; rewrite Hrsp|by cbn; rewrite Hid|done|done| |].
    + rewrite Hbs. apply lookup_insert_eq.
    + by rewrite Hhs.
    + exists s'. split; [|by rewrite Hv].
      unfold send_failed. by rewrite run_cons, H2; cbn [mbind option_bind]; rewrite run_cons, Hs'.
Qed.

(** ** Concrete runs *)

Definition proxy_start : system := sys_init "proxy1" NewDefaultRouter DiscoveryKindStatic.

Lemma start_idle : idle "t" (NewJobBuffer "t") proxy_start.
Proof. split; try reflexivity. apply jb_inv_new. Qed.

Lemma ann_sendable : sendable "t" r_ann.
Proof.
  split; [reflexivity|..|discriminate| |vm_compute; reflexivity].
  - eexists _, _, _. split_and!; reflexivity.
  - repeat constructor; eauto.
Qed.

(** The leader adds Ann's jobs. *)
Definition ann_events : list sys_event :=
  to_the_leader "t" r_ann ++ answered_by "t" (success_response 1).

Theorem no_false_success_witness :
  match run sys_step ann_events proxy_start with
  | Some s => ∃ R batch, R ∈ sy_answers s ∧ batch ∈ sy_sent s ∧ req_jobs r_ann ⊆ batch_jobs batch
  | None => False
  end.
Proof.
  destruct (run sys_step ann_events proxy_start) as [s|] eqn:Hr; [|by vm_compute in Hr].
  assert (Some (length (sy_drained s), sy_submitted s, ag_respHeap (sy_agent s) !! 1%nat)
    = Some (1%nat, [r_ann], Some (Chan 1 [success_response 7]))) as Hs.
  { transitivity ((λ s, (length (sy_drained s), sy_submitted s, ag_respHeap (sy_agent s) !! 1%nat))
      <$> run sys_step ann_events proxy_start); [by rewrite Hr|]. vm_compute. reflexivity. }
  injection Hs as Hd Hsub Hh.
  destruct (no_false_success "proxy1" NewDefaultRouter DiscoveryKindStatic ann_events s r_ann 1%nat
    (Chan 1 [success_response 7]) (success_response 7) Hr) as (R & batch & HR & Hb & _ & _ & Hj & _).
  - rewrite Hd. vm_compute. reflexivity.
  - rewrite Hsub. left.
  - reflexivity.
  - reflexivity.
  - exact Hh.
  - left.
  - reflexivity.
  - exists R, batch. split_and!; assumption.
Defined.

Theorem submission_answered_witness :
  ∃ s', run sys_step (to_the_leader "t" r_ann ++ answered_by "t" duplicate_a2) proxy_start = Some s' ∧
    ag_respHeap (sy_agent s') !! 1%nat = Some (Chan 1
      [mkResponse 7 ToProxyRespStatusError "partial" [mkJobFailure "a2" FailDuplicate]]).
Proof.
  destruct (submission_answered "t" (NewJobBuffer "t") proxy_start r_ann 1%nat) as [H _].
  - exact start_idle.
  - exact ann_sendable.
  - reflexivity.
  - by intros ?%elem_of_nil.
  - destruct (H duplicate_a2) as (s' & Hs & Hv).
    + vm_compute. reflexivity.
    + intros f id ->%list_elem_of_singleton Hid He. cbn in Hid.
      apply elem_of_cons in Hid as [->|Hid]; [by vm_compute in He|].
      by apply list_elem_of_singleton in Hid as ->.
    + exists s'. split; [exact Hs|]. rewrite Hv. vm_compute. reflexivity.
Defined.
