(* ===== verification/Wire.v ===== *)
(** * What the proxy sends to the leader (api.go, tasks.go, job_buffer.go, quic.go)

    The API and the cluster agent as one machine: they share the channel of
    requests and the router. Four parts of it make the requests that go to the
    leader: the handlers and sessions of the API, the drain of the job buffers,
    the flush of the Done batch and the heartbeat. [sound] is the type of a
    request the cluster can make sense of; in no run is another one sent. *)

From S2P Require Import Prelude GoRuntime Messages Metrics Config Consumer Router JobBuffer.
From S2P Require Import Leadership Discovery Transport Agent Auth Api System.

Local Open Scope Z_scope.

(** ** The machine *)

(** [wr_flight] is the flush under way: its topic, the ids and the request. *)
Record wire_state := mkWire {
  wr_api : ProxyApi;
  wr_sys : system;
  wr_flight : option (string * list string * ProxyRequest)
}.

(** The events of the API that take a request from the channel, and those of the
    submission machine that put one there, are the shared channel's. *)
Inductive wire_event :=
  | WrApi (e : api_event)
  | WrSys (e : sys_event)
  | WrFlush (topic : string)
  | WrFlushEnd (e : option send_error)
  | WrHeartbeat (now : Z)
  | WrOutbound (now : Z) (senderID : string) (out : ToConsumerMessage).

(** The API with the channel and the router of the agent. *)
Definition api_view (w : wire_state) : ProxyApi :=
  let a := wr_api w in
  set_producerCh (sy_producerCh (wr_sys w))
    (set_ws (ag_router (sy_agent (wr_sys w))) (pa_consumers a) (pa_consumersByUUID a) (pa_heap a)
      (pa_wsConnections a) a).

(** What the API's step put in the channel is submitted. *)
Definition submit_new (before after : ProxyApi) (s : system) : option system :=
  match drop (chan_len (pa_producerCh before)) (ch_buf (pa_producerCh after)) with
  | [] => Some s
  | req :: _ => sys_submit req s
  end.

Definition set_sys (s : system) (w : wire_state) : wire_state := mkWire (wr_api w) s (wr_flight w).

Section Machine.
Context `{LeaderLink} (scan : string → option string) (marshal : ToConsumerDelivery → option bytes).

Definition wire_api (e : api_event) (w : wire_state) : option wire_state :=
  match e with
  | ApiDrain => None
  | _ =>
      after ← api_step scan marshal e (api_view w);
      let s := wr_sys w in
      s ← submit_new (api_view w) after (set_agent (set_router (pa_router after) (sy_agent s)) s);
      Some (mkWire after s (wr_flight w))
  end.

(** A task that ends the process ends the machine. *)
Definition on_agent (f : Agent → exec Agent) (w : wire_state) : option wire_state :=
  match f (sy_agent (wr_sys w)) with
  | Returns a => Some (set_sys (set_agent a (wr_sys w)) w)
  | _ => None
  end.

(** The flush task is one goroutine: a flush begins when none is under way. *)
Definition wire_flush (topic : string) (w : wire_state) : option wire_state :=
  match wr_flight w with
  | Some _ => None
  | None =>
      match flush_take topic (sy_agent (wr_sys w)) with
      | None => Some w
      | Some (req, ids, a) => Some (mkWire (wr_api w) (set_agent a (wr_sys w)) (Some (topic, ids, req)))
      end
  end.

Definition wire_flush_end (e : option send_error) (w : wire_state) : option wire_state :=
  '(topic, ids, req) ← wr_flight w;
  let a := log_send req e (sy_agent (wr_sys w)) in
  let a := match e with None => a | Some _ => flush_restore topic ids a end in
  Some (mkWire (wr_api w) (set_agent a (wr_sys w)) None).

Definition wire_step (e : wire_event) (w : wire_state) : option wire_state :=
  match e with
  | WrApi e => wire_api e w
  | WrSys (SysSubmit _) => None
  | WrSys e => s ← sys_step e (wr_sys w); Some (set_sys s w)
  | WrFlush topic => wire_flush topic w
  | WrFlushEnd e => wire_flush_end e w
  | WrHeartbeat now =>
      on_agent (λ a, heartbeat_tick now (pa_heap (wr_api w))
        (map_to_list (rt_topicConsumers (ag_router a))) a) w
  | WrOutbound now senderID out =>
      on_agent (λ a, fst <$> route_message now 0 0 0 senderID
        (mkToProxy ProxyMessageOutbound None (Some out) None) a) w
  end.

End Machine.

Definition wire_init (proxyID : string) (cfg : APIConfig) (auth : Authenticator)
    (kind : DiscoveryKind) : wire_state :=
  mkWire (NewProxyApi cfg auth NewDefaultRouter) (sys_init proxyID NewDefaultRouter kind) None.

(** ** Requests *)

(** What a request has to be backed by: the topics that may be added, the jobs
    that may be submitted for a topic, the ids that may be reported done for it,
    and the consumers that may speak. *)
Record evidence := mkEvidence {
  ev_topic : AddTopicPayload → Prop;
  ev_job : string → option Job → Prop;
  ev_done : string → string → Prop;
  ev_session : cref → Prop
}.

(** One payload, the one the type announces, with a topic and something to do
    for it, and backed; the identifier fits its field, and a report is the
    proxy's own. *)
Definition sound (proxyID : string) (E : evidence) (req : ProxyRequest) : Prop :=
  is_uint32 (pr_RequestID req) ∧
  match pr_Type req with
  | ReqHeartbeatReport =>
      ∃ p, req = heartbeat_request (pr_RequestID req) p ∧ hr_ProxyID p = proxyID
  | ReqAddTopic =>
      ∃ p, req = add_topic_request (pr_RequestID req) p ∧ at_Topic p ≠ ""%string ∧ ev_topic E p
  | ReqAddJobs =>
      ∃ p, req = add_jobs_request (pr_RequestID req) p ∧ aj_Topic p ≠ ""%string ∧ aj_Jobs p ≠ [] ∧
        Forall (ev_job E (aj_Topic p)) (aj_Jobs p)
  | ReqDone =>
      ∃ p, req = done_request (pr_RequestID req) p ∧ dn_Topic p ≠ ""%string ∧ dn_JobIDs p ≠ [] ∧
        ""%string ∉ dn_JobIDs p ∧ Forall (ev_done E (dn_Topic p)) (dn_JobIDs p)
  end.

(** Whether the file of tokens gives the token of a request a role. *)
Definition may (scan : string → option string) (auth : Authenticator) (r : http_auth) (role : string)
    : Prop := ValidateRole (extractToken scan r) role auth = true.

Section Sound.
Context (scan : string → option string) (marshal : ToConsumerDelivery → option bytes).
Context (me : string) (auth : Authenticator) (E : evidence).

(** What an event of an authorised client allows. *)
Definition event_backed (e : api_event) : Prop :=
  match e with
  | ApiConnect r _ _ _ p => may scan auth r RoleConsumer → ev_session E p
  | ApiMessage p msg =>
      ev_session E p → ws_Action msg = "ack"%string → ev_done E (ws_Topic msg) (ws_JobID msg)
  | ApiJobs r req => may scan auth r RoleProducer → Forall (ev_job E (aj_Topic req)) (aj_Jobs req)
  | ApiTopic r req => may scan auth r RoleAdmin → ev_topic E req
  | ApiDisconnect _ | ApiDrain => True
  end.

Definition sound_in (r : ApiRequestWithRespCh) : Prop := sound me E (ar_ProxyRequest r).

(** A sound request with jobs for a topic. *)
Definition wanted (t : string) (r : ApiRequestWithRespCh) : Prop :=
  sound_in r ∧ ∃ p, pr_AddJobs (ar_ProxyRequest r) = Some p ∧ aj_Topic p = t.

Definition ids_ok (t : string) (ids : list string) : Prop :=
  t ≠ ""%string ∧ ""%string ∉ ids ∧ Forall (ev_done E t) ids.

Record topic_buffer (t : string) (b : JobBuffer) : Prop := {
  tb_topic : jb_topic b = t;
  tb_nonempty : t ≠ ""%string;
  tb_api : Forall (wanted t) (ch_buf (jb_apiInputCh b));
  tb_store : Forall (wanted t) (ch_buf (jb_store b))
}.

Definition topic_pc (t : string) (pc : jb_pc) : Prop :=
  match pc with StoreBlocked r => wanted t r | _ => True end.

(** The agent has only made and taken sound requests. *)
Record agent_sound (a : Agent) : Prop := {
  as_id : ag_proxyID a = me;
  as_log : Forall (sound me E ∘ fst) (ag_log a);
  as_done : ∀ t ids, ag_doneCmdBatchBuffer a !! t = Some ids → ids_ok t ids;
  as_topics : ∀ t b, ag_topicJobBuffers a !! t = Some b → topic_buffer t b
}.

Record sys_sound (s : system) : Prop := {
  ss_inv : sys_inv s;
  ss_agent : agent_sound (sy_agent s);
  ss_pcs : ∀ t pc, sy_pc s !! t = Some pc → topic_pc t pc;
  ss_submitted : Forall sound_in (sy_submitted s);
  ss_drained : Forall (sound me E) (sy_drained s);
  ss_sending : ∀ t q, sy_sending s = Some (t, q) → sound me E q
}.

(** The consumers registered are those whose connection was allowed. *)
Record api_sound (a : ProxyApi) : Prop := {
  ai_auth : pa_auth a = auth;
  ai_sessions : ∀ id p, pa_consumers a !! id = Some p → ev_session E p
}.

Record wire_sound (w : wire_state) : Prop := {
  ws_api : api_sound (wr_api w);
  ws_sys : sys_sound (wr_sys w);
  ws_flight : ∀ t ids q, wr_flight w = Some (t, ids, q) → sound me E q ∧ ids_ok t ids
}.

(** ** Lemmas: the API *)

Lemma sound_add_topic id p :
  is_uint32 id → at_Topic p ≠ ""%string → ev_topic E p → sound me E (add_topic_request id p).
Proof. intros ? ? ?. split; [done|]. cbn. eauto. Qed.

Lemma sound_add_jobs id p :
  is_uint32 id → aj_Topic p ≠ ""%string → aj_Jobs p ≠ [] → Forall (ev_job E (aj_Topic p)) (aj_Jobs p) →
  sound me E (add_jobs_request id p).
Proof. intros ? ? ? ?. split; [done|]. cbn. eauto. Qed.

Lemma sound_done id t ids :
  is_uint32 id → ids ≠ [] → ids_ok t ids → sound me E (done_request id (mkDone t ids)).
Proof. intros ? ? (? & ? & ?). split; [done|]. cbn. eauto 10. Qed.

Lemma sound_report id now caps :
  is_uint32 id → sound me E (heartbeat_request id (mkHeartbeatReport me now caps)).
Proof. intros ?. split; [done|]. cbn. eauto. Qed.

(** What a step of the API does to the state of the others: it queues sound
    requests; and the consumers it registers are allowed. *)
Definition api_effect (a a' : ProxyApi) : Prop :=
  api_sound a' ∧
  ∃ new, ch_buf (pa_producerCh a') = ch_buf (pa_producerCh a) ++ new ∧ Forall sound_in new.

Lemma api_effect_none a a' :
  pa_auth a' = pa_auth a → pa_consumers a' ⊆ pa_consumers a → pa_producerCh a' = pa_producerCh a →
  api_sound a → api_effect a a'.
Proof.
  intros H1 H2 H3 [? Hc]. split; [split; [congruence|]|exists []; by rewrite H3, app_nil_r].
  intros id p Hp. apply (Hc id). by eapply lookup_weaken.
Qed.

Lemma api_effect_push req a a' :
  pa_auth a' = pa_auth a → pa_consumers a' ⊆ pa_consumers a →
  pa_producerCh a' = chan_push (pa_producerCh a) req → sound_in req → api_sound a → api_effect a a'.
Proof.
  intros H1 H2 H3 Hr [? Hc]. split; [split; [congruence|]|exists [req]; by rewrite H3, Forall_singleton].
  intros id p Hp. apply (Hc id). by eapply lookup_weaken.
Qed.

Lemma hand_over_sound mk a a' o :
  (∀ id, is_uint32 id → sound me E (mk id)) → api_sound a → hand_over mk a = (o, a') → api_effect a a'.
Proof.
  intros Hmk Ha. unfold hand_over, take_respCh, take_id. cbn [pa_producerCh].
  destruct (chan_full (pa_producerCh a)); intros [= _ <-]; [by apply api_effect_none|].
  eapply api_effect_push; [done..| |done]. apply Hmk, uint32_range.
Qed.

Lemma AddTopic_sound r req a o a' :
  event_backed (ApiTopic r req) → api_sound a →
  AddTopicHandler_begin scan r (Ok req) a = Returns (o, a') → api_effect a a'.
Proof.
  intros He Ha. unfold AddTopicHandler_begin. rewrite (ai_auth _ Ha).
  destruct (ValidateRole _ _ _) eqn:Hv; cbn [negb]; [|intros [= _ <-]; by apply api_effect_none].
  destruct (decide _) as [?|Ht]; [done|]. intros [= Hh]. eapply hand_over_sound; [|done|exact Hh].
  intros id ?. by apply sound_add_topic; [..|apply He].
Qed.

Lemma AddJob_sound r req a o a' :
  event_backed (ApiJobs r req) → api_sound a →
  AddJobHandler_begin scan r (Ok req) a = Returns (o, a') → api_effect a a'.
Proof.
  intros He Ha. unfold AddJobHandler_begin. rewrite (ai_auth _ Ha).
  destruct (ValidateRole _ _ _) eqn:Hv; cbn [negb]; [|intros [= _ <-]; by apply api_effect_none].
  destruct (decide _) as [?|Ht]; [done|]. intros [= Hh]. eapply hand_over_sound; [|done|exact Hh].
  intros id ?. apply sound_add_jobs; [done|tauto| |by apply He].
  intros Hj. apply Ht. right. by rewrite Hj.
Qed.

Lemma connect_sound r init now id p a o a' :
  event_backed (ApiConnect r init now id p) → api_sound a →
  ws_connect scan marshal r None (Ok init) now id p a = Returns (o, a') → api_effect a a'.
Proof.
  intros He Ha Hc. pose proof (ValidateRole_authorised scan r RoleConsumer a) as Hv.
  rewrite (ai_auth _ Ha) in Hv.
  apply ws_connect_cases in Hc as [[-> _]|(msg & c & _ & _ & Hr & _ & _ & _ & _ & _ & _ & _ & _ & _ & ->)];
    [by apply api_effect_none|].
  destruct Ha as [Hau Hs]. split; [split; [done|]|exists []; by rewrite app_nil_r].
  cbn. intros id' p' [[_ <-]|[_ Hp]]%lookup_insert_Some; [by apply He, Hv|by eapply Hs].
Qed.

Lemma ws_message_sound p msg a :
  event_backed (ApiMessage p msg) → session_open p a = true → api_sound a →
  api_effect a (ws_message p msg a).
Proof.
  intros He Ho Ha. assert (ev_session E p) as Hp.
  { unfold session_open in Ho. destruct (pa_heap a !! p) as [c|]; [|done].
    apply bool_decide_eq_true in Ho. by eapply ai_sessions. }
  unfold ws_message. destruct (decide _) as [Hack|]; [|by apply api_effect_none].
  destruct (decide _) as [[Ht Hj]|]; [|by apply api_effect_none].
  unfold take_id. cbn [pa_producerCh set_heap set_ws].
  destruct (chan_full _); [by apply api_effect_none|]. eapply api_effect_push; [done..| |done].
  apply sound_done; [apply uint32_range|done|]. split_and!; [done|by intros ?%list_elem_of_singleton|].
  apply Forall_singleton. by apply He.
Qed.

Lemma api_step_sound e a a' :
  event_backed e → e ≠ ApiDrain → api_sound a → api_step scan marshal e a = Some a' → api_effect a a'.
Proof.
  intros Hb He Ha. destruct e; cbn [api_step]; [| | | | |done].
  - destruct (pa_consumers a !! id), (pa_heap a !! p); try done.
    destruct (ws_connect _ _ _ _ _ _ _ _ _) as [[o ?]| |] eqn:Hc; [|done..]. intros [= <-].
    by eapply connect_sound.
  - destruct (session_open p a) eqn:Ho; [|done]. intros [= <-]. by apply ws_message_sound.
  - destruct (session_open p a); [|done]. intros [= <-].
    unfold ws_disconnect. destruct (pa_heap a !! p); [|by apply api_effect_none].
    apply api_effect_none; [done| |done..]. apply delete_subseteq.
  - destruct (AddJobHandler_begin _ _ _ _) as [[o ?]| |] eqn:Hc; [|done..]. intros [= <-].
    by eapply AddJob_sound.
  - destruct (AddTopicHandler_begin _ _ _ _) as [[o ?]| |] eqn:Hc; [|done..]. intros [= <-].
    by eapply AddTopic_sound.
Qed.

(** ** Lemmas: the agent *)

(** Nothing of an agent but these four fields matters. *)
Lemma agent_sound_ext a a' :
  ag_proxyID a' = ag_proxyID a → ag_log a' = ag_log a →
  ag_doneCmdBatchBuffer a' = ag_doneCmdBatchBuffer a →
  ag_topicJobBuffers a' = ag_topicJobBuffers a → agent_sound a → agent_sound a'.
Proof. intros H1 H2 H3 H4 [? ? ? ?]. by split; rewrite ?H1, ?H2, ?H3, ?H4. Qed.

Lemma agent_sound_log req e a : sound me E req → agent_sound a → agent_sound (log_send req e a).
Proof. intros ? [? ? ? ?]. split; [done| |done..]. cbn. apply Forall_app. by rewrite Forall_singleton. Qed.

Lemma agent_sound_done t ids a :
  ids_ok t ids → agent_sound a →
  agent_sound (set_done (<[t := ids]> (ag_doneCmdBatchBuffer a)) a).
Proof.
  intros ? [? ? ? ?]. split; [done..| |done]. cbn. intros t' ids'. rewrite lookup_insert_Some.
  intros [[<- <-]|[_ ?]]; eauto.
Qed.

Lemma agent_sound_buffer t b a :
  topic_buffer t b → agent_sound a →
  agent_sound (set_topicJobBuffers (<[t := b]> (ag_topicJobBuffers a)) a).
Proof.
  intros ? [? ? ? ?]. split; [done..|]. cbn. intros t' b'. rewrite lookup_insert_Some.
  intros [[<- <-]|[_ ?]]; eauto.
Qed.

Lemma agent_sound_to_buffer t R a : agent_sound a → agent_sound (to_buffer t R a).
Proof.
  intros Ha. unfold to_buffer. destruct (_ !! t) as [b|] eqn:Hb; [|done].
  apply agent_sound_buffer; [|done]. by destruct (as_topics _ Ha _ _ Hb).
Qed.

Lemma ids_ok_app t ids ids' : ids_ok t ids → ids_ok t ids' → ids_ok t (ids ++ ids').
Proof. intros (? & ? & ?) (_ & ? & ?). split_and!; [done|set_solver|by apply Forall_app]. Qed.

Lemma ids_ok_nil t : t ≠ ""%string → ids_ok t [].
Proof. intros ?. split_and!; [done|by intros ?%elem_of_nil|constructor]. Qed.

Lemma agent_sound_buffered t a : t ≠ ""%string → agent_sound a → ids_ok t (buffered t a).
Proof.
  intros Ht Ha. unfold buffered. destruct (_ !! t) as [ids|] eqn:Hi; cbn; [|by apply ids_ok_nil].
  by eapply as_done.
Qed.

Lemma topic_buffer_new t : t ≠ ""%string → topic_buffer t (NewJobBuffer t).
Proof. intros ?. by split. Qed.

Lemma try_send_all {A} (P : A → Prop) c v : Forall P (ch_buf c) → P v → Forall P (ch_buf (try_send c v).1).
Proof.
  intros ? ?. unfold try_send. case_match; [done|]. cbn. apply Forall_app. by rewrite Forall_singleton.
Qed.

Lemma add_jobs_sound r a : sound_in r → agent_sound a → agent_sound (handleAddJobsRequest r a).
Proof.
  intros Hr Ha. unfold handleAddJobsRequest. destruct (pr_AddJobs _) as [p|] eqn:Hp; [|done].
  destruct (decide _) as [|Ht]; [done|]. destruct (getOrCreateJobBuffer _ a) as [b a'] eqn:Hg.
  assert (topic_buffer (aj_Topic p) b ∧ agent_sound a') as [[Htp Hne Hapi Hst] Ha'].
  { unfold getOrCreateJobBuffer in Hg. destruct (_ !! aj_Topic p) as [b'|] eqn:Hl;
      injection Hg as <- <-; [by split; [eapply as_topics|]|].
    split; [|apply agent_sound_buffer; [|done]]; by apply topic_buffer_new. }
  assert (wanted (aj_Topic p) r) as Hw by (split; eauto).
  pose proof (try_send_all _ (jb_apiInputCh b) r Hapi Hw) as Hs.
  destruct (try_send _ r) as [c []]; [by apply agent_sound_buffer|]. by eapply agent_sound_ext; last done.
Qed.

Lemma done_request_sound r a :
  sound_in r → pr_Type (ar_ProxyRequest r) = ReqDone → agent_sound a → agent_sound (handleDoneRequest r a).
Proof.
  intros [_ Hr] Ht Ha. rewrite Ht in Hr. destruct Hr as (p & He & Htp & _ & Hids).
  unfold handleDoneRequest. rewrite He. cbn. apply agent_sound_done; [|done].
  apply ids_ok_app; [by apply agent_sound_buffered|by destruct Hids].
Qed.

Lemma receive_begin_sound r a a' q :
  sound_in r → agent_sound a → receive_begin r a = (a', q) → agent_sound a'.
Proof.
  intros Hr Ha. unfold receive_begin. destruct (pr_Type _) eqn:Ht; intros [= <- _]; [done|..].
  - by eapply agent_sound_ext; last done.
  - by apply add_jobs_sound.
  - by apply done_request_sound.
Qed.

Lemma add_topic_end_sound r e a : sound_in r → agent_sound a → agent_sound (add_topic_end r e a).
Proof.
  intros Hr Ha. pose proof (agent_sound_log (ar_ProxyRequest r) e a Hr Ha).
  unfold add_topic_end. destruct e; [|done]. by eapply agent_sound_ext; last done.
Qed.

Lemma send_jobs_end_sound t q e a : sound me E q → agent_sound a → agent_sound (send_jobs_end t q e a).
Proof.
  intros Hq Ha. pose proof (agent_sound_log q e a Hq Ha). unfold send_jobs_end. destruct e; [|done].
  apply agent_sound_to_buffer. by eapply agent_sound_ext; last done.
Qed.

Lemma register_batch_sound q a t a' :
  register_batch q a = Returns (Some (t, a')) → agent_sound a → agent_sound a'.
Proof.
  intros Hr Ha. unfold register_batch in Hr. repeat (case_match; try done).
  injection Hr as _ <-. by eapply agent_sound_ext; last done.
Qed.

Lemma handleResponse_sound R a : agent_sound a → agent_sound (handleResponse R a).
Proof.
  intros Ha. unfold handleResponse. case_match; [by eapply agent_sound_ext; last done|].
  case_match; [|done]. eapply agent_sound_ext; [..|by apply agent_sound_to_buffer]; done.
Qed.

Lemma flush_take_sound t a req ids a' :
  flush_take t a = Some (req, ids, a') → agent_sound a →
  (sound me E req ∧ ids_ok t ids) ∧ agent_sound a'.
Proof.
  unfold flush_take. destruct (_ !! t) as [[|i rest]|] eqn:Ht; [done| |done].
  cbn. intros [= <- <- <-] Ha. pose proof (as_done _ Ha _ _ Ht) as Hids. split.
  - split; [|done]. by apply sound_done; [apply uint32_range|..].
  - apply (agent_sound_done t [] (nextRequestID a).2); [apply ids_ok_nil, Hids|].
    by eapply agent_sound_ext; last done.
Qed.

Lemma flush_restore_sound t ids a : ids_ok t ids → agent_sound a → agent_sound (flush_restore t ids a).
Proof.
  intros Hi Ha. unfold flush_restore. case_match; [|done]. apply agent_sound_done; [|done].
  apply ids_ok_app; [apply agent_sound_buffered; [apply Hi|done]|done].
Qed.

(** ** Lemmas: the submission machine *)

(** A batch is drained from sound requests for its topic. *)
Lemma wanted_jobs t r : wanted t r → req_jobs r ≠ [] ∧ Forall (ev_job E t) (req_jobs r).
Proof.
  intros ([_ Hr] & p & Hp & <-). unfold req_jobs. rewrite Hp.
  destruct (pr_Type _); destruct Hr as (p' & He & Hr); rewrite He in Hp; try done.
  injection Hp as <-. tauto.
Qed.

Lemma batch_sound t b id :
  topic_buffer t b → ch_buf (jb_store b) ≠ [] → is_uint32 id →
  sound me E (batch_of (jb_topic b) id (ch_buf (jb_store b))).
Proof.
  intros [-> Ht _ Hs] Hne Hid. apply sound_add_jobs; [done..| |]; cbn.
  - destruct Hs as [|r rest Hr _]; [done|]. cbn. apply wanted_jobs in Hr as [Hr _].
    by destruct (req_jobs r).
  - apply Forall_concat, Forall_fmap. eapply Forall_impl; [exact Hs|]. apply wanted_jobs.
Qed.

Lemma topic_buffer_api t c b :
  Forall (wanted t) (ch_buf c) → topic_buffer t b → topic_buffer t (set_apiInputCh c b).
Proof. intros ? [? ? ? ?]. by split. Qed.

Lemma topic_buffer_responses t c b : topic_buffer t b → topic_buffer t (set_responseInputCh c b).
Proof. intros [? ? ? ?]. by split. Qed.

Lemma topic_buffer_dispatch t R b h : topic_buffer t b → topic_buffer t (dispatchResponse R b h).1.
Proof. intros [? ? ? ?]. unfold dispatchResponse. repeat case_match; by split. Qed.

Lemma topic_buffer_drained t id b : topic_buffer t b → topic_buffer t (drained id b).
Proof. intros [? ? ? ?]. split; [done..|constructor]. Qed.

Lemma run_buffer_topic t r j :
  topic_buffer t (js_buf j) → wanted t r →
  topic_buffer t (js_buf (run_buffer r j)) ∧ topic_pc t (js_pc (run_buffer r j)).
Proof.
  intros Ht Hr. unfold run_buffer. destruct (buffer r _) as [b| |] eqn:Hb; [|done..]. split; [|done].
  apply buffer_returns in Hb as (_ & _ & Hs & _ & _ & Htp & _ & Ha & _). destruct Ht as [H1 H2 H3 H4].
  split; cbn; [congruence|done|by rewrite Ha|]. rewrite Hs. apply Forall_app. by rewrite Forall_singleton.
Qed.

(** A step of a buffer's goroutine. *)
Lemma jb_step_sound t l j j' :
  goroutine_event l = true → jb_inv (js_buf j) → topic_buffer t (js_buf j) → topic_pc t (js_pc j) →
  jb_step l j = Some j' →
  (topic_buffer t (js_buf j') ∧ topic_pc t (js_pc j')) ∧
  Forall (sound me E) (newly_drained (js_pc j) (js_pc j')).
Proof.
  intros Hl Hi Hb Hp Hst. destruct l; try done; cbn [jb_step] in Hst;
    destruct (js_pc j) as [|r|batch| |] eqn:Hpc; try done.
  - destruct (recv _) as [[r c]|] eqn:Hr; [|done]. injection Hst as <-. apply recv_Some in Hr as [Hr _].
    pose proof (tb_api _ _ Hb) as Ha. rewrite Hr in Ha. apply Forall_cons in Ha as [Hw Hc].
    split; [by apply run_buffer_topic; [apply topic_buffer_api|]|].
    unfold run_buffer. by destruct (buffer _ _).
  - destruct (recv _) as [[R c]|]; [|done]. cbn in Hst.
    pose proof (topic_buffer_dispatch t R _ (js_heap j) (topic_buffer_responses t c _ Hb)) as Hd.
    destruct (dispatchResponse _ _ _). by injection Hst as <-.
  - destruct (js_tick j); [|done].
    destruct (drain_cases (js_counter j) (js_buf j) Hi) as [[_ Hd]|[(_ & Hne & Hd)|[p Hd]]];
      rewrite Hd in Hst; injection Hst as <-; [done| |done].
    split; [split; [by apply topic_buffer_drained|done]|]. cbn.
    apply Forall_singleton. eapply batch_sound; [done..|]. apply uint32_range.
  - destruct (chan_full _); [done|]. injection Hst as <-. split; [by apply run_buffer_topic|].
    unfold run_buffer. by destruct (buffer _ _).
  - destruct (chan_full _); [done|]. by injection Hst as <-.
Qed.

Lemma sys_init_sound router kind : sys_sound (sys_init me router kind).
Proof. split; [apply sys_init_inv|by split|done|by constructor|by constructor|done]. Qed.

Lemma submitted_sound s r : sys_sound s → r ∈ sy_submitted s → sound_in r.
Proof. intros Hs. revert r. apply Forall_forall. apply Hs. Qed.

Lemma sys_buffer_sound t l s s' : sys_sound s → sys_buffer t l s = Some s' → sys_sound s'.
Proof.
  intros Hs Hb. pose proof (sys_buffer_inv _ _ _ _ (ss_inv _ Hs) Hb) as Hi'.
  unfold sys_buffer in Hb. destruct (goroutine_event l) eqn:Hl; [|done].
  destruct (buffer_view t s) as [j|] eqn:Hj; [|done]. cbn in Hb.
  destruct (jb_step l j) as [j'|] eqn:Hst; [|done]. cbn in Hb.
  destruct (crashed _); [done|]. injection Hb as <-.
  pose proof (vo_buf _ _ (buffer_view_ok _ _ _ (ss_inv _ Hs) Hj)) as Hok.
  assert (js_pc j = pc_of t s ∧ topic_buffer t (js_buf j) ∧ topic_pc t (js_pc j)) as (Hpc & Ht & Hp).
  { unfold buffer_view in Hj. destruct (_ !! t) as [b|] eqn:Hb; [|done]. injection Hj as <-.
    split_and!; [done|by eapply as_topics; [apply Hs|]|]. cbn. unfold pc_of.
    destruct (sy_pc s !! t) eqn:Hp; cbn; [by eapply ss_pcs|done]. }
  destruct (jb_step_sound t l j j' Hl (bo_inv _ _ Hok) Ht Hp Hst) as [[Ht' Hp'] Hnew].
  destruct Hs as [_ Ha Hpcs Hsub Hd Hsd]. split; [done| | |done| |done].
  - eapply agent_sound_ext; [..|apply (agent_sound_buffer t (js_buf j')); [done|exact Ha]]; done.
  - cbn. intros t' pc. rewrite lookup_insert_Some. intros [[<- <-]|[_ ?]]; eauto.
  - cbn. apply Forall_app. by rewrite <- Hpc.
Qed.

Lemma sys_submit_sound r s s' : sound_in r → sys_sound s → sys_submit r s = Some s' → sys_sound s'.
Proof.
  intros Hr Hs Hst. pose proof (sys_submit_inv _ _ _ (ss_inv _ Hs) Hst) as Hi'.
  destruct Hs as [_ Ha Hpcs Hsub Hd Hsd]. assert (Forall sound_in (sy_submitted s ++ [r])).
  { apply Forall_app. by rewrite Forall_singleton. }
  unfold sys_submit in Hst. destruct (ar_RespCh r); [destruct (decide _); [done|]|];
    (destruct (chan_full _); [done|]); injection Hst as <-; (split; [done| |done..]); [|done].
  by eapply agent_sound_ext; last done.
Qed.

Lemma sys_send_jobs_sound s s' : sys_sound s → sys_send_jobs s = Some s' → sys_sound s'.
Proof.
  intros Hs Hst. pose proof (sys_send_jobs_inv _ _ (ss_inv _ Hs) Hst) as Hi'.
  destruct Hs as [Hi Ha Hpcs Hsub Hd Hsd]. unfold sys_send_jobs in Hst.
  destruct (sy_sending s); [done|]. destruct (recv _) as [[q c]|] eqn:Hc; [|done]. cbn in Hst.
  apply recv_Some in Hc as [Hc _].
  destruct (register_batch q _) as [[[t a]|]|p|] eqn:Hb; [| |done..]; injection Hst as <-;
    (split; [done| |done..|]); cbn; try done.
  - by eapply register_batch_sound.
  - intros t' q' [= <- <-]. eapply Forall_forall; [exact Hd|]. apply (si_sendJobs _ Hi). rewrite Hc. by left.
Qed.

Lemma sys_step_sound e s s' :
  match e with SysSubmit r => sound_in r | _ => True end →
  sys_sound s → sys_step e s = Some s' → sys_sound s'.
Proof.
  intros He Hs Hst. pose proof (sys_step_inv _ _ _ (ss_inv _ Hs) Hst) as Hi'.
  destruct e as [r| |e|t l| |e|R|l|ch]; cbn [sys_step] in Hst.
  - by eapply sys_submit_sound.
  - unfold sys_receive in Hst. destruct (sy_receiving s); [done|].
    destruct (recv _) as [[r c]|] eqn:Hc; [|done]. cbn in Hst. apply recv_Some in Hc as [Hc _].
    assert (sound_in r) as Hr.
    { apply (submitted_sound s); [done|]. apply (si_producer _ (ss_inv _ Hs)). rewrite Hc. by left. }
    destruct (receive_begin r (sy_agent s)) as [a q] eqn:Hb. injection Hst as <-.
    destruct Hs as [_ Ha ? ? ? ?]. split; [done| |done..]. by eapply receive_begin_sound.
  - unfold sys_receive_end in Hst. destruct (sy_receiving s) as [r|] eqn:Hr; [|done]. injection Hst as <-.
    assert (sound_in r) by (apply (submitted_sound s), (si_receiving _ (ss_inv _ Hs)); done).
    destruct Hs as [_ Ha ? ? ? ?]. split; [done| |done..]. by apply add_topic_end_sound.
  - by eapply sys_buffer_sound.
  - by eapply sys_send_jobs_sound.
  - unfold sys_send_jobs_end in Hst. destruct (sy_sending s) as [[t q]|] eqn:Hq; [|done].
    injection Hst as <-. destruct Hs as [_ Ha ? ? ? Hsd]. split; [done| |done..].
    by apply send_jobs_end_sound; [eapply Hsd|].
  - injection Hst as <-. destruct Hs as [_ Ha ? ? ? ?]. split; [done| |done..].
    by apply handleResponse_sound.
  - injection Hst as <-. destruct Hs as [_ Ha ? ? ? ?]. split; [done| |done..].
    by eapply agent_sound_ext; last done.
  - unfold sys_read in Hst. destruct (_ !! ch) as [c|]; [|done]. cbn in Hst.
    destruct (recv c) as [[v c']|]; [|done]. injection Hst as <-. destruct Hs as [_ Ha ? ? ? ?].
    split; [done| |done..]. by eapply agent_sound_ext; last done.
Qed.

(** ** Lemmas: the whole machine *)

(** The tables of the submission machine are left alone. *)
Record same_tables (a a' : Agent) : Prop := {
  st_buffers : ag_topicJobBuffers a' = ag_topicJobBuffers a;
  st_requestMap : ag_requestMap a' = ag_requestMap a;
  st_requestIdToTopic : ag_requestIdToTopic a' = ag_requestIdToTopic a;
  st_respHeap : ag_respHeap a' = ag_respHeap a
}.

Lemma sys_sound_agent a s :
  same_tables (sy_agent s) a → agent_sound a → sys_sound s → sys_sound (set_agent a s).
Proof.
  intros [H1 H2 H3 H4] Ha [[Hok ? ? ? ? ? ?] _ ? ? ? ?]. split; [|done..]. split; try done.
  destruct Hok. by split; cbn; rewrite ?H1, ?H2, ?H3, ?H4.
Qed.

Lemma submit_new_sound before after s s' :
  api_effect before after → sys_sound s → submit_new before after s = Some s' → sys_sound s'.
Proof.
  intros (_ & new & Hb & Hnew) Hs. unfold submit_new, chan_len. rewrite Hb, drop_app_length.
  destruct new as [|r new]; [by intros [= <-]|]. apply Forall_cons in Hnew as [Hr _].
  by apply sys_submit_sound.
Qed.

Lemma flush_take_tables t a req ids a' : flush_take t a = Some (req, ids, a') → same_tables a a'.
Proof. unfold flush_take. destruct (_ !! t) as [[|i rest]|]; [done| |done]. cbn. by intros [= _ _ <-]. Qed.

Section Steps.
Context `{LeaderLink}.

Lemma send_report_sound now caps a a' :
  send_report now caps a = Returns a' → agent_sound a → same_tables a a' ∧ agent_sound a'.
Proof.
  unfold send_report, send_to_leader. cbn. destruct (link_send _ _) as [e| |]; [|done..].
  cbn. intros [= <-] Ha. split; [done|]. rewrite (as_id _ Ha).
  apply (agent_sound_log _ e (nextRequestID a).2).
  - apply sound_report, uint32_range.
  - by eapply agent_sound_ext; last done.
Qed.

Lemma heartbeat_sound now cs topics a a' :
  heartbeat_tick now cs topics a = Returns a' → agent_sound a → same_tables a a' ∧ agent_sound a'.
Proof.
  unfold heartbeat_tick. destruct (BuildHeartbeatReport _ _ _ _) as [caps r]. intros Hr Ha.
  apply send_report_sound in Hr as [[? ? ? ?] ?]; [done|]. by eapply agent_sound_ext; last done.
Qed.

Lemma outbound_sound now sender out a a' b :
  route_message now 0 0 0 sender (mkToProxy ProxyMessageOutbound None (Some out) None) a
    = Returns (a', b) → agent_sound a → same_tables a a' ∧ agent_sound a'.
Proof.
  unfold route_message. cbn [tpm_Type tpm_Outbound]. rewrite decide_False, decide_True by done.
  destruct (EnqueueJobs _ _ _ _) as [n r]. intros Hr Ha.
  assert (agent_sound (set_router r a)) as Ha' by (by eapply agent_sound_ext; last done).
  destruct (0 <? n); [|by injection Hr as <- <-].
  destruct (send_report _ _ _) as [a1| |] eqn:Hs; [|done..]. injection Hr as <- <-.
  by apply send_report_sound in Hs as [[? ? ? ?] ?].
Qed.

Lemma on_agent_sound f w w' :
  (∀ a a', f a = Returns a' → agent_sound a → same_tables a a' ∧ agent_sound a') →
  on_agent f w = Some w' → wire_sound w → wire_sound w'.
Proof.
  intros Hf Ho [Hapi Hs Hfl]. unfold on_agent in Ho. destruct (f _) as [a| |] eqn:Ha; [|done..].
  injection Ho as <-. apply Hf in Ha as [? ?]; [|apply Hs]. split; [done| |done].
  by apply sys_sound_agent.
Qed.

Lemma api_view_sound w : api_sound (wr_api w) → api_sound (api_view w).
Proof. by intros [? ?]. Qed.

Lemma wire_api_sound e w w' :
  event_backed e → wire_api scan marshal e w = Some w' → wire_sound w → wire_sound w'.
Proof.
  intros Hb Hp [Hapi Hs Hfl]. unfold wire_api in Hp.
  assert (e ≠ ApiDrain) as He by (by intros ->).
  assert ((after ← api_step scan marshal e (api_view w);
    s ← submit_new (api_view w) after
      (set_agent (set_router (pa_router after) (sy_agent (wr_sys w))) (wr_sys w));
    Some (mkWire after s (wr_flight w))) = Some w') as Hp' by (by destruct e). clear Hp.
  destruct (api_step _ _ _ _) as [after|] eqn:Ha; [|done]. cbn in Hp'.
  apply api_step_sound in Ha; [|done..|by apply api_view_sound].
  destruct (submit_new _ _ _) as [s|] eqn:Hn; [|done]. injection Hp' as <-.
  split; [apply Ha| |done]. eapply submit_new_sound; [exact Ha| |exact Hn].
  apply sys_sound_agent; [done| |done]. eapply agent_sound_ext; [..|apply Hs]; done.
Qed.

Definition backed_event (e : wire_event) : Prop :=
  match e with WrApi e => event_backed e | _ => True end.

Lemma wire_step_sound e w w' :
  backed_event e → wire_sound w → wire_step scan marshal e w = Some w' → wire_sound w'.
Proof.
  intros Hb Hw Hst. destruct e as [e|e|t|e|now|now sender out]; cbn [wire_step] in Hst.
  - by eapply wire_api_sound.
  - assert (∃ s, sys_step e (wr_sys w) = Some s ∧ w' = set_sys s w ∧
      match e with SysSubmit r => sound_in r | _ => True end) as (s & Hs & -> & He).
    { destruct e; try done;
        (destruct (sys_step _ (wr_sys w)) as [s|]; [|done]; injection Hst as <-; by exists s). }
    destruct Hw as [? ? ?]. split; [done| |done]. by eapply sys_step_sound.
  - destruct Hw as [Hapi Hs Hfl]. unfold wire_flush in Hst. destruct (wr_flight w) eqn:Hf; [done|].
    destruct (flush_take _ _) as [[[req ids] a]|] eqn:Ht; injection Hst as <-; [|split; [done..|by rewrite Hf]].
    pose proof (flush_take_sound _ _ _ _ _ Ht (ss_agent _ Hs)) as [Hq Ha]. split; [done|..].
    + apply sys_sound_agent; [|done..]. by eapply flush_take_tables.
    + by intros ? ? ? [= <- <- <-].
  - destruct Hw as [Hapi Hs Hfl]. unfold wire_flush_end in Hst.
    destruct (wr_flight w) as [[[t ids] q]|] eqn:Hf; [|done]. injection Hst as <-.
    destruct (Hfl _ _ _ eq_refl) as [Hq Hids]. split; [done| |done].
    pose proof (agent_sound_log q e _ Hq (ss_agent _ Hs)) as Hl. apply sys_sound_agent; [..|done].
    + destruct e; [|done]. unfold flush_restore. by case_match.
    + destruct e; [|done]. by apply flush_restore_sound.
  - eapply on_agent_sound; [|exact Hst|exact Hw]. intros a a'. apply heartbeat_sound.
  - eapply on_agent_sound; [|exact Hst|exact Hw]. intros a a' Hr. cbv beta in Hr.
    destruct (route_message now 0 0 0 sender _ a) as [[a1 b]| |] eqn:Hm; [|done..]. injection Hr as <-.
    by eapply outbound_sound.
Qed.

Lemma wire_run_sound kind cfg evs w :
  Forall backed_event evs →
  run (wire_step scan marshal) evs (wire_init me cfg auth kind) = Some w → wire_sound w.
Proof.
  intros Hb. assert (wire_sound (wire_init me cfg auth kind)) as Hi.
  { split; [by split|apply sys_init_sound|done]. }
  revert Hi. generalize (wire_init me cfg auth kind). induction Hb as [|e evs He _ IH]; intros w0 H0.
  - by intros [= <-].
  - cbn. destruct (wire_step _ _ e w0) as [w1|] eqn:Hs; [|done]. apply IH. by eapply wire_step_sound.
Qed.

End Steps.
End Sound.

(** ** Properties *)

(** Anything may be asked for. *)
Definition anything : evidence := mkEvidence (λ _, True) (λ _ _, True) (λ _ _, True) (λ _, True).

Lemma anything_backed scan auth e : backed_event scan auth anything e.
Proof. destruct e as [[]| | | | |]; cbn; try done. by intros _; apply Forall_true. Qed.

(** One payload, the one the type announces, with a topic and something to do. *)
Definition well_formed (proxyID : string) (req : ProxyRequest) : Prop := sound proxyID anything req.

(** C12: Every request whose sendToLeader returned was well formed: its
    identifier fits 32 bits, it has the one payload its type announces, with a
    topic and at least one job or id, none of the ids of a Done batch is empty,
    and a report carries the proxy's own name. This is so in every run of the API
    and the agent together, whatever the clients and the cluster send and
    whatever the sends return. *)
Theorem leader_requests_sound `{LeaderLink} scan marshal proxyID cfg auth kind evs w :
  run (wire_step scan marshal) evs (wire_init proxyID cfg auth kind) = Some w →
  Forall (λ '(req, _), well_formed proxyID req) (ag_log (sy_agent (wr_sys w))).
Proof.
  intros Hr. apply (wire_run_sound _ _ _ _ anything) in Hr.
  - eapply Forall_impl; [apply Hr|]. by intros [q e].
  - apply Forall_forall. intros ? _. apply anything_backed.
Qed.

(** A connection that was allowed to consume. *)
Definition connected (scan : string → option string) (auth : Authenticator) (evs : list wire_event)
    (p : cref) : Prop :=
  ∃ r init now id, WrApi (ApiConnect r init now id p) ∈ evs ∧ may scan auth r RoleConsumer.

(** What the authorised clients of a run asked for. *)
Definition asked (scan : string → option string) (auth : Authenticator) (evs : list wire_event)
    : evidence :=
  mkEvidence
    (λ p, ∃ r, WrApi (ApiTopic r p) ∈ evs ∧ may scan auth r RoleAdmin)
    (λ t j, ∃ r p, WrApi (ApiJobs r p) ∈ evs ∧ may scan auth r RoleProducer ∧
      aj_Topic p = t ∧ j ∈ aj_Jobs p)
    (λ t id, ∃ c msg, WrApi (ApiMessage c msg) ∈ evs ∧ connected scan auth evs c ∧
      ws_Action msg = "ack"%string ∧ ws_Topic msg = t ∧ ws_JobID msg = id)
    (connected scan auth evs).

(** C3: The cluster is asked for nothing that no authorised client asked for. In
    every run of the API and the agent together, a topic added was asked for with
    an admin's token; every job of a batch was submitted, for the topic of the
    batch, with a token that may produce; and every id of a Done batch was
    acknowledged, for its topic, on a connection whose token may consume. Reports
    are the proxy's own. *)
Theorem leader_requests_authorised `{LeaderLink} scan marshal proxyID cfg auth kind evs w req e :
  run (wire_step scan marshal) evs (wire_init proxyID cfg auth kind) = Some w →
  (req, e) ∈ ag_log (sy_agent (wr_sys w)) →
  match pr_Type req with
  | ReqHeartbeatReport => hr_ProxyID <$> pr_HeartbeatReport req = Some proxyID
  | ReqAddTopic => ∃ r p, pr_AddTopic req = Some p ∧
      WrApi (ApiTopic r p) ∈ evs ∧ may scan auth r RoleAdmin
  | ReqAddJobs => ∃ p, pr_AddJobs req = Some p ∧ ∀ j, j ∈ aj_Jobs p →
      ∃ r q, WrApi (ApiJobs r q) ∈ evs ∧ may scan auth r RoleProducer ∧
        aj_Topic q = aj_Topic p ∧ j ∈ aj_Jobs q
  | ReqDone => ∃ p, pr_Done req = Some p ∧ ∀ id, id ∈ dn_JobIDs p →
      ∃ c msg, WrApi (ApiMessage c msg) ∈ evs ∧ connected scan auth evs c ∧
        ws_Action msg = "ack"%string ∧ ws_Topic msg = dn_Topic p ∧ ws_JobID msg = id
  end.
Proof.
  intros Hr Hin. apply (wire_run_sound _ _ _ _ (asked scan auth evs)) in Hr.
  - pose proof (as_log _ _ _ (ss_agent _ _ _ (ws_sys _ _ _ _ Hr))) as Hl.
    rewrite Forall_forall in Hl. destruct (Hl _ Hin) as [_ Hs]. cbn in Hs.
    destruct (pr_Type req); destruct Hs as (p & -> & Hp); cbn.
    + by f_equal.
    + destruct Hp as (_ & r & ?). by exists r, p.
    + destruct Hp as (_ & _ & Hj). rewrite Forall_forall in Hj. eauto.
    + destruct Hp as (_ & _ & _ & Hj). rewrite Forall_forall in Hj. eauto.
  - apply Forall_forall. intros [[r init now id p|c msg| |r q|r q|]| | | | |] He; cbn; try done.
    + intros ?. by exists r, init, now, id.
    + intros ? ?. by exists c, msg.
    + intros ?. apply Forall_forall. intros j ?. by exists r, q.
    + intros ?. by exists r.
Qed.

(** ** A concrete run *)

Module WireExample.

Definition start : wire_state := wire_init "proxy1" (cfg_API DefaultConfig) ApiExample.auth DiscoveryKindStatic.

(** A consumer's session, a submission, and what it takes to send the jobs, the
    consumer's Done and a report. *)
Definition events : list wire_event :=
  [ WrSys (SysLeader (mkLeadership (Some "n1"%string) true empty_topology DiscoveryKindStatic));
    WrApi (ApiExample.connect "i1" "u" 0%nat); WrApi (ApiMessage 0%nat (ApiExample.ack 1));
    WrApi (ApiJobs (ApiExample.as_role "p") ApiExample.jobs);
    WrSys SysReceive; WrSys SysReceive; WrSys (SysBuffer "t" RunApi); WrSys (SysBuffer "t" RunTick);
    WrSys (SysBuffer "t" RunSend); WrSys SysSendJobs; WrSys (SysSendJobsEnd None);
    WrFlush "t"; WrFlushEnd None; WrHeartbeat 5 ].

Definition step : wire_event → wire_state → option wire_state :=
  @wire_step AgentExample.direct_link ApiExample.scan ApiExample.marshal.

End WireExample.
Import WireExample.

Theorem leader_requests_sound_witness :
  match run step events start with
  | Some w =>
      pr_Type <$> (ag_log (sy_agent (wr_sys w))).*1 = [ReqAddJobs; ReqDone; ReqHeartbeatReport] ∧
      Forall (λ '(req, _), well_formed "proxy1" req) (ag_log (sy_agent (wr_sys w)))
  | None => False
  end.
Proof.
  destruct (run step events start) as [w|] eqn:Hr; [|by vm_compute in Hr]. split.
  - assert (Some (pr_Type <$> (ag_log (sy_agent (wr_sys w))).*1)
      = Some [ReqAddJobs; ReqDone; ReqHeartbeatReport]) as Hs.
    { transitivity ((λ w, pr_Type <$> (ag_log (sy_agent (wr_sys w))).*1) <$> run step events start);
        [by rewrite Hr|]. vm_compute. reflexivity. }
    by injection Hs.
  - exact (@leader_requests_sound AgentExample.direct_link ApiExample.scan ApiExample.marshal "proxy1"
      (cfg_API DefaultConfig) ApiExample.auth DiscoveryKindStatic events w Hr).
Defined.

(** The batch of the run, and who submitted its job. *)
Theorem leader_requests_authorised_witness :
  match run step events start with
  | Some w => ∃ req p, (req, None) ∈ ag_log (sy_agent (wr_sys w)) ∧ pr_AddJobs req = Some p ∧
      ∀ j, j ∈ aj_Jobs p → ∃ r q, WrApi (ApiJobs r q) ∈ events ∧
        may ApiExample.scan ApiExample.auth r RoleProducer ∧ j ∈ aj_Jobs q
  | None => False
  end.
Proof.
  destruct (run step events start) as [w|] eqn:Hr; [|by vm_compute in Hr].
  assert (Some (head (ag_log (sy_agent (wr_sys w))))
    = Some (Some (add_jobs_request 1 ApiExample.jobs, None))) as Hs.
  { transitivity ((λ w, head (ag_log (sy_agent (wr_sys w)))) <$> run step events start);
      [by rewrite Hr|]. vm_compute. reflexivity. }
  injection Hs as Hs.
  assert ((add_jobs_request 1 ApiExample.jobs, None) ∈ ag_log (sy_agent (wr_sys w))) as Hin.
  { destruct (ag_log _); [discriminate Hs|]. injection Hs as ->. left. }
  destruct (@leader_requests_authorised AgentExample.direct_link ApiExample.scan ApiExample.marshal "proxy1"
    (cfg_API DefaultConfig) ApiExample.auth DiscoveryKindStatic events w _ _ Hr Hin) as (p & Hp & Hj).
  exists (add_jobs_request 1 ApiExample.jobs), p. split_and!; [exact Hin|exact Hp|].
  intros j Hin'. destruct (Hj j Hin') as (r & q & H1 & H2 & _ & H3). exists r, q. split_and!; assumption.
Defined.
