(* ===== verification/Acks.v ===== *)
(** * The way of an acknowledgement (api.go, tasks.go)

    A consumer acknowledges a job; the session queues a Done request, the agent
    collects it in the batch of its topic, the flush sends the batch to the
    leader. On the machine of [Wire], where all this interleaves with everything
    else the proxy does: where the acknowledged ids are. *)

From S2P Require Import Prelude GoRuntime Messages Metrics Config Consumer Router JobBuffer.
From S2P Require Import Leadership Discovery Transport Agent Auth Api System Wire.

Local Open Scope Z_scope.

(** The ids of a Done request, with their topic. *)
Definition done_ids (q : ProxyRequest) : list (string * string) :=
  match pr_Type q, pr_Done q with
  | ReqDone, Some d => pair (dn_Topic d) <$> dn_JobIDs d
  | _, _ => []
  end.

Definition queued_ids (l : list ApiRequestWithRespCh) : list (string * string) :=
  concat ((λ r, done_ids (ar_ProxyRequest r)) <$> l).

(** The ids the leader was sent. *)
Definition delivered_ids (log : list (ProxyRequest * option send_error)) : list (string * string) :=
  concat ((λ qe, match qe.2 with None => done_ids qe.1 | Some _ => [] end) <$> log).

Definition flight_ids (w : wire_state) : list (string * string) :=
  match wr_flight w with None => [] | Some (topic, ids, _) => pair topic <$> ids end.

(** Where the ids queued so far are; [lost] are those of failed flushes that
    were not put back. *)
Definition ids_at (lost : list (string * string)) (w : wire_state) : Prop :=
  let s := wr_sys w in
  queued_ids (sy_submitted s) ≡ₚ
    queued_ids (ch_buf (sy_producerCh s)) ++ done_pairs (ag_doneCmdBatchBuffer (sy_agent s)) ++
    flight_ids w ++ delivered_ids (ag_log (sy_agent s)) ++ lost.

(** What the submission machine is sending is no Done request: those go with
    the flush. *)
Definition sys_senders (s : system) : Prop :=
  (∀ r, sy_receiving s = Some r → done_ids (ar_ProxyRequest r) = []) ∧
  (∀ t q, sy_sending s = Some (t, q) → done_ids q = []).

(** The ids an event loses: those of a failed flush, when a Done of the same
    topic came meanwhile and flushTopic does not put its copy back. *)
Definition lost_at (e : wire_event) (w : wire_state) : list (string * string) :=
  match e, wr_flight w with
  | WrFlushEnd (Some _), Some (topic, ids, _) =>
      if (length (buffered topic (sy_agent (wr_sys w))) =? 0)%nat then [] else pair topic <$> ids
  | _, _ => []
  end.

Fixpoint lost_along `{LeaderLink} scan marshal (evs : list wire_event) (w : wire_state) :
    list (string * string) :=
  match evs with
  | [] => []
  | e :: evs =>
      match wire_step scan marshal e w with
      | Some w' => lost_at e w ++ lost_along scan marshal evs w'
      | None => []
      end
  end.

(** ** Lemmas *)

Lemma queued_ids_app l l' : queued_ids (l ++ l') = queued_ids l ++ queued_ids l'.
Proof. unfold queued_ids. by rewrite fmap_app, concat_app. Qed.

Lemma delivered_ids_snoc log q e :
  delivered_ids (log ++ [(q, e)]) =
    delivered_ids log ++ match e with None => done_ids q | Some _ => [] end.
Proof. unfold delivered_ids. rewrite fmap_app, concat_app. cbn. by rewrite app_nil_r. Qed.

(** An agent whose Done batch is the same, and that sent nothing of it. *)
Record same_done (a a' : Agent) : Prop := {
  sm_done : ag_doneCmdBatchBuffer a' = ag_doneCmdBatchBuffer a;
  sm_log : delivered_ids (ag_log a') = delivered_ids (ag_log a)
}.

#[export] Instance same_done_refl : Reflexive same_done.
Proof. by split. Qed.

Lemma same_done_log q e a : done_ids q = [] → same_done a (log_send q e a).
Proof. intros Hq. split; [done|]. cbn [log_send ag_log]. rewrite delivered_ids_snoc, Hq. destruct e; by rewrite app_nil_r. Qed.

Lemma to_buffer_done t R a : same_done a (to_buffer t R a).
Proof. unfold to_buffer. by case_match. Qed.

Lemma handleResponse_done R a : same_done a (handleResponse R a).
Proof.
  unfold handleResponse. case_match; [done|]. case_match; [|done].
  destruct (to_buffer_done s R a). by split.
Qed.

Lemma add_topic_end_done r e a :
  done_ids (ar_ProxyRequest r) = [] → same_done a (add_topic_end r e a).
Proof. intros Hr. destruct (same_done_log _ e a Hr). unfold add_topic_end. destruct e; by split. Qed.

Lemma send_jobs_end_done t q e a : done_ids q = [] → same_done a (send_jobs_end t q e a).
Proof.
  intros Hq. destruct (same_done_log _ e a Hq) as [H1 H2]. unfold send_jobs_end. destruct e; [|by split].
  set (a1 := set_requestIdToTopic _ _).
  destruct (to_buffer_done t (error_response (pr_RequestID q) (send_error_Error s)) a1) as [H3 H4].
  split; [by rewrite H3|by rewrite H4].
Qed.

Lemma add_jobs_done r a : same_done a (handleAddJobsRequest r a).
Proof.
  unfold handleAddJobsRequest. destruct (pr_AddJobs _); [|done]. destruct (decide _); [done|].
  unfold getOrCreateJobBuffer. destruct (_ !! _); destruct (try_send _ _) as [c []]; done.
Qed.

Lemma register_batch_done q a t a' : register_batch q a = Returns (Some (t, a')) → same_done a a'.
Proof. unfold register_batch. intros H. repeat (case_match; try done). by injection H as _ <-. Qed.

(** A round of the receiver: the ids of a Done request move to the batch. *)
Lemma receive_begin_done r a :
  delivered_ids (ag_log (receive_begin r a).1) = delivered_ids (ag_log a) ∧
  done_pairs (ag_doneCmdBatchBuffer (receive_begin r a).1) ≡ₚ
    done_ids (ar_ProxyRequest r) ++ done_pairs (ag_doneCmdBatchBuffer a) ∧
  ∀ q, (receive_begin r a).2 = Some q → done_ids (ar_ProxyRequest q) = [].
Proof.
  unfold receive_begin, done_ids. destruct (pr_Type (ar_ProxyRequest r)) eqn:Ht; cbn.
  - done.
  - split_and!; [done..|]. intros q [= <-]. by rewrite Ht.
  - destruct (add_jobs_done r a) as [-> ->]. done.
  - split_and!; [|rewrite handleDone_pairs; unfold done_of; apply Permutation_app_comm|done].
    unfold handleDoneRequest. by case_match.
Qed.

(** A batch the agent registers is no Done request. *)
Lemma registered_no_done me E q a t a' :
  sound me E q → register_batch q a = Returns (Some (t, a')) → done_ids q = [].
Proof.
  intros [_ Hq] Hr. unfold register_batch in Hr. destruct (pr_AddJobs q) eqn:Hp; [|done].
  unfold done_ids. destruct (pr_Type q); try done. destruct Hq as (p & He & _).
  by rewrite He in Hp.
Qed.

(** What the submission machine, without new submissions, does to the ids: it
    moves them from the channel to the batch. *)
Record moves (s s' : system) : Prop := {
  mv_submitted : sy_submitted s' = sy_submitted s;
  mv_ids :
    queued_ids (ch_buf (sy_producerCh s')) ++ done_pairs (ag_doneCmdBatchBuffer (sy_agent s')) ≡ₚ
    queued_ids (ch_buf (sy_producerCh s)) ++ done_pairs (ag_doneCmdBatchBuffer (sy_agent s));
  mv_delivered : delivered_ids (ag_log (sy_agent s')) = delivered_ids (ag_log (sy_agent s))
}.

Lemma moves_same s s' :
  sy_submitted s' = sy_submitted s → sy_producerCh s' = sy_producerCh s →
  same_done (sy_agent s) (sy_agent s') → moves s s'.
Proof. intros H1 H2 [H3 H4]. split; [done| |done]. by rewrite H2, H3. Qed.

Lemma sys_step_moves me E e s s' :
  match e with SysSubmit _ => False | _ => True end →
  sys_sound me E s → sys_senders s → sys_step e s = Some s' → moves s s' ∧ sys_senders s'.
Proof.
  intros He Hs [Hrc Hsd] Hst. destruct e as [r| |e|t l| |e|R|l|ch]; [done|..]; cbn [sys_step] in Hst.
  - unfold sys_receive in Hst. destruct (sy_receiving s); [done|].
    destruct (recv _) as [[r c]|] eqn:Hc; [|done]. cbn in Hst. apply recv_Some in Hc as [Hc _].
    pose proof (receive_begin_done r (sy_agent s)) as (H1 & H2 & H3).
    destruct (receive_begin r (sy_agent s)) as [a q]. injection Hst as <-. split; [|by split].
    split; cbn [sy_submitted sy_producerCh sy_agent]; [done| |done]. rewrite Hc. cbn [fst] in H2.
    rewrite H2. change (r :: ch_buf c) with ([r] ++ ch_buf c). rewrite queued_ids_app.
    unfold queued_ids at 2. cbn. rewrite app_nil_r. solve_Permutation.
  - unfold sys_receive_end in Hst. destruct (sy_receiving s) as [r|] eqn:Hr; [|done]. injection Hst as <-.
    split; [|by split]. apply moves_same; [done..|]. apply add_topic_end_done. auto.
  - unfold sys_buffer in Hst. destruct (goroutine_event l); [|done].
    destruct (buffer_view t s) as [j|]; [|done]. cbn in Hst. destruct (jb_step l j) as [j'|]; [|done].
    cbn in Hst. destruct (crashed _); [done|]. injection Hst as <-. split; [|by split]. by apply moves_same.
  - unfold sys_send_jobs in Hst. destruct (sy_sending s); [done|].
    destruct (recv _) as [[q c]|] eqn:Hc; [|done]. cbn in Hst. apply recv_Some in Hc as [Hc _].
    destruct (register_batch q _) as [[[t a]|]|p|] eqn:Hb; [| |done..]; injection Hst as <-;
      (split; [|split; [done|]]); cbn; try done.
    + apply moves_same; [done..|]. by eapply register_batch_done.
    + intros t' q' [= <- <-]. eapply registered_no_done; [|done]. eapply Forall_forall; [apply Hs|].
      apply (si_sendJobs _ (ss_inv _ _ _ Hs)). rewrite Hc. by left.
  - unfold sys_send_jobs_end in Hst. destruct (sy_sending s) as [[t q]|] eqn:Hq; [|done].
    injection Hst as <-. split; [|by split]. apply moves_same; [done..|]. apply send_jobs_end_done. eauto.
  - injection Hst as <-. split; [|by split]. apply moves_same; [done..|]. apply handleResponse_done.
  - injection Hst as <-. split; [|by split]. by apply moves_same.
  - unfold sys_read in Hst. destruct (_ !! ch) as [c|]; [|done]. cbn in Hst.
    destruct (recv c) as [[v c']|]; [|done]. injection Hst as <-. split; [|by split]. by apply moves_same.
Qed.

Lemma sys_submit_ids r s s' :
  sys_submit r s = Some s' →
  sy_submitted s' = sy_submitted s ++ [r] ∧ sy_producerCh s' = chan_push (sy_producerCh s) r ∧
  same_done (sy_agent s) (sy_agent s') ∧
  sy_receiving s' = sy_receiving s ∧ sy_sending s' = sy_sending s.
Proof.
  unfold sys_submit. intros Hs. destruct (ar_RespCh r); [destruct (decide _); [done|]|];
    (destruct (chan_full _); [done|]); injection Hs as <-; split_and!; done.
Qed.

(** ** The whole machine *)

Section Steps.
Context `{LeaderLink} (scan : string → option string) (marshal : ToConsumerDelivery → option bytes).
Context (me : string) (auth : Authenticator).

(** The invariant, beside soundness. *)
Definition keeps (lost : list (string * string)) (w : wire_state) : Prop :=
  sys_senders (wr_sys w) ∧
  (∀ t ids q, wr_flight w = Some (t, ids, q) → done_ids q = pair t <$> ids) ∧ ids_at lost w.

(** Nothing of the ids changes. *)
Lemma keeps_same lost w w' :
  keeps lost w → wr_flight w' = wr_flight w → sy_submitted (wr_sys w') = sy_submitted (wr_sys w) →
  sy_producerCh (wr_sys w') = sy_producerCh (wr_sys w) →
  sy_receiving (wr_sys w') = sy_receiving (wr_sys w) → sy_sending (wr_sys w') = sy_sending (wr_sys w) →
  same_done (sy_agent (wr_sys w)) (sy_agent (wr_sys w')) → keeps lost w'.
Proof.
  intros (Hs & Hf & Hids) H1 H2 H3 H4 H5 [H6 H7]. unfold keeps, sys_senders, ids_at, flight_ids in *.
  by rewrite H1, H2, H3, H4, H5, H6, H7.
Qed.

Lemma keeps_api lost e w w' : keeps lost w → wire_api scan marshal e w = Some w' → keeps lost w'.
Proof.
  intros (Hs & Hf & Hids) Hp. unfold wire_api in Hp.
  assert ((after ← api_step scan marshal e (api_view w);
    s ← submit_new (api_view w) after
      (set_agent (set_router (pa_router after) (sy_agent (wr_sys w))) (wr_sys w));
    Some (mkWire after s (wr_flight w))) = Some w') as Hp' by (by destruct e). clear Hp.
  destruct (api_step _ _ _ _) as [after|]; [|done]. cbn in Hp'.
  destruct (submit_new _ _ _) as [s|] eqn:Hn; [|done]. injection Hp' as <-.
  unfold submit_new in Hn. destruct (drop _ _) as [|r new].
  - injection Hn as <-. by apply (keeps_same lost w).
  - apply sys_submit_ids in Hn as (H1 & H2 & [H3 H4] & H5 & H6).
    unfold keeps, sys_senders, ids_at, flight_ids in *. cbn [wr_sys wr_flight] in *.
    rewrite H1, H2, H3, H4, H5, H6. cbn [chan_push ch_buf set_agent sy_submitted sy_producerCh sy_agent
      sy_receiving sy_sending set_router ag_doneCmdBatchBuffer ag_log].
    split_and!; [apply Hs..|done|]. rewrite !queued_ids_app, Hids. solve_Permutation.
Qed.

Lemma keeps_sys lost e w s :
  match e with SysSubmit _ => False | _ => True end → wire_sound me auth anything w → keeps lost w →
  sys_step e (wr_sys w) = Some s → keeps lost (set_sys s w).
Proof.
  intros He Hw (Hs & Hf & Hids) Hst.
  destruct (sys_step_moves me anything e (wr_sys w) s He (ws_sys _ _ _ _ Hw) Hs Hst) as [[H1 H2 H3] Hs'].
  split_and!; [done..|]. unfold ids_at, flight_ids in *. cbn [set_sys wr_sys wr_flight].
  rewrite H1, H3, Hids, app_assoc, <- H2. solve_Permutation.
Qed.

Lemma keeps_flush lost t w w' : keeps lost w → wire_flush t w = Some w' → keeps lost w'.
Proof.
  intros (Hs & Hf & Hids) Hw. unfold wire_flush in Hw. destruct (wr_flight w) eqn:Hfl; [done|].
  destruct (flush_take _ _) as [[[req ids] a]|] eqn:Ht; injection Hw as <-.
  2: { unfold keeps. rewrite Hfl. by split_and!. }
  assert (ag_log a = ag_log (sy_agent (wr_sys w)) ∧ pr_Type req = ReqDone) as [Hl Hty].
  { unfold flush_take in Ht. destruct (_ !! t) as [[|i rest]|]; [done| |done]. cbn in Ht.
    by injection Ht as <- _ <-. }
  apply flush_take_pairs in Ht as (Hd & _ & _ & _ & Hp). split_and!; [done| |].
  - intros ? ? ? [= <- <- <-]. unfold done_ids. by rewrite Hty, Hd.
  - unfold ids_at, flight_ids in *. rewrite Hfl in Hids. cbn in *. rewrite Hids, Hp, Hl. solve_Permutation.
Qed.

Lemma flush_restore_log t ids a : ag_log (flush_restore t ids a) = ag_log a.
Proof. unfold flush_restore. by destruct (_ =? 0)%nat. Qed.

Lemma keeps_flush_end lost e w w' :
  keeps lost w → wire_flush_end e w = Some w' → keeps (lost ++ lost_at (WrFlushEnd e) w) w'.
Proof.
  intros (Hs & Hf & Hids) Hw. unfold wire_flush_end in Hw. unfold lost_at.
  destruct (wr_flight w) as [[[t ids] q]|] eqn:Hfl; [|done]. injection Hw as <-.
  pose proof (Hf _ _ _ eq_refl) as Hq. unfold ids_at, flight_ids in Hids. rewrite Hfl in Hids.
  split_and!; [done..|]. unfold ids_at, flight_ids. cbn [wr_sys wr_flight set_agent
    sy_submitted sy_producerCh sy_agent].
  destruct e as [err|].
  - pose proof (flush_restore_pairs t ids (log_send q (Some err) (sy_agent (wr_sys w)))) as Hr.
    rewrite Hids, Hr, flush_restore_log. cbn [log_send ag_log]. rewrite delivered_ids_snoc.
    change (buffered t (log_send q (Some err) (sy_agent (wr_sys w))))
      with (buffered t (sy_agent (wr_sys w))).
    destruct (length (buffered t (sy_agent (wr_sys w))) =? 0)%nat; cbn; solve_Permutation.
  - cbn [log_send ag_log ag_doneCmdBatchBuffer].
    rewrite Hids, delivered_ids_snoc, Hq, app_nil_r. solve_Permutation.
Qed.

(** Reports and outbound messages leave the ids alone. *)
Lemma send_report_ids now caps a a' : send_report now caps a = Returns a' → same_done a a'.
Proof.
  unfold send_report, send_to_leader. cbn. destruct (link_send _ _) as [e| |]; [|done..].
  intros Hs. assert (same_done a (log_send (heartbeat_request (nextRequestID a).1
    (mkHeartbeatReport (ag_proxyID a) (now `div` second) caps)) e (nextRequestID a).2)) as Hd
    by (split; [done|]; cbn [log_send ag_log]; rewrite delivered_ids_snoc; destruct e; by rewrite app_nil_r).
  cbn in Hs, Hd. injection Hs as <-. exact Hd.
Qed.

Lemma heartbeat_ids now cs topics a a' : heartbeat_tick now cs topics a = Returns a' → same_done a a'.
Proof.
  unfold heartbeat_tick. destruct (BuildHeartbeatReport _ _ _ _) as [caps r].
  intros Hr. apply send_report_ids in Hr as [? ?]. by split.
Qed.

Lemma outbound_ids now sender out a a' :
  fst <$> route_message now 0 0 0 sender (mkToProxy ProxyMessageOutbound None (Some out) None) a
    = Returns a' → same_done a a'.
Proof.
  unfold route_message. cbn [tpm_Type tpm_Outbound]. rewrite decide_False, decide_True by done.
  destruct (EnqueueJobs _ _ _ _) as [n r]. destruct (0 <? n); [|by intros [= <-]].
  destruct (send_report _ _ _) as [a1| |] eqn:Hs; [|done..]. intros [= <-].
  apply send_report_ids in Hs as [? ?]. by split.
Qed.

Lemma keeps_agent lost f w w' :
  (∀ a a', f a = Returns a' → same_done a a') → keeps lost w → on_agent f w = Some w' → keeps lost w'.
Proof.
  intros Hf Hk Ho. unfold on_agent in Ho. destruct (f _) as [a| |] eqn:Ha; [|done..]. injection Ho as <-.
  apply (keeps_same lost w); try done. by apply Hf.
Qed.

Lemma keeps_step lost e w w' :
  wire_sound me auth anything w → keeps lost w → wire_step scan marshal e w = Some w' →
  keeps (lost ++ lost_at e w) w'.
Proof.
  intros Hw Hk Hst. destruct e as [e|e|t|e|now|now sender out]; cbn [wire_step] in Hst;
    [..|by apply keeps_flush_end| |]; cbn [lost_at]; rewrite app_nil_r.
  - by eapply keeps_api.
  - assert (∃ s, sys_step e (wr_sys w) = Some s ∧ w' = set_sys s w ∧
      match e with SysSubmit _ => False | _ => True end) as (s & Hs & -> & He).
    { destruct e; try done;
        (destruct (sys_step _ (wr_sys w)) as [s|]; [|done]; injection Hst as <-; by exists s). }
    by eapply keeps_sys.
  - by eapply keeps_flush.
  - eapply keeps_agent; [|done|done]. intros a a'. apply heartbeat_ids.
  - eapply keeps_agent; [|done|done]. intros a a'. apply outbound_ids.
Qed.

Lemma keeps_run evs lost w w' :
  wire_sound me auth anything w → keeps lost w → run (wire_step scan marshal) evs w = Some w' →
  keeps (lost ++ lost_along scan marshal evs w) w'.
Proof.
  revert lost w. induction evs as [|e evs IH]; intros lost w Hw Hk Hr; cbn [lost_along].
  - injection Hr as <-. by rewrite app_nil_r.
  - cbn in Hr. destruct (wire_step scan marshal e w) as [w1|] eqn:Hs; [|done]. cbn in Hr.
    rewrite app_assoc. apply IH; [|by eapply keeps_step|done].
    by apply (wire_step_sound _ _ _ _ _ _ _ _ (anything_backed scan auth e) Hw Hs).
Qed.

End Steps.

(** ** The property *)

(** C16: No acknowledgement is delivered twice, and none disappears except in a
    failed flush that overlaps another Done. In every run of the API and the
    agent together, the ids of the Done requests the sessions queued are, each as
    often as it was queued, in the channel to the agent, in the batch of its
    topic, in the flush under way, delivered to the leader, or lost; lost are
    exactly the ids of the flushes that failed while a Done of their topic was
    in the batch. *)
Theorem acknowledgements_accounted `{LeaderLink} scan marshal proxyID cfg auth kind evs w :
  run (wire_step scan marshal) evs (wire_init proxyID cfg auth kind) = Some w →
  let s := wr_sys w in
  queued_ids (sy_submitted s) ≡ₚ
    queued_ids (ch_buf (sy_producerCh s)) ++ done_pairs (ag_doneCmdBatchBuffer (sy_agent s)) ++
    flight_ids w ++ delivered_ids (ag_log (sy_agent s)) ++
    lost_along scan marshal evs (wire_init proxyID cfg auth kind).
Proof.
  intros Hr s.
  destruct (keeps_run scan marshal proxyID auth evs [] (wire_init proxyID cfg auth kind) w)
    as (_ & _ & Hids); [| |done|exact Hids].
  - split; [by split|apply sys_init_sound|done].
  - split_and!; [done..|]. unfold ids_at. cbn. unfold done_pairs. by rewrite map_to_list_empty.
Qed.

(** The consumer's acknowledgement in the run of [Wire], all the way. *)
Theorem acknowledgements_accounted_witness :
  match run WireExample.step WireExample.events WireExample.start with
  | Some w => queued_ids (sy_submitted (wr_sys w)) = [("t", "j")]%string ∧
      delivered_ids (ag_log (sy_agent (wr_sys w))) ≡ₚ [("t", "j")]%string
  | None => False
  end.
Proof.
  destruct (run WireExample.step WireExample.events WireExample.start) as [w|] eqn:Hr; [|by vm_compute in Hr].
  assert (Some (queued_ids (sy_submitted (wr_sys w)), queued_ids (ch_buf (sy_producerCh (wr_sys w))),
      done_pairs (ag_doneCmdBatchBuffer (sy_agent (wr_sys w))), flight_ids w)
    = Some ([("t", "j")]%string, [], [], [])) as Hs.
  { transitivity ((λ w, (queued_ids (sy_submitted (wr_sys w)), queued_ids (ch_buf (sy_producerCh (wr_sys w))),
      done_pairs (ag_doneCmdBatchBuffer (sy_agent (wr_sys w))), flight_ids w))
      <$> run WireExample.step WireExample.events WireExample.start); [by rewrite Hr|].
    vm_compute. reflexivity. }
  injection Hs as H1 H2 H3 H4. split; [exact H1|].
  pose proof (@acknowledgements_accounted AgentExample.direct_link ApiExample.scan ApiExample.marshal "proxy1"
    (cfg_API DefaultConfig) ApiExample.auth DiscoveryKindStatic WireExample.events w Hr) as Hp.
  assert (lost_along (H := AgentExample.direct_link) ApiExample.scan ApiExample.marshal WireExample.events
    (wire_init "proxy1" (cfg_API DefaultConfig) ApiExample.auth DiscoveryKindStatic) = []) as Hl
    by (vm_compute; reflexivity).
  cbv zeta in Hp. rewrite H1, H2, H3, H4, Hl, app_nil_r in Hp. symmetry. exact Hp.
Defined.
